(* ===== verification/_CoqProject ===== *)
-Q . S2P
Prelude.v
Probing.v
Tables.v
World.v
Procs.v
Pool.v
Client.v
Frame.v
Ledger.v
SchedulerUtil.v
Select.v
Typing.v
Setup.v
Drain.v
PartitionedFIFOScheduler.v
PartitionedLocalFIFOScheduler.v
SinglePartitionedFIFOTaskScheduler.v
PartitionedFIFOTaskScheduler.v
PartitionedScanTask.v
PushFIFOScheduler.v
MockPollWorker.v
WorkerManager.v
GrpcServer.v
SparkScheduler.v
SparkSetup.v
SparkShutdown.v
TestPrograms.v
HttpTables.v
HttpParser.v
HttpReading.v
HttpGrammar.v
HttpSafety.v
HttpFindings.v
HttpServer.v
HttpDate.v
HttpResponse.v
HttpSession.v
MockHTTPWorker.v
HttpLoop.v
HttpMemory.v
HttpStall.v
Binary64.v
RandomGenerator.v
BenchmarkUtil.v
Drivers.v
Options.v
SyntheticScheduler.v
LoadGenerator.v
EventLoop.v
AsyncSyntheticScheduler.v
CommunicationBench.v
MessageBench.v
SyntheticWorker.v
TcpBench.v
TcpBroadcast.v
GrpcBench.v
BenchClients.v
Programs.v
