(* ===== verification/Prelude.v ===== *)
(** * A verification of the DBOS scheduler

    The program is a set of task schedulers that keep their state (workers,
    tasks, data locations) in the tables of a VoltDB database and change it only
    by calling stored procedures; workers that take tasks from the database, over
    gRPC or over HTTP and report them complete by calling procedures again; and
    programs that set a database up and measure the schedulers.  This library
    models these parts as executable definitions and proves what makes them
    correct, and where they are not, what they do instead.

    ** How the parts interact

    A scheduler ([src/src/libs/lib_scheduler/]) finds a worker with free capacity by
    invoking a procedure ([src/sql/*.java]) for one partition after the other;
    the procedure takes a unit of capacity and may record the task.  A worker
    ([src/src/libs/lib_worker/]) selects tasks that were recorded for it, or is sent
    them, executes them and invokes a procedure that marks the task complete and
    gives the unit back.  The tables are all that schedulers and workers share,
    and a procedure is a transaction: interleavings of clients are sequences of
    procedure calls.  The benchmark drivers ([src/src/simulation/]) run schedulers
    in threads and keep a shared array of latencies.

    ** Files

    - Prelude.v: machine integers with their wrap-around, the monad [M S A] of
      the models (a state, and a result, a trap or the end of the fuel), loops,
      Hoare triples and the automation.  Probing.v: the walks over partitions
      ([(k + 1) mod n] and the triangular one) and which partitions they reach.
      Binary64.v: the arithmetic of [double].
    - Tables.v, World.v, Procs.v, Pool.v, Client.v: the tables of [src/sql], the
      environment (random numbers, which row a query returns, the fate of each
      transaction), one definition [<Procedure>_run] per stored procedure, the
      abstract pool of capacities, and the typed calls of the client, which the
      server checks against the signature of the procedure.
    - Frame.v, Ledger.v, Typing.v: what a transaction can change; the capacity
      protocol, a step relation over the procedures that schedulers and workers
      call, and its accounting invariant; the types of columns and results.
    - SchedulerUtil.v: [VoltdbSchedulerUtil] and [Task], the class
      [SchedulerUtil] of the operations every scheduler offers.  Select.v,
      Setup.v, Drain.v: a search over partitions, the insertion of workers, and
      repeated scheduling until the capacity is used up, each stated once against
      an interface and instantiated by the schedulers.
    - PartitionedFIFOScheduler.v, PartitionedLocalFIFOScheduler.v,
      SinglePartitionedFIFOTaskScheduler.v, PartitionedFIFOTaskScheduler.v,
      PartitionedScanTask.v, PushFIFOScheduler.v, SparkScheduler.v: the
      schedulers, each a record of its members and one definition per method of
      the [.cc] file of that name.  [SparkScheduler] is also a step relation of its
      client threads, its queue thread and its completion thread; SparkSetup.v
      has the database it sets up, SparkShutdown.v its destructor.
    - MockPollWorker.v: the dispatcher, the executors and [endServing] as a step
      relation.  WorkerManager.v: the base class and the gRPC worker.
      GrpcServer.v: the threads that serve in [SchedulerServer] and
      [MockGRPCWorker], from start to join.
    - HttpTables.v, HttpParser.v: the tables of [httpserver.h] and its parser.
      HttpReading.v, HttpGrammar.v, HttpSafety.v, HttpFindings.v: reading from a
      socket, the round trip with a printed request, safety on any input, and
      inputs that are misread.  HttpServer.v, HttpResponse.v, HttpSession.v: requests,
      responses and the state machine of a connection; what is written for a
      response; a connection from the first byte to its end.  HttpDate.v: the date
      in the responses.  HttpLoop.v: the server with all its connections, timers
      and events.  HttpMemory.v: the account [memused] of its buffers.
      HttpStall.v: a connection whose response did not fit into the socket at
      once.  MockHTTPWorker.v: the worker on top of it.
    - RandomGenerator.v, BenchmarkUtil.v, Drivers.v: generators of arrivals, the
      statistics of latencies, what the drivers share.  SyntheticScheduler.v,
      LoadGenerator.v, SyntheticWorker.v: the threads of these programs.
      EventLoop.v, AsyncSyntheticScheduler.v, CommunicationBench.v: the event loop
      of an asynchronous client with its callback, and the two programs built on
      it.  MessageBench.v: the ping-pong of DBCommBenchClient.cc and
      DBCommBenchServer.cc as a step relation of two threads.  TcpBench.v,
      TcpBroadcast.v, GrpcBench.v: the same over sockets and over gRPC.
      BenchClients.v: all sender threads of these three clients with the main
      thread, the barrier and the shared array of latencies.
      Options.v, Programs.v: the command lines of all programs, and their [main]
      functions from the options to the results.  TestPrograms.v: two of the
      test programs.

    ** What the theorems show

    - Capacity: whatever schedulers and workers do, the capacity of a worker is
      what it started with less its open tasks (Ledger.v); each scheduler takes
      exactly the units there are (the [_uses_capacity] theorems) and refines the
      abstract pool (PartitionedFIFOScheduler.v); [SparkScheduler] and the poll
      worker keep the accounts under every interleaving of their threads.
    - Types: procedures keep every row within the schema and answer with rows of
      their result type, on any request (Typing.v); options keep the types of the
      variables they set (Options.v).
    - Tasks: each queued task is run once, each dispatched task finishes, a task
      sent over HTTP is answered and completed.
    - HTTP: a printed request is parsed to what was printed, any input is parsed
      without reading out of bounds up to the end of the headers, reading and
      writing end, the account of memory is the sum of the buffers, and the
      inputs and schedules for which the server goes wrong are given.
    - Ends: workers, servers and the threads of a scheduler stop in order when
      they are told to; the interleavings in which they do not are given.
    - Drivers: the accounts of requests, answers and latency slots agree at the
      end of a thread, messages are exchanged in step (database, TCP and gRPC),
      reports are the order statistics of the latencies, and each program
      prepares, runs and cleans what its command line says.
    - Errors: what a failed transaction, a missing header, an empty list of
      partitions or a lost message leads to.

    ** Conventions

    A database call is a transaction that commits, aborts, or commits and loses
    its response; theorems about results assume [Reliable], invariants do not.
    Loops without a bound take fuel; the theorems say how much is enough
    (for instance one more turn than readings of [mainFinished] before it is
    set), and that it never runs out before.  [assert], [exit], an uncaught
    exception, a division by zero and an access out of bounds are the traps of
    the monad.  An [int] is a [Z] whose wrap-around is written where a value is
    converted or incremented.

    ** Not modelled

    The gRPC library and what it generates (a call is delivered once or its
    failure is a trap), the wire protocol of VoltDB, sockets other than as
    streams of bytes with buffers (their creation, the barrier at which
    threads of the servers meet), the variant of the HTTP server for kqueue, the
    clock and the samples of random distributions (streams of the environment),
    [getopt] and [atof] (parameters: a command line is a sequence of letters and
    arguments), printing and usage texts, the log of the CPU (a pipeline of shell
    commands), the test program of the Spark-like scheduler as a whole, and the
    placeholders [Executor] and [MockExecutor], whose bodies are empty. *)

From stdpp Require Export base tactics numbers list gmap strings relations.
From Stdlib Require Export ZArith Lia.

#[global] Open Scope Z_scope.

(** ** Machine integers

    An [int]/[int32_t] is a [Z] in [-2^31, 2^31).  Conversions from a wider
    type wrap around; the functions below are those conversions. *)

Definition wrapS (w : Z) (z : Z) : Z := (z + 2 ^ (w - 1)) mod 2 ^ w - 2 ^ (w - 1).
Definition wrapU (w : Z) (z : Z) : Z := z mod 2 ^ w.

Abbreviation wrap8 := (wrapS 8).
Abbreviation wrap16 := (wrapS 16).
Abbreviation wrap32 := (wrapS 32).
Abbreviation wrap64 := (wrapS 64).
Abbreviation wrapU32 := (wrapU 32).
Abbreviation wrapU64 := (wrapU 64).

Definition in_signed (w z : Z) : Prop := - 2 ^ (w - 1) <= z < 2 ^ (w - 1).
Definition in_signedb (w z : Z) : bool :=
  bool_decide (- 2 ^ (w - 1) <= z) && bool_decide (z < 2 ^ (w - 1)).

Lemma in_signedb_spec w z : in_signedb w z = true <-> in_signed w z.
Proof.
  unfold in_signedb, in_signed. rewrite andb_true_iff, !bool_decide_eq_true. done.
Qed.

Lemma wrapS_range w z : 0 < w -> in_signed w (wrapS w z).
Proof.
  intros Hw. unfold in_signed, wrapS.
  assert (2 ^ w = 2 * 2 ^ (w - 1)) as E.
  { rewrite <- Z.pow_succ_r by lia. f_equal; lia. }
  pose proof (Z.pow_pos_nonneg 2 (w - 1) ltac:(lia) ltac:(lia)).
  pose proof (Z.mod_pos_bound (z + 2 ^ (w - 1)) (2 ^ w) ltac:(lia)). lia.
Qed.

Lemma wrapS_id w z : 0 < w -> in_signed w z -> wrapS w z = z.
Proof.
  unfold in_signed, wrapS. intros Hw Hz.
  assert (2 ^ w = 2 * 2 ^ (w - 1)) as E.
  { rewrite <- Z.pow_succ_r by lia. f_equal; lia. }
  rewrite Z.mod_small; lia.
Qed.

Lemma wrap32_id z : - 2147483648 <= z < 2147483648 -> wrap32 z = z.
Proof. intros. apply wrapS_id; [lia|]. unfold in_signed. lia. Qed.

Lemma wrapU_range w z : 0 <= w -> 0 <= wrapU w z < 2 ^ w.
Proof. intros. unfold wrapU. apply Z.mod_pos_bound. by apply Z.pow_pos_nonneg. Qed.

Lemma wrapU_id w z : 0 <= z < 2 ^ w -> wrapU w z = z.
Proof. apply Z.mod_small. Qed.

(** C's [%] truncates toward zero; on the non-negative operands that occur in
    the schedulers it is the mathematical remainder. *)
Definition c_rem (a b : Z) : Z := Z.rem a b.

Lemma c_rem_mod a b : 0 <= a -> 0 < b -> c_rem a b = a mod b.
Proof. intros. unfold c_rem. by apply Z.rem_mod_nonneg. Qed.

Lemma c_rem_range a b : 0 <= a -> 0 < b -> 0 <= c_rem a b < b.
Proof. intros. rewrite c_rem_mod by done. apply Z.mod_pos_bound; lia. Qed.

(** ** Maxima *)

Lemma max_exists {A} (f : A -> Z) (l : list A) :
  l <> [] -> exists m, m ∈ l /\ Forall (fun x => f x <= f m) l.
Proof.
  induction l as [|y l IH]; [done|]. intros _. destruct l as [|z l].
  - exists y. split; [by left|]. by constructor.
  - destruct IH as (m & Hm & Hle); [done|].
    destruct (Z.le_gt_cases (f y) (f m)).
    + exists m. split; [by right|]. by constructor.
    + exists y. split; [by left|]. constructor; [done|].
      eapply Forall_impl; [exact Hle|]. cbn. lia.
Qed.

Lemma NoDup_fmap_filter {A B} (f : A -> B) P `{!forall x, Decision (P x)} (l : list A) :
  NoDup (f <$> l) -> NoDup (f <$> filter P l).
Proof.
  induction l as [|x l IH]; intros Hnd; [done|]. cbn in Hnd.
  apply NoDup_cons in Hnd as [Hni Hnd]. rewrite filter_cons. case_decide; [|by apply IH].
  cbn. constructor; [|by apply IH]. intros (y & Ey & Hy)%list_elem_of_fmap. apply Hni.
  apply list_elem_of_fmap. exists y. by apply list_elem_of_filter in Hy as [_ Hy].
Qed.

(** ** A state monad with abnormal exits

    [Done] is a normal return.  [Trap] is an abnormal end of the process: a
    failed [assert], an uncaught exception, a call of [exit]/[abort], an
    integer division by zero.  [OutOfFuel] marks a loop that was cut off by
    the bound given to it; it never stands for a result of the program. *)

Inductive trap := AssertFailure | UncaughtException | ProcessExit | DivisionByZero | OutOfBounds.

Inductive outcome (A : Type) :=
  | Done (a : A)
  | Trap (t : trap)
  | OutOfFuel.
Arguments Done {A} a.
Arguments Trap {A} t.
Arguments OutOfFuel {A}.

#[export] Instance trap_eq_dec : EqDecision trap.
Proof. solve_decision. Defined.
#[export] Instance outcome_eq_dec {A} `{EqDecision A} : EqDecision (outcome A).
Proof. solve_decision. Defined.

Definition M (S A : Type) : Type := S -> outcome A * S.

#[export] Instance M_ret {S} : MRet (M S) := fun A a s => (Done a, s).
#[export] Instance M_bind {S} : MBind (M S) := fun A B k m s =>
  match m s with
  | (Done a, s') => k a s'
  | (Trap t, s') => (Trap t, s')
  | (OutOfFuel, s') => (OutOfFuel, s')
  end.

Definition get {S} : M S S := fun s => (Done s, s).
Definition gets {S A} (f : S -> A) : M S A := fun s => (Done (f s), s).
Definition modify {S} (f : S -> S) : M S unit := fun s => (Done tt, f s).
Definition throw {S A} (t : trap) : M S A := fun s => (Trap t, s).
Definition out_of_fuel {S A} : M S A := fun s => (OutOfFuel, s).

(** [assert(b)]. *)
Definition assertM {S} (b : bool) : M S unit :=
  if b then mret tt else throw AssertFailure.

(** ** C loops

    The body of a loop either goes on to the next iteration, leaves the loop
    ([break]) or leaves the function ([return]).  [a] is the state of the
    local variables the loop changes. *)

Inductive ctl (A R : Type) := Next (a : A) | Break (a : A) | Return (r : R).
Arguments Next {A R} a.
Arguments Break {A R} a.
Arguments Return {A R} r.

(** [for (i = i0; ...; ++i) body], [n] times. *)
Fixpoint for_loop {S A R} (n : nat) (i : Z) (a : A)
    (body : Z -> A -> M S (ctl A R)) : M S (ctl A R) :=
  match n with
  | O => mret (Next a)
  | Datatypes.S n' =>
      c ← body i a;
      match c with
      | Next a' => for_loop n' (i + 1) a' body
      | Break a' => mret (Break a')
      | Return r => mret (Return r)
      end
  end.

(** ** Reasoning about the monad *)

Section MonadLaws.
Context {S A B : Type}.
Implicit Types (m : M S A) (k : A -> M S B) (s : S).

Lemma bind_done m k s a s' :
  m s = (Done a, s') -> (m ≫= k) s = k a s'.
Proof. intros E. unfold mbind, M_bind. by rewrite E. Qed.

Lemma bind_trap m k s t s' :
  m s = (Trap t, s') -> (m ≫= k) s = (Trap t, s').
Proof. intros E. unfold mbind, M_bind. by rewrite E. Qed.

Lemma bind_inv m k s b s2 :
  (m ≫= k) s = (Done b, s2) ->
  exists a s1, m s = (Done a, s1) /\ k a s1 = (Done b, s2).
Proof.
  unfold mbind, M_bind. destruct (m s) as [[a|t|] s1] eqn:E; intros H; eauto; simplify_eq.
Qed.
End MonadLaws.

Lemma ret_eq {S A} (a : A) (s : S) : (mret a : M S A) s = (Done a, s).
Proof. done. Qed.

Lemma for_loop_0 {S A R} i (a : A) (body : Z -> A -> M S (ctl A R)) s :
  for_loop 0 i a body s = (Done (Next a), s).
Proof. done. Qed.

(** Relational frame conditions: every run of [m], however it ends, moves the
    state along the preorder [R]. *)

Definition preserves {S A} (R : relation S) (m : M S A) : Prop :=
  forall s, R s (m s).2.

Create HintDb frame.

Section Preserves.
Context {S : Type} (R : relation S) `{!PreOrder R}.

Lemma preserves_ret {A} (a : A) : preserves R (mret a).
Proof. intros s. by cbn. Qed.

Lemma preserves_throw {A} t : preserves R (throw t : M S A).
Proof. intros s. by cbn. Qed.

Lemma preserves_fuel {A} : preserves R (out_of_fuel : M S A).
Proof. intros s. by cbn. Qed.

Lemma preserves_gets {A} (f : S -> A) : preserves R (gets f).
Proof. intros s. by cbn. Qed.

Lemma preserves_assert b : preserves R (assertM b).
Proof. destruct b; [apply preserves_ret | apply preserves_throw]. Qed.

Lemma preserves_bind {A B} (m : M S A) (k : A -> M S B) :
  preserves R m -> (forall a, preserves R (k a)) -> preserves R (m ≫= k).
Proof.
  intros Hm Hk s. unfold mbind, M_bind. specialize (Hm s).
  destruct (m s) as [[a|t|] s1]; cbn in *; try done.
  etrans; [exact Hm | apply Hk].
Qed.

Lemma preserves_for_loop {A C} n (body : Z -> A -> M S (ctl A C)) :
  (forall i a, preserves R (body i a)) -> forall i a, preserves R (for_loop n i a body).
Proof.
  intros Hb. induction n as [|n IH]; intros i a; cbn [for_loop].
  - apply preserves_ret.
  - apply preserves_bind; [apply Hb|]. intros [a'|a'|r]; auto using preserves_ret.
Qed.
End Preserves.

#[export] Hint Extern 1 (preserves _ (mret _)) => apply preserves_ret; apply _ : frame.

(** [frame_solve]: discharge a [preserves] goal by following the code; the
    hints of [frame] are the facts about its calls. *)
Ltac frame_solve :=
  repeat first
    [ progress intros
    | solve [eauto 3 with frame nocore]
    | simple apply preserves_bind
    | simple apply preserves_ret | simple apply preserves_throw
    | simple apply preserves_gets | simple apply preserves_assert
    | simple apply preserves_fuel | simple apply preserves_for_loop
    | case_match ];
  try typeclasses eauto.

(** [run_bind E]: step over the first action of a [bind] whose run [E] gives. *)
Ltac run_bind E := rewrite (bind_done _ _ _ _ _ E).

(** Triples: what holds after a run that returns, and ([Q]) after one that ends
    in a trap or out of fuel. *)

Section Triple.
Context {S : Type} (Q : option trap -> S -> Prop).

Definition triple {A} (P : S -> Prop) (m : M S A) (R : A -> S -> Prop) : Prop :=
  forall s, P s ->
    match m s with
    | (Done a, s') => R a s'
    | (Trap t, s') => Q (Some t) s'
    | (OutOfFuel, s') => Q None s'
    end.

Lemma triple_bind {A B} P (m : M S A) R (k : A -> M S B) T :
  triple P m R -> (forall a, triple (R a) (k a) T) -> triple P (m ≫= k) T.
Proof.
  intros Hm Hk s Hs. specialize (Hm s Hs). unfold mbind, M_bind.
  destruct (m s) as [[a|t|] s1]; [|done|done]. by apply Hk.
Qed.

Lemma triple_ret {A} (P : S -> Prop) (a : A) R : (forall s, P s -> R a s) -> triple P (mret a) R.
Proof. intros H s Hs. by apply H. Qed.

Lemma triple_throw {A} (P : S -> Prop) t (R : A -> S -> Prop) :
  (forall s, P s -> Q (Some t) s) -> triple P (throw t) R.
Proof. intros H s Hs. by apply H. Qed.

Lemma triple_weaken {A} (P P' : S -> Prop) (m : M S A) (R R' : A -> S -> Prop) :
  triple P m R -> (forall s, P' s -> P s) -> (forall a s, R a s -> R' a s) -> triple P' m R'.
Proof.
  intros Hm HP HR s Hs. specialize (Hm s (HP s Hs)).
  destruct (m s) as [[a|t|] s1]; [by apply HR|done..].
Qed.
End Triple.

(** ** Search loops

    A loop that goes from one candidate to the next until it meets a hit.
    [P] holds of the state as long as the loop has only missed; [Post] relates
    the returned value and the state a hit leaves. *)

Section Search.
Context {S A R : Type} (body : Z -> A -> M S (ctl A R)).
Context (next : Z -> A -> A) (ok : A -> Prop) (hit : Z -> A -> Prop) (lo hi : Z).
Context (P : S -> Prop) (Post : R -> S -> Prop).

(** The candidate after [n] misses. *)
Fixpoint walk (n : nat) (i : Z) (a : A) : A :=
  match n with
  | O => a
  | Datatypes.S n' => walk n' (i + 1) (next i a)
  end.

Context (ok_next : forall i a, lo <= i < hi -> ok a -> ok (next i a)).
Context (miss_step : forall i a s, lo <= i < hi -> ok a -> ~ hit i a -> P s ->
  exists s', body i a s = (Done (Next (next i a)), s') /\ P s').
Context (hit_step : forall i a s, lo <= i < hi -> ok a -> hit i a -> P s ->
  exists r s', body i a s = (Done (Return r), s') /\ Post r s').

Lemma search_miss n : forall i a s, lo <= i -> i + Z.of_nat n <= hi -> ok a -> P s ->
  (forall k, (k < n)%nat -> ~ hit (i + Z.of_nat k) (walk k i a)) ->
  exists s', for_loop n i a body s = (Done (Next (walk n i a)), s') /\ P s'.
Proof.
  induction n as [|n IH]; intros i a s Hi Hn Ha Hs Hmiss; [by exists s|].
  destruct (miss_step i a s) as (s1 & E & Hs1); [lia|done| |done|].
  { specialize (Hmiss 0%nat ltac:(lia)). by rewrite Z.add_0_r in Hmiss. }
  cbn [for_loop walk]. run_bind E. cbn.
  apply IH; [lia|lia|apply ok_next; [lia|done]|done|].
  intros k Hk. specialize (Hmiss (Datatypes.S k) ltac:(lia)). cbn [walk] in Hmiss.
  by replace (i + 1 + Z.of_nat k) with (i + Z.of_nat (Datatypes.S k)) by lia.
Qed.

Lemma search_hit `{!forall i a, Decision (hit i a)} n : forall i a s,
  lo <= i -> i + Z.of_nat n <= hi -> ok a -> P s ->
  (exists k, (k < n)%nat /\ hit (i + Z.of_nat k) (walk k i a)) ->
  exists r s', for_loop n i a body s = (Done (Return r), s') /\ Post r s'.
Proof.
  induction n as [|n IH]; intros i a s Hi Hn Ha Hs (k & Hk & Hhit); [lia|].
  cbn [for_loop]. destruct (decide (hit i a)) as [Hh|Hh].
  - destruct (hit_step i a s) as (r & s1 & E & HP); [lia|done..|]. run_bind E. eauto.
  - destruct (miss_step i a s) as (s1 & E & Hs1); [lia|done..|]. run_bind E.
    apply IH; [lia|lia|apply ok_next; [lia|done]|done|].
    destruct k as [|k]; [by rewrite Z.add_0_r in Hhit|]. exists k. split; [lia|].
    by replace (i + 1 + Z.of_nat k) with (i + Z.of_nat (Datatypes.S k)) by lia.
Qed.

(** Either the loop hits, or it runs to its end and every candidate missed. *)
Lemma search_cases `{!forall i a, Decision (hit i a)} n i a s :
  lo <= i -> i + Z.of_nat n <= hi -> ok a -> P s ->
  (exists r s', for_loop n i a body s = (Done (Return r), s') /\ Post r s') \/
  (exists s', for_loop n i a body s = (Done (Next (walk n i a)), s') /\ P s' /\
              forall k, (k < n)%nat -> ~ hit (i + Z.of_nat k) (walk k i a)).
Proof.
  intros Hi Hn Ha Hs.
  destruct (decide (Exists (fun k => hit (i + Z.of_nat k) (walk k i a)) (seq 0 n))) as [He|He].
  - left. apply Exists_exists in He as (k & Hk%elem_of_seq & Hh).
    apply search_hit; try done. exists k. split; [lia|done].
  - right. assert (forall k, (k < n)%nat -> ~ hit (i + Z.of_nat k) (walk k i a)) as Hm.
    { intros k Hk Hh. apply He, Exists_exists. exists k. split; [apply elem_of_seq; lia|done]. }
    destruct (search_miss n i a s) as (s' & E & HP); eauto.
Qed.

Lemma walk_S n : forall i a, walk (Datatypes.S n) i a = next (i + Z.of_nat n) (walk n i a).
Proof.
  induction n as [|n IH]; intros i a; [cbn; f_equal; lia|].
  change (walk (Datatypes.S n) (i + 1) (next i a) =
          next (i + Z.of_nat (Datatypes.S n)) (walk n (i + 1) (next i a))).
  rewrite IH. f_equal. lia.
Qed.
End Search.
