(* ===== verification/Probing.v ===== *)
(** * Probing the partitions

    The order in which the schedulers visit the partitions.  [selectWorker]
    goes through [(count + offset) % n]; the task schedulers go from [pkey] to
    [(pkey + count) % n], which is a triangular sequence.  The first visits
    every partition; the second does so exactly when [n] is a power of two. *)

From S2P Require Import Prelude.

(** ** The triangular sequence *)

(** [k * (k + 1) / 2], the sum of the first [k] increments. *)
Definition tri (k : Z) : Z := k * (k + 1) / 2.

Lemma tri_double k : 2 * tri k = k * (k + 1).
Proof.
  unfold tri. destruct (Z.Even_or_Odd k) as [[m ->]|[m ->]].
  - replace (2 * m * (2 * m + 1)) with (m * (2 * m + 1) * 2) by ring.
    rewrite Z.div_mul by lia. ring.
  - replace ((2 * m + 1) * (2 * m + 1 + 1)) with ((2 * m + 1) * (m + 1) * 2) by ring.
    rewrite Z.div_mul by lia. ring.
Qed.

Lemma tri_0 : tri 0 = 0.
Proof. done. Qed.

Lemma tri_succ k : tri (k + 1) = tri k + (k + 1).
Proof. pose proof (tri_double k). pose proof (tri_double (k + 1)). lia. Qed.

(** The partition of the [k]-th probe, counting from 0. *)
Definition probe (n p0 : Z) (k : nat) : Z := (p0 + tri (Z.of_nat k)) mod n.

(** The step of the loop of the task schedulers, whose counter starts at 1. *)
Definition tri_next (n : Z) (count pkey : Z) : Z := (pkey + count) mod n.

Lemma walk_tri n p0 k : 0 < n -> 0 <= p0 < n -> walk (tri_next n) k 1 p0 = probe n p0 k.
Proof.
  intros Hn Hp. induction k as [|k IH].
  - unfold probe. change (Z.of_nat 0) with 0. rewrite tri_0, Z.add_0_r. by rewrite Z.mod_small.
  - rewrite walk_S, IH. unfold tri_next, probe.
    rewrite Z.add_mod_idemp_l by lia.
    replace (Z.of_nat (S k)) with (Z.of_nat k + 1) by lia. rewrite tri_succ.
    f_equal. lia.
Qed.

(** ** Powers of two: every partition is visited *)

Lemma odd_coprime_pow2 a b m :
  0 <= m -> Z.Odd a -> (2 ^ m | a * b) -> (2 ^ m | b).
Proof.
  intros Hm [q ->]. revert b. pattern m. apply natlike_ind; [..|done]; clear m Hm.
  - intros b _. apply Z.divide_1_l.
  - intros m Hm IH b Hd. rewrite Z.pow_succ_r in * by done.
    assert (exists c, b = 2 * c) as [c ->].
    { destruct Hd as [d Hd]. exists (d * 2 ^ m - q * b). lia. }
    apply Z.mul_divide_mono_l, IH.
    apply Z.mul_divide_cancel_l with 2; [lia|].
    by replace (2 * ((2 * q + 1) * c)) with ((2 * q + 1) * (2 * c)) by ring.
Qed.

Lemma tri_inj_pow2 m i j :
  0 <= m -> 0 <= i < j -> j < 2 ^ m -> tri i mod 2 ^ m <> tri j mod 2 ^ m.
Proof.
  intros Hm Hij Hj E.
  assert (Hp : 0 < 2 ^ m) by (by apply Z.pow_pos_nonneg).
  assert (2 ^ (m + 1) | (j - i) * (j + i + 1)) as Hd.
  { assert ((tri j - tri i) mod 2 ^ m = 0) as Hz.
    { rewrite Zminus_mod, E, Z.sub_diag. apply Z.mod_0_l. lia. }
    apply Z.mod_divide in Hz as [c Hc]; [|lia]. exists c.
    rewrite Z.pow_add_r by lia. pose proof (tri_double i). pose proof (tri_double j). nia. }
  assert (2 ^ (m + 1) = 2 * 2 ^ m) as Hpow by (rewrite Z.pow_add_r by lia; ring).
  destruct (Z.Even_or_Odd (j - i)) as [[c Hc]|Ho].
  - rewrite Z.mul_comm in Hd. apply odd_coprime_pow2 in Hd; [|lia|exists (c + i); lia].
    apply Z.divide_pos_le in Hd; lia.
  - apply odd_coprime_pow2 in Hd; [|lia|done].
    apply Z.divide_pos_le in Hd; lia.
Qed.

Lemma probe_inj_pow2 m p0 i j :
  0 <= m -> (i < j)%nat -> Z.of_nat j < 2 ^ m -> probe (2 ^ m) p0 i <> probe (2 ^ m) p0 j.
Proof.
  intros Hm Hij Hj E. unfold probe in E.
  assert (Hp : 0 < 2 ^ m) by (by apply Z.pow_pos_nonneg).
  apply (tri_inj_pow2 m (Z.of_nat i) (Z.of_nat j)); [lia..|].
  replace (tri (Z.of_nat i)) with (p0 + tri (Z.of_nat i) - p0) by lia.
  replace (tri (Z.of_nat j)) with (p0 + tri (Z.of_nat j) - p0) by lia.
  rewrite Zminus_mod, E, <- Zminus_mod. done.
Qed.

(** The residues [0, ..., n-1]. *)
Definition residues (n : Z) : list Z := Z.of_nat <$> seq 0 (Z.to_nat n).

Lemma elem_of_residues n p : p ∈ residues n <-> 0 <= p < n.
Proof.
  unfold residues. rewrite list_elem_of_fmap. split.
  - intros (k & -> & Hk%elem_of_seq). lia.
  - intros Hp. exists (Z.to_nat p). split; [lia|]. apply elem_of_seq. lia.
Qed.

Lemma NoDup_residues n : NoDup (residues n).
Proof. apply NoDup_fmap_2; [intros x y; lia | apply NoDup_seq]. Qed.

Lemma length_residues n : length (residues n) = Z.to_nat n.
Proof. unfold residues. by rewrite length_fmap, length_seq. Qed.

(** Pigeonhole: [n] distinct residues are all residues. *)
Lemma residues_full n (l : list Z) :
  NoDup l -> (forall x, x ∈ l -> 0 <= x < n) -> length l = Z.to_nat n ->
  forall p, 0 <= p < n -> p ∈ l.
Proof.
  intros Hnd Hl Hlen p Hp.
  assert (l ⊆+ residues n) as Hsub.
  { apply NoDup_submseteq; [done|]. intros x Hx. by apply elem_of_residues, Hl. }
  apply submseteq_length_Permutation in Hsub; [|rewrite length_residues; lia].
  rewrite Hsub. by apply elem_of_residues.
Qed.

Lemma probe_range n p0 k : 0 < n -> 0 <= probe n p0 k < n.
Proof. intros. apply Z.mod_pos_bound. lia. Qed.

Lemma NoDup_probes_pow2 m p0 :
  0 <= m -> NoDup (probe (2 ^ m) p0 <$> seq 0 (Z.to_nat (2 ^ m))).
Proof.
  intros Hm. apply NoDup_fmap_2_strong; [|apply NoDup_seq].
  intros i j Hi%elem_of_seq Hj%elem_of_seq E.
  destruct (Nat.lt_trichotomy i j) as [Hlt|[->|Hlt]]; [|done|].
  - exfalso. apply (probe_inj_pow2 m p0 i j); [done|done|lia|done].
  - exfalso. apply (probe_inj_pow2 m p0 j i); [done|done|lia|done].
Qed.

Lemma probe_covers_pow2 m p0 p :
  0 <= m -> 0 <= p < 2 ^ m ->
  exists k, (k < Z.to_nat (2 ^ m))%nat /\ probe (2 ^ m) p0 k = p.
Proof.
  intros Hm Hp.
  assert (p ∈ probe (2 ^ m) p0 <$> seq 0 (Z.to_nat (2 ^ m))) as Hin.
  { apply (residues_full (2 ^ m)); [by apply NoDup_probes_pow2|..|done].
    - intros x (k & -> & _)%list_elem_of_fmap. apply probe_range. lia.
    - by rewrite length_fmap, length_seq. }
  apply list_elem_of_fmap in Hin as (k & -> & Hk%elem_of_seq). exists k. split; [lia|done].
Qed.

(** ** Other numbers: some partition is never visited *)

Lemma odd_part n : 0 < n -> exists a m, 0 <= a /\ 0 < m /\ Z.Odd m /\ n = 2 ^ a * m.
Proof.
  intros Hn. revert Hn. pattern n. apply (well_founded_induction (Z.lt_wf 0)).
  clear n. intros n IH Hn. destruct (Z.Even_or_Odd n) as [[c ->]|Ho].
  - destruct (IH c) as (a & m & Ha & Hm & Hodd & ->); [lia|lia|].
    exists (a + 1), m. repeat split; [lia|done|done|]. rewrite Z.pow_add_r by lia. ring.
  - exists 0, n. repeat split; [lia|done|done|ring].
Qed.

(** Modulo an odd [m] the sequence has period [m] and is symmetric. *)
Lemma tri_period m k : Z.Odd m -> 0 < m -> tri (k + m) mod m = tri k mod m.
Proof.
  intros [q Hq] Hm.
  replace (tri (k + m)) with (tri k + (k + q + 1) * m).
  - apply Z_mod_plus_full.
  - pose proof (tri_double k). pose proof (tri_double (k + m)). nia.
Qed.

Lemma tri_mod m k : Z.Odd m -> 0 < m -> tri k mod m = tri (k mod m) mod m.
Proof.
  intros Ho Hm. rewrite (Z.div_mod k m) at 1 by lia.
  rewrite Z.add_comm. generalize (k mod m). generalize (k / m). clear k.
  intros d r. rewrite Z.mul_comm. revert r.
  assert (forall n : nat, forall r, tri (r + Z.of_nat n * m) mod m = tri r mod m) as Hpos.
  { induction n as [|n IH]; intros r; [f_equal; f_equal; lia|].
    replace (r + Z.of_nat (S n) * m) with (r + Z.of_nat n * m + m) by lia.
    rewrite tri_period by done. apply IH. }
  intros r. destruct (Z.le_gt_cases 0 d) as [Hd|Hd].
  - specialize (Hpos (Z.to_nat d) r). by rewrite Z2Nat.id in Hpos by lia.
  - specialize (Hpos (Z.to_nat (- d)) (r + d * m)). rewrite Z2Nat.id in Hpos by lia.
    rewrite <- Hpos. f_equal. f_equal. lia.
Qed.

(** [tri 0] and [tri (m - 1)] coincide modulo an odd [m]. *)
Lemma tri_last m : Z.Odd m -> 0 < m -> tri (m - 1) mod m = 0.
Proof.
  intros [q Hq] Hm. replace (tri (m - 1)) with (q * m).
  - apply Z_mod_mult.
  - pose proof (tri_double (m - 1)). nia.
Qed.

Lemma tri_misses_residue m :
  Z.Odd m -> 1 < m -> exists r, 0 <= r < m /\ forall k, tri k mod m <> r.
Proof.
  intros Ho Hm.
  set (img := (fun k : nat => tri (Z.of_nat k) mod m) <$> seq 0 (Z.to_nat m - 1)).
  assert (forall k, tri k mod m ∈ img) as Himg.
  { intros k. rewrite tri_mod by (done || lia).
    pose proof (Z.mod_pos_bound k m ltac:(lia)) as Hb.
    destruct (decide (k mod m = m - 1)) as [E|E].
    - rewrite E, tri_last by (done || lia). apply list_elem_of_fmap. exists 0%nat.
      split; [done|]. apply elem_of_seq. lia.
    - apply list_elem_of_fmap. exists (Z.to_nat (k mod m)).
      rewrite Z2Nat.id by lia. split; [done|]. apply elem_of_seq. lia. }
  destruct (decide (Exists (fun r => r ∉ img) (residues m))) as [He|He].
  - apply Exists_exists in He as (r & Hr%elem_of_residues & Hni). exists r.
    split; [done|]. intros k <-. by apply Hni.
  - exfalso. assert (residues m ⊆+ img) as Hs.
    { apply NoDup_submseteq; [apply NoDup_residues|]. intros r Hr.
      destruct (decide (r ∈ img)) as [|Hn]; [done|]. exfalso. apply He, Exists_exists. eauto. }
    apply submseteq_length in Hs. unfold img in Hs.
    rewrite length_residues, length_fmap, length_seq in Hs. lia.
Qed.

Definition power_of_two (n : Z) : Prop := exists m, 0 <= m /\ n = 2 ^ m.

(** A partition no probe reaches from any partition [p0 + n * j / 2], which is
    where the later passes of a scheduler that retries begin. *)
Lemma probe_misses n p0 :
  0 < n -> 0 <= p0 < n -> ~ power_of_two n ->
  exists p, 0 <= p < n /\
    forall k p1, 2 * (p1 - p0) mod n = 0 -> (p1 + tri k) mod n <> p.
Proof.
  intros Hn Hp0 Hnp. destruct (odd_part n Hn) as (a & m & Ha & Hm & Ho & ->).
  assert (1 < m) as Hm1.
  { destruct (decide (m = 1)) as [->|]; [|lia]. exfalso. apply Hnp. exists a. split; [done|ring]. }
  assert (Hpa : 0 < 2 ^ a) by (by apply Z.pow_pos_nonneg).
  destruct (tri_misses_residue m Ho Hm1) as (r & Hr & Hmiss).
  exists ((p0 + r) mod (2 ^ a * m)). split; [apply Z.mod_pos_bound; lia|].
  intros k p1 Hp1 E. apply (Hmiss k).
  assert ((p1 + tri k) mod m = (p0 + r) mod m) as Em.
  { assert (forall x, x mod m = (x mod (2 ^ a * m)) mod m) as Hmm.
    { intros x. rewrite (Z.mul_comm (2 ^ a)), Z.rem_mul_r by lia.
      rewrite (Z.mul_comm m), Z_mod_plus_full. by rewrite Z.mod_mod by lia. }
    by rewrite Hmm, E, <- Hmm. }
  assert ((m | p1 - p0)) as [c Hc].
  { apply Z.mod_divide in Hp1; [|lia]. destruct Hp1 as [c Hc]. destruct Ho as [q Hq].
    exists (p1 - p0 - q * c * 2 ^ a). nia. }
  replace p1 with (p0 + c * m) in Em by lia.
  rewrite <- (Z.mod_small r m) by lia.
  replace (tri k) with ((p0 + c * m + tri k) - (p0 + c * m)) by lia.
  rewrite Zminus_mod, Em, <- Zminus_mod.
  replace (p0 + r - (p0 + c * m)) with (r + (- c) * m) by lia. apply Z_mod_plus_full.
Qed.

(** ** The linear sequence *)

Lemma linear_covers n offset p :
  0 < n -> 0 <= p < n ->
  exists k, (k < Z.to_nat n)%nat /\ (Z.of_nat k + offset) mod n = p.
Proof.
  intros Hn Hp. exists (Z.to_nat ((p - offset) mod n)).
  pose proof (Z.mod_pos_bound (p - offset) n ltac:(lia)).
  rewrite Z2Nat.id by lia. split; [lia|].
  rewrite Z.add_mod_idemp_l by lia. replace (p - offset + offset) with p by lia.
  by apply Z.mod_small.
Qed.
