(* ===== verification/Tables.v ===== *)
(** * The scheduler's database

    The tables of [sql/create_*_table.sql], as lists of rows in insertion
    order, and the updates the stored procedures make to them. *)

From S2P Require Import Prelude.

(** ** Rows *)

Record worker_row := WorkerRow {
  WorkerID : Z;
  Capacity : Z;
  DataShards : Z;
  W_PKey : Z;
  Url : string;
}.

Record task_row := TaskRow {
  TaskID : Z;
  T_WorkerID : Z;
  State : Z;
  T_PKey : Z;
}.

Record data_row := DataRow { DataShard : Z; D_PKey : Z }.

Record message_row := MessageRow {
  ReceiverID : Z;
  SenderID : Z;
  MessageID : Z;
  Data : string;
}.

Record assign_row := AssignRow { A_TaskID : Z; A_Url : string; A_PKey : Z }.

#[export] Instance worker_row_eq_dec : EqDecision worker_row.
Proof. solve_decision. Defined.
#[export] Instance task_row_eq_dec : EqDecision task_row.
Proof. solve_decision. Defined.
#[export] Instance data_row_eq_dec : EqDecision data_row.
Proof. solve_decision. Defined.
#[export] Instance message_row_eq_dec : EqDecision message_row.
Proof. solve_decision. Defined.
#[export] Instance assign_row_eq_dec : EqDecision assign_row.
Proof. solve_decision. Defined.

(** ** The database *)

Record db := Db {
  Worker : list worker_row;
  Task : list task_row;
  DataLocation : list data_row;
  Message : list message_row;
  Broadcast : list Z;
  TaskAssign : list assign_row;   (* the stream exported to the HTTP exporter *)
}.

#[export] Instance db_eq_dec : EqDecision db.
Proof. solve_decision. Defined.

Definition empty_db : db := Db [] [] [] [] [] [].

Definition on_Worker (f : list worker_row -> list worker_row) (d : db) : db :=
  Db (f (Worker d)) (Task d) (DataLocation d) (Message d) (Broadcast d) (TaskAssign d).
Definition on_Task (f : list task_row -> list task_row) (d : db) : db :=
  Db (Worker d) (f (Task d)) (DataLocation d) (Message d) (Broadcast d) (TaskAssign d).
Definition on_DataLocation (f : list data_row -> list data_row) (d : db) : db :=
  Db (Worker d) (Task d) (f (DataLocation d)) (Message d) (Broadcast d) (TaskAssign d).
Definition on_Message (f : list message_row -> list message_row) (d : db) : db :=
  Db (Worker d) (Task d) (DataLocation d) (f (Message d)) (Broadcast d) (TaskAssign d).
Definition on_Broadcast (f : list Z -> list Z) (d : db) : db :=
  Db (Worker d) (Task d) (DataLocation d) (Message d) (f (Broadcast d)) (TaskAssign d).
Definition on_TaskAssign (f : list assign_row -> list assign_row) (d : db) : db :=
  Db (Worker d) (Task d) (DataLocation d) (Message d) (Broadcast d) (f (TaskAssign d)).

Definition set_Capacity (c : Z) (r : worker_row) : worker_row :=
  WorkerRow (WorkerID r) c (DataShards r) (W_PKey r) (Url r).
Definition set_State (s : Z) (t : task_row) : task_row :=
  TaskRow (TaskID t) (T_WorkerID t) s (T_PKey t).
Definition set_T_WorkerID (w : Z) (t : task_row) : task_row :=
  TaskRow (TaskID t) w (State t) (T_PKey t).

(** [UPDATE ... WHERE P]: the rows satisfying [P] are changed in place. *)
Definition update_where {A} (P : A -> Prop) `{!forall x, Decision (P x)}
    (f : A -> A) (l : list A) : list A :=
  (fun x => if decide (P x) then f x else x) <$> l.

Section UpdateWhere.
Context {A : Type} (P : A -> Prop) `{!forall x, Decision (P x)} (f : A -> A).

Lemma length_update_where l : length (update_where P f l) = length l.
Proof. apply length_fmap. Qed.

Lemma update_where_nil : update_where P f [] = [].
Proof. done. Qed.

Lemma update_where_cons x l :
  update_where P f (x :: l) = (if decide (P x) then f x else x) :: update_where P f l.
Proof. done. Qed.

Lemma update_where_none l : Forall (fun x => ~ P x) l -> update_where P f l = l.
Proof.
  induction 1 as [|x l Hx Hl IH]; [done|]. rewrite update_where_cons, IH.
  by rewrite decide_False.
Qed.

Lemma update_where_app l k :
  update_where P f (l ++ k) = update_where P f l ++ update_where P f k.
Proof. apply fmap_app. Qed.

Lemma elem_of_update_where y l :
  y ∈ update_where P f l ->
  exists x, x ∈ l /\ y = if decide (P x) then f x else x.
Proof. unfold update_where. intros (x & -> & Hx)%list_elem_of_fmap. eauto. Qed.

Lemma Forall_update_where (Q : A -> Prop) l :
  Forall Q l -> (forall x, Q x -> P x -> Q (f x)) -> Forall Q (update_where P f l).
Proof.
  intros HQ Hf. unfold update_where. apply Forall_fmap.
  eapply Forall_impl; [exact HQ|]. intros x Hx. cbn. case_decide; auto.
Qed.
End UpdateWhere.
Create Rewrite HintDb tables.
#[export] Hint Rewrite @length_update_where @update_where_nil @update_where_cons
  @update_where_app : tables.
