(* ===== verification/World.v ===== *)
(** * The world a scheduler process runs in

    The database, the requests in flight, the static counters of the
    scheduler's translation units, and the sources of non-determinism: the
    values [rand()] returns, the fate of each invocation, and the row the
    database picks where a query leaves the choice open. *)

From S2P Require Import Prelude Tables.

(** What becomes of a transaction: it commits and the client learns of it; it
    is rolled back and the client sees a failure; or it commits and the
    response is lost, so that the client sees a failure too. *)
Inductive fate := Committed | Aborted | Lost.

#[export] Instance fate_eq_dec : EqDecision fate.
Proof. solve_decision. Defined.

Class Env := {
  rand_stream : nat -> Z;
  fate_stream : nat -> fate;
  pick_stream : nat -> nat;
}.

(** An environment in which every invocation succeeds, for examples. *)
Definition steady (rand : nat -> Z) : Env :=
  {| rand_stream := rand; fate_stream _ := Committed; pick_stream n := n |}.

(** A parameter of a procedure call and a column value of a result. *)
Inductive value := VInt (z : Z) | VStr (s : string).

#[export] Instance value_eq_dec : EqDecision value.
Proof. solve_decision. Defined.

Abbreviation row := (list value).
Abbreviation table := (list row).

Record request := Request { rq_name : string; rq_args : list value }.

Record world := World {
  w_db : db;
  w_tick : nat;                (* position in the streams of [Env] *)
  w_inflight : list request;   (* asynchronous invocations not yet executed *)
  taskindex_push : Z;          (* [taskindex] of PushFIFOScheduler.cc *)
  taskindex_local : Z;         (* [taskindex] of PartitionedLocalFIFOScheduler.cc *)
  taskindex_single : Z;        (* [taskindex] of SinglePartitionedFIFOTaskScheduler.cc *)
}.

Definition init_world (d : db) : world := World d 0 [] 0 0 0.

Definition set_db (d : db) (w : world) : world :=
  World d (w_tick w) (w_inflight w) (taskindex_push w) (taskindex_local w) (taskindex_single w).
Definition set_inflight (l : list request) (w : world) : world :=
  World (w_db w) (w_tick w) l (taskindex_push w) (taskindex_local w) (taskindex_single w).
Definition tick (w : world) : world :=
  World (w_db w) (S (w_tick w)) (w_inflight w) (taskindex_push w) (taskindex_local w)
    (taskindex_single w).

Section Draws.
Context `{Env}.

(** [rand()]: an int in [0, RAND_MAX], [RAND_MAX] being 2^31 - 1. *)
Definition RAND_MAX : Z := 2147483647.

Definition c_rand : M world Z := fun w =>
  (Done (wrapU 31 (rand_stream (w_tick w))), tick w).

Definition draw_fate : M world fate := fun w =>
  (Done (fate_stream (w_tick w)), tick w).

(** Any one row of [l]: [LIMIT 1] without a deciding [ORDER BY]. *)
Definition pick_row {A} (l : list A) : M world (option A) := fun w =>
  (Done (l !! (pick_stream (w_tick w) mod length l)%nat), tick w).

(** Any [k] rows of [l], in any order: [LIMIT k], or a whole result set. *)
Fixpoint pick_rows {A} (k : nat) (l : list A) : M world (list A) :=
  match k with
  | O => mret []
  | S k' => fun w =>
      let i := (pick_stream (w_tick w) mod length l)%nat in
      match l !! i with
      | None => (Done [], tick w)
      | Some x => (rest ← pick_rows k' (delete i l); mret (x :: rest)) (tick w)
      end
  end.
End Draws.

(** ** SQL statements as actions *)

Definition sql_read {A} (q : db -> A) : M world A := gets (fun w => q (w_db w)).
Definition sql_write (f : db -> db) : M world unit :=
  modify (fun w => set_db (f (w_db w)) w).

Lemma bind_read {A B} (q : db -> A) (k : A -> M world B) w :
  (sql_read q ≫= k) w = k (q (w_db w)) w.
Proof. done. Qed.

Lemma bind_write {B} f (k : unit -> M world B) w :
  (sql_write f ≫= k) w = k tt (set_db (f (w_db w)) w).
Proof. done. Qed.

(** A value written to an [INTEGER NOT NULL] column: out of range it is an
    error, and the least 32-bit integer stands for NULL. *)
Definition int_col (z : Z) : M world Z :=
  if in_signedb 32 z && negb (bool_decide (z = - 2147483648)) then mret z
  else throw UncaughtException.

(** A BIGINT column, likewise. *)
Definition bigint_col (z : Z) : M world Z :=
  if in_signedb 64 z && negb (bool_decide (z = - 9223372036854775808)) then mret z
  else throw UncaughtException.

(** ** Facts about the draws *)

Section DrawFacts.
Context `{Env}.

Lemma c_rand_range w r w' : c_rand w = (Done r, w') -> 0 <= r <= RAND_MAX.
Proof.
  unfold c_rand, RAND_MAX. intros [= <- _].
  pose proof (wrapU_range 31 (rand_stream (w_tick w)) ltac:(lia)). lia.
Qed.

Lemma pick_row_nil {A} w : pick_row ([] : list A) w = (Done None, tick w).
Proof. done. Qed.

Lemma pick_row_some {A} (l : list A) w :
  l <> [] -> exists x, x ∈ l /\ pick_row l w = (Done (Some x), tick w).
Proof.
  intros Hl. destruct (lookup_lt_is_Some_2 l (pick_stream (w_tick w) mod length l)%nat) as [x Hx].
  { apply Nat.mod_upper_bound. destruct l; cbn; [done | lia]. }
  exists x. split; [by eapply list_elem_of_lookup_2|]. unfold pick_row. by rewrite Hx.
Qed.

Lemma pick_row_cases {A} (l : list A) w :
  (l = [] /\ pick_row l w = (Done None, tick w)) \/
  (exists x, x ∈ l /\ pick_row l w = (Done (Some x), tick w)).
Proof. destruct l as [|y l]; [by left|]. right. by apply pick_row_some. Qed.

(** [pick_rows k l] returns a sublist of length [min k (length l)] up to order. *)
Lemma pick_rows_spec {A} k : forall (l : list A) w,
  exists xs rest t, pick_rows k l w = (Done xs, set_db (w_db w) (Nat.iter t tick w)) /\
    length xs = Nat.min k (length l) /\ l ≡ₚ xs ++ rest.
Proof.
  induction k as [|k IH]; intros l w; cbn [pick_rows].
  - exists [], l, 0%nat. by destruct w.
  - set (i := (pick_stream (w_tick w) mod length l)%nat).
    destruct (l !! i) as [x|] eqn:Hx.
    + destruct (IH (delete i l) (tick w)) as (xs & rest & t & E & Hlen & Hp).
      exists (x :: xs), rest, (S t). split; [|split].
      * unfold mbind, M_bind. rewrite E, Nat.iter_succ_r. by destruct w.
      * cbn [length]. rewrite Hlen, length_delete by (by exists x).
        apply lookup_lt_Some in Hx. lia.
      * rewrite (delete_Permutation l i x Hx). cbn. by rewrite Hp.
    + exists [], l, 1%nat. destruct l as [|y l].
      * by destruct w.
      * exfalso. apply lookup_ge_None in Hx.
        assert (i < length (y :: l))%nat by (apply Nat.mod_upper_bound; done). lia.
Qed.
End DrawFacts.

Lemma int_col_ok z w : - 2147483648 < z < 2147483648 -> int_col z w = (Done z, w).
Proof.
  intros Hz. unfold int_col.
  rewrite (proj2 (in_signedb_spec 32 z)) by (unfold in_signed; lia).
  rewrite bool_decide_eq_false_2 by lia. done.
Qed.

Lemma int_col_db z w : (int_col z w).2 = w.
Proof. unfold int_col. by case_match. Qed.

Lemma w_db_set_db d w : w_db (set_db d w) = d.
Proof. done. Qed.

Lemma w_db_iter_tick n w : w_db (Nat.iter n tick w) = w_db w.
Proof. by induction n. Qed.

Lemma set_db_set_db d d' w : set_db d (set_db d' w) = set_db d w.
Proof. done. Qed.

Lemma iter_tick_set_db n d w : Nat.iter n tick (set_db d w) = set_db d (Nat.iter n tick w).
Proof. induction n as [|n IH]; [done|]. by rewrite !Nat.iter_succ, IH. Qed.

(** [query_split Eq x Hx]: the query at the head of the run finds nothing, or
    the row [x] is picked from what it finds. *)
Ltac query_split Eq x Hx :=
  match goal with
  | |- context [mbind ?k (sql_read ?q) ?w] =>
      let H := fresh in
      destruct (pick_row_cases (q (w_db w)) w) as [[Eq H]|(x & Hx & H)];
      rewrite bind_read, (bind_done _ _ _ _ _ H); clear H
  end.
