(* ===== verification/Procs.v ===== *)
(** * The stored procedures

    The transactions of [sql/*.java].  Each section holds one procedure: its
    SQL statements under the names they have in the Java class, and [run].  A
    [run] that throws is rolled back by the caller ([Client.transaction]). *)

From S2P Require Import Prelude Tables World.

(** Return codes and task states shared by the Java classes. *)
Definition SUCCESS : Z := 0.
Definition NOTASK : Z := -1.
Definition NOWORKER : Z := -2.

Definition UNKNOWN : Z := 0.
Definition PENDING : Z := 1.
Definition RUNNING : Z := 2.
Definition COMPLETE : Z := 3.

(** A procedure of Java type [long] answers with one row of one column. *)
Definition long_result (z : Z) : table := [[VInt z]].

(** ** Statements several procedures share *)

(** ["... FROM Worker WHERE PKey=? AND Capacity > 0"] *)
Definition free_worker (pkey : Z) (r : worker_row) : Prop :=
  W_PKey r = pkey /\ 0 < Capacity r.
#[export] Instance free_worker_dec pkey r : Decision (free_worker pkey r).
Proof. unfold free_worker. apply _. Defined.

Definition free_workers (pkey : Z) (d : db) : list worker_row :=
  filter (free_worker pkey) (Worker d).

(** ["... WHERE PKey=? AND WorkerID=?"] *)
Definition worker_is (pkey workerID : Z) (r : worker_row) : Prop :=
  W_PKey r = pkey /\ WorkerID r = workerID.
#[export] Instance worker_is_dec pkey wid r : Decision (worker_is pkey wid r).
Proof. unfold worker_is. apply _. Defined.

Definition task_is (pkey taskID : Z) (t : task_row) : Prop :=
  T_PKey t = pkey /\ TaskID t = taskID.
#[export] Instance task_is_dec pkey tid t : Decision (task_is pkey tid t).
Proof. unfold task_is. apply _. Defined.

(** ["UPDATE Worker SET Capacity=? WHERE PKey=? AND WorkerID=?;"] *)
Definition updateCapacity (cap pkey workerID : Z) : M world unit :=
  c ← int_col cap;
  sql_write (on_Worker (update_where (worker_is pkey workerID) (set_Capacity c))).

(** ["INSERT INTO Task VALUES (?, ?, ?, ?);"] *)
Definition insertTask (taskID workerID state pkey : Z) : M world unit :=
  t ← int_col taskID; w ← int_col workerID; s ← int_col state; p ← int_col pkey;
  sql_write (on_Task (fun l => l ++ [TaskRow t w s p])).

(** ** InsertWorker, InsertSparkWorker, InsertTask *)

Definition InsertWorker_run (workerID capacity pkey : Z) (url : string) : M world Z :=
  i ← int_col workerID; c ← int_col capacity; p ← int_col pkey;
  sql_write (on_Worker (fun l => l ++ [WorkerRow i c 0 p url])) ;;
  mret 0.

Definition InsertSparkWorker_run (workerID capacity workerData pkey : Z) (url : string) :
    M world Z :=
  i ← int_col workerID; c ← int_col capacity; s ← int_col workerData; p ← int_col pkey;
  sql_write (on_Worker (fun l => l ++ [WorkerRow i c s p url])) ;;
  sql_write (on_DataLocation (fun l => l ++ [DataRow s p])) ;;
  mret 0.

Definition InsertTask_run (taskID workerID state pkey : Z) : M world Z :=
  insertTask taskID workerID state pkey ;; mret 0.

(** ** TruncateWorkerTable, TruncateTaskTable *)

Definition TruncateWorkerTable_run : M world Z :=
  sql_write (on_Worker (fun _ => [])) ;;
  sql_write (on_DataLocation (fun _ => [])) ;;
  mret 0.

Definition TruncateTaskTable_run : M world Z :=
  sql_write (on_Task (fun _ => [])) ;; mret 0.

(** ** SelectWorker *)

Section SelectWorker.
Context `{Env}.

Definition SelectWorker_run (pkey : Z) : M world Z :=
  rows ← sql_read (free_workers pkey);
  r ← pick_row rows;
  match r with
  | None => mret (-1)
  | Some w =>
      updateCapacity (Capacity w - 1) pkey (WorkerID w) ;;
      mret (WorkerID w)
  end.
End SelectWorker.

(** ** SelectOrderedWorker *)

Section SelectOrderedWorker.
Context `{Env}.

(** The rows that may come first under [ORDER BY Capacity DESC]. *)
Definition fullest (l : list worker_row) : list worker_row :=
  filter (fun r => Forall (fun r' => Capacity r' <= Capacity r) l) l.

Definition SelectOrderedWorker_run (pkey taskID : Z) : M world Z :=
  rows ← sql_read (fun d => fullest (free_workers pkey d));
  r ← pick_row rows;
  match r with
  | None => mret (-1)
  | Some w =>
      insertTask taskID (WorkerID w) 1 pkey ;;
      updateCapacity (Capacity w - 1) pkey (WorkerID w) ;;
      mret (WorkerID w)
  end.
End SelectOrderedWorker.

(** ** SelectSinglePartitionedTaskWorker *)

Section SelectSinglePartitionedTaskWorker.
Context `{Env}.

Definition SelectSinglePartitionedTaskWorker_run (pkey taskID : Z) : M world Z :=
  rows ← sql_read (free_workers pkey);
  r ← pick_row rows;
  match r with
  | None => mret NOWORKER
  | Some w =>
      insertTask taskID (WorkerID w) 1 pkey ;;
      updateCapacity (Capacity w - 1) pkey (WorkerID w) ;;
      mret SUCCESS
  end.
End SelectSinglePartitionedTaskWorker.

(** ** PushTask *)

Section PushTask.
Context `{Env}.

(** ["INSERT INTO TaskAssign VALUES(?, ?, ?);"] *)
Definition insertTaskAssign (taskID : Z) (url : string) (pkey : Z) : M world unit :=
  t ← int_col taskID; p ← int_col pkey;
  sql_write (on_TaskAssign (fun l => l ++ [AssignRow t url p])).

Definition PushTask_run (pkey taskID : Z) : M world Z :=
  rows ← sql_read (free_workers pkey);
  r ← pick_row rows;
  match r with
  | None => mret NOWORKER
  | Some w =>
      insertTask taskID (WorkerID w) RUNNING pkey ;;
      updateCapacity (Capacity w - 1) pkey (WorkerID w) ;;
      insertTaskAssign taskID (Url w) pkey ;;
      mret SUCCESS
  end.
End PushTask.

(** ** SelectPartitionedTaskWorker, SelectTaskWorker *)

Section SelectTaskWorker.
Context `{Env}.

Definition SelectPartitionedTaskWorker_run (pkey : Z) : M world Z :=
  tasks ← sql_read (fun d => filter (fun t => T_PKey t = pkey) (Task d));
  t ← pick_row tasks;
  match t with
  | None => mret NOTASK
  | Some t =>
      rows ← sql_read (free_workers pkey);
      r ← pick_row rows;
      match r with
      | None => mret NOWORKER
      | Some w =>
          updateCapacity (Capacity w - 1) pkey (WorkerID w) ;;
          sql_write (on_Task (update_where (task_is pkey (TaskID t))
                                (set_T_WorkerID (WorkerID w)))) ;;
          mret 0
      end
  end.

Definition SelectTaskWorker_run : M world Z :=
  tasks ← sql_read Task;
  t ← pick_row tasks;
  match t with
  | None => mret NOTASK
  | Some t =>
      rows ← sql_read (fun d => filter (fun r => 0 < Capacity r) (Worker d));
      r ← pick_row rows;
      match r with
      | None => mret NOWORKER
      | Some w =>
          c ← int_col (Capacity w - 1);
          sql_write (on_Worker (update_where (fun r => WorkerID r = WorkerID w)
                                  (set_Capacity c))) ;;
          sql_write (on_Task (update_where (fun t' => TaskID t' = TaskID t)
                                (set_T_WorkerID (WorkerID w)))) ;;
          mret SUCCESS
      end
  end.
End SelectTaskWorker.

(** ** SelectSparkWorker, SelectDataShardPartition *)

Section SelectSparkWorker.
Context `{Env}.

Definition spark_workers (pkey targetData : Z) (d : db) : list worker_row :=
  filter (fun r => free_worker pkey r /\ DataShards r = targetData) (Worker d).

Definition SelectSparkWorker_run (pkey targetData : Z) : M world Z :=
  rows ← sql_read (spark_workers pkey targetData);
  r ← pick_row rows;
  match r with
  | None => mret (-1)
  | Some w =>
      updateCapacity (Capacity w - 1) pkey (WorkerID w) ;;
      mret (WorkerID w)
  end.

(** ["SELECT DISTINCT PKey FROM DataLocation WHERE DataShard=?;"] *)
Definition shard_partitions (dataShard : Z) (d : db) : list Z :=
  remove_dups (D_PKey <$> filter (fun r => DataShard r = dataShard) (DataLocation d)).

Definition SelectDataShardPartition_run (dataShard : Z) : M world table :=
  ps ← sql_read (shard_partitions dataShard);
  rows ← pick_rows (length ps) ps;
  mret ((fun p => [VInt p]) <$> rows).
End SelectSparkWorker.

(** ** ScanPartitionedTaskWorker, ScanTaskWorker *)

Section ScanTaskWorker.
Context `{Env}.

(** [COUNT( * ) ... GROUP BY WorkerID] over the rows [ts]. *)
Definition task_count (ts : list task_row) (w : Z) : nat :=
  length (filter (fun t => T_WorkerID t = w) ts).
Definition groups (ts : list task_row) : list Z := remove_dups (T_WorkerID <$> ts).
Definition busiest (ts : list task_row) : list Z :=
  filter (fun w => Forall (fun w' => task_count ts w' <= task_count ts w)%nat (groups ts))
    (groups ts).

Definition scan_result (ts : list task_row) : M world Z :=
  r ← pick_row (busiest ts);
  match r with
  | None => mret NOWORKER
  | Some w => mret w
  end.

Definition ScanPartitionedTaskWorker_run (pkey : Z) : M world Z :=
  ts ← sql_read (fun d => filter (fun t => 0 <= T_WorkerID t /\ T_PKey t = pkey) (Task d));
  scan_result ts.

Definition ScanTaskWorker_run : M world Z :=
  ts ← sql_read (fun d => filter (fun t => 0 <= T_WorkerID t) (Task d));
  scan_result ts.
End ScanTaskWorker.

(** ** FinishWorkerTask *)

Section FinishWorkerTask.
Context `{Env}.

(** The row [fetchRow(0)] reads is any of those the query matches. *)
Definition FinishWorkerTask_run (workerID taskID pkey : Z) : M world Z :=
  rows ← sql_read (fun d => filter (worker_is pkey workerID) (Worker d));
  r ← pick_row rows;
  match r with
  | None => mret (-1)
  | Some w =>
      updateCapacity (Capacity w + 1) pkey workerID ;;
      (if decide (taskID = -1) then mret tt
       else sql_write (on_Task (update_where (task_is pkey taskID) (set_State 3)))) ;;
      mret 0
  end.
End FinishWorkerTask.

(** ** WorkerSelectTask, WorkerUpdateTask *)

Section WorkerTasks.
Context `{Env}.

Definition task_of (pkey taskID workerID : Z) (t : task_row) : Prop :=
  T_PKey t = pkey /\ TaskID t = taskID /\ T_WorkerID t = workerID.
#[export] Instance task_of_dec pkey tid wid t : Decision (task_of pkey tid wid t).
Proof. unfold task_of. apply _. Defined.

(** ["SELECT TaskID FROM Task WHERE PKey=? AND WorkerID=? AND State=1 LIMIT ?;"] *)
Definition selectPendingTasks (pkey workerId : Z) (d : db) : list task_row :=
  filter (fun t => T_PKey t = pkey /\ T_WorkerID t = workerId /\ State t = 1) (Task d).

Definition updateTaskRunning (pkey taskId workerId : Z) : M world unit :=
  sql_write (on_Task (update_where (task_of pkey taskId workerId) (set_State 2))).

Definition WorkerSelectTask_run (pkey workerId topk : Z) : M world table :=
  pending ← sql_read (selectPendingTasks pkey workerId);
  (if decide (topk < 0) then throw UncaughtException else mret tt) ;;
  results ← pick_rows (Z.to_nat (Z.min topk (Z.of_nat (length pending)))) pending;
  foldr (fun t k => updateTaskRunning pkey (TaskID t) workerId ;; k) (mret tt) results ;;
  mret ((fun t => [VInt (TaskID t)]) <$> results).

Definition WorkerUpdateTask_run (pkey workerId taskId taskState : Z) : M world Z :=
  s ← int_col taskState;
  sql_write (on_Task (update_where (task_of pkey taskId workerId) (set_State s))) ;;
  (if decide (taskState = COMPLETE) then
     rows ← sql_read (fun d => filter (worker_is pkey workerId) (Worker d));
     (if decide (Forall (fun r => Capacity r + 1 < 2147483648) rows) then mret tt
      else throw UncaughtException) ;;
     sql_write (on_Worker (update_where (worker_is pkey workerId)
                             (fun r => set_Capacity (Capacity r + 1) r)))
   else mret tt) ;;
  mret SUCCESS.
End WorkerTasks.

(** ** SendMessage, ReceiveMessage, BroadcastMessage *)

Section Messages.
Context `{Env}.

Definition SendMessage_run (receiverID senderID messageID : Z) (data : string) : M world Z :=
  r ← int_col receiverID; s ← int_col senderID; m ← bigint_col messageID;
  sql_write (on_Message (fun l => l ++ [MessageRow r s m data])) ;;
  mret SUCCESS.

Definition ReceiveMessage_run (receiverID : Z) : M world table :=
  ms ← sql_read (fun d => filter (fun m => ReceiverID m = receiverID) (Message d));
  rows ← pick_rows (length ms) ms;
  (if decide (length rows < 1)%nat then mret tt
   else sql_write (on_Message (filter (fun m => ReceiverID m <> receiverID)))) ;;
  mret ((fun m => [VInt (SenderID m); VInt (MessageID m); VStr (Data m)]) <$> rows).

Definition BroadcastMessage_run (msg : Z) : M world Z :=
  m ← int_col msg;
  sql_write (on_Broadcast (fun l => l ++ [m])) ;;
  mret SUCCESS.
End Messages.
