(* ===== verification/Pool.v ===== *)
(** * The worker pool

    What the stored procedures promise to the schedulers.  The abstract state
    is the capacity of each worker, by partition and id; the lemmas of this
    file say what each procedure does to it, on every branch. *)

From S2P Require Import Prelude Tables World Procs.

(** ** Well-formed databases *)

Abbreviation wkey := (Z * Z)%type.

(** The columns a worker is addressed by. *)
Definition key (r : worker_row) : wkey := (W_PKey r, WorkerID r).

Definition wf_worker (r : worker_row) : Prop :=
  0 <= Capacity r < 2147483648 /\ 0 <= WorkerID r < 2147483648 /\ 0 <= W_PKey r < 2147483648.
#[export] Instance wf_worker_dec r : Decision (wf_worker r).
Proof. unfold wf_worker. apply _. Defined.

Record wf_db (d : db) : Prop := {
  wf_keys : NoDup (key <$> Worker d);
  wf_rows : Forall wf_worker (Worker d);
}.

#[export] Instance wf_db_dec d : Decision (wf_db d).
Proof.
  destruct (decide (NoDup (key <$> Worker d) /\ Forall wf_worker (Worker d))) as [[H1 H2]|H];
    [left; by split | right; intros [H1 H2]; tauto].
Defined.

Lemma wf_row d r : wf_db d -> r ∈ Worker d -> wf_worker r.
Proof. intros [_ Hr] Hin. rewrite Forall_forall in Hr. by apply Hr. Qed.

Lemma elem_of_free_workers p d r :
  r ∈ free_workers p d <-> W_PKey r = p /\ 0 < Capacity r /\ r ∈ Worker d.
Proof. unfold free_workers, free_worker. rewrite list_elem_of_filter. tauto. Qed.

Lemma worker_is_key p i r : worker_is p i r <-> key r = (p, i).
Proof. unfold worker_is, key. split; [intros [<- <-]|intros [= <- <-]]; done. Qed.

Lemma key_inj d r1 r2 :
  wf_db d -> r1 ∈ Worker d -> r2 ∈ Worker d -> key r1 = key r2 -> r1 = r2.
Proof.
  intros [Hk _] H1 H2 E. apply list_elem_of_lookup in H1 as [i Hi], H2 as [j Hj].
  assert (i = j) as ->; [|congruence].
  eapply NoDup_lookup; [exact Hk|rewrite list_lookup_fmap, Hi; cbn; done|].
  by rewrite list_lookup_fmap, Hj, E.
Qed.

(** ** The abstract pool *)

Definition capacity (d : db) : gmap wkey Z :=
  list_to_map ((fun r => (key r, Capacity r)) <$> Worker d).

Lemma capacity_lookup d r :
  wf_db d -> r ∈ Worker d -> capacity d !! key r = Some (Capacity r).
Proof.
  intros [Hk _] Hr. apply elem_of_list_to_map.
  - by rewrite <- list_fmap_compose.
  - apply list_elem_of_fmap. eauto.
Qed.

Lemma capacity_inv d k c :
  capacity d !! k = Some c -> exists r, r ∈ Worker d /\ key r = k /\ Capacity r = c.
Proof.
  intros Hc%elem_of_list_to_map_2. apply list_elem_of_fmap in Hc as (r & [= -> ->] & Hr). eauto.
Qed.

(** Setting a capacity by partition and id is an update of the map. *)
Lemma capacity_update (f : worker_row -> Z) p i d g :
  (forall r, r ∈ Worker d -> key r = (p, i) -> f r = g (Capacity r)) ->
  wf_db d ->
  capacity (on_Worker (update_where (worker_is p i) (fun r => set_Capacity (f r) r)) d) =
  alter g (p, i) (capacity d).
Proof.
  intros Hf [Hk _]. unfold capacity. cbn. unfold update_where.
  induction (Worker d) as [|r l IH]; [by apply map_eq; intros k; cbn; rewrite lookup_alter, !lookup_empty; case_decide|].
  cbn in Hk. apply NoDup_cons in Hk as [Hni Hnd].
  cbn. rewrite IH; [|intros; apply Hf; [by right|done]|done].
  set (m := list_to_map ((fun r => (key r, Capacity r)) <$> l) : gmap wkey Z).
  assert (m !! key r = None) as Hm.
  { apply not_elem_of_list_to_map_1. rewrite <- list_fmap_compose. exact Hni. }
  apply map_eq. intros k. destruct (decide (worker_is p i r)) as [Hw|Hw].
  - apply worker_is_key in Hw. change (key (set_Capacity (f r) r)) with (key r).
    cbn. rewrite Hf, Hw in * by (by left || done).
    destruct (decide ((p, i) = k)) as [<-|Hne].
    + by rewrite lookup_insert_eq, lookup_alter_eq, lookup_insert_eq.
    + by rewrite lookup_insert_ne, !lookup_alter_ne, lookup_insert_ne.
  - rewrite worker_is_key in Hw.
    by rewrite alter_insert_ne.
Qed.

Lemma wf_db_update p i (f : worker_row -> Z) d :
  wf_db d -> (forall r, r ∈ Worker d -> key r = (p, i) -> 0 <= f r < 2147483648) ->
  wf_db (on_Worker (update_where (worker_is p i) (fun r => set_Capacity (f r) r)) d).
Proof.
  intros [Hk Hr] Hf. split; cbn.
  - unfold update_where. rewrite <- list_fmap_compose.
    erewrite list_fmap_ext; [exact Hk|]. intros j r _. cbn. by case_decide.
  - unfold update_where. apply Forall_fmap, Forall_forall. intros r Hin. cbn.
    pose proof (proj1 (Forall_forall _ _) Hr r Hin) as (H1 & H2 & H3).
    case_decide as Hw; [|done]. apply worker_is_key in Hw.
    repeat split; cbn; try lia; by apply Hf.
Qed.

(** ** Taking one unit of capacity *)

Definition acquired (p : Z) (r : worker_row) (d : db) : db :=
  on_Worker (update_where (worker_is p (WorkerID r)) (set_Capacity (Capacity r - 1))) d.

Lemma capacity_acquired p r d :
  wf_db d -> r ∈ free_workers p d ->
  capacity (acquired p r d) = <[key r := Capacity r - 1]> (capacity d).
Proof.
  intros Hwf Hr. pose proof Hr as (Hp & Hc & Hin)%elem_of_free_workers.
  unfold acquired.
  rewrite (capacity_update (fun _ => Capacity r - 1) _ _ _ (fun _ => Capacity r - 1)) by done.
  subst p. change (W_PKey r, WorkerID r) with (key r).
  apply map_eq. intros k. destruct (decide (key r = k)) as [<-|Hne].
  - rewrite lookup_alter_eq, lookup_insert_eq, (capacity_lookup d r) by done. done.
  - by rewrite lookup_alter_ne, lookup_insert_ne.
Qed.

Lemma wf_db_acquired p r d : wf_db d -> r ∈ free_workers p d -> wf_db (acquired p r d).
Proof.
  intros Hwf (Hp & Hc & Hin)%elem_of_free_workers.
  apply (wf_db_update p (WorkerID r) (fun _ => Capacity r - 1)); [done|].
  intros _ _ _. destruct (wf_row d r Hwf Hin). lia.
Qed.

(** ** The total capacity *)

Definition total_capacity (d : db) : Z := foldr (fun r s => Capacity r + s) 0 (Worker d).

Lemma total_capacity_nonneg d : wf_db d -> 0 <= total_capacity d.
Proof.
  intros [_ Hr]. unfold total_capacity. induction Hr as [|r l [Hc _] _ IH]; cbn; lia.
Qed.

Lemma total_capacity_zero d :
  wf_db d -> total_capacity d = 0 <-> Forall (fun r => Capacity r = 0) (Worker d).
Proof.
  intros [_ Hr]. unfold total_capacity. induction Hr as [|r l [Hc _] Hl IH]; cbn.
  - split; [by constructor|done].
  - assert (0 <= foldr (fun r s => Capacity r + s) 0 l).
    { clear -Hl. induction Hl as [|x l [Hc _] _ IH]; cbn; lia. }
    rewrite Forall_cons, <- IH. lia.
Qed.

(** Adding [c] to one worker adds [c] to the total. *)
Lemma total_capacity_update d r c :
  NoDup (key <$> Worker d) -> r ∈ Worker d ->
  total_capacity (on_Worker (update_where (worker_is (W_PKey r) (WorkerID r))
                               (set_Capacity (Capacity r + c))) d) =
  total_capacity d + c.
Proof.
  unfold total_capacity. cbn. induction (Worker d) as [|x l IH]; intros Hk Hr.
  { by apply not_elem_of_nil in Hr. }
  cbn in Hk. apply NoDup_cons in Hk as [Hni Hnd]. rewrite update_where_cons. cbn.
  apply elem_of_cons in Hr as [<-|Hr].
  - rewrite decide_True by done. cbn. rewrite update_where_none; [lia|].
    apply Forall_forall. intros y Hy Hw%worker_is_key. apply Hni.
    change (W_PKey r, WorkerID r) with (key r) in Hw. rewrite <- Hw.
    by apply list_elem_of_fmap_2.
  - rewrite decide_False; [rewrite IH by done; lia|]. intros Hw%worker_is_key.
    apply Hni. rewrite Hw. apply list_elem_of_fmap. by exists r.
Qed.

Lemma total_capacity_acquired p r d :
  wf_db d -> r ∈ free_workers p d -> total_capacity (acquired p r d) = total_capacity d - 1.
Proof.
  intros Hwf (Hp & Hc & Hin)%elem_of_free_workers. subst p. unfold acquired.
  replace (Capacity r - 1) with (Capacity r + -1) by lia.
  rewrite total_capacity_update; [lia|apply Hwf|done].
Qed.

Definition with_task (t : task_row) (d : db) : db := on_Task (fun l => l ++ [t]) d.

Lemma wf_db_with_task t d : wf_db (with_task t d) <-> wf_db d.
Proof. split; intros [H1 H2]; by split. Qed.

(** The effect of a procedure that records task [t] in state [s] with the
    worker [r] it takes, and of one that also pushes it to the stream. *)
Definition recorded (t s p : Z) (r : worker_row) (d : db) : db :=
  acquired p r (with_task (TaskRow t (WorkerID r) s p) d).

Definition with_assign (a : assign_row) (d : db) : db :=
  on_TaskAssign (fun l => l ++ [a]) d.
Definition pushed (t p : Z) (r : worker_row) (d : db) : db :=
  with_assign (AssignRow t (Url r) p) (recorded t RUNNING p r d).

(** All three effects take one unit of capacity of [r] and are otherwise
    invisible to the pool. *)
Definition takes_unit (effect : Z -> worker_row -> db -> db) : Prop :=
  forall p r d, Worker (effect p r d) = Worker (acquired p r d).

Lemma takes_acquired : takes_unit acquired.
Proof. done. Qed.
Lemma takes_recorded t s : takes_unit (recorded t s).
Proof. done. Qed.
Lemma takes_pushed t : takes_unit (pushed t).
Proof. done. Qed.

Section TakesUnit.
Context (effect : Z -> worker_row -> db -> db) (takes : takes_unit effect).
Context (d : db) (r : worker_row) (d_wf : wf_db d).
Context (r_in : r ∈ Worker d) (r_free : 0 < Capacity r).

Lemma takes_elem : r ∈ free_workers (W_PKey r) d.
Proof using r_in r_free. by apply elem_of_free_workers. Qed.

Lemma takes_wf : wf_db (effect (W_PKey r) r d).
Proof using All.
  destruct (wf_db_acquired _ _ _ d_wf takes_elem) as [H1 H2]. by split; rewrite takes.
Qed.

Lemma takes_capacity :
  capacity (effect (W_PKey r) r d) = <[key r := Capacity r - 1]> (capacity d).
Proof using All.
  unfold capacity. rewrite takes. apply capacity_acquired, takes_elem. done.
Qed.

Lemma takes_total : total_capacity (effect (W_PKey r) r d) = total_capacity d - 1.
Proof using All.
  unfold total_capacity at 1. rewrite takes. apply total_capacity_acquired, takes_elem. done.
Qed.
End TakesUnit.

(** ** What each procedure does *)

(** The id of a task or a partition that a column can hold. *)
Definition id_ok (z : Z) : Prop := - 2147483648 < z < 2147483648.

Lemma updateCapacity_ok c p i w :
  id_ok c ->
  updateCapacity c p i w =
  (Done tt, set_db (on_Worker (update_where (worker_is p i) (set_Capacity c)) (w_db w)) w).
Proof. intros Hc. unfold updateCapacity. by rewrite (bind_done _ _ _ _ _ (int_col_ok c w Hc)). Qed.

Lemma insertTask_ok t i s p w :
  id_ok t -> id_ok i -> id_ok s -> id_ok p ->
  insertTask t i s p w = (Done tt, set_db (with_task (TaskRow t i s p) (w_db w)) w).
Proof.
  intros Ht Hi Hs Hp. unfold insertTask.
  rewrite (bind_done _ _ _ _ _ (int_col_ok t w Ht)), (bind_done _ _ _ _ _ (int_col_ok i w Hi)),
    (bind_done _ _ _ _ _ (int_col_ok s w Hs)), (bind_done _ _ _ _ _ (int_col_ok p w Hp)).
  done.
Qed.

Lemma set_db_tick d w : set_db d (tick w) = tick (set_db d w).
Proof. done. Qed.
Lemma set_db_id w : set_db (w_db w) w = w.
Proof. by destruct w. Qed.
Lemma w_db_tick w : w_db (tick w) = w_db w.
Proof. done. Qed.
#[export] Hint Rewrite set_db_set_db w_db_set_db w_db_tick set_db_tick : tables.

Section Procedures.
Context `{Env}.

(** A free worker's columns fit the columns they are written back to. *)
Lemma free_worker_ids p d r :
  wf_db d -> r ∈ free_workers p d ->
  r ∈ Worker d /\ W_PKey r = p /\ 0 < Capacity r /\
  id_ok (Capacity r - 1) /\ id_ok (WorkerID r) /\ id_ok p /\ 0 <= WorkerID r.
Proof.
  intros Hwf (Hp & Hc & Hin)%elem_of_free_workers.
  destruct (wf_row d r Hwf Hin) as (H1 & H2 & H3). unfold id_ok. subst p.
  repeat split; (done || lia).
Qed.

(** The outcome of a procedure that takes a worker of partition [p] among the
    candidates [cand p d]. *)
Definition select_post (cand : Z -> db -> list worker_row) (p : Z) (miss : Z) (hit : worker_row -> Z)
    (effect : worker_row -> db -> db) (w : world) (o : outcome Z * world) : Prop :=
  (free_workers p (w_db w) = [] /\ o = (Done miss, tick w)) \/
  (exists r, r ∈ cand p (w_db w) /\
     o = (Done (hit r), set_db (effect r (w_db w)) (tick w))).

Lemma SelectWorker_spec p w :
  wf_db (w_db w) ->
  select_post free_workers p (-1) WorkerID (acquired p) w (SelectWorker_run p w).
Proof.
  intros Hwf. unfold SelectWorker_run, select_post.
  query_split Emp r Hr; [by left | right].
  exists r. split; [done|].
  destruct (free_worker_ids p _ r Hwf Hr) as (_ & _ & _ & Hc & _).
  by rewrite (bind_done _ _ _ _ _ (updateCapacity_ok _ _ _ _ Hc)).
Qed.

Lemma elem_of_fullest r l : r ∈ fullest l -> r ∈ l.
Proof. unfold fullest. by intros [_ Hr]%list_elem_of_filter. Qed.

(** The workers [SelectOrderedWorker] chooses from. *)
Definition fullest_workers (p : Z) (d : db) : list worker_row := fullest (free_workers p d).

Lemma fullest_sub p d r : r ∈ fullest_workers p d -> r ∈ free_workers p d.
Proof. apply elem_of_fullest. Qed.

Lemma fullest_max r l : r ∈ fullest l -> forall r', r' ∈ l -> Capacity r' <= Capacity r.
Proof. unfold fullest. intros [Hf _]%list_elem_of_filter. by apply Forall_forall. Qed.

Lemma fullest_nil l : fullest l = [] -> l = [].
Proof.
  intros E. destruct l as [|x l]; [done|]. exfalso.
  destruct (max_exists Capacity (x :: l)) as (m & Hm & Hle); [done|].
  assert (m ∈ fullest (x :: l)) as Hin by (by apply list_elem_of_filter).
  rewrite E in Hin. by apply not_elem_of_nil in Hin.
Qed.

Lemma SelectOrderedWorker_spec p t w :
  wf_db (w_db w) -> id_ok t ->
  select_post fullest_workers p (-1) WorkerID (recorded t 1 p) w
    (SelectOrderedWorker_run p t w).
Proof.
  intros Hwf Ht. unfold SelectOrderedWorker_run, select_post.
  query_split Emp r Hr; [left; by apply fullest_nil in Emp | right].
  exists r. split; [done|]. apply fullest_sub in Hr.
  destruct (free_worker_ids p _ r Hwf Hr) as (_ & _ & _ & Hc & Hi & Hp & _).
  rewrite (bind_done _ _ _ _ _ (insertTask_ok t _ 1 p _ Ht Hi ltac:(unfold id_ok; lia) Hp)).
  by rewrite (bind_done _ _ _ _ _ (updateCapacity_ok _ _ _ _ Hc)).
Qed.

Lemma SelectSingle_spec p t w :
  wf_db (w_db w) -> id_ok t ->
  select_post free_workers p NOWORKER (fun _ => SUCCESS) (recorded t 1 p) w
    (SelectSinglePartitionedTaskWorker_run p t w).
Proof.
  intros Hwf Ht. unfold SelectSinglePartitionedTaskWorker_run, select_post.
  query_split Emp r Hr; [by left | right].
  exists r. split; [done|].
  destruct (free_worker_ids p _ r Hwf Hr) as (_ & _ & _ & Hc & Hi & Hp & _).
  rewrite (bind_done _ _ _ _ _ (insertTask_ok t _ 1 p _ Ht Hi ltac:(unfold id_ok; lia) Hp)).
  by rewrite (bind_done _ _ _ _ _ (updateCapacity_ok _ _ _ _ Hc)).
Qed.

Lemma PushTask_spec p t w :
  wf_db (w_db w) -> id_ok t ->
  select_post free_workers p NOWORKER (fun _ => SUCCESS) (pushed t p) w
    (PushTask_run p t w).
Proof.
  intros Hwf Ht. unfold PushTask_run, select_post.
  query_split Emp r Hr; [by left | right].
  exists r. split; [done|].
  destruct (free_worker_ids p _ r Hwf Hr) as (_ & _ & _ & Hc & Hi & Hp & _).
  rewrite (bind_done _ _ _ _ _ (insertTask_ok t _ RUNNING p _ Ht Hi ltac:(cbv; done) Hp)).
  rewrite (bind_done _ _ _ _ _ (updateCapacity_ok _ _ _ _ Hc)).
  unfold insertTaskAssign.
  assert (forall w', int_col t w' = (Done t, w')) as E1 by (intros; by apply int_col_ok).
  assert (forall w', int_col p w' = (Done p, w')) as E2 by (intros; by apply int_col_ok).
  unfold mbind, M_bind. by rewrite E1, E2.
Qed.
End Procedures.
