(* ===== verification/Client.v ===== *)
(** * The VoltDB client

    Parameter sets and procedures of the client headers
    ([third_party/voltdb-client-cpp/include/ParameterSet.hpp],
    [Procedure.hpp], [WireType.h], [Parameter.hpp]), the procedures the server
    knows ([sql/load_procedures.sql]), and an invocation as one transaction. *)

From S2P Require Import Prelude Tables World Procs.

(** ** Parameters *)

Inductive WireType :=
  | WIRE_TYPE_INVALID | WIRE_TYPE_ARRAY | WIRE_TYPE_NULL | WIRE_TYPE_TINYINT
  | WIRE_TYPE_SMALLINT | WIRE_TYPE_INTEGER | WIRE_TYPE_BIGINT | WIRE_TYPE_FLOAT
  | WIRE_TYPE_STRING | WIRE_TYPE_TIMESTAMP | WIRE_TYPE_VOLTTABLE | WIRE_TYPE_DECIMAL
  | WIRE_TYPE_VARBINARY | WIRE_TYPE_GEOGRAPHY_POINT | WIRE_TYPE_GEOGRAPHY.

#[export] Instance WireType_eq_dec : EqDecision WireType.
Proof. solve_decision. Defined.

Record Parameter_t := Parameter_ { m_type : WireType; m_array : bool }.
#[export] Instance Parameter_eq_dec : EqDecision Parameter_t.
Proof. solve_decision. Defined.

(** [Parameter(WireType type)]. *)
Definition scalar (t : WireType) : Parameter_t := Parameter_ t false.

Record ParameterSet := {
  m_parameters : list Parameter_t;
  m_buffer : list value;        (* the values serialized so far *)
  m_currentParam : nat;
  m_dynamicParamCount : bool;
}.

(** The constructor used by [Procedure(name, parameters)]. *)
Definition ParameterSet_new (parameters : list Parameter_t) : ParameterSet :=
  {| m_parameters := parameters; m_buffer := []; m_currentParam := 0;
     m_dynamicParamCount := false |}.

Definition reset (ps : ParameterSet) : ParameterSet :=
  {| m_parameters := m_parameters ps; m_buffer := []; m_currentParam := 0;
     m_dynamicParamCount := m_dynamicParamCount ps |}.

(** [None]: [ParamMismatchException]. *)
Definition validateType (type : WireType) (isArray : bool) (ps : ParameterSet) :
    option ParameterSet :=
  let params :=
    if bool_decide (length (m_parameters ps) < m_currentParam ps + 1)%nat
       && m_dynamicParamCount ps
    then m_parameters ps ++ [Parameter_ type isArray]
    else m_parameters ps in
  match params !! m_currentParam ps with
  | None => None
  | Some p =>
      if bool_decide (m_type p = type) && Bool.eqb (m_array p) isArray
      then Some {| m_parameters := params; m_buffer := m_buffer ps;
                   m_currentParam := m_currentParam ps;
                   m_dynamicParamCount := m_dynamicParamCount ps |}
      else None
  end.

Definition addValue (type : WireType) (v : value) (ps : ParameterSet) : option ParameterSet :=
  match validateType type false ps with
  | None => None
  | Some ps' =>
      Some {| m_parameters := m_parameters ps'; m_buffer := m_buffer ps' ++ [v];
              m_currentParam := S (m_currentParam ps');
              m_dynamicParamCount := m_dynamicParamCount ps' |}
  end.

Definition addInt32 (z : Z) : ParameterSet -> option ParameterSet :=
  addValue WIRE_TYPE_INTEGER (VInt z).
Definition addInt64 (z : Z) : ParameterSet -> option ParameterSet :=
  addValue WIRE_TYPE_BIGINT (VInt z).
Definition addString (s : string) : ParameterSet -> option ParameterSet :=
  addValue WIRE_TYPE_STRING (VStr s).

(** [params->addInt32(a).addInt32(b)...]. *)
Fixpoint addAll (args : list value) (ps : ParameterSet) : option ParameterSet :=
  match args with
  | [] => Some ps
  | v :: args' =>
      match (match v with VInt z => addInt32 z ps | VStr s => addString s ps end) with
      | None => None
      | Some ps' => addAll args' ps'
      end
  end.

(** [serializeTo]: [None] is [UninitializedParamsException]; the set is reset
    for the next invocation. *)
Definition serializeTo (ps : ParameterSet) : option (list value * ParameterSet) :=
  if bool_decide (m_currentParam ps = length (m_parameters ps))
  then Some (m_buffer ps, {| m_parameters := m_parameters ps; m_buffer := [];
                             m_currentParam := 0; m_dynamicParamCount := false |})
  else None.

Record Procedure := Procedure_ { m_name : string; m_params : ParameterSet }.

Definition Procedure_new (name : string) (parameters : list Parameter_t) : Procedure :=
  Procedure_ name (ParameterSet_new parameters).

(** ** The server's side *)

Definition long_proc (m : M world Z) : M world table := z ← m; mret (long_result z).

Section Server.
Context `{Env}.

(** The procedures loaded by [sql/load_procedures.sql], with the parameter
    lists of their [run] methods.  [None]: a call the server rejects because
    the number or the types of the parameters do not fit. *)
Definition procedures : list (string * (list value -> option (M world table))) := [
  ("InsertTask"%string, fun a => match a with
     | [VInt t; VInt w; VInt s; VInt p] => Some (long_proc (InsertTask_run t w s p))
     | _ => None end);
  ("InsertWorker"%string, fun a => match a with
     | [VInt w; VInt c; VInt p; VStr u] => Some (long_proc (InsertWorker_run w c p u))
     | _ => None end);
  ("InsertSparkWorker"%string, fun a => match a with
     | [VInt w; VInt c; VInt d; VInt p; VStr u] =>
         Some (long_proc (InsertSparkWorker_run w c d p u))
     | _ => None end);
  ("SelectTaskWorker"%string, fun a => match a with
     | [] => Some (long_proc SelectTaskWorker_run) | _ => None end);
  ("SelectWorker"%string, fun a => match a with
     | [VInt p] => Some (long_proc (SelectWorker_run p)) | _ => None end);
  ("SelectOrderedWorker"%string, fun a => match a with
     | [VInt p; VInt t] => Some (long_proc (SelectOrderedWorker_run p t))
     | _ => None end);
  ("SelectPartitionedTaskWorker"%string, fun a => match a with
     | [VInt p] => Some (long_proc (SelectPartitionedTaskWorker_run p))
     | _ => None end);
  ("SelectSinglePartitionedTaskWorker"%string, fun a => match a with
     | [VInt p; VInt t] => Some (long_proc (SelectSinglePartitionedTaskWorker_run p t))
     | _ => None end);
  ("SelectSparkWorker"%string, fun a => match a with
     | [VInt p; VInt d] => Some (long_proc (SelectSparkWorker_run p d))
     | _ => None end);
  ("TruncateTaskTable"%string, fun a => match a with
     | [] => Some (long_proc TruncateTaskTable_run) | _ => None end);
  ("TruncateWorkerTable"%string, fun a => match a with
     | [] => Some (long_proc TruncateWorkerTable_run) | _ => None end);
  ("FinishWorkerTask"%string, fun a => match a with
     | [VInt w; VInt t; VInt p] => Some (long_proc (FinishWorkerTask_run w t p))
     | _ => None end);
  ("ScanPartitionedTaskWorker"%string, fun a => match a with
     | [VInt p] => Some (long_proc (ScanPartitionedTaskWorker_run p)) | _ => None end);
  ("ScanTaskWorker"%string, fun a => match a with
     | [] => Some (long_proc ScanTaskWorker_run) | _ => None end);
  ("WorkerSelectTask"%string, fun a => match a with
     | [VInt p; VInt w; VInt k] => Some (WorkerSelectTask_run p w k) | _ => None end);
  ("WorkerUpdateTask"%string, fun a => match a with
     | [VInt p; VInt w; VInt t; VInt s] => Some (long_proc (WorkerUpdateTask_run p w t s))
     | _ => None end);
  ("PushTask"%string, fun a => match a with
     | [VInt p; VInt t] => Some (long_proc (PushTask_run p t)) | _ => None end);
  ("SelectDataShardPartition"%string, fun a => match a with
     | [VInt d] => Some (SelectDataShardPartition_run d) | _ => None end);
  ("SendMessage"%string, fun a => match a with
     | [VInt r; VInt s; VInt m; VStr d] => Some (long_proc (SendMessage_run r s m d))
     | _ => None end);
  ("ReceiveMessage"%string, fun a => match a with
     | [VInt r] => Some (ReceiveMessage_run r) | _ => None end);
  ("BroadcastMessage"%string, fun a => match a with
     | [VInt m] => Some (long_proc (BroadcastMessage_run m)) | _ => None end)
].

Fixpoint find_proc (name : string) (ps : list (string * (list value -> option (M world table))))
    (args : list value) : option (M world table) :=
  match ps with
  | [] => None
  | (n, f) :: ps' => if String.eqb n name then f args else find_proc name ps' args
  end.

Definition call_procedure (name : string) (args : list value) : option (M world table) :=
  find_proc name procedures args.

Inductive response := RFailure | RSuccess (results : table).

(** A procedure that throws is rolled back and answered with a failure. *)
Definition run_txn (m : M world table) (f : fate) : M world response := fun w =>
  match f with
  | Aborted => (Done RFailure, w)
  | _ =>
      match m w with
      | (Done t, w') => (Done (if decide (f = Committed) then RSuccess t else RFailure), w')
      | (_, w') => (Done RFailure, set_db (w_db w) w')
      end
  end.

Definition transaction (m : M world table) : M world response :=
  f ← draw_fate; run_txn m f.

Definition serve (rq : request) : M world response :=
  match call_procedure (rq_name rq) (rq_args rq) with
  | None => mret RFailure
  | Some m => transaction m
  end.

(** ** The client's side *)

(** Build the parameter set of [p] from [args] and serialize the call. *)
Definition prepare (p : Procedure) (args : list value) : M world request :=
  match addAll args (reset (m_params p)) with
  | None => throw UncaughtException
  | Some ps =>
      match serializeTo ps with
      | None => throw UncaughtException
      | Some (vs, _) => mret (Request (m_name p) vs)
      end
  end.

(** [client_->invoke(procedure)]. *)
Definition invoke (p : Procedure) (args : list value) : M world response :=
  rq ← prepare p args; serve rq.

(** [client_->invoke(procedure, callback)]: the call is queued. *)
Definition invokeAsync (p : Procedure) (args : list value) : M world unit :=
  rq ← prepare p args;
  modify (fun w => set_inflight (w_inflight w ++ [rq]) w).

(** [r.results()[0].iterator().next()] then [row.getInt64(0)]. *)
Definition first_int64 (results : table) : M world Z :=
  match results with
  | (VInt z :: _) :: _ => mret z
  | _ => throw UncaughtException
  end.
End Server.

(** ** Runs of an invocation *)

(** Every invocation reaches the server, commits and is answered. *)
Class Reliable `{Env} : Prop := reliable : forall n, fate_stream n = Committed.

#[export] Instance steady_reliable rand : @Reliable (steady rand).
Proof. intros n. done. Qed.

Section Runs.
Context `{Env}.

Lemma long_proc_run m w z w' :
  m w = (Done z, w') -> long_proc m w = (Done (long_result z), w').
Proof. intros E. unfold long_proc. by run_bind E. Qed.

Lemma transaction_committed `{!Reliable} m w t w' :
  m (tick w) = (Done t, w') -> transaction m w = (Done (RSuccess t), w').
Proof.
  intros E. unfold transaction. unfold mbind, M_bind, draw_fate, run_txn.
  rewrite reliable, E. done.
Qed.

(** A call of a procedure with result type [long]. *)
Lemma transaction_long `{!Reliable} m w z w' :
  m (tick w) = (Done z, w') ->
  transaction (long_proc m) w = (Done (RSuccess (long_result z)), w').
Proof. intros E. by apply transaction_committed, long_proc_run. Qed.

Lemma transaction_aborted m w :
  fate_stream (w_tick w) = Aborted -> transaction m w = (Done RFailure, tick w).
Proof.
  intros E. unfold transaction, mbind, M_bind, draw_fate, run_txn. by rewrite E.
Qed.

(** Every transaction is answered. *)
Lemma transaction_answers m w : exists r w', transaction m w = (Done r, w').
Proof.
  unfold transaction, mbind, M_bind, draw_fate, run_txn.
  destruct (fate_stream (w_tick w)); try destruct (m (tick w)) as [[t|tr|] w1]; eauto.
Qed.

(** Whatever its fate, a transaction that is answered with a result ran to
    its end, and one that did not leaves the database alone. *)
Lemma transaction_cases m w r w' :
  transaction m w = (Done r, w') ->
  (w_db w' = w_db w /\ r = RFailure) \/
  (exists t, m (tick w) = (Done t, w') /\ (r = RSuccess t \/ r = RFailure)).
Proof.
  unfold transaction, mbind, M_bind, draw_fate, run_txn.
  destruct (fate_stream (w_tick w)); [| intros [= <- <-]; by left |];
    destruct (m (tick w)) as [[t|tr|] w1]; cbn; intros [= <- <-]; eauto.
Qed.

Lemma serve_unknown rq w :
  call_procedure (rq_name rq) (rq_args rq) = None -> serve rq w = (Done RFailure, w).
Proof. intros E. unfold serve. by rewrite E. Qed.
End Runs.
