(* ===== verification/Frame.v ===== *)
(** * Frame properties of the database calls

    A call of a stored procedure touches the database and draws from the
    environment; it leaves the requests in flight and the static counters of
    the schedulers alone. *)

From S2P Require Import Prelude Tables World Procs Client.

(** The parts of the world no procedure call changes. *)
Definition same_client (w w' : world) : Prop :=
  w_inflight w' = w_inflight w /\ taskindex_push w' = taskindex_push w /\
  taskindex_local w' = taskindex_local w /\ taskindex_single w' = taskindex_single w /\
  (w_tick w <= w_tick w')%nat.

#[export] Instance same_client_preorder : PreOrder same_client.
Proof.
  split; [intros w; unfold same_client; naive_solver lia|].
  intros w1 w2 w3. unfold same_client. intuition (try congruence). lia.
Qed.

Section Frame.
Context `{Env}.

Lemma frame_sql_read {A} (q : db -> A) : preserves same_client (sql_read q).
Proof. apply preserves_gets, _. Qed.

Lemma frame_sql_write f : preserves same_client (sql_write f).
Proof. intros w. unfold same_client. cbn. naive_solver lia. Qed.

Lemma frame_tick {A} (m : M world A) :
  preserves same_client m -> preserves same_client (fun w => m (tick w)).
Proof.
  intros Hm w. etrans; [|apply Hm]. unfold same_client. cbn. naive_solver lia.
Qed.

Lemma frame_draw {A} (f : world -> outcome A) :
  preserves same_client (fun w => (f w, tick w)).
Proof. intros w. unfold same_client. cbn. naive_solver lia. Qed.

Lemma frame_pick_rows {A} k : forall l : list A, preserves same_client (pick_rows k l).
Proof.
  induction k as [|k IH]; intros l; cbn [pick_rows]; [apply preserves_ret, _|].
  intros w. destruct (l !! _) as [x|]; [|by apply (frame_draw (fun _ => Done []))].
  apply (frame_tick (rest ← pick_rows k (delete _ l); mret (x :: rest))).
  apply preserves_bind; [apply _|apply IH|intros; apply preserves_ret, _].
Qed.

Lemma frame_col z : preserves same_client (int_col z).
Proof. intros w. by rewrite int_col_db. Qed.

Lemma frame_bigcol z : preserves same_client (bigint_col z).
Proof. intros w. unfold bigint_col. by case_match. Qed.

Lemma frame_c_rand : preserves same_client c_rand.
Proof. apply (frame_draw (fun w => Done (wrapU 31 (rand_stream (w_tick w))))). Qed.

Lemma frame_pick_row {A} (l : list A) : preserves same_client (pick_row l).
Proof. apply (frame_draw (fun w => Done (l !! (pick_stream (w_tick w) mod length l)%nat))). Qed.

Lemma frame_draw_fate : preserves same_client draw_fate.
Proof. apply (frame_draw (fun w => Done (fate_stream (w_tick w)))). Qed.

Lemma frame_foldr {A} (f : A -> M world unit) l :
  (forall a, preserves same_client (f a)) ->
  preserves same_client (foldr (fun a k => f a ;; k) (mret tt) l).
Proof.
  intros Hf. induction l as [|a l IH]; cbn; [apply preserves_ret, _|].
  apply preserves_bind; [apply _|apply Hf|by intros].
Qed.

Hint Resolve frame_sql_read frame_sql_write frame_pick_rows frame_col frame_bigcol
  frame_c_rand frame_pick_row frame_draw_fate frame_foldr : frame.

(** Every procedure the server knows. *)
Lemma frame_call_procedure name args m :
  call_procedure name args = Some m -> preserves same_client m.
Proof.
  unfold call_procedure, procedures. cbn [find_proc].
  repeat (case_match; [intros Hm; repeat case_match; try done; injection Hm as <-|]);
    [..|done].
  all: unfold long_proc; cbv [InsertTask_run InsertWorker_run InsertSparkWorker_run
    SelectTaskWorker_run SelectWorker_run SelectOrderedWorker_run
    SelectPartitionedTaskWorker_run SelectSinglePartitionedTaskWorker_run
    SelectSparkWorker_run TruncateTaskTable_run TruncateWorkerTable_run
    FinishWorkerTask_run ScanPartitionedTaskWorker_run ScanTaskWorker_run scan_result
    WorkerSelectTask_run WorkerUpdateTask_run PushTask_run SelectDataShardPartition_run
    SendMessage_run ReceiveMessage_run BroadcastMessage_run insertTask updateCapacity
    insertTaskAssign updateTaskRunning].
  all: frame_solve.
Qed.

Lemma frame_transaction m : preserves same_client m -> preserves same_client (transaction m).
Proof.
  intros Hm. apply preserves_bind; [apply _|apply frame_draw_fate|]. intros f w.
  unfold run_txn. specialize (Hm w). destruct f; [|done|].
  all: destruct (m w) as [[t|t|] w']; cbn in *; try done.
  all: unfold same_client in *; cbn; tauto.
Qed.

Lemma frame_serve rq : preserves same_client (serve rq).
Proof.
  unfold serve. case_match eqn:E; [|apply preserves_ret, _].
  by eapply frame_transaction, frame_call_procedure.
Qed.

Lemma frame_prepare p args : preserves same_client (prepare p args).
Proof. unfold prepare. frame_solve. Qed.

Lemma frame_invoke p args : preserves same_client (invoke p args).
Proof.
  apply preserves_bind; [apply _|apply frame_prepare|]. intros; apply frame_serve.
Qed.
End Frame.

#[export] Hint Resolve frame_sql_read frame_sql_write frame_pick_rows frame_col frame_bigcol
  frame_c_rand frame_pick_row frame_draw_fate frame_foldr frame_serve frame_invoke : frame.
