(* ===== verification/Ledger.v ===== *)
(** * The capacity ledger

    Schedulers take capacity and workers give it back through different
    procedures ([SelectOrderedWorker], [SelectSinglePartitionedTaskWorker] and
    [PushTask] on one side; [WorkerSelectTask] and [WorkerUpdateTask] on the
    other).  This file puts them together: the steps of the protocol are the
    runs of these procedures, and the ledger says that a worker's capacity and
    its open tasks always add up to what it started with. *)

From S2P Require Import Prelude Tables World Procs Pool Client.

(** ** Open tasks *)

(** A task of worker [k] that is not complete. *)
Definition open_of (k : wkey) (t : task_row) : Prop :=
  (T_PKey t, T_WorkerID t) = k /\ State t <> COMPLETE.
#[export] Instance open_of_dec k t : Decision (open_of k t).
Proof. unfold open_of. apply _. Defined.

Definition open_count (k : wkey) (d : db) : nat := length (filter (open_of k) (Task d)).

Definition task_key (t : task_row) : Z * Z := (T_PKey t, TaskID t).

Lemma task_of_unique d x y p i :
  NoDup (task_key <$> Task d) -> x ∈ Task d -> y ∈ Task d ->
  task_of p (TaskID x) i y -> T_PKey x = p -> y = x.
Proof.
  intros Hnd Hx Hy (Hp & Ht & _) Hpx.
  apply list_elem_of_lookup in Hx as [a Ha], Hy as [b Hb].
  assert (b = a) as ->; [|congruence].
  eapply (NoDup_lookup (task_key <$> Task d)); [exact Hnd| |].
  - rewrite list_lookup_fmap, Hb. cbn. reflexivity.
  - rewrite list_lookup_fmap, Ha. cbn. unfold task_key. congruence.
Qed.

Lemma task_keys_update P `{!forall t, Decision (P t)} s (l : list task_row) :
  task_key <$> update_where P (set_State s) l = task_key <$> l.
Proof.
  unfold update_where. rewrite <- list_fmap_compose. apply list_fmap_ext.
  intros i x _. cbn. by case_decide.
Qed.

(** Moving open tasks to another open state keeps the count. *)
Lemma open_count_move k P `{!forall t, Decision (P t)} s (l : list task_row) :
  s <> COMPLETE -> (forall x, x ∈ l -> P x -> State x <> COMPLETE) ->
  length (filter (open_of k) (update_where P (set_State s) l)) =
  length (filter (open_of k) l).
Proof.
  intros Hs Hopen. induction l as [|x l IH]; [done|].
  rewrite update_where_cons, !filter_cons.
  assert (open_of k (if decide (P x) then set_State s x else x) <-> open_of k x) as Hiff.
  { case_decide as HP; [|done]. unfold open_of. cbn.
    specialize (Hopen x ltac:(by left) HP). tauto. }
  assert (length (filter (open_of k) (update_where P (set_State s) l)) =
          length (filter (open_of k) l)) as IH'.
  { apply IH. intros y Hy. apply Hopen. by right. }
  destruct (decide (open_of k x)) as [Ho|Ho].
  - rewrite (decide_True _ _ (proj2 Hiff Ho)). cbn. by rewrite IH'.
  - rewrite (decide_False _ _ (fun H => Ho (proj1 Hiff H))). done.
Qed.

(** Completing the one open task that satisfies [P] takes one off its worker. *)
Lemma open_count_complete k P `{!forall t, Decision (P t)} (l : list task_row) x :
  x ∈ l -> P x -> State x <> COMPLETE ->
  NoDup (task_key <$> l) -> (forall y, y ∈ l -> P y -> y = x) ->
  Z.of_nat (length (filter (open_of k) (update_where P (set_State COMPLETE) l))) =
  Z.of_nat (length (filter (open_of k) l)) -
    (if decide ((T_PKey x, T_WorkerID x) = k) then 1 else 0).
Proof.
  intros Hx HP Hopen. induction l as [|y l IH]; intros Hnd Huniq.
  { by apply not_elem_of_nil in Hx. }
  cbn in Hnd. apply NoDup_cons in Hnd as [Hni Hnd].
  rewrite update_where_cons, !filter_cons. apply elem_of_cons in Hx as [<-|Hx].
  - rewrite (decide_True (P := P x)) by done.
    rewrite (decide_False (P := open_of k (set_State COMPLETE x))) by (intros [_ Hs]; by apply Hs).
    rewrite update_where_none.
    2: { apply Forall_forall. intros y Hy HPy.
         pose proof (Huniq y ltac:(by right) HPy) as ->. apply Hni.
         apply list_elem_of_fmap. eauto. }
    destruct (decide ((T_PKey x, T_WorkerID x) = k)) as [E|E].
    + rewrite decide_True by done. cbn [length]. lia.
    + rewrite decide_False by (intros [E' _]; done). lia.
  - rewrite (decide_False (P := P y)).
    2: { intros HPy. pose proof (Huniq y ltac:(by left) HPy) as ->. apply Hni.
         apply list_elem_of_fmap. eauto. }
    specialize (IH Hx Hnd ltac:(intros z Hz; apply Huniq; by right)).
    destruct (decide (open_of k y)); cbn [length]; lia.
Qed.

(** ** The effects of the worker's procedures *)

Definition completed (p i t : Z) (d : db) : db :=
  on_Worker (update_where (worker_is p i) (fun r => set_Capacity (Capacity r + 1) r))
    (on_Task (update_where (task_of p t i) (set_State COMPLETE)) d).

Lemma WorkerUpdateTask_complete p i t w :
  Forall (fun r => worker_is p i r -> Capacity r + 1 < 2 ^ 31) (Worker (w_db w)) ->
  WorkerUpdateTask_run p i t COMPLETE w = (Done SUCCESS, set_db (completed p i t (w_db w)) w).
Proof.
  intros Hcap. unfold WorkerUpdateTask_run.
  rewrite (bind_done _ _ _ _ _ (int_col_ok COMPLETE w ltac:(done))), bind_write.
  rewrite (decide_True (P := COMPLETE = COMPLETE)) by done.
  unfold mbind, M_bind, sql_read, gets. cbn. rewrite decide_True; [done|].
  apply Forall_forall. intros r [Hr Hin]%list_elem_of_filter.
  pose proof (proj1 (Forall_forall _ _) Hcap r Hin Hr). lia.
Qed.

Lemma WorkerUpdateTask_other p i t s w :
  id_ok s -> s <> COMPLETE ->
  WorkerUpdateTask_run p i t s w =
  (Done SUCCESS, set_db (on_Task (update_where (task_of p t i) (set_State s)) (w_db w)) w).
Proof.
  intros Hs Hne. unfold WorkerUpdateTask_run.
  rewrite (bind_done _ _ _ _ _ (int_col_ok s w Hs)), bind_write.
  by rewrite decide_False.
Qed.

(** The tasks handed out by [WorkerSelectTask], one update after the other. *)
Definition started (p i : Z) (results : list task_row) (d : db) : db :=
  foldl (fun d t => on_Task (update_where (task_of p (TaskID t) i) (set_State RUNNING)) d)
    d results.

Lemma start_all_run p i results : forall w,
  foldr (fun t k => updateTaskRunning p (TaskID t) i ;; k) (mret tt) results w =
  (Done tt, set_db (started p i results (w_db w)) w).
Proof.
  induction results as [|t results IH]; intros w; [by destruct w|].
  cbn [foldr].
  assert (updateTaskRunning p (TaskID t) i w = (Done tt, set_db (on_Task
    (update_where (task_of p (TaskID t) i) (set_State RUNNING)) (w_db w)) w)) as E by done.
  run_bind E. by rewrite IH.
Qed.

Lemma WorkerSelectTask_ok `{Env} p i k w :
  0 <= k ->
  exists results rest n,
    selectPendingTasks p i (w_db w) ≡ₚ results ++ rest /\
    Z.of_nat (length results) = Z.min k (Z.of_nat (length (selectPendingTasks p i (w_db w)))) /\
    WorkerSelectTask_run p i k w =
      (Done ((fun t => [VInt (TaskID t)]) <$> results),
       set_db (started p i results (w_db w)) (Nat.iter n tick w)).
Proof.
  intros Hk. unfold WorkerSelectTask_run. rewrite bind_read.
  rewrite decide_False by lia. rewrite (bind_done _ _ _ _ _ (ret_eq tt w)).
  set (pending := selectPendingTasks p i (w_db w)).
  destruct (pick_rows_spec (Z.to_nat (Z.min k (Z.of_nat (length pending)))) pending w)
    as (results & rest & n & E & Hlen & Hp).
  exists results, rest, n. split_and!; [done|rewrite Hlen; lia|].
  run_bind E. rewrite (bind_done _ _ _ _ _ (start_all_run p i results _)). done.
Qed.

(** ** The protocol *)

Definition fresh_task (p t : Z) (d : db) : Prop := (p, t) ∉ task_key <$> Task d.

Inductive step : db -> db -> Prop :=
  | step_SelectOrdered (E : Env) p t w w' z :
      fresh_task p t (w_db w) -> id_ok t ->
      SelectOrderedWorker_run p t w = (Done z, w') -> step (w_db w) (w_db w')
  | step_SelectSingle (E : Env) p t w w' z :
      fresh_task p t (w_db w) -> id_ok t ->
      SelectSinglePartitionedTaskWorker_run p t w = (Done z, w') -> step (w_db w) (w_db w')
  | step_PushTask (E : Env) p t w w' z :
      fresh_task p t (w_db w) -> id_ok t ->
      PushTask_run p t w = (Done z, w') -> step (w_db w) (w_db w')
  | step_WorkerSelectTask (E : Env) p i k w w' rows :
      WorkerSelectTask_run p i k w = (Done rows, w') -> step (w_db w) (w_db w')
  | step_complete p i t x w w' z :
      x ∈ Task (w_db w) -> task_of p t i x -> State x <> COMPLETE ->
      WorkerUpdateTask_run p i t COMPLETE w = (Done z, w') -> step (w_db w) (w_db w').

Record Ledger (c0 : gmap wkey Z) (d : db) : Prop := {
  led_wf : wf_db d;
  led_keys : NoDup (task_key <$> Task d);
  led_sum k : capacity d !! k = (fun c => c - Z.of_nat (open_count k d)) <$> c0 !! k;
}.

Lemma ledger_tasks c0 d d' :
  Worker d' = Worker d -> task_key <$> Task d' = task_key <$> Task d ->
  (forall k, open_count k d' = open_count k d) -> Ledger c0 d -> Ledger c0 d'.
Proof.
  intros HW HT Ho [[H1 H2] H3 H4]. split.
  - by split; rewrite HW.
  - by rewrite HT.
  - intros k. unfold capacity. rewrite HW, Ho. apply H4.
Qed.

(** Taking a worker and recording a task with it. *)
Lemma ledger_recorded c0 d p t s r :
  Ledger c0 d -> fresh_task p t d -> s <> COMPLETE -> r ∈ free_workers p d ->
  Ledger c0 (recorded t s p r d).
Proof.
  intros [Hwf Hk Hsum] Hfresh Hs (Hp & Hc & Hr)%elem_of_free_workers. subst p.
  pose proof (takes_recorded t s) as Htk. split.
  - by apply takes_wf.
  - cbn. rewrite fmap_app. apply NoDup_app. split_and!; [done| |apply NoDup_singleton].
    intros x Hx ->%list_elem_of_singleton. by apply Hfresh.
  - intros k. rewrite (takes_capacity _ Htk) by done.
    assert (open_count k (recorded t s (W_PKey r) r d) =
      open_count k d + (if decide (key r = k) then 1 else 0))%nat as ->.
    { unfold open_count. cbn. rewrite filter_app, length_app. f_equal.
      rewrite filter_cons, filter_nil. unfold open_of at 1. cbn.
      change (W_PKey r, WorkerID r) with (key r).
      destruct (decide (key r = k)) as [E|E];
        [rewrite decide_True by done | rewrite decide_False by (intros [E' _]; by apply E)]; done. }
    destruct (decide (key r = k)) as [<-|Hne].
    + rewrite lookup_insert_eq. specialize (Hsum (key r)).
      rewrite (capacity_lookup d r) in Hsum by done.
      destruct (c0 !! key r) as [c|]; [|done]. cbn in Hsum |- *. simplify_eq. f_equal. lia.
    + rewrite lookup_insert_ne by done. rewrite Hsum. by rewrite Nat.add_0_r.
Qed.

Lemma ledger_stream c0 d a : Ledger c0 d -> Ledger c0 (with_assign a d).
Proof. by apply ledger_tasks. Qed.

(** Handing out pending tasks. *)
Lemma ledger_started c0 p i results : forall d,
  Ledger c0 d ->
  (forall t, t ∈ results -> forall x, x ∈ Task d -> task_of p (TaskID t) i x ->
     State x <> COMPLETE) ->
  Ledger c0 (started p i results d).
Proof.
  induction results as [|t results IH]; intros d Hled Hopen; [done|].
  apply IH.
  - revert Hled. apply ledger_tasks; [done|apply task_keys_update|]. intros k.
    apply open_count_move; [done|]. intros x Hx. apply Hopen; [by left|done].
  - intros t' Ht' y Hy Hof. cbn in Hy. apply elem_of_update_where in Hy as (x & Hx & ->).
    case_decide; [done|]. apply (Hopen t'); [by right|done..].
Qed.

Lemma ledger_pending c0 p i results rest d :
  Ledger c0 d -> selectPendingTasks p i d ≡ₚ results ++ rest ->
  forall t, t ∈ results -> forall x, x ∈ Task d -> task_of p (TaskID t) i x ->
    State x <> COMPLETE.
Proof.
  intros [_ Hk _] Hp t Ht x Hx Hof.
  assert (t ∈ selectPendingTasks p i d) as Hin by (rewrite Hp; apply elem_of_app; by left).
  apply list_elem_of_filter in Hin as [(Htp & _ & Hst) Hin].
  rewrite (task_of_unique d t x p i) by done. by rewrite Hst.
Qed.

(** Completing an open task gives its worker the unit back. *)
Lemma ledger_completed c0 d p i t x :
  Ledger c0 d -> map_Forall (fun _ c => c < 2 ^ 31) c0 ->
  x ∈ Task d -> task_of p t i x -> State x <> COMPLETE ->
  Forall (fun r => worker_is p i r -> Capacity r + 1 < 2 ^ 31) (Worker d) /\
  Ledger c0 (completed p i t d).
Proof.
  intros [Hwf Hk Hsum] Hc0 Hx Hof Hopen. pose proof Hof as (Hp & Ht & Hi).
  assert (forall k, Z.of_nat (open_count k (completed p i t d)) =
    Z.of_nat (open_count k d) - (if decide ((p, i) = k) then 1 else 0)) as Hcount.
  { intros k. unfold open_count. cbn. rewrite <- Hp, <- Hi.
    apply open_count_complete; [done|by subst|done|done|].
    intros y Hy Hofy. apply (task_of_unique d x y p i); [done..| |done]. by subst. }
  assert (forall r, r ∈ Worker d -> key r = (p, i) -> 0 <= Capacity r + 1 < 2147483648) as Hcap.
  { intros r Hr Hkey. pose proof (Hsum (p, i)) as Hs. rewrite <- Hkey in Hs at 1.
    rewrite (capacity_lookup d r) in Hs by done.
    destruct (c0 !! (p, i)) as [c|] eqn:Ec; [|done]. cbn in Hs. injection Hs as Hs.
    pose proof (Hc0 (p, i) c Ec) as Hlt. cbn in Hlt.
    pose proof (Hcount (p, i)) as Hn. rewrite decide_True in Hn by done.
    destruct (wf_row d r Hwf Hr) as (Hge & _). lia. }
  split.
  { apply Forall_forall. intros r Hr Hw%worker_is_key. specialize (Hcap r Hr Hw). lia. }
  split.
  - apply (wf_db_update p i (fun r => Capacity r + 1)); [|done].
    destruct Hwf as [H1 H2]. by split.
  - cbn. by rewrite task_keys_update.
  - intros k. unfold completed.
    rewrite (capacity_update (fun r => Capacity r + 1) _ _ _ (fun c => c + 1)); [|done|].
    2: { destruct Hwf as [H1 H2]. by split. }
    change (capacity (on_Task _ d)) with (capacity d).
    fold (completed p i t d). rewrite Hcount.
    destruct (decide ((p, i) = k)) as [<-|Hne].
    + rewrite lookup_alter_eq, Hsum. destruct (c0 !! (p, i)); cbn; [|done]. f_equal. lia.
    + rewrite lookup_alter_ne by done. rewrite Hsum, Z.sub_0_r. done.
Qed.

(** Every step keeps the ledger. *)
Lemma ledger_selected `{Env} c0 p t s w o :
  Ledger c0 (w_db w) -> fresh_task p t (w_db w) -> s <> COMPLETE ->
  forall miss hit cand, (forall p d r, r ∈ cand p d -> r ∈ free_workers p d) ->
  select_post cand p miss hit (recorded t s p) w o -> Ledger c0 (w_db o.2).
Proof.
  intros Hled Hfresh Hs miss hit cand Hcand [[_ ->]|(r & Hr & ->)]; [done|].
  cbn. apply ledger_recorded; auto.
Qed.

Lemma ledger_step c0 d d' :
  map_Forall (fun _ c => c < 2 ^ 31) c0 -> step d d' -> Ledger c0 d -> Ledger c0 d'.
Proof.
  intros Hc0 Hstep Hled. pose proof (led_wf _ _ Hled) as Hwf.
  destruct Hstep as [E p t w w' z Hf Ht Er|E p t w w' z Hf Ht Er|E p t w w' z Hf Ht Er
    |E p i k w w' rows Er|p i t x w w' z Hx Hof Hopen Er].
  - pose proof (SelectOrderedWorker_spec p t w Hwf Ht) as Hs. rewrite Er in Hs.
    by eapply (ledger_selected c0 p t 1 w (Done z, w')); [| | |exact fullest_sub|exact Hs].
  - pose proof (SelectSingle_spec p t w Hwf Ht) as Hs. rewrite Er in Hs.
    by eapply (ledger_selected c0 p t 1 w (Done z, w')); [| | |intros ???|exact Hs].
  - pose proof (PushTask_spec p t w Hwf Ht) as Hs. rewrite Er in Hs.
    destruct Hs as [[_ Hs]|(r & Hr & Hs)]; injection Hs as _ ->; [done|].
    cbn. apply ledger_stream, ledger_recorded; done.
  - destruct (decide (0 <= k)) as [Hk|Hk].
    + destruct (WorkerSelectTask_ok p i k w Hk) as (results & rest & n & Hp & _ & Es).
      rewrite Es in Er. injection Er as _ <-. cbn.
      apply ledger_started; [done|]. by eapply ledger_pending.
    + unfold WorkerSelectTask_run in Er. rewrite bind_read in Er.
      by rewrite decide_True in Er by lia.
  - destruct (ledger_completed c0 (w_db w) p i t x) as [Hcap Hled']; [done..|].
    rewrite (WorkerUpdateTask_complete p i t w Hcap) in Er. by injection Er as _ <-.
Qed.

(** A completed task, whatever the fate of the call. *)
Lemma complete_transaction_run `{Env} p i t w :
  Forall (fun r => worker_is p i r -> Capacity r + 1 < 2 ^ 31) (Worker (w_db w)) ->
  transaction (long_proc (WorkerUpdateTask_run p i t COMPLETE)) w =
  (Done (if decide (fate_stream (w_tick w) = Committed) then RSuccess (long_result SUCCESS) else RFailure),
   if decide (fate_stream (w_tick w) = Aborted) then tick w
   else set_db (completed p i t (w_db w)) (tick w)).
Proof.
  intros Hcap. unfold transaction, mbind, M_bind, draw_fate, run_txn.
  rewrite (long_proc_run _ _ _ _ (WorkerUpdateTask_complete p i t (tick w) Hcap)).
  by destruct (fate_stream (w_tick w)).
Qed.

Lemma complete_transaction_cases `{Env} c0 p i t x w r w' :
  transaction (long_proc (WorkerUpdateTask_run p i t COMPLETE)) w = (Done r, w') ->
  Ledger c0 (w_db w) -> map_Forall (fun _ c => c < 2 ^ 31) c0 ->
  x ∈ Task (w_db w) -> task_of p t i x -> State x <> COMPLETE ->
  (w_db w' = w_db w /\ r = RFailure) \/
  (step (w_db w) (w_db w') /\ w_db w' = completed p i t (w_db w)).
Proof.
  intros Er Hled Hc0 Hx Hof Hs.
  destruct (ledger_completed c0 (w_db w) p i t x) as [Hcap _]; [done..|].
  rewrite complete_transaction_run in Er by done. injection Er as <- <-.
  destruct (fate_stream (w_tick w)); [right|by left|right]; (split; [|done]);
    exact (step_complete p i t x (tick w) _ SUCCESS Hx Hof Hs (WorkerUpdateTask_complete p i t (tick w) Hcap)).
Qed.

Lemma ledger_rtc c0 d d' :
  map_Forall (fun _ c => c < 2 ^ 31) c0 -> rtc step d d' -> Ledger c0 d -> Ledger c0 d'.
Proof. intros Hc0. induction 1; eauto using ledger_step. Qed.

Lemma ledger_start d : wf_db d -> Task d = [] -> Ledger (capacity d) d.
Proof.
  intros Hwf HT. split; [done|rewrite HT; apply NoDup_nil_2|]. intros k.
  unfold open_count. rewrite HT. cbn. destruct (capacity d !! k); cbn; [f_equal; lia|done].
Qed.

Lemma capacity_bounded d : wf_db d -> map_Forall (fun _ c => c < 2 ^ 31) (capacity d).
Proof.
  intros Hwf k c (r & Hr & _ & <-)%capacity_inv. destruct (wf_row d r Hwf Hr). lia.
Qed.

(** ** Properties *)

(** C1: whatever schedulers and workers do, in whatever order and with
    whatever choices of the database, a worker that started with capacity [c]
    has capacity [c] minus the number of its open tasks, and never holds more
    than [c] of them. *)
Theorem capacity_accounts_for_open_tasks d0 d :
  wf_db d0 -> Task d0 = [] -> rtc step d0 d ->
  forall k c, capacity d0 !! k = Some c ->
    capacity d !! k = Some (c - Z.of_nat (open_count k d)) /\
    Z.of_nat (open_count k d) <= c.
Proof.
  intros Hwf HT Hsteps k c Hc.
  destruct (ledger_rtc (capacity d0) d0 d) as [Hwf' _ Hsum];
    [by apply capacity_bounded|done|by apply ledger_start|].
  specialize (Hsum k). rewrite Hc in Hsum. cbn in Hsum. split; [done|].
  apply capacity_inv in Hsum as (r & Hr & _ & E). destruct (wf_row d r Hwf' Hr). lia.
Qed.

(** C32: once every task is complete, the pool is back where it started: no
    capacity is lost and no worker appears or disappears. *)
Theorem capacity_restored d0 d :
  wf_db d0 -> Task d0 = [] -> rtc step d0 d ->
  Forall (fun t => State t = COMPLETE) (Task d) -> capacity d = capacity d0.
Proof.
  intros Hwf HT Hsteps Hdone.
  destruct (ledger_rtc (capacity d0) d0 d) as [_ _ Hsum];
    [by apply capacity_bounded|done|by apply ledger_start|].
  apply map_eq. intros k. rewrite Hsum. unfold open_count.
  assert (filter (open_of k) (Task d) = []) as ->.
  { induction Hdone as [|t l Ht _ IH]; [done|]. rewrite filter_cons, IH.
    rewrite decide_False; [done|]. intros [_ Ho]. by apply Ho. }
  destruct (capacity d0 !! k); cbn; [f_equal; lia|done].
Qed.

(** The accounting rests on the workers reporting each task once:
    [WorkerUpdateTask] gives a unit back for every report of a completion,
    whether or not the task was complete already (or exists at all). *)
Theorem repeated_completion_adds_capacity p i t c w :
  wf_db (w_db w) -> capacity (w_db w) !! (p, i) = Some c -> c + 2 < 2 ^ 31 ->
  exists w1 w2,
    WorkerUpdateTask_run p i t COMPLETE w = (Done SUCCESS, w1) /\
    WorkerUpdateTask_run p i t COMPLETE w1 = (Done SUCCESS, w2) /\
    w_db w2 = completed p i t (completed p i t (w_db w)) /\
    capacity (w_db w2) !! (p, i) = Some (c + 2).
Proof.
  intros Hwf Hc Hlt.
  assert (forall w c, wf_db (w_db w) -> capacity (w_db w) !! (p, i) = Some c -> c + 1 < 2 ^ 31 ->
    exists w', WorkerUpdateTask_run p i t COMPLETE w = (Done SUCCESS, w') /\
      w_db w' = completed p i t (w_db w) /\ wf_db (w_db w') /\ capacity (w_db w') !! (p, i) = Some (c + 1)) as Hone.
  { clear. intros w c Hwf Hc Hlt.
    assert (forall r, r ∈ Worker (w_db w) -> key r = (p, i) -> Capacity r = c) as Hcap.
    { intros r Hr Hk. rewrite <- Hk, (capacity_lookup _ r) in Hc by done. by simplify_eq. }
    assert (wf_db (on_Task (update_where (task_of p t i) (set_State COMPLETE)) (w_db w))) as Hwf2
      by (destruct Hwf; by split).
    eexists. split; [apply WorkerUpdateTask_complete|split; [done|split]].
    - apply Forall_forall. intros r Hr Hk%worker_is_key. rewrite (Hcap r Hr Hk). lia.
    - apply (wf_db_update p i (fun r => Capacity r + 1)); [done|].
      intros r Hr Hk. destruct (wf_row _ r Hwf Hr). specialize (Hcap r Hr Hk). lia.
    - rewrite w_db_set_db. unfold completed.
      rewrite (capacity_update (fun r => Capacity r + 1) _ _ _ (fun c => c + 1)) by done.
      rewrite lookup_alter_eq. change (capacity (on_Task _ (w_db w))) with (capacity (w_db w)).
      by rewrite Hc. }
  destruct (Hone w c) as (w1 & E1 & Hd1 & Hwf1 & Hc1); [done|done|lia|].
  destruct (Hone w1 (c + 1)) as (w2 & E2 & Hd2 & _ & Hc2); [done|done|lia|].
  exists w1, w2. split_and!; [done|done|by rewrite Hd2, Hd1|]. rewrite Hc2. f_equal. lia.
Qed.

(** ** Examples *)

Definition ledger_demo : db := Db [WorkerRow 4 2 0 0 ""] [] [] [] [] [].

Lemma ledger_demo_wf : wf_db ledger_demo.
Proof. split; [apply NoDup_singleton|]. repeat constructor; by vm_compute. Qed.

(** One task scheduled with worker 4 of partition 0. *)
Lemma ledger_demo_step :
  step ledger_demo (Db [WorkerRow 4 1 0 0 ""] [TaskRow 7 4 1 0] [] [] [] []).
Proof.
  apply (step_SelectOrdered (steady Z.of_nat) 0 7 (init_world ledger_demo)
    (World (Db [WorkerRow 4 1 0 0 ""] [TaskRow 7 4 1 0] [] [] [] []) 1 [] 0 0 0) 4).
  - apply not_elem_of_nil.
  - by vm_compute.
  - reflexivity.
Qed.

Lemma ledger_demo_complete :
  step (Db [WorkerRow 4 1 0 0 ""] [TaskRow 7 4 1 0] [] [] [] [])
    (Db [WorkerRow 4 2 0 0 ""] [TaskRow 7 4 3 0] [] [] [] []).
Proof.
  apply (step_complete 0 4 7 (TaskRow 7 4 1 0)
    (init_world (Db [WorkerRow 4 1 0 0 ""] [TaskRow 7 4 1 0] [] [] [] []))
    (init_world (Db [WorkerRow 4 2 0 0 ""] [TaskRow 7 4 3 0] [] [] [] [])) 0);
    [by left|done|done|reflexivity].
Qed.

Lemma capacity_accounts_for_open_tasks_witness :
  rtc step ledger_demo (Db [WorkerRow 4 1 0 0 ""] [TaskRow 7 4 1 0] [] [] [] []) /\
  capacity (Db [WorkerRow 4 1 0 0 ""] [TaskRow 7 4 1 0] [] [] [] []) !! (0, 4) = Some (2 - 1).
Proof.
  split; [apply rtc_once, ledger_demo_step|].
  apply (capacity_accounts_for_open_tasks ledger_demo _ ledger_demo_wf eq_refl
    (rtc_once _ _ ledger_demo_step) (0, 4) 2 eq_refl).
Defined.

Lemma capacity_restored_witness :
  rtc step ledger_demo (Db [WorkerRow 4 2 0 0 ""] [TaskRow 7 4 3 0] [] [] [] []) /\
  capacity (Db [WorkerRow 4 2 0 0 ""] [TaskRow 7 4 3 0] [] [] [] []) = capacity ledger_demo.
Proof.
  assert (rtc step ledger_demo (Db [WorkerRow 4 2 0 0 ""] [TaskRow 7 4 3 0] [] [] [] [])) as Hs
    by (eapply rtc_l; [apply ledger_demo_step|apply rtc_once, ledger_demo_complete]).
  split; [exact Hs|].
  apply (capacity_restored ledger_demo _ ledger_demo_wf eq_refl Hs).
  repeat constructor.
Defined.

Lemma repeated_completion_adds_capacity_witness :
  exists w1 w2,
    WorkerUpdateTask_run 0 4 7 COMPLETE (init_world ledger_demo) = (Done SUCCESS, w1) /\
    WorkerUpdateTask_run 0 4 7 COMPLETE w1 = (Done SUCCESS, w2) /\
    w_db w2 = completed 0 4 7 (completed 0 4 7 ledger_demo) /\
    capacity (w_db w2) !! (0, 4) = Some (2 + 2).
Proof.
  apply (repeated_completion_adds_capacity 0 4 7 2 (init_world ledger_demo));
    [exact ledger_demo_wf|reflexivity|lia].
Defined.
