(* ===== verification/SchedulerUtil.v ===== *)
(** * VoltdbSchedulerUtil

    The base class of the schedulers
    ([src/libs/lib_scheduler/VoltdbSchedulerUtil.{h,cc}]), the [Task] they are
    given ([Task.h]), and the arithmetic their code shares. *)

From S2P Require Import Prelude Tables World Procs Client Frame.
From Stdlib Require Import SpecFloat Ascii.

(** ** Integer and float arithmetic of the schedulers *)

(** [a % b] on ints. *)
Definition int_rem (a b : Z) : M world Z :=
  if decide (b = 0) then throw DivisionByZero else mret (c_rem a b).

(** IEEE binary32. *)
Definition f32 := spec_float.
Definition f32_of_int (z : Z) : f32 := binary_normalize 24 128 z 0 false.
Definition f32_div (a b : f32) : f32 := SFdiv 24 128 a b.
Definition f32_gtb (a b : f32) : bool := SFltb b a.

Section Coin.
Context `{Env}.

(** [static_cast<float>(rand()) / static_cast<float>(RAND_MAX)] *)
Definition throw_coin : M world f32 :=
  r ← c_rand; mret (f32_div (f32_of_int r) (f32_of_int RAND_MAX)).
End Coin.

(** ** Tasks *)

Record task := Task_ { targetData : Z; execTime : Z }.

(** The message of [protos/frontend.proto]: two [int64] fields. *)
Record SubmitTaskRequest := { targetdata : Z; exectime : Z }.

Definition taskToProtobuf (t : task) : SubmitTaskRequest :=
  {| targetdata := targetData t; exectime := execTime t |}.
Definition protobufToTask (r : SubmitTaskRequest) : task :=
  {| targetData := wrap32 (targetdata r); execTime := wrap32 (exectime r) |}.

(** ** The interface of the schedulers *)

Class SchedulerUtil `{Env} (T : Type) := {
  schedule_ : T -> task -> M world bool;
  asyncSchedule_ : T -> M world bool;
  setup_ : T -> M world bool;
  teardown_ : T -> M world bool;
}.

Section Base.
Context `{Env}.

(** The [asyncSchedule] a class inherits that does not override it. *)
Definition asyncSchedule_default : M world bool := throw ProcessExit.

(** [for (int i = partition; i < partition + num_partitions; ++i)] *)
Definition asyncSendMessage (partition num_partitions : Z) : M world bool :=
  for_loop (R := unit) (Z.to_nat num_partitions) partition tt (fun i _ =>
    invokeAsync (Procedure_new "SendMessage" [scalar WIRE_TYPE_INTEGER]) [VInt i] ;;
    mret (Next tt)) ;;
  mret true.

Definition asyncBroadcastMessage : M world bool :=
  invokeAsync (Procedure_new "BroadcastMessage" [scalar WIRE_TYPE_INTEGER]) [VInt 0] ;;
  mret true.

(** A procedure without parameters whose failure is only reported. *)
Definition truncate (name : string) : M world unit :=
  invoke (Procedure_new name []) [] ;; mret tt.
Definition truncateWorkerTable : M world unit := truncate "TruncateWorkerTable".
Definition truncateTaskTable : M world unit := truncate "TruncateTaskTable".

(** The answer of a procedure call whose result is not looked at. *)
Definition succeeded (r : response) : bool :=
  match r with RFailure => false | RSuccess _ => true end.

(** [insertWorker] as all schedulers but SparkScheduler have it. *)
Definition insertWorker (partitions workerID capacity : Z) : M world bool :=
  pkey ← int_rem workerID partitions;
  r ← invoke (Procedure_new "InsertWorker"
                [scalar WIRE_TYPE_INTEGER; scalar WIRE_TYPE_INTEGER;
                 scalar WIRE_TYPE_INTEGER; scalar WIRE_TYPE_STRING])
        [VInt workerID; VInt capacity; VInt pkey; VStr ""];
  mret (succeeded r).

(** [for (int i = 0; i < n; ++i) { ret = f(i); if (!ret) return false; }] *)
Definition insert_all (n : Z) (f : Z -> M world bool) : M world (ctl unit bool) :=
  for_loop (Z.to_nat n) 0 tt (fun i _ =>
    ret ← f i;
    if (negb ret : bool) then mret (Return false) else mret (Next tt)).

(** What follows a loop that ends in [return v]: [k], unless it returned. *)
Definition after {A R} (c : ctl A R) (k : A -> M world R) : M world R :=
  match c with
  | Return r => mret r
  | Next a | Break a => k a
  end.
End Base.

(** Frame facts of the statements above. *)
Section BaseFrame.
Context `{Env}.

Lemma frame_int_rem a b : preserves same_client (int_rem a b).
Proof. unfold int_rem. frame_solve. Qed.

Lemma frame_first_int64 t : preserves same_client (first_int64 t).
Proof. unfold first_int64. frame_solve. Qed.

Lemma frame_after {A R} (c : ctl A R) (k : A -> M world R) :
  (forall a, preserves same_client (k a)) -> preserves same_client (after c k).
Proof. intros Hk. unfold after. frame_solve. Qed.

Lemma frame_truncate name : preserves same_client (truncate name).
Proof. unfold truncate. frame_solve. Qed.

Lemma frame_insertWorker P i c : preserves same_client (insertWorker P i c).
Proof. unfold insertWorker, int_rem. frame_solve. Qed.

Lemma frame_insert_all n f :
  (forall i, preserves same_client (f i)) -> preserves same_client (insert_all n f).
Proof. intros Hf. unfold insert_all. frame_solve. Qed.
End BaseFrame.

#[export] Hint Resolve frame_int_rem frame_first_int64 frame_after frame_truncate
  frame_insertWorker frame_insert_all : frame.

(** ** Construction: one connection per host *)

(** [std::getline(addrStream, host, ',')] until the stream is exhausted: the
    pieces between the commas, without a last empty piece. *)
Fixpoint getlines (delim : Ascii.ascii) (cur : string) (s : string) : list string :=
  match s with
  | EmptyString => match cur with EmptyString => [] | _ => [cur] end
  | String c s' =>
      if Ascii.eqb c delim then cur :: getlines delim "" s'
      else getlines delim (cur +:+ String c "") s'
  end.

Definition hosts_of (dbAddr : string) : list string := getlines ","%char "" dbAddr.

Section Construct.
(** Whether [createConnection(host)] succeeds; it throws otherwise. *)
Context (connects : string -> bool).

(** The hosts connected to, in order; [None] when an exception leaves the
    constructor. *)
Fixpoint connect_all (hosts done : list string) : option (list string) :=
  match hosts with
  | [] => Some done
  | h :: hosts' => if connects h then connect_all hosts' (done ++ [h]) else None
  end.

Definition VoltdbSchedulerUtil_new (dbAddr : string) : option (list string) :=
  connect_all (hosts_of dbAddr) [].
End Construct.

(** ** Properties *)

Section Messages.
Context `{Env}.

Definition message_to (i : Z) : request := Request "SendMessage" [VInt i].

Lemma invokeAsync_message i w :
  invokeAsync (Procedure_new "SendMessage" [scalar WIRE_TYPE_INTEGER]) [VInt i] w =
  (Done tt, set_inflight (w_inflight w ++ [message_to i]) w).
Proof. done. Qed.

Lemma send_loop n : forall i w,
  for_loop (R := unit) n i tt (fun i _ =>
    invokeAsync (Procedure_new "SendMessage" [scalar WIRE_TYPE_INTEGER]) [VInt i] ;;
    mret (Next tt)) w =
  (Done (Next tt),
   set_inflight (w_inflight w ++ ((fun k => message_to (i + Z.of_nat k)) <$> seq 0 n)) w).
Proof.
  induction n as [|n IH]; intros i w.
  - cbn. rewrite app_nil_r. by destruct w.
  - cbn [for_loop].
    assert ((invokeAsync (Procedure_new "SendMessage" [scalar WIRE_TYPE_INTEGER]) [VInt i] ;;
             mret (Next tt)) w =
      (Done (Next tt : ctl unit unit), set_inflight (w_inflight w ++ [message_to i]) w)) as E
      by done.
    run_bind E. rewrite IH. unfold set_inflight. cbn. rewrite <- app_assoc. cbn.
    do 4 f_equal. rewrite Z.add_0_r. f_equal.
    rewrite <- (fmap_S_seq 0 n), <- list_fmap_compose. apply list_fmap_ext.
    intros k x _. cbn. f_equal. lia.
Qed.

(** [asyncSendMessage] queues one [SendMessage] call per partition, and
    the server rejects every one of them: the procedure takes four
    parameters and is given one, so no message is ever stored. *)
Theorem sent_messages_rejected partition num w :
  asyncSendMessage partition num w =
    (Done true, set_inflight (w_inflight w ++
       ((fun k => message_to (partition + Z.of_nat k)) <$> seq 0 (Z.to_nat num))) w) /\
  forall i w1, serve (message_to i) w1 = (Done RFailure, w1).
Proof.
  split; [|intros i w1; by apply serve_unknown]. unfold asyncSendMessage.
  by run_bind (send_loop (Z.to_nat num) partition w).
Qed.

(** A broadcast is one call with one parameter, as the procedure has it:
    executed, it adds one row to the replicated Broadcast table. *)
Theorem broadcast_stored `{!Reliable} w w1 :
  exists rq, asyncBroadcastMessage w =
      (Done true, set_inflight (w_inflight w ++ [rq]) w) /\
    exists w2, serve rq w1 = (Done (RSuccess (long_result SUCCESS)), w2) /\
      w_db w2 = on_Broadcast (fun l => l ++ [0]) (w_db w1).
Proof.
  exists (Request "BroadcastMessage" [VInt 0]). split; [done|].
  eexists. split; [by apply (transaction_long (BroadcastMessage_run 0))|done].
Qed.
End Messages.

(** *** Hosts *)

Fixpoint has_char (c : ascii) (s : string) : bool :=
  match s with EmptyString => false | String a s' => Ascii.eqb a c || has_char c s' end.

(** The pieces with [delim] between them. *)
Fixpoint join_with (delim : ascii) (pieces : list string) : string :=
  match pieces with
  | [] => ""
  | [p] => p
  | p :: pieces' => p +:+ String delim (join_with delim pieces')
  end.

Lemma string_app_assoc (a b c : string) : (a +:+ b) +:+ c = a +:+ (b +:+ c).
Proof.
  induction a as [|x a IH]; [done|].
  change (String x ((a +:+ b) +:+ c) = String x (a +:+ (b +:+ c))). by rewrite IH.
Qed.

Lemma string_app_nil (a : string) : a +:+ "" = a.
Proof.
  induction a as [|x a IH]; [done|]. change (String x (a +:+ "") = String x a). by rewrite IH.
Qed.

Lemma getlines_piece delim p : forall cur s,
  has_char delim p = false -> getlines delim cur (p +:+ s) = getlines delim (cur +:+ p) s.
Proof.
  induction p as [|c p IH]; intros cur s Hp; [by rewrite string_app_nil|].
  apply orb_false_iff in Hp as [Hc Hp].
  change (String c p +:+ s) with (String c (p +:+ s)). cbn [getlines].
  rewrite Hc, IH by done. by rewrite string_app_assoc.
Qed.

Lemma getlines_join delim pieces :
  Forall (fun p => has_char delim p = false) pieces -> last pieces <> Some ""%string ->
  getlines delim "" (join_with delim pieces) = pieces.
Proof.
  induction 1 as [|p pieces Hp Hps IH]; intros Hl; [done|].
  destruct pieces as [|q pieces].
  - cbn [join_with]. rewrite <- (string_app_nil p) at 1. rewrite getlines_piece by done. cbn.
    destruct p; [by destruct Hl|done].
  - change (join_with delim (p :: q :: pieces)) with (p +:+ String delim (join_with delim (q :: pieces))).
    rewrite getlines_piece by done. cbn [getlines]. rewrite Ascii.eqb_refl. f_equal.
    by apply IH.
Qed.

Lemma connect_all_spec connects hosts : forall connected,
  connect_all connects hosts connected =
  if forallb connects hosts then Some (connected ++ hosts) else None.
Proof.
  induction hosts as [|h hosts IH]; intros connected; cbn; [by rewrite app_nil_r|].
  destruct (connects h); cbn; [|done]. rewrite IH. by rewrite <- app_assoc.
Qed.

(** The constructor splits the address list it is given into exactly the
    hosts it was joined from, and connects to each in that order; the first
    connection that fails ends it with an exception. *)
Theorem constructor_connects_to_all connects hosts :
  Forall (fun h => has_char "," h = false) hosts -> last hosts <> Some ""%string ->
  VoltdbSchedulerUtil_new connects (join_with "," hosts) =
  if forallb connects hosts then Some hosts else None.
Proof.
  intros Hh Hl. unfold VoltdbSchedulerUtil_new, hosts_of.
  rewrite getlines_join by done. by rewrite connect_all_spec.
Qed.

Lemma constructor_connects_to_all_witness :
  VoltdbSchedulerUtil_new (fun _ => true) (join_with "," ["10.0.0.1"; "10.0.0.2"]%string) =
  Some ["10.0.0.1"; "10.0.0.2"]%string.
Proof.
  apply (constructor_connects_to_all (fun _ => true) ["10.0.0.1"; "10.0.0.2"]%string);
    [by repeat constructor|done].
Defined.

Lemma broadcast_stored_witness :
  let E := steady Z.of_nat in
  exists rq w2, serve rq (init_world empty_db) = (Done (RSuccess (long_result SUCCESS)), w2).
Proof.
  destruct (broadcast_stored (H := steady Z.of_nat) (init_world empty_db) (init_world empty_db))
    as (rq & _ & w2 & E & _). exists rq, w2. exact E.
Defined.

(** A task whose fields are ints survives the trip through its message;
    other [int64] fields are cut to 32 bits. *)
Theorem task_message_roundtrip t r :
  (in_signed 32 (targetData t) -> in_signed 32 (execTime t) ->
     protobufToTask (taskToProtobuf t) = t) /\
  in_signed 32 (targetData (protobufToTask r)) /\ in_signed 32 (execTime (protobufToTask r)) /\
  (targetData (protobufToTask r) - targetdata r) mod 2 ^ 32 = 0.
Proof.
  split_and!.
  - intros H1 H2. destruct t. unfold protobufToTask, taskToProtobuf. cbn in *.
    f_equal; by apply wrapS_id.
  - by apply wrapS_range.
  - by apply wrapS_range.
  - cbn. unfold wrapS.
    replace ((targetdata r + 2 ^ (32 - 1)) mod 2 ^ 32 - 2 ^ (32 - 1) - targetdata r)
      with ((targetdata r + 2 ^ (32 - 1)) mod 2 ^ 32 - (targetdata r + 2 ^ (32 - 1))) by lia.
    rewrite Zminus_mod, Zmod_mod, Z.sub_diag. done.
Qed.
