(* ===== verification/Select.v ===== *)
(** * Invocations of the selecting procedures

    What a scheduler sees when it calls one of the procedures that take a
    worker of a partition, on a reliable database. *)

From S2P Require Import Prelude Probing Tables World Procs Pool Client SchedulerUtil.

Section Select.
Context `{Env, !Reliable}.

Definition select_reply (cand : Z -> db -> list worker_row) (p miss : Z) (hit : worker_row -> Z)
    (effect : worker_row -> db -> db) (w : world) (o : outcome response * world) : Prop :=
  (free_workers p (w_db w) = [] /\
     o = (Done (RSuccess (long_result miss)), tick (tick w))) \/
  (exists r, r ∈ cand p (w_db w) /\
     o = (Done (RSuccess (long_result (hit r))),
          set_db (effect r (w_db w)) (tick (tick w)))).

Lemma transaction_select run cand p miss hit effect w :
  select_post cand p miss hit effect (tick w) (run (tick w)) ->
  select_reply cand p miss hit effect w (transaction (long_proc run) w).
Proof.
  intros [[Hf E]|(r & Hr & E)]; [left | right; exists r];
    (split; [done|]); by apply transaction_long.
Qed.

Lemma invoke_SelectWorker p w :
  wf_db (w_db w) ->
  select_reply free_workers p (-1) WorkerID (acquired p) w
    (invoke (Procedure_new "SelectWorker" [scalar WIRE_TYPE_INTEGER]) [VInt p] w).
Proof. intros Hwf. by apply (transaction_select (SelectWorker_run p)), SelectWorker_spec. Qed.

Lemma invoke_SelectOrderedWorker p t w :
  wf_db (w_db w) -> id_ok t ->
  select_reply fullest_workers p (-1) WorkerID (recorded t 1 p) w
    (invoke (Procedure_new "SelectOrderedWorker"
               [scalar WIRE_TYPE_INTEGER; scalar WIRE_TYPE_INTEGER]) [VInt p; VInt t] w).
Proof.
  intros Hwf Ht.
  by apply (transaction_select (SelectOrderedWorker_run p t)), SelectOrderedWorker_spec.
Qed.

Lemma invoke_SelectSingle p t w :
  wf_db (w_db w) -> id_ok t ->
  select_reply free_workers p NOWORKER (fun _ => SUCCESS) (recorded t 1 p) w
    (invoke (Procedure_new "SelectSinglePartitionedTaskWorker"
               [scalar WIRE_TYPE_INTEGER; scalar WIRE_TYPE_INTEGER]) [VInt p; VInt t] w).
Proof.
  intros Hwf Ht.
  by apply (transaction_select (SelectSinglePartitionedTaskWorker_run p t)),
    SelectSingle_spec.
Qed.

Lemma invoke_PushTask p t w :
  wf_db (w_db w) -> id_ok t ->
  select_reply free_workers p NOWORKER (fun _ => SUCCESS) (pushed t p) w
    (invoke (Procedure_new "PushTask"
               [scalar WIRE_TYPE_INTEGER; scalar WIRE_TYPE_INTEGER]) [VInt p; VInt t] w).
Proof.
  intros Hwf Ht. by apply (transaction_select (PushTask_run p t)), PushTask_spec.
Qed.
End Select.

Lemma first_int64_long `{Env} z w : first_int64 (long_result z) w = (Done z, w).
Proof. done. Qed.

Lemma int_rem_ok a b w : 0 <= a -> 0 < b -> int_rem a b w = (Done (a mod b), w).
Proof.
  intros Ha Hb. unfold int_rem. rewrite decide_False by lia. by rewrite c_rem_mod.
Qed.

(** [rand() % n], the first draw of every search. *)
Definition offset_of `{Env} (n : Z) (w : world) : Z :=
  wrapU 31 (rand_stream (w_tick w)) mod n.

Lemma random_start `{Env} {A} n w (k : Z -> M world A) :
  0 < n -> (r ← c_rand; x ← int_rem r n; k x) w = k (offset_of n w) (tick w).
Proof.
  intros Hn. destruct (c_rand w) as [o w1] eqn:Er. pose proof Er as [= <- <-].
  pose proof (c_rand_range _ _ _ Er) as Hr. unfold RAND_MAX in Hr.
  run_bind Er. by rewrite (bind_done _ _ _ _ _ (int_rem_ok _ n (tick w) (proj1 Hr) Hn)).
Qed.

Lemma random_offset `{Env} {A} n w :
  0 < n -> exists offset, 0 <= offset < n /\
    forall (k : Z -> M world A), (r ← c_rand; x ← int_rem r n; k x) w = k offset (tick w).
Proof.
  intros Hn. exists (offset_of n w). split; [by apply Z.mod_pos_bound|].
  intros k. by apply random_start.
Qed.

Lemma wrap32_worker_id d r :
  wf_db d -> r ∈ Worker d -> wrap32 (WorkerID r) = WorkerID r.
Proof. intros Hwf Hr. destruct (wf_row d r Hwf Hr). apply wrap32_id. lia. Qed.

(** Every worker lives in one of the first [n] partitions. *)
Definition workers_within (n : Z) (d : db) : Prop :=
  Forall (fun r => 0 <= W_PKey r < n) (Worker d).

Lemma no_free_anywhere n d :
  wf_db d -> workers_within n d ->
  (forall p, 0 <= p < n -> free_workers p d = []) ->
  Forall (fun r => Capacity r = 0) (Worker d).
Proof.
  intros Hwf Hin Hno. apply Forall_forall. intros r Hr.
  pose proof (proj1 (Forall_forall _ _) Hin r Hr) as Hp. cbn in Hp.
  destruct (wf_row d r Hwf Hr) as [Hc _].
  destruct (decide (0 < Capacity r)) as [Hpos|]; [|lia]. exfalso.
  assert (r ∈ free_workers (W_PKey r) d) as Hf by (by apply elem_of_free_workers).
  rewrite Hno in Hf by lia. by apply not_elem_of_nil in Hf.
Qed.

Lemma workers_within_acquired n p r d :
  workers_within n d -> workers_within n (acquired p r d).
Proof.
  intros Hin. unfold workers_within, acquired. cbn. apply Forall_update_where; [done|].
  by intros x Hx _.
Qed.

(** The outcome of a search for a worker on the database [d]: a worker that
    was free lost one unit of capacity ([effect] says what else was recorded),
    or nobody was free and nothing changed. *)
Definition selected {A} (cand : Z -> db -> list worker_row) (hit : worker_row -> A) (miss : A)
    (effect : Z -> worker_row -> db -> db) (d : db) (o : outcome A) (d' : db) : Prop :=
  (exists r, r ∈ Worker d /\ 0 < Capacity r /\ r ∈ cand (W_PKey r) d /\
     o = Done (hit r) /\
     d' = effect (W_PKey r) r d) \/
  (Forall (fun r => Capacity r = 0) (Worker d) /\ o = Done miss /\ d' = d).

Section Selected.
Context {A : Type} (cand : Z -> db -> list worker_row) (hit : worker_row -> A) (miss : A).
Context (effect : Z -> worker_row -> db -> db) (takes : takes_unit effect).
Context (d : db) (o : outcome A) (d' : db) (d_wf : wf_db d).
Context (sel : selected cand hit miss effect d o d').

Lemma selected_wf : wf_db d'.
Proof using All.
  destruct sel as [(r & Hr & Hpos & _ & _ & ->)|(_ & _ & ->)]; [|done].
  by apply takes_wf.
Qed.

Lemma selected_within n : workers_within n d -> workers_within n d'.
Proof using All.
  intros Hin. destruct sel as [(r & _ & _ & _ & _ & ->)|(_ & _ & ->)]; [|done].
  unfold workers_within. rewrite takes. by apply workers_within_acquired.
Qed.

Lemma selected_hit :
  0 < total_capacity d ->
  exists r, r ∈ Worker d /\ 0 < Capacity r /\ r ∈ cand (W_PKey r) d /\ o = Done (hit r) /\
    d' = effect (W_PKey r) r d /\ total_capacity d' = total_capacity d - 1.
Proof using All.
  intros Ht. destruct sel as [(r & Hr & Hpos & Hc & -> & ->)|(Hnone & _)].
  - exists r. split_and!; try done. by apply takes_total.
  - apply total_capacity_zero in Hnone; [lia|done].
Qed.

Lemma selected_miss : total_capacity d = 0 -> o = Done miss /\ d' = d.
Proof using All.
  intros Ht. destruct sel as [(r & Hr & Hpos & _)|(_ & -> & ->)]; [|done].
  apply total_capacity_zero in Ht; [|done].
  pose proof (proj1 (Forall_forall _ _) Ht r Hr) as Hc. cbn in Hc. lia.
Qed.
End Selected.

(** ** The search loops of the schedulers *)

Section Loops.
Context `{Env}.
Context (call : Z -> M world response) (effect : Z -> worker_row -> db -> db).
Context (cand : Z -> db -> list worker_row).
Context (cand_sub : forall p d r, r ∈ cand p d -> r ∈ free_workers p d).
Context (n : Z) (d : db).
Context (n_range : 0 < n <= 2 ^ 30) (d_wf : wf_db d).

(** Partition after partition, from [offset]: the loop of [selectWorker]. *)
Definition linear_body (offset : Z) (count : Z) (_ : unit) : M world (ctl unit Z) :=
  partitionNum ← int_rem (wrap32 (count + offset)) n;
  r ← call partitionNum;
  match r with
  | RFailure => mret (Return (-1))
  | RSuccess results =>
      z ← first_int64 results;
      let selectedWorker := wrap32 z in
      if decide (selectedWorker <> -1) then mret (Return selectedWorker)
      else mret (Next tt)
  end.

(** The triangular walk of [selectTaskWorker]. *)
Definition triangular_body (count pkey : Z) : M world (ctl Z bool) :=
  r ← call pkey;
  match r with
  | RFailure => mret (Return false)
  | RSuccess results =>
      z ← first_int64 results;
      let status := wrap32 z in
      if decide (status = SUCCESS) then mret (Return true)
      else
        pkey' ← int_rem (wrap32 (pkey + count)) n;
        mret (Next pkey')
  end.

(** What a hit leaves behind: worker [r] of partition [p] was taken. *)
Definition took (r : worker_row) (w' : world) : Prop :=
  r ∈ Worker d /\ 0 < Capacity r /\ r ∈ cand (W_PKey r) d /\
  w_db w' = effect (W_PKey r) r d.

Lemma linear_step offset i w :
  (forall p w, w_db w = d -> select_reply cand p (-1) WorkerID (effect p) w (call p w)) ->
  0 <= offset < n -> 0 <= i < n -> w_db w = d ->
  (free_workers ((i + offset) mod n) d = [] /\
     exists w', linear_body offset i tt w = (Done (Next tt), w') /\ w_db w' = d) \/
  (exists r w', W_PKey r = (i + offset) mod n /\
     linear_body offset i tt w = (Done (Return (WorkerID r)), w') /\ took r w').
Proof.
  intros Hcall Hoff Hi Hw. unfold linear_body. rewrite wrap32_id by lia.
  rewrite (bind_done _ _ _ _ _ (int_rem_ok (i + offset) n w ltac:(lia) ltac:(lia))).
  destruct (Hcall ((i + offset) mod n) w Hw) as [[Hf E]|(r & Hr & E)]; run_bind E;
    rewrite Hw in *.
  - left. split; [done|]. by exists (tick (tick w)).
  - right. pose proof (cand_sub _ _ _ Hr) as (Hp & Hpos & Hin)%elem_of_free_workers.
    destruct (wf_row _ _ d_wf Hin) as (_ & Hid & _).
    rewrite (bind_done _ _ _ _ _ (first_int64_long _ _)).
    rewrite (wrap32_worker_id d) by done. rewrite decide_True by lia.
    eexists r, _. split_and!; [done..|]. unfold took. by rewrite Hp.
Qed.

Lemma linear_search offset w :
  (forall p w, w_db w = d -> select_reply cand p (-1) WorkerID (effect p) w (call p w)) ->
  workers_within n d -> 0 <= offset < n -> w_db w = d ->
  exists c w', for_loop (Z.to_nat n) 0 tt (linear_body offset) w = (Done c, w') /\
    ((exists r, c = Return (WorkerID r) /\ took r w') \/
     (c = Next tt /\ w_db w' = d /\ Forall (fun r => Capacity r = 0) (Worker d))).
Proof.
  intros Hcall Hin Hoff Hw. pose proof (linear_step offset) as Hstep.
  assert (forall i, Decision (free_workers ((i + offset) mod n) d <> [])) as Hdec
    by (intros; apply _).
  edestruct (search_cases (linear_body offset) (fun _ _ => tt) (fun _ => True)
      (fun i _ => free_workers ((i + offset) mod n) d <> []) 0 n
      (fun s => w_db s = d) (fun v s => exists r, v = WorkerID r /\ took r s))
    with (n := Z.to_nat n) (i := 0) (a := tt) (s := w)
    as [(v & s & E & x & -> & Hx)|(s & E & Hs & Hmiss)]; try done; try lia.
  - intros i [] s Hi _ Hnot Hs.
    destruct (Hstep i s) as [[_ HE]|(r & s' & Hp & _ & Hr & Hc & _)]; try done.
    exfalso. apply Hnot. intros En.
    assert (r ∈ free_workers ((i + offset) mod n) d) as Hf by (by apply elem_of_free_workers).
    rewrite En in Hf. by apply not_elem_of_nil in Hf.
  - intros i [] s Hi _ Hhit Hs.
    destruct (Hstep i s) as [[Hf _]|(r & s' & _ & E & Ht)]; try done. eauto 6.
  - exists (Return (WorkerID x)), s. eauto.
  - exists (Next tt), s. split; [by destruct (walk _ _ _ _)|]. right. split_and!; [done..|].
    apply (no_free_anywhere n); [done..|]. intros p Hp.
    destruct (linear_covers n offset p) as (k & Hk & <-); [lia|done|].
    destruct (Hdec (Z.of_nat k)) as [Hh|Hh]; [by destruct (Hmiss k)|].
    by apply dec_stable.
Qed.

(** [selectWorker]: the loop from a random offset. *)
Lemma linear_select w :
  (forall p w, w_db w = d -> select_reply cand p (-1) WorkerID (effect p) w (call p w)) ->
  workers_within n d -> w_db w = d ->
  let o := (r ← c_rand;
            offset ← int_rem r n;
            c ← for_loop (Z.to_nat n) 0 tt (linear_body offset);
            after c (fun _ => mret (-1))) w in
  selected cand WorkerID (-1) effect d o.1 (w_db o.2).
Proof.
  intros Hcall Hin Hw. cbn zeta.
  destruct (random_offset (A := Z) n w) as (offset & Hoff & E); [lia|]. rewrite E.
  destruct (linear_search offset (tick w)) as (c & w' & El & Hc); [done..|].
  run_bind El. destruct Hc as [(r & -> & Hr & Hpos & Hcand & Hd)|(-> & Hd & Hnone)];
    [left; exists r | right]; by cbn.
Qed.

Lemma triangular_step i p w :
  (forall p w, w_db w = d ->
     select_reply cand p NOWORKER (fun _ => SUCCESS) (effect p) w (call p w)) ->
  0 <= p < n -> 1 <= i < n + 1 -> w_db w = d ->
  (free_workers p d = [] /\
     exists w', triangular_body i p w = (Done (Next (tri_next n i p)), w') /\ w_db w' = d) \/
  (exists r w', W_PKey r = p /\ triangular_body i p w = (Done (Return true), w') /\ took r w').
Proof.
  intros Hcall Hp Hi Hw. unfold triangular_body.
  destruct (Hcall p w Hw) as [[Hf E]|(r & Hr & E)]; run_bind E; rewrite Hw in *.
  - left. split; [done|]. rewrite (bind_done _ _ _ _ _ (first_int64_long _ _)).
    change (wrap32 NOWORKER) with (-2). rewrite decide_False by done.
    rewrite (wrap32_id (p + i)) by lia.
    rewrite (bind_done _ _ _ _ _ (int_rem_ok (p + i) n _ ltac:(lia) ltac:(lia))).
    by eexists.
  - right. pose proof (cand_sub _ _ _ Hr) as (Hq & Hpos & Hin)%elem_of_free_workers.
    rewrite (bind_done _ _ _ _ _ (first_int64_long _ _)).
    eexists r, _. split_and!; [done..|]. unfold took. by rewrite Hq.
Qed.

Lemma triangular_search p0 w :
  (forall p w, w_db w = d ->
     select_reply cand p NOWORKER (fun _ => SUCCESS) (effect p) w (call p w)) ->
  0 <= p0 < n -> w_db w = d ->
  exists c w', for_loop (Z.to_nat n) 1 p0 triangular_body w = (Done c, w') /\
    ((exists r, c = Return true /\ took r w') \/
     (c = Next (probe n p0 (Z.to_nat n)) /\ w_db w' = d /\
      forall k, (k < Z.to_nat n)%nat -> free_workers (probe n p0 k) d = [])).
Proof.
  intros Hcall Hp0 Hw. pose proof triangular_step as Hstep.
  assert (forall p, Decision (free_workers p d <> [])) as Hdec by (intros; apply _).
  edestruct (search_cases triangular_body (tri_next n) (fun p => 0 <= p < n)
      (fun _ p => free_workers p d <> []) 1 (n + 1)
      (fun s => w_db s = d) (fun v s => exists r, v = true /\ took r s))
    with (n := Z.to_nat n) (i := 1) (a := p0) (s := w)
    as [(v & s & E & x & -> & Hx)|(s & E & Hs & Hmiss)]; try done; try lia.
  - intros i p Hi Hp. apply Z.mod_pos_bound. lia.
  - intros i p s Hi Hp Hnot Hs.
    destruct (Hstep i p s) as [[_ HE]|(r & s' & Hq & _ & Hr & Hc & _)]; try done.
    exfalso. apply Hnot. intros En.
    assert (r ∈ free_workers p d) as Hf by (by apply elem_of_free_workers).
    rewrite En in Hf. by apply not_elem_of_nil in Hf.
  - intros i p s Hi Hp Hhit Hs.
    destruct (Hstep i p s) as [[Hf _]|(r & s' & _ & E & Ht)]; try done. eauto 6.
  - exists (Return true), s. eauto.
  - exists (Next (probe n p0 (Z.to_nat n))), s. rewrite walk_tri in E by lia.
    split; [done|]. right. split_and!; [done..|]. intros k Hk.
    specialize (Hmiss k Hk). rewrite walk_tri in Hmiss by lia. by apply dec_stable.
Qed.

(** A pass whose probes are all in vain ends where the sequence does. *)
Lemma triangular_none p0 w :
  (forall p w, w_db w = d ->
     select_reply cand p NOWORKER (fun _ => SUCCESS) (effect p) w (call p w)) ->
  0 <= p0 < n -> w_db w = d ->
  (forall k, free_workers (probe n p0 k) d = []) ->
  exists w', for_loop (Z.to_nat n) 1 p0 triangular_body w =
      (Done (Next (probe n p0 (Z.to_nat n))), w') /\ w_db w' = d.
Proof.
  intros Hcall Hp0 Hw Hnone. pose proof triangular_step as Hstep.
  destruct (search_miss triangular_body (tri_next n) (fun p => 0 <= p < n)
      (fun _ p => free_workers p d <> []) 1 (n + 1) (fun s => w_db s = d))
    with (n := Z.to_nat n) (i := 1) (a := p0) (s := w) as (s & E & Hs); try done; try lia.
  - intros i p Hi Hp. apply Z.mod_pos_bound. lia.
  - intros i p s Hi Hp Hnot Hs.
    destruct (Hstep i p s) as [[_ HE]|(r & s' & Hq & _ & Hr & Hc & _)]; try done.
    exfalso. apply Hnot. intros En.
    assert (r ∈ free_workers p d) as Hf by (by apply elem_of_free_workers).
    rewrite En in Hf. by apply not_elem_of_nil in Hf.
  - intros k Hk Hh. apply Hh. rewrite walk_tri by lia. apply Hnone.
  - exists s. by rewrite walk_tri in E by lia.
Qed.

(** [selectTaskWorker]: one pass from a random partition, on a number of
    partitions of which the pass reaches all. *)
Lemma triangular_select w :
  (forall p w, w_db w = d ->
     select_reply cand p NOWORKER (fun _ => SUCCESS) (effect p) w (call p w)) ->
  power_of_two n -> workers_within n d -> w_db w = d ->
  let o := (r ← c_rand;
            pkey ← int_rem r n;
            c ← for_loop (Z.to_nat n) 1 pkey triangular_body;
            after c (fun _ => mret false)) w in
  selected cand (fun _ => true) false effect d o.1 (w_db o.2).
Proof.
  intros Hcall (m & Hm & En) Hin Hw. cbn zeta.
  destruct (random_offset (A := bool) n w) as (p0 & Hp0 & E); [lia|]. rewrite E.
  destruct (triangular_search p0 (tick w)) as (c & w' & El & Hc); [done..|].
  run_bind El. destruct Hc as [(r & -> & Hr & Hpos & Hcand & Hd)|(-> & Hd & Hnone)];
    [left; exists r; by cbn | right]. split; [|by cbn].
  apply (no_free_anywhere n); [done..|]. intros p Hp.
  destruct (probe_covers_pow2 m p0 p Hm) as (k & Hk & <-); [by rewrite <- En|].
  rewrite <- En in *. auto.
Qed.
End Loops.
