(* ===== verification/Typing.v ===== *)
(** * The types of the tables and of the procedures

    The schema of [sql/create_*_table.sql] says which values a column can hold,
    the Java classes of the procedures which results a call has.  Every
    procedure keeps every row within the schema and answers with rows of its
    result type, on any request at all. *)

From S2P Require Import Prelude Tables World Procs Pool Client Frame SchedulerUtil Select.
#[local] Open Scope Z_scope.

(** ** Columns *)

(** The types of columns: [INTEGER], [BIGINT] and [VARCHAR], all [NOT NULL]. *)
Inductive column := CInteger | CBigint | CVarchar.

(** The least number of a type stands for NULL. *)
Abbreviation integer_ok := id_ok.
Definition bigint_ok (z : Z) : Prop := - 9223372036854775808 < z < 9223372036854775808.

Definition has_type (c : column) (v : value) : Prop :=
  match c, v with
  | CInteger, VInt z => integer_ok z
  | CBigint, VInt z => bigint_ok z
  | CVarchar, VStr _ => True
  | _, _ => False
  end.

(** ** Tables *)

Record typed_worker (r : worker_row) : Prop := {
  tw_id : integer_ok (WorkerID r);
  tw_capacity : integer_ok (Capacity r);
  tw_shards : integer_ok (DataShards r);
  tw_pkey : integer_ok (W_PKey r);
}.

Record typed_task (t : task_row) : Prop := {
  tt_id : integer_ok (TaskID t);
  tt_worker : integer_ok (T_WorkerID t);
  tt_state : integer_ok (State t);
  tt_pkey : integer_ok (T_PKey t);
}.

Record typed_data (r : data_row) : Prop := {
  td_shard : integer_ok (DataShard r);
  td_pkey : integer_ok (D_PKey r);
}.

Record typed_message (m : message_row) : Prop := {
  tm_receiver : integer_ok (ReceiverID m);
  tm_sender : integer_ok (SenderID m);
  tm_id : bigint_ok (MessageID m);
}.

Record typed_assign (a : assign_row) : Prop := {
  ta_id : integer_ok (A_TaskID a);
  ta_pkey : integer_ok (A_PKey a);
}.

(** Every row of every table is within the schema. *)
Record typed_db (d : db) : Prop := {
  typed_Worker : Forall typed_worker (Worker d);
  typed_Task : Forall typed_task (Task d);
  typed_DataLocation : Forall typed_data (DataLocation d);
  typed_Message : Forall typed_message (Message d);
  typed_Broadcast : Forall integer_ok (Broadcast d);
  typed_TaskAssign : Forall typed_assign (TaskAssign d);
}.

Lemma typed_empty : typed_db empty_db.
Proof. by split; apply Forall_nil. Qed.

(** ** Procedures *)

(** The result of [run]: a [long], or a table with these columns. *)
Inductive result_type := RLong | RTable (columns : list column).

Definition conforms (rt : result_type) (t : table) : Prop :=
  match rt with
  | RLong => exists z, t = [[VInt z]] /\ integer_ok z
  | RTable columns => Forall (Forall2 has_type columns) t
  end.

(** The three procedures that answer with a [VoltTable[]]. *)
Definition result_of (name : string) : result_type :=
  if String.eqb name "WorkerSelectTask" then RTable [CInteger]
  else if String.eqb name "SelectDataShardPartition" then RTable [CInteger]
  else if String.eqb name "ReceiveMessage" then RTable [CInteger; CBigint; CVarchar]
  else RLong.

(** ** Keeping the types *)

(** On a typed database [m] leaves a typed one, however it ends, and what it
    returns satisfies [Q]. *)
Definition keeps {A} (Q : A -> Prop) (m : M world A) : Prop := forall w,
  typed_db (w_db w) ->
  typed_db (w_db (m w).2) /\ match (m w).1 with Done a => Q a | _ => True end.

Create HintDb typing discriminated.
#[export] Hint Constants Opaque : typing.

Lemma keeps_ret {A} (Q : A -> Prop) a : Q a -> keeps Q (mret a).
Proof. intros Ha w Hw. by split. Qed.

Lemma keeps_throw {A} (Q : A -> Prop) t : keeps Q (throw t).
Proof. intros w Hw. by split. Qed.

Lemma keeps_bind {A B} (P : A -> Prop) (Q : B -> Prop) (m : M world A) k :
  keeps P m -> (forall a, P a -> keeps Q (k a)) -> keeps Q (m ≫= k).
Proof.
  intros Hm Hk w Hw. unfold mbind, M_bind. destruct (Hm w Hw) as [H1 H2].
  destruct (m w) as [[a|t|] w1]; cbn in *; [by apply Hk|done..].
Qed.

Lemma keeps_read {A} (Q : A -> Prop) (q : db -> A) :
  (forall d, typed_db d -> Q (q d)) -> keeps Q (sql_read q).
Proof. intros Hq w Hw. split; [done|]. by apply Hq. Qed.

Lemma keeps_write (f : db -> db) :
  (forall d, typed_db d -> typed_db (f d)) -> keeps (fun _ => True) (sql_write f).
Proof. intros Hf w Hw. split; [by apply Hf|done]. Qed.

Lemma keeps_col z : keeps integer_ok (int_col z).
Proof.
  unfold int_col. destruct (in_signedb 32 z) eqn:E; [|apply keeps_throw].
  case_bool_decide; [apply keeps_throw|]. apply keeps_ret.
  apply in_signedb_spec in E. unfold in_signed in E. cbn in E. unfold id_ok. lia.
Qed.

Lemma keeps_bigcol z : keeps bigint_ok (bigint_col z).
Proof.
  unfold bigint_col. destruct (in_signedb 64 z) eqn:E; [|apply keeps_throw].
  case_bool_decide; [apply keeps_throw|]. apply keeps_ret.
  apply in_signedb_spec in E. unfold in_signed in E. cbn in E. unfold bigint_ok. lia.
Qed.

Section Draws.
Context `{Env}.

Lemma keeps_pick_row {A} (P : A -> Prop) l :
  Forall P l -> keeps (fun r => match r with Some x => P x | None => True end) (pick_row l).
Proof.
  intros Hl w Hw. destruct (pick_row_cases l w) as [[_ ->]|(x & Hx & ->)]; split; try done.
  cbn. by eapply Forall_forall in Hl.
Qed.

Lemma keeps_pick_rows {A} (P : A -> Prop) k l : Forall P l -> keeps (Forall P) (pick_rows k l).
Proof.
  intros Hl w Hw. destruct (pick_rows_spec k l w) as (xs & rest & t & -> & _ & Hp). cbn.
  split; [done|]. rewrite Hp in Hl. by apply Forall_app in Hl as [? _].
Qed.
End Draws.

(** ** The statements *)

Section Writes.
Context (d : db) (Hd : typed_db d).

Lemma typed_on_Worker f : Forall typed_worker (f (Worker d)) -> typed_db (on_Worker f d).
Proof using Hd. intros. by split; try apply Hd. Qed.
Lemma typed_on_Task f : Forall typed_task (f (Task d)) -> typed_db (on_Task f d).
Proof using Hd. intros. by split; try apply Hd. Qed.
Lemma typed_on_DataLocation f : Forall typed_data (f (DataLocation d)) -> typed_db (on_DataLocation f d).
Proof using Hd. intros. by split; try apply Hd. Qed.
Lemma typed_on_Message f : Forall typed_message (f (Message d)) -> typed_db (on_Message f d).
Proof using Hd. intros. by split; try apply Hd. Qed.
Lemma typed_on_Broadcast f : Forall integer_ok (f (Broadcast d)) -> typed_db (on_Broadcast f d).
Proof using Hd. intros. by split; try apply Hd. Qed.
Lemma typed_on_TaskAssign f : Forall typed_assign (f (TaskAssign d)) -> typed_db (on_TaskAssign f d).
Proof using Hd. intros. by split; try apply Hd. Qed.
End Writes.

Lemma typed_set_Capacity c r : integer_ok c -> typed_worker r -> typed_worker (set_Capacity c r).
Proof. intros Hc []. by split. Qed.
Lemma typed_set_State s t : integer_ok s -> typed_task t -> typed_task (set_State s t).
Proof. intros Hs []. by split. Qed.
Lemma typed_set_T_WorkerID i t : integer_ok i -> typed_task t -> typed_task (set_T_WorkerID i t).
Proof. intros Hs []. by split. Qed.

Lemma Forall_filter {A} (P Q : A -> Prop) `{!forall x, Decision (Q x)} l : Forall P l -> Forall P (filter Q l).
Proof.
  intros Hl. apply Forall_forall. intros x [_ Hx]%list_elem_of_filter. by eapply Forall_forall in Hl.
Qed.

Lemma Forall_remove_dups `{EqDecision A} (P : A -> Prop) l : Forall P l -> Forall P (remove_dups l).
Proof.
  intros Hl. apply Forall_forall. intros x Hx.
  rewrite elem_of_remove_dups in Hx. by apply (proj1 (Forall_forall P l) Hl).
Qed.

Lemma Forall_snoc {A} (P : A -> Prop) l x : Forall P l -> P x -> Forall P (l ++ [x]).
Proof. intros. apply Forall_app_2; [done|by apply Forall_singleton]. Qed.

(** Rows that are read are rows of the table. *)
Lemma keeps_read_workers (q : db -> list worker_row) :
  (forall d, q d ⊆ Worker d) -> keeps (Forall typed_worker) (sql_read q).
Proof.
  intros Hq. apply keeps_read. intros d Hd. apply Forall_forall. intros x Hx%Hq. revert x Hx.
  apply Forall_forall, Hd.
Qed.

Lemma keeps_read_tasks (q : db -> list task_row) :
  (forall d, q d ⊆ Task d) -> keeps (Forall typed_task) (sql_read q).
Proof.
  intros Hq. apply keeps_read. intros d Hd. apply Forall_forall. intros x Hx%Hq. revert x Hx.
  apply Forall_forall, Hd.
Qed.

Lemma keeps_read_messages (q : db -> list message_row) :
  (forall d, q d ⊆ Message d) -> keeps (Forall typed_message) (sql_read q).
Proof.
  intros Hq. apply keeps_read. intros d Hd. apply Forall_forall. intros x Hx%Hq. revert x Hx.
  apply Forall_forall, Hd.
Qed.

Lemma keeps_read_shards dataShard : keeps (Forall integer_ok) (sql_read (shard_partitions dataShard)).
Proof.
  apply keeps_read. intros d Hd. apply Forall_remove_dups, Forall_fmap, Forall_filter.
  eapply Forall_impl; [apply Hd|]. by intros r [].
Qed.

(** ** Every procedure *)

Section Procedures.
Context `{Env}.

(** Filters, one on the other, of a table. *)
Ltac rows_of :=
  cbv [free_workers fullest spark_workers selectPendingTasks];
  repeat (etrans; [apply list_subseteq_filter|]); done.

(** Follow the code of a procedure. *)
Ltac keeps_solve :=
  repeat first
    [ progress intros
    | progress cbn beta iota in *
    | eapply keeps_bind; [first
        [ apply keeps_col | apply keeps_bigcol
        | apply keeps_read_workers; intros; rows_of
        | apply keeps_read_tasks; intros; rows_of
        | apply keeps_read_messages; intros; rows_of
        | apply keeps_read_shards
        | apply keeps_pick_row; eassumption
        | apply keeps_pick_rows; eassumption ] | ] ].

Lemma keeps_updateCapacity c p i : keeps (fun _ => True) (updateCapacity c p i).
Proof.
  unfold updateCapacity. keeps_solve. apply keeps_write. intros d Hd. apply typed_on_Worker; [done|].
  apply Forall_update_where; [apply Hd|]. intros. by apply typed_set_Capacity.
Qed.

Lemma keeps_insertTask t w s p : keeps (fun _ => True) (insertTask t w s p).
Proof.
  unfold insertTask. keeps_solve. apply keeps_write. intros d Hd. apply typed_on_Task; [done|].
  apply Forall_snoc; [apply Hd|]. by split.
Qed.

Lemma keeps_insertTaskAssign t u p : keeps (fun _ => True) (insertTaskAssign t u p).
Proof.
  unfold insertTaskAssign. keeps_solve. apply keeps_write. intros d Hd. apply typed_on_TaskAssign; [done|].
  apply Forall_snoc; [apply Hd|]. by split.
Qed.

Lemma keeps_set_State P `{!forall x, Decision (P x)} s : integer_ok s ->
  keeps (fun _ => True) (sql_write (on_Task (update_where P (set_State s)))).
Proof.
  intros Hs. apply keeps_write. intros d Hd. apply typed_on_Task; [done|].
  apply Forall_update_where; [apply Hd|]. intros. by apply typed_set_State.
Qed.

Lemma keeps_set_T_WorkerID P `{!forall x, Decision (P x)} i : integer_ok i ->
  keeps (fun _ => True) (sql_write (on_Task (update_where P (set_T_WorkerID i)))).
Proof.
  intros Hs. apply keeps_write. intros d Hd. apply typed_on_Task; [done|].
  apply Forall_update_where; [apply Hd|]. intros. by apply typed_set_T_WorkerID.
Qed.

Lemma keeps_guard (P : Prop) `{!Decision P} : keeps (fun _ => True) (if decide P then mret tt else throw UncaughtException : M world unit).
Proof. case_decide; [by apply keeps_ret|apply keeps_throw]. Qed.

Lemma keeps_guard' (P : Prop) `{!Decision P} : keeps (fun _ => True) (if decide P then throw UncaughtException else mret tt : M world unit).
Proof. case_decide; [apply keeps_throw|by apply keeps_ret]. Qed.

Lemma keeps_clear_workers : keeps (fun _ => True) (sql_write (on_Worker (fun _ => []))).
Proof. apply keeps_write. intros d Hd. by apply typed_on_Worker, Forall_nil. Qed.
Lemma keeps_clear_data : keeps (fun _ => True) (sql_write (on_DataLocation (fun _ => []))).
Proof. apply keeps_write. intros d Hd. by apply typed_on_DataLocation, Forall_nil. Qed.
Lemma keeps_clear_tasks : keeps (fun _ => True) (sql_write (on_Task (fun _ => []))).
Proof. apply keeps_write. intros d Hd. by apply typed_on_Task, Forall_nil. Qed.

Lemma keeps_new_worker r : typed_worker r -> keeps (fun _ => True) (sql_write (on_Worker (fun l => l ++ [r]))).
Proof. intros Hr. apply keeps_write. intros d Hd. apply typed_on_Worker, Forall_snoc; [done|apply Hd|done]. Qed.
Lemma keeps_new_data r : typed_data r -> keeps (fun _ => True) (sql_write (on_DataLocation (fun l => l ++ [r]))).
Proof. intros Hr. apply keeps_write. intros d Hd. apply typed_on_DataLocation, Forall_snoc; [done|apply Hd|done]. Qed.
Lemma keeps_new_message r : typed_message r -> keeps (fun _ => True) (sql_write (on_Message (fun l => l ++ [r]))).
Proof. intros Hr. apply keeps_write. intros d Hd. apply typed_on_Message, Forall_snoc; [done|apply Hd|done]. Qed.
Lemma keeps_new_broadcast m : integer_ok m -> keeps (fun _ => True) (sql_write (on_Broadcast (fun l => l ++ [m]))).
Proof. intros Hr. apply keeps_write. intros d Hd. apply typed_on_Broadcast, Forall_snoc; [done|apply Hd|done]. Qed.
Lemma keeps_set_Capacity P `{!forall x, Decision (P x)} c : integer_ok c ->
  keeps (fun _ => True) (sql_write (on_Worker (update_where P (set_Capacity c)))).
Proof.
  intros Hc. apply keeps_write. intros d Hd. apply typed_on_Worker; [done|].
  apply Forall_update_where; [apply Hd|]. intros. by apply typed_set_Capacity.
Qed.

(** A constant or a column of a row that was read. *)
Ltac typed_field :=
  first [done | by match goal with H : typed_worker _ |- _ => apply H end
    | by match goal with H : typed_task _ |- _ => apply H end].

(** A statement, then the rest of the procedure. *)
Ltac keeps_step :=
  first
    [ progress (keeps_solve)
    | eapply keeps_bind; [first
        [ apply keeps_updateCapacity | apply keeps_insertTask | apply keeps_insertTaskAssign
        | apply keeps_set_State; done | apply keeps_set_T_WorkerID; typed_field
        | apply keeps_set_Capacity; done
        | apply keeps_new_worker; by split | apply keeps_new_data; by split
        | apply keeps_new_message; by split | apply keeps_new_broadcast; done
        | apply keeps_guard | apply keeps_clear_workers | apply keeps_clear_data | apply keeps_clear_tasks ] | ]
    | apply keeps_throw
    | apply keeps_ret; typed_field
    | case_match ].

(** The procedures of Java type [long]; the results are status codes or numbers
    of workers. *)
Lemma keeps_InsertWorker i c p u : keeps integer_ok (InsertWorker_run i c p u).
Proof. unfold InsertWorker_run. repeat keeps_step. Qed.
Lemma keeps_InsertSparkWorker i c s p u : keeps integer_ok (InsertSparkWorker_run i c s p u).
Proof. unfold InsertSparkWorker_run. repeat keeps_step. Qed.
Lemma keeps_InsertTask t w s p : keeps integer_ok (InsertTask_run t w s p).
Proof. unfold InsertTask_run. repeat keeps_step. Qed.
Lemma keeps_TruncateWorkerTable : keeps integer_ok TruncateWorkerTable_run.
Proof. unfold TruncateWorkerTable_run. repeat keeps_step. Qed.
Lemma keeps_TruncateTaskTable : keeps integer_ok TruncateTaskTable_run.
Proof. unfold TruncateTaskTable_run. repeat keeps_step. Qed.
Lemma keeps_SelectWorker p : keeps integer_ok (SelectWorker_run p).
Proof. unfold SelectWorker_run. repeat keeps_step. Qed.
Lemma keeps_SelectOrderedWorker p t : keeps integer_ok (SelectOrderedWorker_run p t).
Proof. unfold SelectOrderedWorker_run. repeat keeps_step. Qed.
Lemma keeps_SelectSinglePartitionedTaskWorker p t :
  keeps integer_ok (SelectSinglePartitionedTaskWorker_run p t).
Proof. unfold SelectSinglePartitionedTaskWorker_run. repeat keeps_step. Qed.
Lemma keeps_PushTask p t : keeps integer_ok (PushTask_run p t).
Proof. unfold PushTask_run. repeat keeps_step. Qed.
Lemma keeps_SelectPartitionedTaskWorker p : keeps integer_ok (SelectPartitionedTaskWorker_run p).
Proof. unfold SelectPartitionedTaskWorker_run. repeat keeps_step. Qed.
Lemma keeps_SelectTaskWorker : keeps integer_ok SelectTaskWorker_run.
Proof. unfold SelectTaskWorker_run. repeat keeps_step. Qed.
Lemma keeps_SelectSparkWorker p s : keeps integer_ok (SelectSparkWorker_run p s).
Proof. unfold SelectSparkWorker_run. repeat keeps_step. Qed.
Lemma keeps_SendMessage r s m d : keeps integer_ok (SendMessage_run r s m d).
Proof. unfold SendMessage_run. repeat keeps_step. Qed.
Lemma keeps_BroadcastMessage m : keeps integer_ok (BroadcastMessage_run m).
Proof. unfold BroadcastMessage_run. repeat keeps_step. Qed.

Lemma keeps_scan ts : Forall typed_task ts -> keeps integer_ok (scan_result ts).
Proof.
  intros Ht. unfold scan_result. eapply keeps_bind.
  - apply (keeps_pick_row integer_ok). apply Forall_filter, Forall_remove_dups, Forall_fmap.
    eapply Forall_impl; [exact Ht|]. by intros t [].
  - intros [w|] Hw; by apply keeps_ret.
Qed.
Lemma keeps_ScanPartitionedTaskWorker p : keeps integer_ok (ScanPartitionedTaskWorker_run p).
Proof. unfold ScanPartitionedTaskWorker_run. keeps_solve. by apply keeps_scan. Qed.
Lemma keeps_ScanTaskWorker : keeps integer_ok ScanTaskWorker_run.
Proof. unfold ScanTaskWorker_run. keeps_solve. by apply keeps_scan. Qed.

Lemma keeps_FinishWorkerTask i t p : keeps integer_ok (FinishWorkerTask_run i t p).
Proof. unfold FinishWorkerTask_run. repeat keeps_step. Qed.

(** A unit more, where there is room for it: the least number stays unused. *)
Lemma keeps_WorkerUpdateTask p i t s : keeps integer_ok (WorkerUpdateTask_run p i t s).
Proof.
  unfold WorkerUpdateTask_run. eapply keeps_bind; [apply keeps_col|]. intros z Hz.
  eapply keeps_bind; [by apply keeps_set_State|]. intros _ _.
  eapply keeps_bind with (P := fun _ => True); [|by repeat keeps_step].
  case_decide; [|by apply keeps_ret]. intros w Hw. rewrite bind_read. case_decide as Hroom; [|by split].
  rewrite (bind_done (mret tt) _ _ _ _ eq_refl). cbn. split; [|done].
  apply typed_on_Worker; [done|]. unfold update_where. apply Forall_fmap, Forall_forall.
  intros r Hr. unfold compose. pose proof (proj1 (Forall_forall _ _) (typed_Worker _ Hw) r Hr) as Ht.
  case_decide as His; [|done]. apply typed_set_Capacity; [|done].
  assert (Capacity r + 1 < 2147483648) by (eapply Forall_forall in Hroom; [exact Hroom|by apply list_elem_of_filter]).
  destruct Ht as [_ Hc _ _]. unfold id_ok in *. lia.
Qed.

(** The procedures that answer with a table. *)
Lemma keeps_WorkerSelectTask p i k : keeps (conforms (RTable [CInteger])) (WorkerSelectTask_run p i k).
Proof.
  unfold WorkerSelectTask_run.
  eapply keeps_bind; [apply keeps_read_tasks; intros; rows_of|]. intros pending Hp.
  eapply keeps_bind; [apply keeps_guard'|]. intros _ _.
  eapply keeps_bind; [apply keeps_pick_rows; exact Hp|]. intros picked Hts.
  eapply keeps_bind with (P := fun _ => True).
  - clear Hts. induction picked as [|t l IH]; [by apply keeps_ret|]. cbn [foldr].
    eapply keeps_bind; [by apply keeps_set_State|]. intros _ _. exact IH.
  - intros _ _. apply keeps_ret. cbn. apply Forall_fmap. eapply Forall_impl; [exact Hts|].
    intros t Ht. constructor; [apply Ht|constructor].
Qed.

Lemma keeps_SelectDataShardPartition s :
  keeps (conforms (RTable [CInteger])) (SelectDataShardPartition_run s).
Proof.
  unfold SelectDataShardPartition_run. keeps_solve. apply keeps_ret, Forall_fmap.
  eapply Forall_impl; [eassumption|]. intros t Ht. constructor; [apply Ht|constructor].
Qed.

Lemma keeps_ReceiveMessage i :
  keeps (conforms (RTable [CInteger; CBigint; CVarchar])) (ReceiveMessage_run i).
Proof.
  unfold ReceiveMessage_run. keeps_solve. rename select (Forall typed_message _) into Hms.
  eapply keeps_bind with (P := fun _ => True).
  - case_decide; [by apply keeps_ret|]. apply keeps_write. intros d Hd. apply typed_on_Message; [done|].
    apply Forall_filter, Hd.
  - intros _ _. apply keeps_ret, Forall_fmap. eapply Forall_impl; [exact Hms|].
    intros m Hm. repeat constructor; apply Hm.
Qed.
End Procedures.

(** ** Calls *)

Section Calls.
Context `{Env}.

Lemma keeps_long m : keeps integer_ok m -> keeps (conforms RLong) (long_proc m).
Proof. intros Hm. eapply keeps_bind; [exact Hm|]. intros z Hz. apply keeps_ret. by exists z. Qed.

Hint Resolve keeps_long keeps_InsertTask keeps_InsertWorker keeps_InsertSparkWorker keeps_SelectTaskWorker
  keeps_SelectWorker keeps_SelectOrderedWorker keeps_SelectPartitionedTaskWorker
  keeps_SelectSinglePartitionedTaskWorker keeps_SelectSparkWorker keeps_TruncateTaskTable
  keeps_TruncateWorkerTable keeps_FinishWorkerTask keeps_ScanPartitionedTaskWorker keeps_ScanTaskWorker
  keeps_WorkerSelectTask keeps_WorkerUpdateTask keeps_PushTask keeps_SelectDataShardPartition
  keeps_SendMessage keeps_ReceiveMessage keeps_BroadcastMessage : typing.

Lemma keeps_call name args m : call_procedure name args = Some m -> keeps (conforms (result_of name)) m.
Proof.
  unfold call_procedure, procedures. cbn [find_proc].
  repeat (case_match; [intros Hm; repeat case_match; try done; injection Hm as <-;
    match goal with E : String.eqb _ name = true |- _ => apply String.eqb_eq in E; subst name end|]);
    [..|done].
  all: match goal with |- keeps (conforms ?rt) _ => let rt' := eval vm_compute in rt in change rt with rt' end.
  all: solve [auto 3 with typing nocore].
Qed.

(** The answer to a request: a failure, or a table of the procedure's result type. *)
Definition answers (rq : request) (r : response) : Prop :=
  match r with
  | RFailure => True
  | RSuccess t =>
      conforms (result_of (rq_name rq)) t /\
      (result_of (rq_name rq) = RLong -> exists z, forall w, first_int64 t w = (Done z, w))
  end.

Lemma conforms_answers rq t : conforms (result_of (rq_name rq)) t -> answers rq (RSuccess t).
Proof.
  intros Ht. split; [done|]. intros E. rewrite E in Ht. destruct Ht as (z & -> & _). by exists z.
Qed.

Lemma serve_typed rq w : typed_db (w_db w) ->
  exists r w', serve rq w = (Done r, w') /\ typed_db (w_db w') /\ answers rq r.
Proof.
  intros Hw. unfold serve. destruct (call_procedure (rq_name rq) (rq_args rq)) as [m|] eqn:E;
    [|by exists RFailure, w].
  pose proof (keeps_call _ _ _ E (tick w) Hw) as [H1 H2].
  unfold transaction. rewrite (bind_done draw_fate _ w _ _ eq_refl). unfold run_txn.
  destruct (m (tick w)) as [[t|t|] w1] eqn:Em; cbn in H1, H2.
  - destruct (fate_stream (w_tick w));
      (eexists _, _; split; [reflexivity|split; [done|]]); [by apply conforms_answers|done..].
  - destruct (fate_stream (w_tick w)); by (eexists _, _; split; [reflexivity|]).
  - destruct (fate_stream (w_tick w)); by (eexists _, _; split; [reflexivity|]).
Qed.

(** Requests of any clients, one after the other. *)
Fixpoint serve_all (rqs : list request) : M world (list response) :=
  match rqs with
  | [] => mret []
  | rq :: rqs' => r ← serve rq; rs ← serve_all rqs'; mret (r :: rs)
  end.
End Calls.


