(* ===== verification/Setup.v ===== *)
(** * Setting up and tearing down the tables

    The statements [setup] and [teardown] of the schedulers are made of, on a
    reliable database, and the Worker table a setup leaves. *)

From S2P Require Import Prelude Probing Tables World Procs Pool Client Frame SchedulerUtil.
From S2P Require Import Select.

(** ** The table of [n] fresh workers *)

(** Worker [i] has capacity [cap] and lives in partition [i % P]. *)
Definition fresh_worker (P cap : Z) (i : nat) : worker_row :=
  WorkerRow (Z.of_nat i) cap 0 (Z.of_nat i mod P) "".
Definition fresh_workers (P cap : Z) (n : nat) : list worker_row :=
  fresh_worker P cap <$> seq 0 n.

Lemma fresh_workers_S P cap n :
  fresh_workers P cap (S n) = fresh_workers P cap n ++ [fresh_worker P cap n].
Proof. unfold fresh_workers. by rewrite seq_S, fmap_app. Qed.

Lemma elem_of_fresh P cap n r :
  r ∈ fresh_workers P cap n <-> exists i, (i < n)%nat /\ r = fresh_worker P cap i.
Proof.
  unfold fresh_workers. rewrite list_elem_of_fmap. split.
  - intros (i & -> & Hi%elem_of_seq). exists i. split; [lia|done].
  - intros (i & Hi & ->). exists i. split; [done|]. apply elem_of_seq. lia.
Qed.

Section Fresh.
Context (P cap : Z) (n : nat).
Context (P_range : 0 < P < 2147483648) (cap_range : 0 <= cap < 2147483648).
Context (n_range : Z.of_nat n < 2147483648).

Lemma wf_fresh d : Worker d = fresh_workers P cap n -> wf_db d.
Proof.
  intros E. split; rewrite E.
  - unfold fresh_workers. rewrite <- list_fmap_compose.
    apply NoDup_fmap_2_strong; [|apply NoDup_seq].
    intros i j _ _ [= _ Hij]. lia.
  - apply Forall_forall. intros r (i & Hi & ->)%elem_of_fresh.
    unfold wf_worker. cbn. pose proof (Z.mod_pos_bound (Z.of_nat i) P). lia.
Qed.

Lemma workers_within_fresh d :
  Worker d = fresh_workers P cap n -> workers_within (Z.min P (Z.of_nat n)) d.
Proof.
  intros E. unfold workers_within. rewrite E. apply Forall_forall.
  intros r (i & Hi & ->)%elem_of_fresh. cbn.
  pose proof (Z.mod_pos_bound (Z.of_nat i) P ltac:(lia)).
  pose proof (Z.mod_le (Z.of_nat i) P ltac:(lia) ltac:(lia)). lia.
Qed.

Lemma total_capacity_fresh d :
  Worker d = fresh_workers P cap n -> total_capacity d = Z.of_nat n * cap.
Proof.
  unfold total_capacity. intros ->. clear n_range. induction n as [|m IH]; [done|].
  assert (forall l x, foldr (fun r s => Capacity r + s) 0 (l ++ [x]) =
      foldr (fun r s => Capacity r + s) 0 l + Capacity x) as Happ.
  { clear. induction l as [|y l IH]; intros x; cbn; [lia|]. rewrite IH. lia. }
  rewrite fresh_workers_S, Happ, IH. cbn. lia.
Qed.
End Fresh.

(** ** The statements *)

Section Statements.
Context `{Env, !Reliable}.

Lemma truncateWorkerTable_ok w :
  truncateWorkerTable w =
  (Done tt, set_db (on_DataLocation (fun _ => []) (on_Worker (fun _ => []) (w_db w))) (tick w)).
Proof.
  unfold truncateWorkerTable, truncate.
  pose proof (transaction_long TruncateWorkerTable_run w 0 _ eq_refl) as E.
  change (transaction _ w) with (invoke (Procedure_new "TruncateWorkerTable" []) [] w) in E.
  by run_bind E.
Qed.

Lemma truncateTaskTable_ok w :
  truncateTaskTable w = (Done tt, set_db (on_Task (fun _ => []) (w_db w)) (tick w)).
Proof.
  unfold truncateTaskTable, truncate.
  pose proof (transaction_long TruncateTaskTable_run w 0 _ eq_refl) as E.
  change (transaction _ w) with (invoke (Procedure_new "TruncateTaskTable" []) [] w) in E.
  by run_bind E.
Qed.

Lemma InsertWorker_ok i c p u w :
  id_ok i -> id_ok c -> id_ok p ->
  InsertWorker_run i c p u w =
  (Done 0, set_db (on_Worker (fun l => l ++ [WorkerRow i c 0 p u]) (w_db w)) w).
Proof.
  intros Hi Hc Hp. unfold InsertWorker_run.
  by rewrite (bind_done _ _ _ _ _ (int_col_ok i w Hi)),
    (bind_done _ _ _ _ _ (int_col_ok c w Hc)), (bind_done _ _ _ _ _ (int_col_ok p w Hp)).
Qed.

Lemma insertWorker_ok P cap i w :
  0 < P < 2147483648 -> 0 <= cap < 2147483648 -> Z.of_nat i < 2147483648 ->
  insertWorker P (Z.of_nat i) cap w =
  (Done true, set_db (on_Worker (fun l => l ++ [fresh_worker P cap i]) (w_db w)) (tick w)).
Proof.
  intros HP Hc Hi. unfold insertWorker.
  rewrite (bind_done _ _ _ _ _ (int_rem_ok (Z.of_nat i) P w ltac:(lia) ltac:(lia))).
  pose proof (Z.mod_pos_bound (Z.of_nat i) P ltac:(lia)).
  pose proof (transaction_long _ w 0 _
    (InsertWorker_ok (Z.of_nat i) cap (Z.of_nat i mod P) "" (tick w)
       ltac:(unfold id_ok; lia) ltac:(unfold id_ok; lia) ltac:(unfold id_ok; lia))) as E.
  change (transaction _ w) with (invoke (Procedure_new "InsertWorker"
      [scalar WIRE_TYPE_INTEGER; scalar WIRE_TYPE_INTEGER;
       scalar WIRE_TYPE_INTEGER; scalar WIRE_TYPE_STRING])
    [VInt (Z.of_nat i); VInt cap; VInt (Z.of_nat i mod P); VStr ""] w) in E.
  by run_bind E.
Qed.

Lemma insert_workers_from P cap m : forall i w,
  0 < P < 2147483648 -> 0 <= cap < 2147483648 -> Z.of_nat (i + m) < 2147483648 ->
  exists t, for_loop (R := bool) m (Z.of_nat i) tt (fun i _ =>
    ret ← insertWorker P i cap;
    if (negb ret : bool) then mret (Return false) else mret (Next tt)) w =
  (Done (Next tt),
   set_db (on_Worker (fun l => l ++ (fresh_worker P cap <$> seq i m)) (w_db w))
     (Nat.iter t tick w)).
Proof.
  induction m as [|m IH]; intros i w HP Hc Hm.
  - exists 0%nat. destruct w as [[] ? ? ? ? ?]. unfold on_Worker. cbn. by rewrite app_nil_r.
  - cbn [for_loop].
    set (w1 := set_db (on_Worker (fun l => l ++ [fresh_worker P cap i]) (w_db w)) (tick w)).
    destruct (IH (S i) w1) as (t & E); [done..|lia|].
    exists (S t). replace (Z.of_nat i + 1) with (Z.of_nat (S i)) by lia.
    assert ((ret ← insertWorker P (Z.of_nat i) cap;
      if (negb ret : bool) then mret (Return false) else mret (Next tt)) w
      = (Done (Next tt), w1)) as E1.
    { by rewrite (bind_done _ _ _ _ _ (insertWorker_ok P cap i w HP Hc ltac:(lia))). }
    rewrite (bind_done _ _ _ _ _ E1), E. f_equal. unfold w1.
    rewrite iter_tick_set_db, set_db_set_db, Nat.iter_succ_r.
    f_equal. unfold on_Worker. cbn. by rewrite <- app_assoc.
Qed.

Lemma insert_all_ok P cap n w :
  0 < P < 2147483648 -> 0 <= cap < 2147483648 -> 0 <= n < 2147483648 ->
  exists t, insert_all n (fun i => insertWorker P i cap) w =
  (Done (Next tt),
   set_db (on_Worker (fun l => l ++ fresh_workers P cap (Z.to_nat n)) (w_db w))
     (Nat.iter t tick w)).
Proof.
  intros HP Hc Hn. apply (insert_workers_from P cap (Z.to_nat n) 0 w); [done..|lia].
Qed.

(** The last part of every [setup]: [numWorkers] inserts. *)
Lemma setup_workers P cap n w :
  0 < P < 2147483648 -> 0 <= cap < 2147483648 -> 0 <= n < 2147483648 ->
  exists w', (c ← insert_all n (fun i => insertWorker P i cap); after c (fun _ => mret true)) w
             = (Done true, w') /\
    w_db w' = on_Worker (fun l => l ++ fresh_workers P cap (Z.to_nat n)) (w_db w) /\
    same_client w w'.
Proof.
  intros HP Hc Hn. destruct (insert_all_ok P cap n w HP Hc Hn) as (t & E).
  eexists. split; [by run_bind E|]. split; [done|].
  pose proof (frame_insert_all n (fun i => insertWorker P i cap)
    (fun i => frame_insertWorker P i cap) w) as Hf.
  by rewrite E in Hf.
Qed.
End Statements.

(** What the end of a [setup] means for the pool. *)
Lemma fresh_pool P cap n d :
  0 < P < 2147483648 -> 0 <= cap < 2147483648 -> 0 <= n < 2147483648 ->
  Worker d = fresh_workers P cap (Z.to_nat n) ->
  wf_db d /\ workers_within (Z.min P n) d /\ total_capacity d = n * cap.
Proof.
  intros HP Hc Hn Hd. split_and!.
  - eapply wf_fresh; [..|exact Hd]; lia.
  - eapply workers_within_fresh in Hd; [|lia..]. by rewrite Z2Nat.id in Hd by lia.
  - rewrite (total_capacity_fresh _ _ _ _ Hd). lia.
Qed.
