(* ===== verification/Drain.v ===== *)
(** * Draining the pool

    What a scheduler with a finite supply of worker capacity promises its
    clients: every [schedule] takes one unit as long as there is one, and the
    first call that finds none fails its [assert]. *)

From S2P Require Import Prelude Tables World Procs Pool Client.

(** [inv k] holds of a world from which [k] more calls are covered (a scheduler
    that numbers its tasks runs out of numbers). *)
Class Draining (inv : nat -> world -> Prop) (sched : M world bool) : Prop := {
  drain_hit k w : inv (S k) w -> 0 < total_capacity (w_db w) ->
    exists w', sched w = (Done true, w') /\ inv k w' /\
      total_capacity (w_db w') = total_capacity (w_db w) - 1;
  drain_miss k w : inv (S k) w -> total_capacity (w_db w) = 0 ->
    exists w', sched w = (Trap AssertFailure, w') /\ w_db w' = w_db w;
}.

(** A client that schedules [n] tasks one after the other, and counts them. *)
Definition schedule_n (sched : M world bool) (n : nat) : M world Z :=
  c ← for_loop (R := unit) n 0 0 (fun _ done =>
    b ← sched;
    mret (Next (if (b : bool) then done + 1 else done)));
  match c with Next a | Break a => mret a | Return _ => mret 0 end.

Section Drain.
Context (inv : nat -> world -> Prop) (sched : M world bool) `{!Draining inv sched}.

Lemma schedule_loop n : forall i a k w,
  inv (n + k)%nat w -> Z.of_nat n <= total_capacity (w_db w) ->
  exists w', for_loop (R := unit) n i a (fun _ done =>
      b ← sched; mret (Next (if (b : bool) then done + 1 else done))) w =
      (Done (Next (a + Z.of_nat n)), w') /\
    inv k w' /\ total_capacity (w_db w') = total_capacity (w_db w) - Z.of_nat n.
Proof.
  induction n as [|n IH]; intros i a k w Hi Hn.
  - exists w. cbn. by rewrite Z.add_0_r, Z.sub_0_r.
  - destruct (drain_hit (n + k) w Hi ltac:(lia)) as (w1 & E & Hi1 & Ht).
    destruct (IH (i + 1) (a + 1) k w1 Hi1 ltac:(lia)) as (w2 & E2 & Hi2 & Ht2).
    exists w2. split_and!; [|done|lia]. cbn [for_loop].
    assert ((b ← sched; mret (Next (if (b : bool) then a + 1 else a))) w =
      (Done (Next (a + 1)) : outcome (ctl Z unit), w1)) as E1 by (by run_bind E).
    run_bind E1. rewrite E2. do 3 f_equal. lia.
Qed.

(** As many calls as there is capacity succeed; the next one aborts. *)
Lemma schedule_n_drains n k w :
  inv (n + S k)%nat w -> total_capacity (w_db w) = Z.of_nat n ->
  exists w' w'', schedule_n sched n w = (Done (Z.of_nat n), w') /\
    total_capacity (w_db w') = 0 /\
    sched w' = (Trap AssertFailure, w'') /\ w_db w'' = w_db w' /\ inv (S k) w'.
Proof.
  intros Hi Hn. destruct (schedule_loop n 0 0 (S k) w Hi ltac:(lia)) as (w' & E & Hi' & Ht).
  destruct (drain_miss k w' Hi' ltac:(lia)) as (w'' & E2 & Hd).
  exists w', w''. split_and!; [|lia|done..]. unfold schedule_n. by run_bind E.
Qed.
End Drain.
