(* ===== verification/PartitionedFIFOScheduler.v ===== *)
(** * PartitionedFIFOScheduler

    [src/libs/lib_scheduler/PartitionedFIFOScheduler.{h,cc}]: a worker with
    free capacity is taken from the first partition that has one, starting at
    a random partition. *)

From S2P Require Import Prelude Probing Tables World Procs Pool Client SchedulerUtil Select.
From S2P Require Import Setup Drain.

Record PartitionedFIFOScheduler := {
  workerCapacity_ : Z;
  workerPartitions_ : Z;
  numWorkers_ : Z;
}.

Section Scheduler.
Context `{Env}.
Implicit Types (this : PartitionedFIFOScheduler).

Definition activePartitions this : Z := Z.min (workerPartitions_ this) (numWorkers_ this).

Definition selectWorker this : M world Z :=
  r ← c_rand;
  offset ← int_rem r (activePartitions this);
  c ← for_loop (Z.to_nat (activePartitions this)) 0 tt (fun count _ =>
    partitionNum ← int_rem (wrap32 (count + offset)) (activePartitions this);
    r ← invoke (Procedure_new "SelectWorker" [scalar WIRE_TYPE_INTEGER])
          [VInt partitionNum];
    match r with
    | RFailure => mret (Return (-1))
    | RSuccess results =>
        z ← first_int64 results;
        let selectedWorker := wrap32 z in
        if decide (selectedWorker <> -1) then mret (Return selectedWorker)
        else mret (Next tt)
    end);
  after c (fun _ => mret (-1)).

(** The transaction is still to be written in the source. *)
Definition assignTaskToWorker (taskId workerId : Z) : M world bool := mret true.

(** Two parameters are passed to a procedure that takes three. *)
Definition finishTask this (taskId workerId : Z) : M world bool :=
  pkey ← int_rem workerId (workerPartitions_ this);
  r ← invoke (Procedure_new "FinishWorkerTask"
                [scalar WIRE_TYPE_INTEGER; scalar WIRE_TYPE_INTEGER])
        [VInt workerId; VInt pkey];
  mret (succeeded r).

(** The class's own copies of the shared statements. *)
Definition truncateWorkerTable : M world unit := SchedulerUtil.truncateWorkerTable.
Definition insertWorker this (workerID capacity : Z) : M world bool :=
  SchedulerUtil.insertWorker (workerPartitions_ this) workerID capacity.

Definition setup this : M world bool :=
  truncateWorkerTable ;;
  c ← insert_all (numWorkers_ this)
        (fun i => insertWorker this i (workerCapacity_ this));
  after c (fun _ => mret true).

Definition teardown : M world bool := truncateWorkerTable ;; mret true.

Definition schedule this (_ : task) : M world bool :=
  workerId ← selectWorker this;
  assertM (bool_decide (0 <= workerId)) ;;
  mret true.

Definition asyncSchedule this : M world bool :=
  r ← c_rand;
  partitionNum ← int_rem r (activePartitions this);
  invokeAsync (Procedure_new "SelectWorker" [scalar WIRE_TYPE_INTEGER])
    [VInt partitionNum] ;;
  mret true.

#[export] Instance PartitionedFIFOScheduler_util : SchedulerUtil PartitionedFIFOScheduler := {
  schedule_ := schedule;
  asyncSchedule_ := asyncSchedule;
  setup_ := setup;
  teardown_ _ := teardown;
}.
End Scheduler.

(** ** Selecting a worker *)

Section Correctness.
Context `{Env, !Reliable}.
Context (this : PartitionedFIFOScheduler).
Context (active_range : 0 < activePartitions this <= 2 ^ 30).

Lemma fifo_selectWorker_run w :
  wf_db (w_db w) -> workers_within (activePartitions this) (w_db w) ->
  selected free_workers WorkerID (-1) acquired (w_db w)
    (selectWorker this w).1 (w_db (selectWorker this w).2).
Proof.
  intros Hwf Hin. apply (linear_select
    (fun p => invoke (Procedure_new "SelectWorker" [scalar WIRE_TYPE_INTEGER]) [VInt p])
    acquired free_workers) with (d := w_db w); try done.
  intros p w1 Hw1. apply invoke_SelectWorker. by rewrite Hw1.
Qed.

Definition pool_inv (_ : nat) (w : world) : Prop :=
  wf_db (w_db w) /\ workers_within (activePartitions this) (w_db w).

Lemma fifo_schedule_draining (t : task) : Draining pool_inv (schedule this t).
Proof.
  split; intros k w [Hwf Hin] Htot; pose proof (fifo_selectWorker_run w Hwf Hin) as Hsel;
    unfold schedule; destruct (selectWorker this w) as [o w'] eqn:E; cbn in Hsel.
  - destruct (selected_hit _ _ _ _ takes_acquired _ _ _ Hwf Hsel Htot)
      as (r & Hr & _ & _ & -> & _ & Ht).
    destruct (wf_row _ _ Hwf Hr) as (_ & Hid & _).
    run_bind E. rewrite bool_decide_eq_true_2 by lia. exists w'.
    split_and!; [done|split|done];
      eauto using selected_wf, selected_within, takes_acquired.
  - destruct (selected_miss _ _ _ _ takes_acquired _ _ _ Hwf Hsel Htot) as [-> Hd].
    run_bind E. by exists w'.
Qed.
End Correctness.

(** ** Setting up *)

Definition config_ok (this : PartitionedFIFOScheduler) : Prop :=
  0 < workerPartitions_ this <= 2 ^ 30 /\ 0 <= workerCapacity_ this < 2 ^ 31 /\
  0 < numWorkers_ this < 2 ^ 31.

Section Setup.
Context `{Env, !Reliable}.
Context (this : PartitionedFIFOScheduler) (config : config_ok this).

(** The Worker table a [setup] leaves. *)
Definition fresh (d : db) : Prop :=
  Worker d = fresh_workers (workerPartitions_ this) (workerCapacity_ this)
               (Z.to_nat (numWorkers_ this)).

Lemma fifo_setup_run w :
  exists w', setup this w = (Done true, w') /\ fresh (w_db w').
Proof.
  destruct config as (HP & Hc & Hn). unfold setup, truncateWorkerTable, insertWorker.
  rewrite (bind_done _ _ _ _ _ (truncateWorkerTable_ok w)).
  edestruct (fun w => setup_workers (workerPartitions_ this) (workerCapacity_ this) (numWorkers_ this) w
  ltac:(lia) ltac:(lia) ltac:(lia)) as (w' & E & Hd & _); exists w'; split; [exact E|].
  unfold fresh. by rewrite Hd.
Qed.

Lemma fifo_fresh d : fresh d ->
  wf_db d /\ workers_within (activePartitions this) d /\
  total_capacity d = numWorkers_ this * workerCapacity_ this.
Proof. intros Hd. destruct config as (HP & Hc & Hn). apply fresh_pool; [lia..|done]. Qed.
End Setup.

(** ** Properties *)

Section Properties.
Context `{Env}.

(** C22: on a reliable database, [selectWorker] takes one unit of capacity of
    exactly one worker that had some and returns its id, whatever [rand()] and the
    choice of the database are; it returns -1, and changes nothing, exactly
    when no worker anywhere has capacity left. *)
Theorem fifo_selectWorker_correct `{!Reliable} this w :
  0 < activePartitions this <= 2 ^ 30 ->
  wf_db (w_db w) -> workers_within (activePartitions this) (w_db w) ->
  exists w', w' = (selectWorker this w).2 /\ wf_db (w_db w') /\
  ((exists r, r ∈ Worker (w_db w) /\ 0 < Capacity r /\
      selectWorker this w = (Done (WorkerID r), w') /\
      capacity (w_db w') = <[key r := Capacity r - 1]> (capacity (w_db w))) \/
   (total_capacity (w_db w) = 0 /\ selectWorker this w = (Done (-1), w') /\
      w_db w' = w_db w)).
Proof.
  intros Hn Hwf Hin. pose proof (fifo_selectWorker_run this Hn w Hwf Hin) as Hsel.
  destruct (selectWorker this w) as [o w'] eqn:E. exists w'. split; [done|]. cbn in Hsel.
  split; [eauto using selected_wf, takes_acquired|].
  destruct Hsel as [(r & Hr & Hpos & _ & -> & Hd)|(Hnone & -> & Hd)]; rewrite Hd.
  - left. exists r. split_and!; [done..|]. by apply takes_capacity.
  - right. by rewrite total_capacity_zero.
Qed.

(** After [setup], exactly [numWorkers * workerCapacity] calls of
    [schedule] succeed, whichever partitions they start from; the capacity
    is then used up and the next call fails its [assert]. *)
Theorem fifo_schedule_uses_capacity `{!Reliable} this w tsk :
  config_ok this ->
  exists w0 w1 w2, setup this w = (Done true, w0) /\
    schedule_n (schedule this tsk)
      (Z.to_nat (numWorkers_ this * workerCapacity_ this)) w0 =
      (Done (numWorkers_ this * workerCapacity_ this), w1) /\
    total_capacity (w_db w1) = 0 /\
    schedule this tsk w1 = (Trap AssertFailure, w2) /\ w_db w2 = w_db w1.
Proof.
  intros Hc. destruct (fifo_setup_run this Hc w) as (w0 & E & Hf).
  destruct (fifo_fresh this Hc _ Hf) as (Hwf & Hin & Htot).
  pose proof Hc as (HP & HC & HN).
  pose proof (fifo_schedule_draining this ltac:(unfold activePartitions; lia) tsk) as Hd.
  destruct (schedule_n_drains (pool_inv this) (schedule this tsk)
    (Z.to_nat (numWorkers_ this * workerCapacity_ this)) 0 w0) as (w1 & w2 & E1 & Ht & E2 & Hd2 & _);
    [done|lia|].
  exists w0, w1, w2. rewrite Z2Nat.id in E1 by lia. done.
Qed.

(** [finishTask] never succeeds: it passes two parameters to
    [FinishWorkerTask], which takes three, so the server rejects the call
    and the capacity of the worker is not given back. *)
Theorem fifo_finishTask_fails this taskId workerId w :
  workerPartitions_ this <> 0 ->
  finishTask this taskId workerId w = (Done false, w).
Proof.
  intros HP. unfold finishTask, int_rem. by rewrite decide_False by done.
Qed.
End Properties.

(** ** Examples *)

Definition fifo_demo : PartitionedFIFOScheduler :=
  {| workerCapacity_ := 2; workerPartitions_ := 3; numWorkers_ := 3 |}.
Definition fifo_demo_world : world := init_world (Db (fresh_workers 3 2 3) [] [] [] [] []).

Lemma fifo_selectWorker_correct_witness :
  let E := steady Z.of_nat in
  wf_db (w_db fifo_demo_world) /\
  exists w', w' = (selectWorker fifo_demo fifo_demo_world).2 /\ wf_db (w_db w').
Proof.
  assert (wf_db (w_db fifo_demo_world)) as Hwf by (apply (wf_fresh 3 2 3); [lia..|done]).
  split; [done|].
  destruct (fifo_selectWorker_correct (H := steady Z.of_nat) fifo_demo fifo_demo_world)
    as (w' & Ew & Hw & _); [by vm_compute|done| |by exists w'].
  repeat constructor; by vm_compute.
Defined.

Lemma fifo_schedule_uses_capacity_witness :
  let E := steady Z.of_nat in
  config_ok fifo_demo /\
  exists w0 w1, setup fifo_demo fifo_demo_world = (Done true, w0) /\
    schedule_n (schedule fifo_demo (Task_ 0 0))
      (Z.to_nat (numWorkers_ fifo_demo * workerCapacity_ fifo_demo)) w0 =
      (Done (numWorkers_ fifo_demo * workerCapacity_ fifo_demo), w1).
Proof.
  assert (config_ok fifo_demo) as Hc by (unfold config_ok; cbn; lia). split; [done|].
  destruct (fifo_schedule_uses_capacity (H := steady Z.of_nat) fifo_demo fifo_demo_world
    (Task_ 0 0) Hc) as (w0 & w1 & _ & E & E1 & _). exists w0, w1. exact (conj E E1).
Defined.

Lemma fifo_finishTask_fails_witness :
  let E := steady Z.of_nat in
  finishTask fifo_demo 7 1 fifo_demo_world = (Done false, fifo_demo_world).
Proof. apply (fifo_finishTask_fails fifo_demo). done. Defined.
