(* ===== verification/PartitionedLocalFIFOScheduler.v ===== *)
(** * PartitionedLocalFIFOScheduler

    [src/libs/lib_scheduler/PartitionedLocalFIFOScheduler.{h,cc}]: as
    PartitionedFIFOScheduler, but the task is recorded with the worker it is
    given to, and the worker with most free capacity in the partition is taken. *)

From S2P Require Import Prelude Probing Tables World Procs Pool Client Frame SchedulerUtil.
From S2P Require Import Select Setup Drain.

Record PartitionedLocalFIFOScheduler := {
  workerCapacity_ : Z;
  workerPartitions_ : Z;
  numWorkers_ : Z;
}.

(** [taskindex.fetch_add(1)] on the static [std::atomic<uint32_t>]. *)
Definition fetch_add_taskindex : M world Z := fun w =>
  (Done (taskindex_local w),
   World (w_db w) (w_tick w) (w_inflight w) (taskindex_push w)
     (wrapU32 (taskindex_local w + 1)) (taskindex_single w)).

Section Scheduler.
Context `{Env}.
Implicit Types (this : PartitionedLocalFIFOScheduler).

Definition activePartitions this : Z := Z.min (workerPartitions_ this) (numWorkers_ this).

Definition selectWorker this (taskID : Z) : M world Z :=
  r ← c_rand;
  offset ← int_rem r (activePartitions this);
  c ← for_loop (Z.to_nat (activePartitions this)) 0 tt (fun count _ =>
    partitionNum ← int_rem (wrap32 (count + offset)) (activePartitions this);
    r ← invoke (Procedure_new "SelectOrderedWorker"
                  [scalar WIRE_TYPE_INTEGER; scalar WIRE_TYPE_INTEGER])
          [VInt partitionNum; VInt taskID];
    match r with
    | RFailure => mret (Return (-1))
    | RSuccess results =>
        z ← first_int64 results;
        let selectedWorker := wrap32 z in
        if decide (selectedWorker <> -1) then mret (Return selectedWorker)
        else mret (Next tt)
    end);
  after c (fun _ => mret (-1)).

(** The transaction is still to be written in the source. *)
Definition assignTaskToWorker (taskId workerId : Z) : M world bool := mret true.

(** Two parameters are passed to a procedure that takes three. *)
Definition finishTask this (taskId workerId : Z) : M world bool :=
  pkey ← int_rem workerId (workerPartitions_ this);
  r ← invoke (Procedure_new "FinishWorkerTask"
                [scalar WIRE_TYPE_INTEGER; scalar WIRE_TYPE_INTEGER])
        [VInt workerId; VInt pkey];
  mret (succeeded r).

(** The class's own copies of the shared statements. *)
Definition truncateWorkerTable : M world unit := SchedulerUtil.truncateWorkerTable.
Definition truncateTaskTable : M world unit := SchedulerUtil.truncateTaskTable.
Definition insertWorker this (workerID capacity : Z) : M world bool :=
  SchedulerUtil.insertWorker (workerPartitions_ this) workerID capacity.

Definition setup this : M world bool :=
  truncateWorkerTable ;;
  truncateTaskTable ;;
  c ← insert_all (numWorkers_ this)
        (fun i => insertWorker this i (workerCapacity_ this));
  after c (fun _ => mret true).

Definition teardown : M world bool :=
  truncateWorkerTable ;; truncateTaskTable ;; mret true.

Definition schedule this (_ : task) : M world bool :=
  i ← fetch_add_taskindex;
  let taskId := wrap32 i in
  workerId ← selectWorker this taskId;
  assertM (bool_decide (0 <= workerId)) ;;
  mret true.

Definition asyncSchedule this : M world bool :=
  i ← fetch_add_taskindex;
  let taskID := wrap32 i in
  r ← c_rand;
  partitionNum ← int_rem r (activePartitions this);
  invokeAsync (Procedure_new "SelectOrderedWorker"
                 [scalar WIRE_TYPE_INTEGER; scalar WIRE_TYPE_INTEGER])
    [VInt partitionNum; VInt taskID] ;;
  mret true.

#[export] Instance PartitionedLocalFIFOScheduler_util :
    SchedulerUtil PartitionedLocalFIFOScheduler := {
  schedule_ := schedule;
  asyncSchedule_ := asyncSchedule;
  setup_ := setup;
  teardown_ _ := teardown;
}.
End Scheduler.

(** ** Selecting a worker *)

Section Correctness.
Context `{Env, !Reliable}.
Context (this : PartitionedLocalFIFOScheduler).
Context (active_range : 0 < activePartitions this <= 2 ^ 30).

Lemma local_selectWorker_run t w :
  wf_db (w_db w) -> workers_within (activePartitions this) (w_db w) -> id_ok t ->
  selected fullest_workers WorkerID (-1) (recorded t PENDING) (w_db w)
    (selectWorker this t w).1 (w_db (selectWorker this t w).2).
Proof.
  intros Hwf Hin Ht. apply (linear_select
    (fun p => invoke (Procedure_new "SelectOrderedWorker"
       [scalar WIRE_TYPE_INTEGER; scalar WIRE_TYPE_INTEGER]) [VInt p; VInt t])
    (recorded t PENDING) fullest_workers) with (d := w_db w); try done.
  - apply fullest_sub.
  - intros p w1 Hw1. apply invoke_SelectOrderedWorker; [by rewrite Hw1|done].
Qed.

Lemma local_selectWorker_frame t : preserves same_client (selectWorker this t).
Proof. unfold selectWorker. frame_solve. Qed.

(** From a world with [pool_inv k] the next [k] tasks have numbers below
    2^31; the number 2^31 itself is the NULL value of a column. *)
Definition pool_inv (k : nat) (w : world) : Prop :=
  wf_db (w_db w) /\ workers_within (activePartitions this) (w_db w) /\
  0 <= taskindex_local w /\ taskindex_local w + Z.of_nat k <= 2 ^ 31.

Lemma local_fetch_add_ok k w :
  pool_inv (S k) w ->
  exists w', fetch_add_taskindex w = (Done (taskindex_local w), w') /\
    w_db w' = w_db w /\ pool_inv k w' /\
    wrap32 (taskindex_local w) = taskindex_local w /\ id_ok (taskindex_local w) /\
    taskindex_local w' = taskindex_local w + 1.
Proof.
  intros (Hwf & Hin & Hge & Hk). eexists. split; [done|].
  assert (wrapU32 (taskindex_local w + 1) = taskindex_local w + 1) as E
    by (apply Z.mod_small; lia).
  cbn. rewrite E. unfold pool_inv, id_ok. cbn. split_and!; try done; try lia.
  apply wrap32_id. lia.
Qed.

Lemma local_schedule_draining (t : task) : Draining pool_inv (schedule this t).
Proof.
  split; intros k w Hinv Htot;
    destruct (local_fetch_add_ok k w Hinv) as (w1 & E1 & Hd1 & Hinv1 & Ewrap & Hid & _);
    pose proof Hinv1 as (Hwf & Hin & Hge & Hk);
    pose proof (local_selectWorker_run _ w1 Hwf Hin Hid) as Hsel;
    pose proof (local_selectWorker_frame (taskindex_local w) w1) as (_ & _ & Hidx & _);
    unfold schedule; run_bind E1; rewrite Ewrap;
    destruct (selectWorker this (taskindex_local w) w1) as [o w'] eqn:E; cbn in Hsel, Hidx;
    rewrite <- Hd1 in Htot |- *.
  - destruct (selected_hit _ _ _ _ (takes_recorded _ _) _ _ _ Hwf Hsel Htot)
      as (r & Hr & _ & _ & -> & _ & Ht).
    destruct (wf_row _ _ Hwf Hr) as (_ & Hrid & _).
    run_bind E. rewrite bool_decide_eq_true_2 by lia. exists w'.
    split_and!; [done|split_and!; rewrite ?Hidx; try done|done];
      eauto using selected_wf, selected_within, takes_recorded.
  - destruct (selected_miss _ _ _ _ (takes_recorded _ _) _ _ _ Hwf Hsel Htot) as [-> Hd].
    run_bind E. by exists w'.
Qed.
End Correctness.

(** ** Setting up *)

Definition config_ok (this : PartitionedLocalFIFOScheduler) : Prop :=
  0 < workerPartitions_ this <= 2 ^ 30 /\ 0 <= workerCapacity_ this < 2 ^ 31 /\
  0 < numWorkers_ this < 2 ^ 31.

Lemma local_setup_run `{Env, !Reliable} this w :
  config_ok this ->
  exists w', setup this w = (Done true, w') /\ Task (w_db w') = [] /\ same_client w w' /\
    Worker (w_db w') = fresh_workers (workerPartitions_ this) (workerCapacity_ this)
                         (Z.to_nat (numWorkers_ this)).
Proof.
  intros (HP & Hc & Hn). unfold setup, truncateWorkerTable, truncateTaskTable, insertWorker.
  rewrite (bind_done _ _ _ _ _ (truncateWorkerTable_ok w)).
  rewrite (bind_done _ _ _ _ _ (truncateTaskTable_ok _)).
  edestruct (fun w => setup_workers (workerPartitions_ this) (workerCapacity_ this) (numWorkers_ this) w
    ltac:(lia) ltac:(lia) ltac:(lia)) as (w' & E & Hd & Hf); exists w'; split; [exact E|].
  rewrite Hd. split_and!; [done| |done].
  etrans; [|exact Hf]. unfold same_client. cbn. split_and!; (done || lia).
Qed.

(** ** Properties *)

Section Properties.
Context `{Env, !Reliable}.


(** After [setup], exactly [numWorkers * workerCapacity] calls of
    [schedule] succeed, and the next one aborts. *)
Theorem local_schedule_uses_capacity this w tsk :
  config_ok this -> 0 <= taskindex_local w ->
  taskindex_local w + numWorkers_ this * workerCapacity_ this < 2 ^ 31 ->
  exists w0 w1 w2, setup this w = (Done true, w0) /\
    schedule_n (schedule this tsk)
      (Z.to_nat (numWorkers_ this * workerCapacity_ this)) w0 =
      (Done (numWorkers_ this * workerCapacity_ this), w1) /\
    total_capacity (w_db w1) = 0 /\
    schedule this tsk w1 = (Trap AssertFailure, w2) /\ w_db w2 = w_db w1.
Proof.
  intros Hc Hge Hk. destruct (local_setup_run this w Hc) as (w0 & E & _ & (_ & _ & Hi & _) & Hf).
  pose proof Hc as (HP & HC & HN).
  apply fresh_pool in Hf as (Hwf & Hin & Htot); [|lia..].
  pose proof (local_schedule_draining this ltac:(unfold activePartitions; lia) tsk) as Hd.
  destruct (schedule_n_drains (pool_inv this) (schedule this tsk)
    (Z.to_nat (numWorkers_ this * workerCapacity_ this)) 0 w0) as (w1 & w2 & E1 & Ht & E2 & Hd2 & _);
    [unfold pool_inv; rewrite Hi; split_and!; try done; lia|lia|].
  exists w0, w1, w2. rewrite Z2Nat.id in E1 by lia. done.
Qed.
End Properties.

(** ** Examples *)

Definition local_demo : PartitionedLocalFIFOScheduler :=
  {| workerCapacity_ := 2; workerPartitions_ := 3; numWorkers_ := 3 |}.
Definition local_demo_world : world := init_world (Db (fresh_workers 3 2 3) [] [] [] [] []).

Lemma local_demo_ok : config_ok local_demo.
Proof. unfold config_ok. cbn. lia. Qed.

Lemma local_demo_inv : pool_inv local_demo 1 local_demo_world.
Proof.
  split_and!; [apply (wf_fresh 3 2 3); [lia..|done]| |done|by cbn].
  repeat constructor; by vm_compute.
Qed.


Lemma local_schedule_uses_capacity_witness :
  let E := steady Z.of_nat in
  config_ok local_demo /\
  exists w0 w1, setup local_demo local_demo_world = (Done true, w0) /\
    schedule_n (schedule local_demo (Task_ 0 0))
      (Z.to_nat (numWorkers_ local_demo * workerCapacity_ local_demo)) w0 =
      (Done (numWorkers_ local_demo * workerCapacity_ local_demo), w1).
Proof.
  split; [apply local_demo_ok|].
  destruct (local_schedule_uses_capacity (H := steady Z.of_nat) local_demo local_demo_world
    (Task_ 0 0) local_demo_ok ltac:(cbn; lia) ltac:(cbn; lia))
    as (w0 & w1 & _ & E & E1 & _). exists w0, w1. exact (conj E E1).
Defined.
