(* ===== verification/SinglePartitionedFIFOTaskScheduler.v ===== *)
(** * SinglePartitionedFIFOTaskScheduler

    [src/libs/lib_scheduler/SinglePartitionedFIFOTaskScheduler.{h,cc}]. *)

From S2P Require Import Prelude Probing Tables World Procs Pool Client Frame SchedulerUtil.
From S2P Require Import Select Setup Drain.

Record SinglePartitionedFIFOTaskScheduler := {
  partitions_ : Z;
  numTasks_ : Z;
  workerCapacity_ : Z;
  numWorkers_ : Z;
  probMultiTx_ : f32;
}.

(** The preprocessor constants of the file. *)
Definition SUCCESS : Z := 0.
Definition NOWORKER : Z := -2.
Definition MAXTRY : Z := 1000.

Definition fetch_add_taskindex : M world Z := fun w =>
  (Done (taskindex_single w),
   World (w_db w) (w_tick w) (w_inflight w) (taskindex_push w) (taskindex_local w)
     (wrapU32 (taskindex_single w + 1))).

Section Scheduler.
Context `{Env}.
Implicit Types (this : SinglePartitionedFIFOTaskScheduler).

Definition activePartitions this : Z := Z.min (partitions_ this) (numWorkers_ this).

(** One pass over the partitions, from the loop's [pkey]. *)
Definition try_partitions this (taskID pkey : Z) : M world (ctl Z bool) :=
  for_loop (Z.to_nat (activePartitions this)) 1 pkey (fun count pkey =>
    r ← invoke (Procedure_new "SelectSinglePartitionedTaskWorker"
                  [scalar WIRE_TYPE_INTEGER; scalar WIRE_TYPE_INTEGER])
          [VInt pkey; VInt taskID];
    match r with
    | RFailure => mret (Return false)
    | RSuccess results =>
        z ← first_int64 results;
        let status := wrap32 z in
        if decide (status = SUCCESS) then mret (Return true)
        else
          pkey' ← int_rem (wrap32 (pkey + count)) (activePartitions this);
          mret (Next pkey')
    end).

Definition selectTaskWorker this (taskID : Z) : M world bool :=
  r ← c_rand;
  pkey ← int_rem r (activePartitions this);
  c ← for_loop (Z.to_nat MAXTRY) 0 pkey (fun t pkey =>
    c ← try_partitions this taskID pkey;
    match c with
    | Return b => mret (Return b)
    | Next pkey' | Break pkey' => mret (Next pkey')   (* sleeps 100us *)
    end);
  after c (fun _ => mret false).

(** The class's own copies of the shared statements. *)
Definition truncateWorkerTable : M world unit := SchedulerUtil.truncateWorkerTable.
Definition truncateTaskTable : M world unit := SchedulerUtil.truncateTaskTable.
Definition insertWorker this (workerID capacity : Z) : M world bool :=
  SchedulerUtil.insertWorker (partitions_ this) workerID capacity.

Definition setup this : M world bool :=
  truncateWorkerTable ;;
  truncateTaskTable ;;
  c ← insert_all (numWorkers_ this)
        (fun i => insertWorker this i (workerCapacity_ this));
  after c (fun _ => mret true).

Definition teardown : M world bool :=
  truncateWorkerTable ;; truncateTaskTable ;; mret true.

Definition schedule this (_ : task) : M world bool :=
  i ← fetch_add_taskindex;
  status ← selectTaskWorker this (wrap32 i);
  assertM status ;;
  mret true.

Definition asyncSchedule this : M world bool :=
  i ← fetch_add_taskindex;
  let taskID := wrap32 i in
  r ← c_rand;
  partitionNum ← int_rem r (activePartitions this);
  invokeAsync (Procedure_new "SelectSinglePartitionedTaskWorker"
                 [scalar WIRE_TYPE_INTEGER; scalar WIRE_TYPE_INTEGER])
    [VInt partitionNum; VInt taskID] ;;
  mret true.

#[export] Instance SinglePartitionedFIFOTaskScheduler_util :
    SchedulerUtil SinglePartitionedFIFOTaskScheduler := {
  schedule_ := schedule;
  asyncSchedule_ := asyncSchedule;
  setup_ := setup;
  teardown_ _ := teardown;
}.
End Scheduler.

(** ** The passes of [selectTaskWorker] *)

Section Correctness.
Context `{Env, !Reliable}.
Context (this : SinglePartitionedFIFOTaskScheduler).
Context (active_range : 0 < activePartitions this <= 2 ^ 30).

Definition single_invoke (t p : Z) : M world response :=
  invoke (Procedure_new "SelectSinglePartitionedTaskWorker"
    [scalar WIRE_TYPE_INTEGER; scalar WIRE_TYPE_INTEGER]) [VInt p; VInt t].

Lemma single_call t d :
  id_ok t -> wf_db d -> forall p w, w_db w = d ->
  select_reply free_workers p NOWORKER (fun _ => Procs.SUCCESS) (recorded t PENDING p) w
    (single_invoke t p w).
Proof. intros Ht Hwf p w Hw. apply invoke_SelectSingle; [by rewrite Hw|done]. Qed.

(** One pass from any partition, on a power of two of partitions. *)
Lemma single_pass t p w :
  power_of_two (activePartitions this) -> id_ok t ->
  wf_db (w_db w) -> workers_within (activePartitions this) (w_db w) ->
  0 <= p < activePartitions this ->
  exists c w', try_partitions this t p w = (Done c, w') /\
    ((exists r, c = Return true /\ r ∈ Worker (w_db w) /\ 0 < Capacity r /\
        r ∈ free_workers (W_PKey r) (w_db w) /\
        w_db w' = recorded t PENDING (W_PKey r) r (w_db w)) \/
     (exists p', c = Next p' /\ 0 <= p' < activePartitions this /\ w_db w' = w_db w /\
        Forall (fun r => Capacity r = 0) (Worker (w_db w)))).
Proof.
  intros (m & Hm & En) Ht Hwf Hin Hp.
  destruct (triangular_search (single_invoke t) (recorded t PENDING) free_workers (fun _ _ _ Hr => Hr)
    (activePartitions this) (w_db w) active_range p w
    (single_call t _ Ht Hwf) Hp eq_refl) as (c & w' & E & Hc).
  exists c, w'. split; [exact E|]. destruct Hc as [(r & -> & Hr)|(-> & Hd & Hnone)].
  - left. by exists r.
  - right. eexists. split_and!; [done| | |done|].
    1,2: apply probe_range; lia.
    apply (no_free_anywhere (activePartitions this)); [done..|]. intros q Hq.
    destruct (probe_covers_pow2 m p q Hm) as (k & Hk & <-); [by rewrite <- En|].
    rewrite <- En in *. auto.
Qed.

Definition passes_body (t : Z) (_ pkey : Z) : M world (ctl Z bool) :=
  c ← try_partitions this t pkey;
  match c with
  | Return b => mret (Return b)
  | Next pkey' | Break pkey' => mret (Next pkey')
  end.

Lemma single_passes n t : forall i p w,
  power_of_two (activePartitions this) -> id_ok t ->
  wf_db (w_db w) -> workers_within (activePartitions this) (w_db w) ->
  0 <= p < activePartitions this ->
  exists c w', for_loop (S n) i p (passes_body t) w = (Done c, w') /\
    ((exists r, c = Return true /\ r ∈ Worker (w_db w) /\ 0 < Capacity r /\
        r ∈ free_workers (W_PKey r) (w_db w) /\
        w_db w' = recorded t PENDING (W_PKey r) r (w_db w)) \/
     (exists p', c = Next p' /\ w_db w' = w_db w /\
        Forall (fun r => Capacity r = 0) (Worker (w_db w)))).
Proof.
  induction n as [|n IH]; intros i p w Hpow Ht Hwf Hin Hp;
    destruct (single_pass t p w Hpow Ht Hwf Hin Hp) as (c & w' & E & Hc);
    assert (passes_body t i p w =
      (Done (match c with Return b => Return b | Next q | Break q => Next q end), w')) as Eb
      by (unfold passes_body; run_bind E; by destruct c);
    cbn [for_loop]; run_bind Eb;
    destruct Hc as [(r & -> & Hr)|(p' & -> & Hp' & Hd & Hnone)].
  1, 3: exists (Return true), w'; split; [done|left; by exists r].
  - exists (Next p'), w'. split; [done|right; by exists p'].
  - destruct (IH (i + 1) p' w') as (c & w2 & E2 & Hc); [done|done|by rewrite Hd..|done|].
    exists c, w2. split; [exact E2|by rewrite Hd in Hc; naive_solver].
Qed.

Lemma single_select_run t w :
  power_of_two (activePartitions this) -> id_ok t ->
  wf_db (w_db w) -> workers_within (activePartitions this) (w_db w) ->
  selected free_workers (fun _ => true) false (recorded t PENDING) (w_db w)
    (selectTaskWorker this t w).1 (w_db (selectTaskWorker this t w).2).
Proof.
  intros Hpow Ht Hwf Hin. unfold selectTaskWorker.
  destruct (random_offset (A := bool) (activePartitions this) w) as (p0 & Hp0 & E); [lia|].
  rewrite E. change (Z.to_nat MAXTRY) with (S 999).
  destruct (single_passes 999 t 0 p0 (tick w)) as (c & w' & El & Hc); [done..|].
  unfold passes_body in El. run_bind El.
  destruct Hc as [(r & -> & Hr & Hpos & Hf & Hd)|(p' & -> & Hd & Hnone)];
    [left; exists r | right]; by cbn.
Qed.

Lemma single_select_frame t : preserves same_client (selectTaskWorker this t).
Proof. unfold selectTaskWorker, try_partitions. frame_solve. Qed.

(** *** Passes that find nothing *)

Lemma single_pass_none t p w :
  id_ok t -> wf_db (w_db w) -> 0 <= p < activePartitions this ->
  (forall k, free_workers (probe (activePartitions this) p k) (w_db w) = []) ->
  exists w', passes_body t 0 p w =
      (Done (Next (probe (activePartitions this) p (Z.to_nat (activePartitions this)))), w') /\
    w_db w' = w_db w.
Proof.
  intros Ht Hwf Hp Hnone.
  destruct (triangular_none (single_invoke t) (recorded t PENDING) free_workers
    (fun _ _ _ Hr => Hr) (activePartitions this) (w_db w) active_range p w
    (single_call t _ Ht Hwf) Hp eq_refl Hnone) as (w' & E & Hd).
  exists w'. split; [|done]. unfold passes_body.
  change (for_loop _ 1 p _ w) with (try_partitions this t p w) in E. by run_bind E.
Qed.

(** Starting points half a turn away from [p0] are closed under passes. *)
Lemma half_turn_pass n p0 p :
  0 < n -> 2 * (p - p0) mod n = 0 -> 2 * (probe n p (Z.to_nat n) - p0) mod n = 0.
Proof.
  intros Hn [c Hc]%Z.mod_divide; [|lia]. unfold probe. rewrite Z2Nat.id by lia.
  pose proof (tri_double n). apply Z.mod_divide; [lia|].
  rewrite (Z.mod_eq (p + tri n)) by lia.
  exists (c + (n + 1) - 2 * ((p + tri n) / n)). nia.
Qed.

Lemma single_passes_none t p0 N : forall i p w,
  id_ok t -> wf_db (w_db w) -> 0 <= p < activePartitions this ->
  2 * (p - p0) mod activePartitions this = 0 ->
  (forall k p1, 2 * (p1 - p0) mod activePartitions this = 0 ->
     free_workers ((p1 + tri k) mod activePartitions this) (w_db w) = []) ->
  exists p' w', for_loop N i p (passes_body t) w = (Done (Next p'), w') /\ w_db w' = w_db w.
Proof.
  induction N as [|N IH]; intros i p w Ht Hwf Hp Hhalf Hnone; [by exists p, w|].
  destruct (single_pass_none t p w) as (w1 & E & Hd); [done..| |].
  { intros k. by apply Hnone. }
  change (passes_body t 0 p w) with (passes_body t i p w) in E.
  cbn [for_loop]. run_bind E.
  destruct (IH (i + 1) (probe (activePartitions this) p (Z.to_nat (activePartitions this))) w1)
    as (p' & w2 & E2 & Hd2).
  - done.
  - by rewrite Hd.
  - apply probe_range. lia.
  - apply half_turn_pass; [lia|done].
  - by rewrite Hd.
  - exists p', w2. by rewrite <- Hd.
Qed.

(** From a world with [pool_inv k] the next [k] task numbers fit a column. *)
Definition pool_inv (k : nat) (w : world) : Prop :=
  wf_db (w_db w) /\ workers_within (activePartitions this) (w_db w) /\
  0 <= taskindex_single w /\ taskindex_single w + Z.of_nat k <= 2 ^ 31.

Lemma single_fetch_add k w :
  pool_inv (S k) w ->
  exists w', fetch_add_taskindex w = (Done (taskindex_single w), w') /\
    w_db w' = w_db w /\ pool_inv k w' /\
    wrap32 (taskindex_single w) = taskindex_single w /\ id_ok (taskindex_single w).
Proof.
  intros (Hwf & Hin & Hge & Hk). eexists. split; [done|].
  assert (wrapU32 (taskindex_single w + 1) = taskindex_single w + 1) as E
    by (apply Z.mod_small; lia).
  cbn. unfold pool_inv, id_ok. cbn. rewrite E. split_and!; try done; try lia.
  apply wrap32_id. lia.
Qed.

Lemma single_schedule_draining (t : task) :
  power_of_two (activePartitions this) -> Draining pool_inv (schedule this t).
Proof.
  intros Hpow. split; intros k w Hinv Htot;
    destruct (single_fetch_add k w Hinv) as (w1 & E1 & Hd1 & Hinv1 & Ewrap & Hid);
    pose proof Hinv1 as (Hwf & Hin & Hge & Hk);
    pose proof (single_select_run _ w1 Hpow Hid Hwf Hin) as Hsel;
    pose proof (single_select_frame (taskindex_single w) w1) as (_ & _ & _ & Hidx & _);
    unfold schedule; run_bind E1; rewrite Ewrap;
    destruct (selectTaskWorker this (taskindex_single w) w1) as [o w'] eqn:E;
    cbn in Hsel, Hidx; rewrite <- Hd1 in Htot |- *.
  - destruct (selected_hit _ _ _ _ (takes_recorded _ _) _ _ _ Hwf Hsel Htot)
      as (r & Hr & _ & _ & -> & _ & Ht).
    run_bind E. exists w'.
    split_and!; [done|split_and!; rewrite ?Hidx; try done|done];
      eauto using selected_wf, selected_within, takes_recorded.
  - destruct (selected_miss _ _ _ _ (takes_recorded _ _) _ _ _ Hwf Hsel Htot) as [-> Hd].
    run_bind E. by exists w'.
Qed.
End Correctness.

(** ** Setting up *)

Definition config_ok (this : SinglePartitionedFIFOTaskScheduler) : Prop :=
  0 < partitions_ this <= 2 ^ 30 /\ 0 <= workerCapacity_ this < 2 ^ 31 /\
  0 < numWorkers_ this < 2 ^ 31.

Lemma single_setup_run `{Env, !Reliable} this w :
  config_ok this ->
  exists w', setup this w = (Done true, w') /\ Task (w_db w') = [] /\ same_client w w' /\
    Worker (w_db w') = fresh_workers (partitions_ this) (workerCapacity_ this)
                         (Z.to_nat (numWorkers_ this)).
Proof.
  intros (HP & Hc & Hn). unfold setup, truncateWorkerTable, truncateTaskTable, insertWorker.
  rewrite (bind_done _ _ _ _ _ (truncateWorkerTable_ok w)).
  rewrite (bind_done _ _ _ _ _ (truncateTaskTable_ok _)).
  edestruct (fun w => setup_workers (partitions_ this) (workerCapacity_ this) (numWorkers_ this) w
    ltac:(lia) ltac:(lia) ltac:(lia)) as (w' & E & Hd & Hf); exists w'; split; [exact E|].
  rewrite Hd. split_and!; [done| |done].
  etrans; [|exact Hf]. unfold same_client. cbn. split_and!; (done || lia).
Qed.

(** ** Properties *)

Section Properties.
Context `{Env, !Reliable}.

(** When the number of active partitions is a power of two, the
    triangular walk of [selectTaskWorker] reaches every partition: after
    [setup] exactly [numWorkers * workerCapacity] calls of [schedule]
    succeed, and the next one aborts. *)
Theorem single_schedule_uses_capacity this w tsk :
  config_ok this -> power_of_two (activePartitions this) -> 0 <= taskindex_single w ->
  taskindex_single w + numWorkers_ this * workerCapacity_ this < 2 ^ 31 ->
  exists w0 w1 w2, setup this w = (Done true, w0) /\
    schedule_n (schedule this tsk)
      (Z.to_nat (numWorkers_ this * workerCapacity_ this)) w0 =
      (Done (numWorkers_ this * workerCapacity_ this), w1) /\
    total_capacity (w_db w1) = 0 /\
    schedule this tsk w1 = (Trap AssertFailure, w2) /\ w_db w2 = w_db w1.
Proof.
  intros Hc Hpow Hge Hk.
  destruct (single_setup_run this w Hc) as (w0 & E & _ & (_ & _ & _ & Hi & _) & Hf).
  pose proof Hc as (HP & HC & HN).
  apply fresh_pool in Hf as (Hwf & Hin & Htot); [|lia..].
  pose proof (single_schedule_draining this ltac:(unfold activePartitions; lia) tsk Hpow) as Hd.
  destruct (schedule_n_drains (pool_inv this) (schedule this tsk)
    (Z.to_nat (numWorkers_ this * workerCapacity_ this)) 0 w0) as (w1 & w2 & E1 & Ht & E2 & Hd2 & _);
    [unfold pool_inv; rewrite Hi; split_and!; try done; lia|lia|].
  exists w0, w1, w2. rewrite Z2Nat.id in E1 by lia. done.
Qed.

(** C30: on any other number of partitions there is, wherever [rand()] makes
    the walk begin, a partition that none of the [MAXTRY] passes visits: a
    free worker there is not found, and [selectTaskWorker] gives up. *)
Theorem single_misses_partition this t w :
  0 < activePartitions this <= 2 ^ 30 -> ~ power_of_two (activePartitions this) ->
  id_ok t ->
  exists p, 0 <= p < activePartitions this /\
    forall d, wf_db d -> (forall q, q <> p -> free_workers q d = []) ->
    exists w', selectTaskWorker this t (set_db d w) = (Done false, w') /\ w_db w' = d.
Proof.
  intros Hn Hpow Ht.
  pose proof (Z.mod_pos_bound (wrapU 31 (rand_stream (w_tick w))) (activePartitions this)
    ltac:(lia)) as Hp0.
  destruct (probe_misses (activePartitions this) (offset_of (activePartitions this) w))
    as (p & Hp & Hmiss); [lia|done..|].
  exists p. split; [done|]. intros d Hwf Hnone.
  destruct (single_passes_none this Hn t (offset_of (activePartitions this) w)
    (Z.to_nat MAXTRY) 0 (offset_of (activePartitions this) w) (tick (set_db d w)))
    as (p' & w' & E & Hd); [done|done|done|by rewrite Z.sub_diag| |].
  { intros k p1 Hhalf. cbn. apply Hnone. by apply Hmiss. }
  exists w'. split; [|done]. unfold selectTaskWorker.
  rewrite random_start by lia. unfold passes_body in E.
  change (offset_of (activePartitions this) (set_db d w))
    with (offset_of (activePartitions this) w).
  by run_bind E.
Qed.
End Properties.

(** ** Examples *)

(** Four partitions, a power of two, and three, which is none. *)
Definition single_demo (n : Z) : SinglePartitionedFIFOTaskScheduler :=
  {| partitions_ := n; numTasks_ := 0; workerCapacity_ := 2; numWorkers_ := 4;
     probMultiTx_ := f32_of_int 0 |}.

Lemma single_demo_ok : config_ok (single_demo 4).
Proof. unfold config_ok. cbn. lia. Qed.

Lemma not_pow2_3 : ~ power_of_two 3.
Proof.
  intros (m & Hm & E). destruct (decide (m <= 1)) as [Hle|Hgt].
  - assert (m = 0 \/ m = 1) as [->| ->] by lia; done.
  - pose proof (Z.pow_le_mono_r 2 2 m ltac:(lia) ltac:(lia)). lia.
Qed.

Lemma single_schedule_uses_capacity_witness :
  let E := steady Z.of_nat in
  config_ok (single_demo 4) /\
  exists w0 w1, setup (single_demo 4) (init_world empty_db) = (Done true, w0) /\
    schedule_n (schedule (single_demo 4) (Task_ 0 0))
      (Z.to_nat (numWorkers_ (single_demo 4) * workerCapacity_ (single_demo 4))) w0 =
      (Done (numWorkers_ (single_demo 4) * workerCapacity_ (single_demo 4)), w1).
Proof.
  split; [apply single_demo_ok|].
  destruct (single_schedule_uses_capacity (H := steady Z.of_nat) (single_demo 4)
    (init_world empty_db) (Task_ 0 0) single_demo_ok
    ltac:(exists 2; split; [lia|reflexivity]) ltac:(cbn; lia) ltac:(cbn; lia))
    as (w0 & w1 & _ & E & E1 & _). exists w0, w1. exact (conj E E1).
Defined.

(** With the walk starting at partition 0 of three, partition 2 is missed. *)
Lemma single_misses_partition_witness :
  let E := steady (fun _ => 0) in
  ~ power_of_two 3 /\
  exists p, 0 <= p < 3 /\
    exists w', selectTaskWorker (single_demo 3) 7
      (set_db (Db [WorkerRow p 5 0 p ""] [] [] [] [] []) (init_world empty_db)) = (Done false, w').
Proof.
  split; [exact not_pow2_3|].
  destruct (single_misses_partition (H := steady (fun _ => 0)) (single_demo 3) 7
    (init_world empty_db) ltac:(by vm_compute) not_pow2_3 ltac:(by vm_compute)) as (p & Hp & Hall).
  change (activePartitions (single_demo 3)) with 3 in Hp.
  exists p. split; [exact Hp|].
  destruct (Hall (Db [WorkerRow p 5 0 p ""] [] [] [] [] [])) as (w' & E & _).
  - split; [apply NoDup_singleton|]. constructor; [|by constructor].
    unfold wf_worker. cbn. lia.
  - intros q Hq. unfold free_workers. cbn. rewrite decide_False; [done|].
    intros [Hp' _]. by apply Hq.
  - exists w'. exact E.
Defined.
