(* ===== verification/PartitionedFIFOTaskScheduler.v ===== *)
(** * PartitionedFIFOTaskScheduler

    [src/libs/lib_scheduler/PartitionedFIFOTaskScheduler.{h,cc}]: tasks and
    workers are both in the database; a coin decides between a search of the
    partitions one by one and one multi-partition transaction. *)

From S2P Require Import Prelude Probing Tables World Procs Pool Client Frame SchedulerUtil.
From S2P Require Import Select Setup Drain.

Record PartitionedFIFOTaskScheduler := {
  partitions_ : Z;
  numTasks_ : Z;
  workerCapacity_ : Z;
  numWorkers_ : Z;
  probMultiTx_ : f32;
}.

(** The preprocessor constants of the file. *)
Definition SUCCESS : Z := 0.
Definition NOTASK : Z := -1.
Definition NOWORKER : Z := -2.

Section Scheduler.
Context `{Env}.
Implicit Types (this : PartitionedFIFOTaskScheduler).

Definition insertTask this (taskID : Z) : M world bool :=
  pkey ← int_rem taskID (partitions_ this);
  r ← invoke (Procedure_new "InsertTask"
                [scalar WIRE_TYPE_INTEGER; scalar WIRE_TYPE_INTEGER;
                 scalar WIRE_TYPE_INTEGER; scalar WIRE_TYPE_INTEGER])
        [VInt taskID; VInt (-1); VInt 1; VInt pkey];
  mret (succeeded r).

Definition activePartitions this : Z :=
  Z.min (partitions_ this) (Z.max (numWorkers_ this) (numTasks_ this)).

(** The search of single partitions. *)
Definition search_partitions this (pkey : Z) : M world (ctl Z bool) :=
  for_loop (Z.to_nat (activePartitions this)) 1 pkey (fun count pkey =>
    r ← invoke (Procedure_new "SelectPartitionedTaskWorker" [scalar WIRE_TYPE_INTEGER])
          [VInt pkey];
    match r with
    | RFailure => mret (Return false)
    | RSuccess results =>
        z ← first_int64 results;
        let status := wrap32 z in
        if decide (status = SUCCESS) then mret (Return true)
        else if decide (status = NOWORKER) then mret (Break pkey)
        else
          pkey' ← int_rem (wrap32 (count + pkey)) (activePartitions this);
          mret (Next pkey')
    end).

(** The transaction over all partitions. *)
Definition select_any : M world bool :=
  r ← invoke (Procedure_new "SelectTaskWorker" []) [];
  match r with
  | RFailure => mret false
  | RSuccess results =>
      z ← first_int64 results;
      mret (bool_decide (wrap32 z = SUCCESS))
  end.

Definition selectTaskWorker this : M world bool :=
  r ← c_rand;
  pkey ← int_rem r (activePartitions this);
  coin ← throw_coin;
  c ← (if f32_gtb coin (probMultiTx_ this) then search_partitions this pkey
       else mret (Next pkey));
  after c (fun _ => select_any).

(** The class's own copies of the shared statements. *)
Definition truncateWorkerTable : M world unit := SchedulerUtil.truncateWorkerTable.
Definition truncateTaskTable : M world unit := SchedulerUtil.truncateTaskTable.
Definition insertWorker this (workerID capacity : Z) : M world bool :=
  SchedulerUtil.insertWorker (partitions_ this) workerID capacity.

Definition setup this : M world bool :=
  truncateWorkerTable ;;
  truncateTaskTable ;;
  c ← insert_all (numWorkers_ this)
        (fun i => insertWorker this i (workerCapacity_ this));
  after c (fun _ =>
    c ← insert_all (numTasks_ this) (insertTask this);
    after c (fun _ => mret true)).

Definition teardown : M world bool :=
  truncateWorkerTable ;; truncateTaskTable ;; mret true.

Definition schedule this (_ : task) : M world bool :=
  status ← selectTaskWorker this;
  assertM status ;;
  mret true.

#[export] Instance PartitionedFIFOTaskScheduler_util :
    SchedulerUtil PartitionedFIFOTaskScheduler := {
  schedule_ := schedule;
  asyncSchedule_ _ := asyncSchedule_default;
  setup_ := setup;
  teardown_ _ := teardown;
}.
End Scheduler.

(** ** The transaction over all partitions *)

Lemma update_where_ext {A} (P Q : A -> Prop) `{!forall x, Decision (P x), !forall x, Decision (Q x)}
    (f : A -> A) l :
  (forall x, x ∈ l -> P x <-> Q x) -> update_where P f l = update_where Q f l.
Proof.
  intros HPQ. unfold update_where. apply list_fmap_ext. intros i x Hx.
  apply list_elem_of_lookup_2, HPQ in Hx. do 2 case_decide; tauto.
Qed.

(** The pairing of task [t] with worker [r]. *)
Definition paired (t : task_row) (r : worker_row) (d : db) : db :=
  on_Task (update_where (fun t' => TaskID t' = TaskID t) (set_T_WorkerID (WorkerID r)))
    (on_Worker (update_where (fun r' => WorkerID r' = WorkerID r)
                  (set_Capacity (Capacity r - 1))) d).

(** Worker ids are unique across partitions: [SelectTaskWorker] relies on it. *)
Definition ids_unique (d : db) : Prop := NoDup (WorkerID <$> Worker d).

Lemma Worker_paired t r d :
  ids_unique d -> r ∈ Worker d -> Worker (paired t r d) = Worker (acquired (W_PKey r) r d).
Proof.
  intros Hnd Hr. cbn. apply update_where_ext. intros x Hx. unfold worker_is.
  split; [|tauto]. intros E. split; [|done].
  apply list_elem_of_lookup in Hx as [i Hi], Hr as [j Hj].
  assert (i = j) as ->; [|congruence].
  eapply (NoDup_lookup (WorkerID <$> Worker d)); [exact Hnd|by rewrite list_lookup_fmap, Hi|].
  by rewrite list_lookup_fmap, Hj, E.
Qed.

Lemma ids_unique_paired t r d : ids_unique d -> ids_unique (paired t r d).
Proof.
  unfold ids_unique. cbn. unfold update_where. rewrite <- list_fmap_compose.
  erewrite (list_fmap_ext (WorkerID ∘ _)); [done|]. intros i x _. cbn. by case_decide.
Qed.

Section SelectAny.
Context `{Env, !Reliable}.

Lemma SelectTaskWorker_spec w :
  wf_db (w_db w) -> Task (w_db w) <> [] ->
  (Forall (fun r => Capacity r = 0) (Worker (w_db w)) /\
     SelectTaskWorker_run w = (Done Procs.NOWORKER, tick (tick w))) \/
  (exists t r, t ∈ Task (w_db w) /\ r ∈ Worker (w_db w) /\ 0 < Capacity r /\
     SelectTaskWorker_run w =
       (Done Procs.SUCCESS, set_db (paired t r (w_db w)) (tick (tick w)))).
Proof.
  intros Hwf Htasks. unfold SelectTaskWorker_run.
  query_split Emp t Ht; [done|]. query_split Emp r Hr.
  - left. split; [|done]. apply Forall_forall. intros x Hx.
    destruct (wf_row _ x Hwf Hx) as (Hc & _). destruct (decide (0 < Capacity x)); [|lia].
    assert (x ∈ filter (fun r => 0 < Capacity r) (Worker (w_db (tick w)))) as Hf
      by (by apply list_elem_of_filter).
    rewrite Emp in Hf. by apply not_elem_of_nil in Hf.
  - right. apply list_elem_of_filter in Hr as [Hpos Hr]. exists t, r. split_and!; [done..|].
    destruct (wf_row _ r Hwf Hr) as (Hc & _).
    by rewrite (bind_done _ _ _ _ _ (int_col_ok (Capacity r - 1) _ ltac:(lia))).
Qed.

(** With a task in the table, [select_any] is limited by capacity only. *)
Lemma select_any_run w :
  wf_db (w_db w) -> ids_unique (w_db w) -> Task (w_db w) <> [] ->
  exists w', (exists t r, t ∈ Task (w_db w) /\ r ∈ Worker (w_db w) /\ 0 < Capacity r /\
      select_any w = (Done true, w') /\ w_db w' = paired t r (w_db w)) \/
    (total_capacity (w_db w) = 0 /\ select_any w = (Done false, w') /\ w_db w' = w_db w).
Proof.
  intros Hwf Hids Htasks. unfold select_any.
  destruct (SelectTaskWorker_spec (tick w)) as [[Hnone E]|(t & r & Ht & Hr & Hpos & E)];
    [done..| |]; apply transaction_long in E;
    change (transaction _ w) with (invoke (Procedure_new "SelectTaskWorker" []) [] w) in E;
    eexists; [right|left; exists t, r]; run_bind E.
  - by rewrite total_capacity_zero.
  - by split_and!.
Qed.
End SelectAny.

(** ** Tasks are not used up *)

Section Correctness.
Context `{Env, !Reliable}.
Context (this : PartitionedFIFOTaskScheduler).
Context (active_pos : 0 < activePartitions this).
(** The coin never exceeds [probMultiTx_]: every transaction is over all
    partitions, as with [probMultiTx_ = 1]. *)
Context (multi : forall n,
  f32_gtb (f32_div (f32_of_int (wrapU 31 (rand_stream n))) (f32_of_int RAND_MAX))
    (probMultiTx_ this) = false).

Lemma selectTaskWorker_multi w :
  selectTaskWorker this w = select_any (tick (tick w)).
Proof.
  unfold selectTaskWorker. rewrite random_start by done. unfold throw_coin.
  set (coin := f32_div (f32_of_int (wrapU 31 (rand_stream (w_tick (tick w)))))
                 (f32_of_int RAND_MAX)).
  assert ((r ← c_rand; mret (f32_div (f32_of_int r) (f32_of_int RAND_MAX))) (tick w) =
    (Done coin, tick (tick w))) as Ecoin by done.
  run_bind Ecoin. unfold coin. rewrite multi. done.
Qed.

(** The database holds one task, [i], in state [s]. *)
Definition single_task (i s p : Z) (_ : nat) (w : world) : Prop :=
  wf_db (w_db w) /\ ids_unique (w_db w) /\ exists v, Task (w_db w) = [TaskRow i v s p].

Lemma single_task_draining i s p (tsk : task) :
  Draining (single_task i s p) (schedule this tsk).
Proof.
  split; intros k w (Hwf & Hids & v & HT) Htot; unfold schedule;
    destruct (select_any_run (tick (tick w)) Hwf Hids ltac:(cbn; by rewrite HT))
      as (w' & [(t & r & Ht & Hr & Hpos & E & Hd)|(Hnone & E & Hd)]);
    rewrite <- selectTaskWorker_multi in E; run_bind E; exists w'.
  - cbn in Ht, Hr, Hd. pose proof (Worker_paired t r _ Hids Hr) as HW. rewrite Hd.
    assert (r ∈ free_workers (W_PKey r) (w_db w)) as Hf by (by apply elem_of_free_workers).
    split_and!; [done|unfold single_task; rewrite Hd; split_and!|].
    + destruct (wf_db_acquired _ _ _ Hwf Hf) as [H1 H2]. by split; rewrite HW.
    + by apply ids_unique_paired.
    + exists (WorkerID r). cbn. rewrite HT in Ht |- *. apply list_elem_of_singleton in Ht as ->.
      cbn. by rewrite decide_True.
    + unfold total_capacity at 1. rewrite HW. by apply total_capacity_acquired.
  - cbn in Hnone. lia.
  - cbn in Ht, Hr. apply total_capacity_zero in Htot; [|done].
    pose proof (proj1 (Forall_forall _ _) Htot r Hr) as Hc. cbn in Hc. lia.
  - done.
Qed.
End Correctness.

(** ** Properties *)

Section Properties.
Context `{Env, !Reliable}.

(** A task that was given to a worker is selected again, since
    [SelectTaskWorker] looks neither at its state nor at its worker: with a
    single task in the database, as many scheduling acts succeed as the
    workers have capacity, and every one of them uses up a unit for that task. *)
Theorem task_scheduled_repeatedly this tsk i v s p w :
  0 < activePartitions this ->
  (forall n, f32_gtb (f32_div (f32_of_int (wrapU 31 (rand_stream n))) (f32_of_int RAND_MAX))
               (probMultiTx_ this) = false) ->
  wf_db (w_db w) -> ids_unique (w_db w) -> Task (w_db w) = [TaskRow i v s p] ->
  exists w1 w2 v', schedule_n (schedule this tsk) (Z.to_nat (total_capacity (w_db w))) w =
      (Done (total_capacity (w_db w)), w1) /\
    Task (w_db w1) = [TaskRow i v' s p] /\ total_capacity (w_db w1) = 0 /\
    schedule this tsk w1 = (Trap AssertFailure, w2).
Proof.
  intros Hn Hmulti Hwf Hids HT.
  pose proof (single_task_draining this Hn Hmulti i s p tsk) as Hdr.
  pose proof (total_capacity_nonneg _ Hwf) as Hge.
  destruct (schedule_n_drains (single_task i s p) (schedule this tsk)
    (Z.to_nat (total_capacity (w_db w))) 0 w) as (w1 & w2 & E & Ht & E2 & _ & (_ & _ & v' & HT'));
    [by split_and!; eauto|lia|].
  rewrite Z2Nat.id in E by done. by exists w1, w2, v'.
Qed.
End Properties.

(** ** Examples *)

(** [probMultiTx_ = 1]: no toss of the coin exceeds it. *)
Definition fifo_task_demo : PartitionedFIFOTaskScheduler :=
  {| partitions_ := 2; numTasks_ := 1; workerCapacity_ := 2; numWorkers_ := 2;
     probMultiTx_ := f32_of_int 1 |}.
Definition fifo_task_world : world :=
  init_world (Db (fresh_workers 2 2 2) [TaskRow 0 (-1) 1 0] [] [] [] []).

Lemma task_scheduled_repeatedly_witness :
  let E := steady (fun _ => 5) in
  total_capacity (w_db fifo_task_world) = 4 /\
  exists w1, schedule_n (schedule fifo_task_demo (Task_ 0 0))
    (Z.to_nat (total_capacity (w_db fifo_task_world))) fifo_task_world =
    (Done (total_capacity (w_db fifo_task_world)), w1).
Proof.
  split; [reflexivity|].
  destruct (task_scheduled_repeatedly (H := steady (fun _ => 5)) fifo_task_demo (Task_ 0 0)
    0 (-1) 1 0 fifo_task_world) as (w1 & _ & _ & E & _).
  - by vm_compute.
  - intros n. by vm_compute.
  - apply (wf_fresh 2 2 2); [lia..|done].
  - apply (bool_decide_unpack (NoDup _)). by vm_compute.
  - done.
  - exists w1. exact E.
Defined.
