(* ===== verification/PartitionedScanTask.v ===== *)
(** * PartitionedScanTask

    [src/libs/lib_scheduler/PartitionedScanTask.{h,cc}]: tasks are assigned to
    workers beforehand; a scheduling act finds the worker with most tasks. *)

From S2P Require Import Prelude Probing Tables World Procs Pool Client Frame SchedulerUtil.
From S2P Require Import Select.

Record PartitionedScanTask := {
  partitions_ : Z;
  numTasks_ : Z;
  numWorkers_ : Z;
  probMultiTx_ : f32;
}.

Definition NOWORKER : Z := -2.

(** [return false] in a function of result type [DbosId]. *)
Definition false_as_int : Z := 0.

Section Scheduler.
Context `{Env}.
Implicit Types (this : PartitionedScanTask).

Definition insertTask this (taskID : Z) : M world bool :=
  workerID ← int_rem taskID (numWorkers_ this);
  pkey ← int_rem workerID (partitions_ this);
  r ← invoke (Procedure_new "InsertTask"
                [scalar WIRE_TYPE_INTEGER; scalar WIRE_TYPE_INTEGER;
                 scalar WIRE_TYPE_INTEGER; scalar WIRE_TYPE_INTEGER])
        [VInt taskID; VInt workerID; VInt 1; VInt pkey];
  mret (succeeded r).

Definition activePartitions this : Z :=
  Z.min (partitions_ this) (Z.min (numTasks_ this) (numWorkers_ this)).

Definition scan_partitions this (pkey : Z) : M world (ctl Z Z) :=
  for_loop (Z.to_nat (activePartitions this)) 1 pkey (fun count pkey =>
    r ← invoke (Procedure_new "ScanPartitionedTaskWorker" [scalar WIRE_TYPE_INTEGER])
          [VInt pkey];
    match r with
    | RFailure => mret (Return false_as_int)
    | RSuccess results =>
        z ← first_int64 results;
        let workerId := wrap32 z in
        if decide (0 <= workerId) then mret (Return workerId)
        else
          pkey' ← int_rem (wrap32 (count + pkey)) (activePartitions this);
          mret (Next pkey')
    end).

Definition scan_any : M world Z :=
  r ← invoke (Procedure_new "ScanTaskWorker" []) [];
  match r with
  | RFailure => mret false_as_int
  | RSuccess results =>
      z ← first_int64 results;
      let workerId := wrap32 z in
      mret (if decide (0 <= workerId) then workerId else NOWORKER)
  end.

Definition selectMostTaskWorker this : M world Z :=
  r ← c_rand;
  pkey ← int_rem r (activePartitions this);
  coin ← throw_coin;
  c ← (if f32_gtb coin (probMultiTx_ this) then scan_partitions this pkey
       else mret (Next pkey));
  after c (fun _ => scan_any).

(** The class's own copies of the shared statements. *)
Definition truncateTaskTable : M world unit := SchedulerUtil.truncateTaskTable.

Definition setup this : M world bool :=
  truncateTaskTable ;;
  c ← insert_all (numTasks_ this) (insertTask this);
  after c (fun _ => mret true).

(** The truncation is commented out in the source. *)
Definition teardown : M world bool := mret true.

Definition schedule this (_ : task) : M world bool :=
  status ← selectMostTaskWorker this;
  assertM (bool_decide (0 <= status)) ;;
  mret true.

#[export] Instance PartitionedScanTask_util : SchedulerUtil PartitionedScanTask := {
  schedule_ := schedule;
  asyncSchedule_ _ := asyncSchedule_default;
  setup_ := setup;
  teardown_ _ := teardown;
}.
End Scheduler.

(** ** What a scan finds *)

Lemma busiest_nil ts : busiest ts = [] -> ts = [].
Proof.
  intros E. destruct ts as [|t ts]; [done|]. exfalso.
  destruct (max_exists (fun w => Z.of_nat (task_count (t :: ts) w)) (groups (t :: ts)))
    as (m & Hm & Hle).
  { intros En. assert (T_WorkerID t ∈ groups (t :: ts)) as Hin
      by (apply elem_of_remove_dups; by left).
    rewrite En in Hin. by apply not_elem_of_nil in Hin. }
  assert (m ∈ busiest (t :: ts)) as Hin.
  { apply list_elem_of_filter. split; [|done]. eapply Forall_impl; [exact Hle|]. cbn. lia. }
  rewrite E in Hin. by apply not_elem_of_nil in Hin.
Qed.

(** A worker of [ts] that no other worker of [ts] has more tasks than. *)
Definition most_loaded (ts : list task_row) (i : Z) : Prop :=
  (exists t, t ∈ ts /\ T_WorkerID t = i) /\
  forall t, t ∈ ts -> (task_count ts (T_WorkerID t) <= task_count ts i)%nat.

Lemma busiest_most ts i : i ∈ busiest ts -> most_loaded ts i.
Proof.
  intros [Hmax Hin]%list_elem_of_filter. split.
  - apply elem_of_remove_dups, list_elem_of_fmap in Hin as (t & -> & Ht). eauto.
  - intros t Ht. pose proof (proj1 (Forall_forall _ _) Hmax (T_WorkerID t)) as Hle. cbn in Hle.
    apply Hle, elem_of_remove_dups, list_elem_of_fmap. eauto.
Qed.

(** The tasks that have a worker, in one partition or in all. *)
Definition assigned_in (p : Z) (d : db) : list task_row :=
  filter (fun t => 0 <= T_WorkerID t /\ T_PKey t = p) (Task d).
Definition assigned (d : db) : list task_row := filter (fun t => 0 <= T_WorkerID t) (Task d).

(** The ids in the table are those an INTEGER column can hold. *)
Definition ids_fit (d : db) : Prop := Forall (fun t => T_WorkerID t < 2 ^ 31) (Task d).

Section Scans.
Context `{Env, !Reliable}.

Lemma scan_result_spec ts w :
  (ts = [] /\ scan_result ts w = (Done Procs.NOWORKER, tick w)) \/
  (exists i, most_loaded ts i /\ scan_result ts w = (Done i, tick w)).
Proof.
  unfold scan_result. destruct (pick_row_cases (busiest ts) w) as [[Emp E]|(i & Hi & E)];
    run_bind E.
  - left. by apply busiest_nil in Emp.
  - right. exists i. split; [by apply busiest_most|done].
Qed.

Lemma invoke_scan_partition p w :
  (assigned_in p (w_db w) = [] /\
   invoke (Procedure_new "ScanPartitionedTaskWorker" [scalar WIRE_TYPE_INTEGER]) [VInt p] w =
     (Done (RSuccess (long_result Procs.NOWORKER)), tick (tick w))) \/
  (exists i, most_loaded (assigned_in p (w_db w)) i /\
   invoke (Procedure_new "ScanPartitionedTaskWorker" [scalar WIRE_TYPE_INTEGER]) [VInt p] w =
     (Done (RSuccess (long_result i)), tick (tick w))).
Proof.
  destruct (scan_result_spec (assigned_in p (w_db w)) (tick w)) as [[Emp E]|(i & Hi & E)];
    [left|right; exists i]; (split; [done|]);
    by apply (transaction_long (ScanPartitionedTaskWorker_run p)).
Qed.

Lemma invoke_scan_all w :
  (assigned (w_db w) = [] /\
   invoke (Procedure_new "ScanTaskWorker" []) [] w =
     (Done (RSuccess (long_result Procs.NOWORKER)), tick (tick w))) \/
  (exists i, most_loaded (assigned (w_db w)) i /\
   invoke (Procedure_new "ScanTaskWorker" []) [] w =
     (Done (RSuccess (long_result i)), tick (tick w))).
Proof.
  destruct (scan_result_spec (assigned (w_db w)) (tick w)) as [[Emp E]|(i & Hi & E)];
    [left|right; exists i]; (split; [done|]);
    by apply (transaction_long ScanTaskWorker_run).
Qed.

Lemma most_loaded_id d ts i :
  ids_fit d -> most_loaded ts i -> (forall t, t ∈ ts -> t ∈ Task d /\ 0 <= T_WorkerID t) ->
  0 <= i /\ wrap32 i = i.
Proof.
  intros Hfit [(t & Ht & <-) _] Hts. destruct (Hts t Ht) as [Hin Hge].
  pose proof (proj1 (Forall_forall _ _) Hfit t Hin) as Hlt. cbn in Hlt.
  split; [done|]. apply wrap32_id. lia.
Qed.

Lemma most_loaded_in d p i :
  ids_fit d -> most_loaded (assigned_in p d) i -> 0 <= i /\ wrap32 i = i.
Proof.
  intros Hfit Hm. apply (most_loaded_id _ _ _ Hfit Hm).
  intros t [[Hge _] Hin]%list_elem_of_filter. done.
Qed.

Lemma most_loaded_all d i :
  ids_fit d -> most_loaded (assigned d) i -> 0 <= i /\ wrap32 i = i.
Proof.
  intros Hfit Hm. apply (most_loaded_id _ _ _ Hfit Hm).
  intros t [Hge Hin]%list_elem_of_filter. done.
Qed.

Lemma scan_any_run w :
  ids_fit (w_db w) ->
  exists z w', scan_any w = (Done z, w') /\ w_db w' = w_db w /\
    (most_loaded (assigned (w_db w)) z \/ (z = NOWORKER /\ assigned (w_db w) = [])).
Proof.
  intros Hfit. unfold scan_any.
  destruct (invoke_scan_all w) as [[Emp E]|(i & Hi & E)]; run_bind E.
  - exists NOWORKER, (tick (tick w)). eauto.
  - destruct (most_loaded_all _ _ Hfit Hi) as [Hge Ewrap].
    exists i, (tick (tick w)). rewrite (bind_done _ _ _ _ _ (first_int64_long _ _)), Ewrap.
    rewrite decide_True by done. eauto.
Qed.

Definition scan_body this (count pkey : Z) : M world (ctl Z Z) :=
  r ← invoke (Procedure_new "ScanPartitionedTaskWorker" [scalar WIRE_TYPE_INTEGER])
        [VInt pkey];
  match r with
  | RFailure => mret (Return false_as_int)
  | RSuccess results =>
      z ← first_int64 results;
      let workerId := wrap32 z in
      if decide (0 <= workerId) then mret (Return workerId)
      else
        pkey' ← int_rem (wrap32 (count + pkey)) (activePartitions this);
        mret (Next pkey')
  end.

Lemma scan_body_run this i p w :
  0 < activePartitions this <= 2 ^ 30 -> 0 <= p < activePartitions this ->
  1 <= i <= activePartitions this -> ids_fit (w_db w) ->
  exists w', w_db w' = w_db w /\
    (scan_body this i p w = (Done (Next ((i + p) mod activePartitions this)), w') \/
     exists z, most_loaded (assigned_in p (w_db w)) z /\
       scan_body this i p w = (Done (Return z), w')).
Proof.
  intros Hn Hp Hi Hfit. exists (tick (tick w)). split; [done|]. unfold scan_body.
  destruct (invoke_scan_partition p w) as [[Emp E]|(z & Hz & E)]; run_bind E;
    rewrite (bind_done _ _ _ _ _ (first_int64_long _ _)).
  - left. change (wrap32 Procs.NOWORKER) with (-2). rewrite decide_False by lia.
    rewrite (wrap32_id (i + p)) by lia.
    by rewrite (bind_done _ _ _ _ _ (int_rem_ok (i + p) (activePartitions this) _
      ltac:(lia) ltac:(lia))).
  - right. destruct (most_loaded_in _ _ _ Hfit Hz) as [Hge Ewrap].
    exists z. rewrite Ewrap. by rewrite decide_True by done.
Qed.

(** The loop over the partitions finds a worker of one of them, or ends. *)
Lemma scan_partitions_run this n i p w :
  0 < activePartitions this <= 2 ^ 30 -> 0 <= p < activePartitions this ->
  1 <= i -> i + Z.of_nat n <= activePartitions this + 1 -> ids_fit (w_db w) ->
  exists c w', for_loop n i p (scan_body this) w = (Done c, w') /\ w_db w' = w_db w /\
    ((exists q z, c = Return z /\ 0 <= q < activePartitions this /\
        most_loaded (assigned_in q (w_db w)) z) \/ exists q, c = Next q).
Proof.
  intros Hn. revert i p w. induction n as [|n IH]; intros i p w Hp Hi Hni Hfit.
  { exists (Next p), w. eauto. }
  cbn [for_loop]. destruct (scan_body_run this i p w) as (w1 & Hd1 & Hb); [done|done|lia|done|].
  destruct Hb as [E|(z & Hz & E)]; run_bind E.
  - destruct (IH (i + 1) ((i + p) mod activePartitions this) w1)
      as (c & w' & El & Hd & Hc); [apply Z.mod_pos_bound; lia|lia|lia|by rewrite Hd1|].
    exists c, w'. rewrite Hd1 in *. done.
  - exists (Return z), w1. split_and!; [done|done|left; by exists p, z].
Qed.
End Scans.

(** ** A database that aborts every transaction *)

Section Aborted.
Context `{Env} (aborts : forall n, fate_stream n = Aborted).

Lemma scan_any_aborted w : scan_any w = (Done 0, tick w).
Proof using aborts.
  unfold scan_any.
  pose proof (transaction_aborted (long_proc ScanTaskWorker_run) w (aborts _)) as E.
  change (transaction _ w) with (invoke (Procedure_new "ScanTaskWorker" []) [] w) in E.
  by run_bind E.
Qed.

Lemma scan_body_aborted this i p w : scan_body this i p w = (Done (Return 0), tick w).
Proof using aborts.
  unfold scan_body.
  pose proof (transaction_aborted (long_proc (ScanPartitionedTaskWorker_run p)) w
    (aborts _)) as E.
  change (transaction _ w) with (invoke (Procedure_new "ScanPartitionedTaskWorker"
    [scalar WIRE_TYPE_INTEGER]) [VInt p] w) in E.
  by run_bind E.
Qed.

Lemma scan_aborted this w :
  0 < activePartitions this ->
  exists w', selectMostTaskWorker this w = (Done 0, w') /\ w_db w' = w_db w.
Proof using aborts.
  intros Hn. unfold selectMostTaskWorker. rewrite random_start by done. unfold throw_coin.
  set (coin := f32_div (f32_of_int (wrapU 31 (rand_stream (w_tick (tick w)))))
                 (f32_of_int RAND_MAX)).
  assert ((r ← c_rand; mret (f32_div (f32_of_int r) (f32_of_int RAND_MAX))) (tick w) =
    (Done coin, tick (tick w))) as Ecoin by done.
  run_bind Ecoin. destruct (f32_gtb coin (probMultiTx_ this)).
  - set (p := offset_of (activePartitions this) w).
    assert (scan_partitions this p (tick (tick w)) = (Done (Return 0), tick (tick (tick w))))
      as El.
    { change (for_loop (Z.to_nat (activePartitions this)) 1 p (scan_body this)
        (tick (tick w)) = (Done (Return 0), tick (tick (tick w)))).
      destruct (Z.to_nat (activePartitions this)) eqn:En; [lia|]. cbn [for_loop].
      by rewrite (bind_done _ _ _ _ _ (scan_body_aborted this 1 p _)). }
    run_bind El. eexists. by split.
  - rewrite (bind_done _ _ _ _ _ (ret_eq _ _)). cbn [after].
    eexists. split; [apply scan_any_aborted|done].
Qed.
End Aborted.

(** ** Properties *)

Section Properties.
Context `{Env}.

Lemma scan_most_loaded `{!Reliable} this w :
  0 < activePartitions this <= 2 ^ 30 -> ids_fit (w_db w) ->
  exists z w', selectMostTaskWorker this w = (Done z, w') /\ w_db w' = w_db w /\
    ((exists q, 0 <= q < activePartitions this /\ most_loaded (assigned_in q (w_db w)) z) \/
     most_loaded (assigned (w_db w)) z \/
     (z = NOWORKER /\ assigned (w_db w) = [])).
Proof.
  intros Hn Hfit. unfold selectMostTaskWorker.
  destruct (random_offset (A := Z) (activePartitions this) w) as (p & Hp & E); [lia|].
  rewrite E. clear E. unfold throw_coin.
  set (coin := f32_div (f32_of_int (wrapU 31 (rand_stream (w_tick (tick w)))))
                 (f32_of_int RAND_MAX)).
  assert ((r ← c_rand; mret (f32_div (f32_of_int r) (f32_of_int RAND_MAX))) (tick w) =
    (Done coin, tick (tick w))) as Ecoin by done.
  run_bind Ecoin. destruct (f32_gtb coin (probMultiTx_ this)).
  - destruct (scan_partitions_run this (Z.to_nat (activePartitions this)) 1 p (tick (tick w)))
      as (c & w' & El & Hd & Hc); [done|done|lia|lia|done|].
    change (for_loop _ 1 p (scan_body this) (tick (tick w)))
      with (scan_partitions this p (tick (tick w))) in El. run_bind El.
    destruct Hc as [(q & z & -> & Hq & Hz)|(q & ->)]; cbn [after].
    + exists z, w'. split_and!; [done|done|left; by exists q].
    + destruct (scan_any_run w') as (z & w2 & E & Hd2 & Hz); [by rewrite Hd|].
      exists z, w2. rewrite Hd in *. by eauto.
  - rewrite (bind_done _ _ _ _ _ (ret_eq (Next p) _)). cbn [after].
    destruct (scan_any_run (tick (tick w))) as (z & w2 & E & Hd2 & Hz); [done|].
    exists z, w2. by eauto.
Qed.

(** C33: a scheduling act on a reliable database changes nothing and returns a
    worker that has most tasks, either of one active partition or of all; it
    returns [NOWORKER] only when no task has a worker. *)
Theorem scan_selects_most_loaded `{!Reliable} this w :
  0 < activePartitions this <= 2 ^ 30 -> ids_fit (w_db w) ->
  exists z w', selectMostTaskWorker this w = (Done z, w') /\ w_db w' = w_db w /\
    ((exists q, 0 <= q < activePartitions this /\ most_loaded (assigned_in q (w_db w)) z) \/
     most_loaded (assigned (w_db w)) z \/
     (z = NOWORKER /\ assigned (w_db w) = [])).
Proof. apply scan_most_loaded. Qed.

(** When every transaction is aborted, [schedule] nevertheless reports
    success: the [return false] of the failure branch is the worker id 0. *)
Theorem scan_reports_success_on_failure this tsk w :
  0 < activePartitions this -> (forall n, fate_stream n = Aborted) ->
  exists w', schedule this tsk w = (Done true, w') /\ w_db w' = w_db w.
Proof.
  intros Hn Hfate. destruct (scan_aborted Hfate this w Hn) as (w' & E & Hd).
  exists w'. split; [|done]. unfold schedule. by run_bind E.
Qed.
End Properties.

(** ** Examples *)

Definition scan_demo : PartitionedScanTask :=
  {| partitions_ := 2; numTasks_ := 4; numWorkers_ := 2; probMultiTx_ := f32_of_int 0 |}.
Definition scan_demo_world : world :=
  init_world (Db [] [TaskRow 0 0 1 0; TaskRow 1 1 1 1; TaskRow 2 0 1 0] [] [] [] []).

Lemma scan_selects_most_loaded_witness :
  let E := steady Z.of_nat in
  ids_fit (w_db scan_demo_world) /\
  exists z w', selectMostTaskWorker scan_demo scan_demo_world = (Done z, w').
Proof.
  assert (ids_fit (w_db scan_demo_world)) as Hfit by (repeat constructor; by vm_compute).
  split; [exact Hfit|].
  destruct (scan_selects_most_loaded (H := steady Z.of_nat) scan_demo scan_demo_world
    ltac:(by vm_compute) Hfit) as (z & w' & E & _). exists z, w'. exact E.
Defined.

Lemma scan_reports_success_on_failure_witness :
  let E := {| rand_stream := Z.of_nat; fate_stream _ := Aborted; pick_stream n := n |} in
  exists w', schedule scan_demo (Task_ 0 0) (init_world empty_db) = (Done true, w').
Proof.
  destruct (@scan_reports_success_on_failure
    {| rand_stream := Z.of_nat; fate_stream _ := Aborted; pick_stream n := n |}
    scan_demo (Task_ 0 0) (init_world empty_db) ltac:(by vm_compute) ltac:(done))
    as (w' & E & _). exists w'. exact E.
Defined.
