(* ===== verification/PushFIFOScheduler.v ===== *)
(** * PushFIFOScheduler

    [src/libs/lib_scheduler/PushFIFOScheduler.{h,cc}]: a task is pushed to a
    worker through the [TaskAssign] stream; the workers register themselves. *)

From S2P Require Import Prelude Probing Tables World Procs Pool Client Frame SchedulerUtil.
From S2P Require Import Select.

Record PushFIFOScheduler := {
  partitions_ : Z;
  numTasks_ : Z;
  probMultiTx_ : f32;
}.

Definition SUCCESS : Z := 0.
Definition NOWORKER : Z := -2.

Definition fetch_add_taskindex : M world Z := fun w =>
  (Done (taskindex_push w),
   World (w_db w) (w_tick w) (w_inflight w) (wrapU32 (taskindex_push w + 1))
     (taskindex_local w) (taskindex_single w)).

Section Scheduler.
Context `{Env}.
Implicit Types (this : PushFIFOScheduler).

Definition selectTaskWorker this (taskID : Z) : M world bool :=
  r ← c_rand;
  pkey ← int_rem r (partitions_ this);
  c ← for_loop (Z.to_nat (partitions_ this)) 1 pkey (fun count pkey =>
    r ← invoke (Procedure_new "PushTask"
                  [scalar WIRE_TYPE_INTEGER; scalar WIRE_TYPE_INTEGER])
          [VInt pkey; VInt taskID];
    match r with
    | RFailure => mret (Return false)
    | RSuccess results =>
        z ← first_int64 results;
        let status := wrap32 z in
        if decide (status = SUCCESS) then mret (Return true)
        else
          pkey' ← int_rem (wrap32 (pkey + count)) (partitions_ this);
          mret (Next pkey')
    end);
  after c (fun _ => mret false).

(** The class's own copies of the shared statements. *)
Definition truncateTaskTable : M world unit := SchedulerUtil.truncateTaskTable.

Definition setup : M world bool := truncateTaskTable ;; mret true.
Definition teardown : M world bool := truncateTaskTable ;; mret true.

Definition schedule this (_ : task) : M world bool :=
  i ← fetch_add_taskindex;
  status ← selectTaskWorker this (wrap32 i);
  assertM status ;;
  mret true.

#[export] Instance PushFIFOScheduler_util : SchedulerUtil PushFIFOScheduler := {
  schedule_ := schedule;
  asyncSchedule_ _ := asyncSchedule_default;
  setup_ _ := setup;
  teardown_ _ := teardown;
}.
End Scheduler.

(** ** Properties *)

Section Properties.
Context `{Env, !Reliable}.
Context (this : PushFIFOScheduler).

Definition push_invoke (t p : Z) : M world response :=
  invoke (Procedure_new "PushTask" [scalar WIRE_TYPE_INTEGER; scalar WIRE_TYPE_INTEGER])
    [VInt p; VInt t].

Lemma push_call t d :
  id_ok t -> wf_db d -> forall p w, w_db w = d ->
  select_reply free_workers p NOWORKER (fun _ => Procs.SUCCESS) (pushed t p) w
    (push_invoke t p w).
Proof. intros Ht Hwf p w Hw. apply invoke_PushTask; [by rewrite Hw|done]. Qed.

Lemma push_select_run t w :
  0 < partitions_ this <= 2 ^ 30 -> power_of_two (partitions_ this) -> id_ok t ->
  wf_db (w_db w) -> workers_within (partitions_ this) (w_db w) ->
  selected free_workers (fun _ => true) false (pushed t) (w_db w)
    (selectTaskWorker this t w).1 (w_db (selectTaskWorker this t w).2).
Proof.
  intros Hn Hpow Ht Hwf Hin.
  apply (triangular_select (push_invoke t) (pushed t) free_workers
    (fun _ _ _ Hr => Hr) (partitions_ this) (w_db w)); try done.
  by apply push_call.
Qed.

End Properties.

(** ** Examples *)

Definition push_demo : PushFIFOScheduler :=
  {| partitions_ := 2; numTasks_ := 0; probMultiTx_ := f32_of_int 0 |}.
Definition push_demo_world : world :=
  init_world (Db [WorkerRow 5 1 0 1 "10.0.0.5"] [] [] [] [] []).

