(* ===== verification/MockPollWorker.v ===== *)
(** * MockPollWorker

    [src/libs/lib_worker/MockPollWorker.{h,cc}]: a dispatcher thread polls the
    database for tasks and queues them, a pool of executor threads takes them
    from the queue and reports them as complete, and [endServing] stops both.
    The threads are a step relation: a step is a stretch of code a thread runs
    without interference, because it holds [lock_] or touches only its own
    variables. *)

From S2P Require Import Prelude Tables World Procs Pool Client Frame Ledger.

Record MockPollWorker := {
  workerId_ : Z;
  pkey_ : Z;
  numExecutors_ : Z;
  topk_ : Z;
}.

(** ** Threads *)

(** [dispatch]: at the [invoke], with rows still to push, at the loop
    condition, returned. *)
Inductive dispatcher := DInvoke | DPush (rows : list Z) | DCheck | DStopped.

(** [execute]: in [cv_.wait], executing a task, reporting it, before
    [lock_.lock()] and the loop condition, returned. *)
Inductive executor := XWait | XRun (taskId : Z) | XCheck | XStopped.

(** The thread that calls [endServing]. *)
Inductive ending := Serving | JoinDispatch | Drain | JoinExecutors | Ended.

#[export] Instance dispatcher_eq_dec : EqDecision dispatcher.
Proof. solve_decision. Defined.
#[export] Instance executor_eq_dec : EqDecision executor.
Proof. solve_decision. Defined.
#[export] Instance ending_eq_dec : EqDecision ending.
Proof. solve_decision. Defined.

Record state := State_ {
  st_world : world;
  taskQueue_ : list Z;
  stopDispatch_ : bool;
  stop_ : bool;
  disp : dispatcher;
  execs : list executor;
  main : ending;
  dispatched : list Z;     (* the ids pushed so far; [totalTasks_] counts them *)
  popped : list Z;         (* the ids taken from the queue *)
  finished : list Z;       (* the ids reported; [totalFinishedTasks_] counts them *)
  aborted : bool;          (* an executor called [abort] *)
}.

Definition totalTasks_ (s : state) : Z := wrapU64 (Z.of_nat (length (dispatched s))).
Definition totalFinishedTasks_ (s : state) : Z := wrapU64 (Z.of_nat (length (finished s))).

Section Worker.
Context `{Env} (this : MockPollWorker).

(** [startServing]. *)
Definition startServing (w : world) : state :=
  State_ w [] false false DInvoke (replicate (Z.to_nat (numExecutors_ this)) XWait)
    Serving [] [] [] false.

Definition select_tasks : M world response :=
  invoke (Procedure_new "WorkerSelectTask"
            [scalar WIRE_TYPE_INTEGER; scalar WIRE_TYPE_INTEGER; scalar WIRE_TYPE_INTEGER])
    [VInt (pkey_ this); VInt (workerId_ this); VInt (topk_ this)].

Definition report_task (taskId : Z) : M world response :=
  invoke (Procedure_new "WorkerUpdateTask"
            [scalar WIRE_TYPE_INTEGER; scalar WIRE_TYPE_INTEGER; scalar WIRE_TYPE_INTEGER;
             scalar WIRE_TYPE_INTEGER])
    [VInt (pkey_ this); VInt (workerId_ this); VInt taskId; VInt COMPLETE].

(** [row.getInt32(0)] of every row; [None]: the column is not an integer. *)
Fixpoint task_ids (results : table) : option (list Z) :=
  match results with
  | [] => Some []
  | (VInt z :: _) :: rows => match task_ids rows with
                             | Some ids => Some (z :: ids)
                             | None => None
                             end
  | _ => None
  end.

(** One iteration of the loop of [dispatch] up to the first push. *)
Definition dispatch_invoke (s : state) (r : response) (w : world) : option state :=
  match r with
  | RFailure => Some (State_ w (taskQueue_ s) (stopDispatch_ s) (stop_ s) DCheck (execs s)
                        (main s) (dispatched s) (popped s) (finished s) (aborted s))
  | RSuccess results =>
      match task_ids results with
      | Some ids => Some (State_ w (taskQueue_ s) (stopDispatch_ s) (stop_ s) (DPush ids)
                            (execs s) (main s) (dispatched s) (popped s) (finished s)
                            (aborted s))
      | None => None
      end
  end.

(** Push one task under the lock, notify, count. *)
Definition dispatch_push (s : state) (t : Z) (rows : list Z) : state :=
  State_ (st_world s) (taskQueue_ s ++ [t]) (stopDispatch_ s) (stop_ s) (DPush rows) (execs s)
    (main s) (dispatched s ++ [t]) (popped s) (finished s) (aborted s).

Definition dispatch_goto (s : state) (d : dispatcher) : state :=
  State_ (st_world s) (taskQueue_ s) (stopDispatch_ s) (stop_ s) d (execs s)
    (main s) (dispatched s) (popped s) (finished s) (aborted s).

(** Executor [e] is awake with the lock: [cv_.wait] returned. *)
Definition execute_take (s : state) (e : nat) : state :=
  match stop_ s, taskQueue_ s with
  | false, t :: q =>
      State_ (st_world s) q (stopDispatch_ s) (stop_ s) (disp s) (<[e := XRun t]> (execs s))
        (main s) (dispatched s) (popped s ++ [t]) (finished s) (aborted s)
  | _, _ =>
      State_ (st_world s) (taskQueue_ s) (stopDispatch_ s) (stop_ s) (disp s)
        (<[e := if stop_ s then XStopped else XWait]> (execs s))
        (main s) (dispatched s) (popped s) (finished s) (aborted s)
  end.

(** After the task: report it; a failure aborts the process. *)
Definition execute_report (s : state) (e : nat) (t : Z) (r : response) (w : world) : state :=
  match r with
  | RFailure => State_ w (taskQueue_ s) (stopDispatch_ s) (stop_ s) (disp s) (execs s)
                  (main s) (dispatched s) (popped s) (finished s) true
  | RSuccess _ => State_ w (taskQueue_ s) (stopDispatch_ s) (stop_ s) (disp s)
                    (<[e := XCheck]> (execs s))
                    (main s) (dispatched s) (popped s) (finished s ++ [t]) (aborted s)
  end.

(** [while (!stop_)], with the lock. *)
Definition execute_check (s : state) (e : nat) : state :=
  State_ (st_world s) (taskQueue_ s) (stopDispatch_ s) (stop_ s) (disp s)
    (<[e := if stop_ s then XStopped else XWait]> (execs s))
    (main s) (dispatched s) (popped s) (finished s) (aborted s).

Definition end_goto (s : state) (sd st : bool) (m : ending) : state :=
  State_ (st_world s) (taskQueue_ s) sd st (disp s) (execs s)
    m (dispatched s) (popped s) (finished s) (aborted s).

Definition set_world (s : state) (w : world) : state :=
  State_ w (taskQueue_ s) (stopDispatch_ s) (stop_ s) (disp s) (execs s)
    (main s) (dispatched s) (popped s) (finished s) (aborted s).

(** The steps of the dispatcher, the executors and [endServing]. *)
Inductive wstep (s : state) : state -> Prop :=
  | dispatch_step_invoke r w s' :
      aborted s = false -> disp s = DInvoke ->
      select_tasks (st_world s) = (Done r, w) -> dispatch_invoke s r w = Some s' -> wstep s s'
  | dispatch_step_push t rows :
      aborted s = false -> disp s = DPush (t :: rows) -> wstep s (dispatch_push s t rows)
  | dispatch_step_done :
      aborted s = false -> disp s = DPush [] -> wstep s (dispatch_goto s DCheck)
  | dispatch_step_check :
      aborted s = false -> disp s = DCheck ->
      wstep s (dispatch_goto s (if stopDispatch_ s then DStopped else DInvoke))
  | execute_step_take e :
      aborted s = false -> execs s !! e = Some XWait ->
      stop_ s = true \/ taskQueue_ s <> [] -> wstep s (execute_take s e)
  | execute_step_report e t r w :
      aborted s = false -> execs s !! e = Some (XRun t) ->
      report_task t (st_world s) = (Done r, w) -> wstep s (execute_report s e t r w)
  | execute_step_check e :
      aborted s = false -> execs s !! e = Some XCheck -> wstep s (execute_check s e)
  | end_step_stop :
      aborted s = false -> main s = Serving -> wstep s (end_goto s true (stop_ s) JoinDispatch)
  | end_step_join :
      aborted s = false -> main s = JoinDispatch -> disp s = DStopped ->
      wstep s (end_goto s (stopDispatch_ s) (stop_ s) Drain)
  | end_step_drained :
      aborted s = false -> main s = Drain -> taskQueue_ s = [] ->
      wstep s (end_goto s (stopDispatch_ s) true JoinExecutors)
  | end_step_done :
      aborted s = false -> main s = JoinExecutors -> Forall (fun x => x = XStopped) (execs s) ->
      wstep s (end_goto s (stopDispatch_ s) (stop_ s) Ended).

(** Meanwhile a scheduler gives the database new tasks. *)
Definition selects (d d' : db) : Prop :=
  exists (E : Env) p t w w' z, w_db w = d /\ w_db w' = d' /\ fresh_task p t d /\ id_ok t /\
    ((SelectOrderedWorker_run p t w = (Done z, w')) \/
     (SelectSinglePartitionedTaskWorker_run p t w = (Done z, w')) \/
     (PushTask_run p t w = (Done z, w'))).

Inductive step (s : state) : state -> Prop :=
  | step_worker s' : wstep s s' -> step s s'
  | step_scheduler w : selects (w_db (st_world s)) (w_db w) -> step s (set_world s w).
End Worker.

(** ** The queue *)

Definition running (l : list executor) : list Z :=
  omap (fun x => match x with XRun t => Some t | _ => None end) l.

Lemma execs_split (l : list executor) e x y :
  l !! e = Some x -> exists a b, l = a ++ x :: b /\ <[e := y]> l = a ++ y :: b.
Proof.
  intros He. exists (take e l), (drop (S e) l). split; [by rewrite take_drop_middle|].
  rewrite insert_take_drop; [done|]. by eapply lookup_lt_Some.
Qed.

Lemma running_app a b : running (a ++ b) = running a ++ running b.
Proof. apply omap_app. Qed.

(** Executor [e] starts task [t]; executor [e] is done with task [t]; executor
    [e] changes its state without a task. *)
Lemma running_start l e x t :
  l !! e = Some x -> running [x] = [] -> running (<[e := XRun t]> l) ≡ₚ t :: running l.
Proof.
  intros (a & b & -> & ->)%(fun H => execs_split l e x (XRun t) H) Hx.
  rewrite !running_app. change (running (x :: b)) with (running ([x] ++ b)).
  rewrite running_app, Hx. change (running (XRun t :: b)) with (t :: running b).
  cbn [app]. symmetry. apply Permutation_middle.
Qed.

Lemma running_end l e t y :
  l !! e = Some (XRun t) -> running [y] = [] -> running l ≡ₚ t :: running (<[e := y]> l).
Proof.
  intros (a & b & -> & ->)%(fun H => execs_split l e (XRun t) y H) Hy.
  rewrite !running_app. change (running (y :: b)) with (running ([y] ++ b)).
  rewrite running_app, Hy. change (running (XRun t :: b)) with (t :: running b).
  cbn [app]. symmetry. apply Permutation_middle.
Qed.

Lemma running_idle l e x y :
  l !! e = Some x -> running [x] = [] -> running [y] = [] ->
  running (<[e := y]> l) = running l.
Proof.
  intros (a & b & -> & ->)%(fun H => execs_split l e x y H) Hx Hy.
  rewrite !running_app. change (running (y :: b)) with (running ([y] ++ b)).
  change (running (x :: b)) with (running ([x] ++ b)). by rewrite !running_app, Hx, Hy.
Qed.

(** [endServing] has joined the dispatcher; it has found the queue empty. *)
Definition past_join (m : ending) : Prop :=
  match m with Drain | JoinExecutors | Ended => True | _ => False end.
Definition past_drain (m : ending) : Prop :=
  match m with JoinExecutors | Ended => True | _ => False end.

Record queue_inv (s : state) : Prop := {
  qi_fifo : dispatched s = popped s ++ taskQueue_ s;
  qi_once : popped s ≡ₚ finished s ++ running (execs s);
  qi_stopped : past_join (main s) -> disp s = DStopped;
  qi_drained : past_drain (main s) -> taskQueue_ s = [];
  qi_joined : main s = Ended -> Forall (fun x => x = XStopped) (execs s);
  qi_stop : stop_ s = true -> past_drain (main s);
}.

Lemma all_stopped_lookup l e x :
  Forall (fun x => x = XStopped) l -> l !! e = Some x -> x = XStopped.
Proof. intros Hl He. by apply (Forall_lookup_1 _ _ _ _ Hl He). Qed.

Section Queue.
Context `{Env} (this : MockPollWorker).

Lemma queue_inv_start w : queue_inv (startServing this w).
Proof.
  split; cbn; try done.
  induction (Z.to_nat (numExecutors_ this)) as [|n IH]; [done|]. exact IH.
Qed.

Lemma queue_inv_take s e :
  queue_inv s -> execs s !! e = Some XWait -> queue_inv (execute_take s e).
Proof.
  intros [Hf Ho Hs Hd Hj Hst] He. unfold execute_take.
  assert (main s <> Ended) as Hne.
  { intros Hm. by pose proof (all_stopped_lookup _ _ _ (Hj Hm) He). }
  destruct (stop_ s) eqn:Est; [|destruct (taskQueue_ s) as [|t q] eqn:Eq];
    split; cbn; rewrite ?Est; try done.
  - by rewrite (running_idle _ _ _ _ He).
  - by rewrite (running_idle _ _ _ _ He).
  - by rewrite <- app_assoc.
  - rewrite (running_start _ _ _ t He eq_refl), Ho, <- app_assoc.
    apply Permutation_app_head, Permutation_app_comm.
  - intros Hm. by discriminate (Hd Hm).
Qed.

Lemma queue_inv_wstep s s' : queue_inv s -> wstep this s s' -> queue_inv s'.
Proof.
  intros Hinv Hstep. pose proof Hinv as [Hf Ho Hs Hd Hj Hst].
  destruct Hstep as [r w s' _ Hdisp _ E|t rows _ Hdisp|_ Hdisp|_ Hdisp|e _ He Hp
    |e t r w _ He E|e _ He|_ Hm|_ Hm Hdisp|_ Hm Hq|_ Hm Hx].
  - unfold dispatch_invoke in E.
    assert (past_join (main s) -> False) as Hno
      by (intros Hin; by rewrite (Hs Hin) in Hdisp).
    repeat case_match; simplify_eq; split; cbn; try done; intros Hin;
      destruct Hno; revert Hin; by destruct (main s).
  - assert (past_join (main s) -> False) as Hno
      by (intros Hin; by rewrite (Hs Hin) in Hdisp).
    split; cbn; try done.
    + by rewrite Hf, app_assoc.
    + intros Hin. destruct Hno. revert Hin. by destruct (main s).
  - split; cbn; try done. intros Hin. by rewrite (Hs Hin) in Hdisp.
  - split; cbn; try done. intros Hin. by rewrite (Hs Hin) in Hdisp.
  - by apply queue_inv_take.
  - assert (main s <> Ended) as Hne.
    { intros Hm. by pose proof (all_stopped_lookup _ _ _ (Hj Hm) He). }
    clear E. unfold execute_report. destruct r; [by split|]. split; cbn; try done.
    rewrite Ho, (running_end _ _ _ XCheck He eq_refl). by rewrite <- app_assoc.
  - assert (main s <> Ended) as Hne.
    { intros Hm. by pose proof (all_stopped_lookup _ _ _ (Hj Hm) He). }
    unfold execute_check. split; cbn; try done.
    rewrite (running_idle _ _ _ _ He); [done|done|by case_match].
  - split; cbn; try done. intros Hstop. specialize (Hst Hstop). by rewrite Hm in Hst.
  - split; cbn; try done. intros Hstop. specialize (Hst Hstop). by rewrite Hm in Hst.
  - split; cbn; try done. intros _. apply Hs. by rewrite Hm.
  - split; cbn; try done; intros _; [apply Hs|apply Hd]; by rewrite Hm.
Qed.

Lemma queue_inv_step s s' : queue_inv s -> step this s s' -> queue_inv s'.
Proof.
  intros Hinv [s1 Hstep|w _]; [by eapply queue_inv_wstep|]. by destruct Hinv.
Qed.

Lemma queue_inv_reachable w s : rtc (step this) (startServing this w) s -> queue_inv s.
Proof.
  intros Hsteps. pose proof (queue_inv_start w) as Hinv.
  induction Hsteps; eauto using queue_inv_step.
Qed.
End Queue.

(** ** The database *)

Lemma task_ids_results (results : list task_row) :
  task_ids ((fun t => [VInt (TaskID t)]) <$> results) = Some (TaskID <$> results).
Proof. induction results as [|t results IH]; [done|]. cbn in *. by rewrite IH. Qed.

(** Row [x] of task [t] of worker [i] is running. *)
Definition is_running (p i t : Z) (d : db) : Prop :=
  exists x, x ∈ Task d /\ task_of p t i x /\ State x = RUNNING.

Lemma is_running_app p i t d d' extra :
  Task d' = Task d ++ extra -> is_running p i t d -> is_running p i t d'.
Proof.
  intros HT (x & Hx & Hof & Hs). exists x. rewrite HT. split; [|done].
  apply elem_of_app. by left.
Qed.

(** A running task stays so when tasks are started, and when others end. *)
Lemma is_running_set p i t d P `{!forall x, Decision (P x)} s :
  (forall x, task_of p t i x -> P x -> s = RUNNING) ->
  is_running p i t d -> is_running p i t (on_Task (update_where P (set_State s)) d).
Proof.
  intros HP (x & Hx & Hof & Hs).
  exists (if decide (P x) then set_State s x else x). split_and!.
  - cbn. unfold update_where. apply list_elem_of_fmap. by exists x.
  - by case_decide.
  - case_decide; [|done]. cbn. by eapply HP.
Qed.

Lemma is_running_started p i t results : forall d,
  is_running p i t d -> is_running p i t (started p i results d).
Proof.
  induction results as [|y results IH]; intros d Hd; [done|]. cbn. by apply IH, is_running_set.
Qed.

Lemma started_is_running p i results : forall d,
  (forall x, x ∈ results -> exists y, y ∈ Task d /\ task_of p (TaskID x) i y) ->
  forall x, x ∈ results -> is_running p i (TaskID x) (started p i results d).
Proof.
  induction results as [|z results IH]; intros d Hd x Hx; [by apply not_elem_of_nil in Hx|].
  cbn. apply elem_of_cons in Hx as [->|Hx].
  - apply is_running_started. destruct (Hd z ltac:(by left)) as (y & Hy & Hof).
    exists (set_State RUNNING y). split_and!; [|done|done].
    cbn. unfold update_where. apply list_elem_of_fmap. exists y.
    by rewrite (decide_True (P := task_of p (TaskID z) i y)).
  - apply IH; [|done]. intros u Hu. destruct (Hd u ltac:(by right)) as (y & Hy & Hof).
    exists (if decide (task_of p (TaskID z) i y) then set_State RUNNING y else y). split.
    + cbn. unfold update_where. apply list_elem_of_fmap. by exists y.
    + by case_decide.
Qed.

(** What [WorkerSelectTask] returns: distinct tasks that were pending. *)
Lemma pending_results p i d results rest :
  NoDup (task_key <$> Task d) -> selectPendingTasks p i d ≡ₚ results ++ rest ->
  NoDup (TaskID <$> results) /\
  forall x, x ∈ results -> x ∈ Task d /\ task_of p (TaskID x) i x /\ State x = PENDING.
Proof.
  intros Hnd Hp.
  assert (forall x, x ∈ results -> x ∈ Task d /\ task_of p (TaskID x) i x /\ State x = PENDING)
    as Hin.
  { intros x Hx. assert (x ∈ selectPendingTasks p i d) as Hf
      by (rewrite Hp; apply elem_of_app; by left).
    by apply list_elem_of_filter in Hf as [(? & ? & ?) ?]. }
  split; [|done].
  assert (NoDup (task_key <$> results)) as Hk.
  { assert (NoDup (task_key <$> selectPendingTasks p i d)) as Hf.
    { by apply NoDup_fmap_filter. }
    rewrite Hp, fmap_app in Hf. by apply NoDup_app in Hf as (? & _). }
  clear Hp Hnd. induction results as [|x results IH]; [constructor|]. cbn in *.
  apply NoDup_cons in Hk as [Hni Hk]. constructor.
  - intros (y & Ey & Hy)%list_elem_of_fmap. apply Hni, list_elem_of_fmap. exists y.
    split; [|done]. destruct (Hin x ltac:(by left)) as (_ & (Hx & _) & _).
    destruct (Hin y ltac:(by right)) as (_ & (Hy' & _) & _). unfold task_key. congruence.
  - apply IH; [|done]. intros y Hy. apply Hin. by right.
Qed.

Section Database.
Context `{Env} (this : MockPollWorker).

(** The tasks the worker is in charge of. *)
Definition held (s : state) : list Z :=
  (match disp s with DPush rows => rows | _ => [] end) ++ taskQueue_ s ++ running (execs s).

Definition held_ok (h : list Z) (d : db) : Prop :=
  NoDup h /\ forall t, t ∈ h -> is_running (pkey_ this) (workerId_ this) t d.

Lemma held_ok_perm h h' d : h' ≡ₚ h -> held_ok h d -> held_ok h' d.
Proof. intros Hp [Hnd Hr]. split; [by rewrite Hp|]. intros t. rewrite Hp. apply Hr. Qed.

Record db_inv (c0 : gmap wkey Z) (s : state) : Prop := {
  di_ledger : Ledger c0 (w_db (st_world s));
  di_held : aborted s = false -> held_ok (held s) (w_db (st_world s));
}.

Lemma select_tasks_cases w r w' :
  select_tasks this w = (Done r, w') ->
  NoDup (task_key <$> Task (w_db w)) ->
  (w_db w' = w_db w /\ r = RFailure) \/
  (exists results rest, Ledger.step (w_db w) (w_db w') /\
     selectPendingTasks (pkey_ this) (workerId_ this) (w_db w) ≡ₚ results ++ rest /\
     w_db w' = started (pkey_ this) (workerId_ this) results (w_db w) /\
     (r = RFailure \/ r = RSuccess ((fun t => [VInt (TaskID t)]) <$> results))).
Proof.
  intros Er Hnd.
  apply (transaction_cases (WorkerSelectTask_run (pkey_ this) (workerId_ this) (topk_ this)))
    in Er as [Er|(t & Er & Hr)]; [by left|].
  destruct (decide (0 <= topk_ this)) as [Hk|Hk].
  - right. pose proof (step_WorkerSelectTask _ _ _ _ _ _ _ Er) as Hstep.
    destruct (WorkerSelectTask_ok (pkey_ this) (workerId_ this) (topk_ this) (tick w) Hk)
      as (results & rest & n & Hp & _ & Es).
    rewrite Es in Er. injection Er as <- <-. exists results, rest.
    split_and!; [done|done|done|]. tauto.
  - exfalso. unfold WorkerSelectTask_run in Er. rewrite bind_read in Er.
    by rewrite decide_True in Er by lia.
Qed.

Lemma report_task_cases t w r w' c0 :
  report_task this t w = (Done r, w') -> Ledger c0 (w_db w) ->
  map_Forall (fun _ c => c < 2 ^ 31) c0 ->
  is_running (pkey_ this) (workerId_ this) t (w_db w) ->
  (w_db w' = w_db w /\ r = RFailure) \/
  (Ledger.step (w_db w) (w_db w') /\
     w_db w' = completed (pkey_ this) (workerId_ this) t (w_db w)).
Proof.
  intros Er Hled Hc0 (x & Hx & Hof & Hs).
  by apply (complete_transaction_cases c0 _ _ _ x _ _ _ Er); [..|rewrite Hs].
Qed.

(** Starting fresh tasks on top of those held. *)
Lemma held_ok_started h d results rest :
  NoDup (task_key <$> Task d) -> held_ok h d ->
  selectPendingTasks (pkey_ this) (workerId_ this) d ≡ₚ results ++ rest ->
  held_ok h (started (pkey_ this) (workerId_ this) results d) /\
  held_ok ((TaskID <$> results) ++ h) (started (pkey_ this) (workerId_ this) results d).
Proof.
  intros Hnd [Hh Hrun] Hp. destruct (pending_results _ _ _ _ _ Hnd Hp) as [Hids Hres].
  assert (forall t, t ∈ h ->
    is_running (pkey_ this) (workerId_ this) t
      (started (pkey_ this) (workerId_ this) results d)) as Hold
    by (intros t Ht; by apply is_running_started, Hrun).
  split; [by split|]. split.
  - apply NoDup_app. split_and!; [done| |done].
    intros t (x & -> & Hx)%list_elem_of_fmap Ht.
    destruct (Hrun _ Ht) as (y & Hy & Hof & Hs), (Hres x Hx) as (Hx' & (Hpx & _) & Hsx).
    pose proof (task_of_unique d x y _ _ Hnd Hx' Hy Hof Hpx) as ->. by rewrite Hsx in Hs.
  - intros t [(x & -> & Hx)%list_elem_of_fmap|Ht]%elem_of_app; [|by apply Hold].
    apply started_is_running; [|done]. intros y Hy. destruct (Hres y Hy) as (? & ? & _). eauto.
Qed.

Lemma held_ok_completed h t d :
  held_ok (t :: h) d -> held_ok h (completed (pkey_ this) (workerId_ this) t d).
Proof.
  intros [Hnd Hrun]. apply NoDup_cons in Hnd as [Hni Hnd]. split; [done|].
  intros t' Ht'. destruct (Hrun t' ltac:(by right)) as (x & Hx & Hof & Hs).
  exists x. split_and!; [|done|done]. cbn. unfold update_where.
  apply list_elem_of_fmap. exists x. split; [|done].
  rewrite decide_False; [done|]. intros (_ & Et & _). destruct Hof as (_ & Et' & _). congruence.
Qed.

Lemma selects_step d d' :
  wf_db d -> selects d d' ->
  Ledger.step d d' /\ exists extra, Task d' = Task d ++ extra.
Proof.
  intros Hwf (E & p & t & w & w' & z & <- & <- & Hf & Ht & Hrun).
  destruct Hrun as [Er|[Er|Er]]; (split; [by econstructor|]).
  - destruct (SelectOrderedWorker_spec p t w Hwf Ht) as [[_ Es]|(r & _ & Es)];
      rewrite Es in Er; injection Er as _ <-; cbn; [exists []; by rewrite app_nil_r|by eexists].
  - destruct (SelectSingle_spec p t w Hwf Ht) as [[_ Es]|(r & _ & Es)];
      rewrite Es in Er; injection Er as _ <-; cbn; [exists []; by rewrite app_nil_r|by eexists].
  - destruct (PushTask_spec p t w Hwf Ht) as [[_ Es]|(r & _ & Es)];
      rewrite Es in Er; injection Er as _ <-; cbn; [exists []; by rewrite app_nil_r|by eexists].
Qed.

Definition db_moves (s s' : state) : Prop :=
  w_db (st_world s') = w_db (st_world s) \/
  Ledger.step (w_db (st_world s)) (w_db (st_world s')).

(** A step of the queue alone permutes what the worker holds. *)
Lemma db_inv_quiet c0 s s' :
  db_inv c0 s -> w_db (st_world s') = w_db (st_world s) -> aborted s' = aborted s ->
  held s' ≡ₚ held s -> db_inv c0 s'.
Proof.
  intros [Hled Hheld] Hw Ha Hp. split; rewrite Hw; [done|]. rewrite Ha. intros H0.
  eapply held_ok_perm; [exact Hp|auto].
Qed.

Lemma db_inv_invoke c0 s r w s' :
  map_Forall (fun _ c => c < 2 ^ 31) c0 -> db_inv c0 s -> aborted s = false ->
  disp s = DInvoke -> select_tasks this (st_world s) = (Done r, w) ->
  dispatch_invoke s r w = Some s' -> db_inv c0 s' /\ db_moves s s'.
Proof.
  intros Hc0 [Hled Hheld] Ha Hd Er Es. specialize (Hheld Ha).
  assert (held s = taskQueue_ s ++ running (execs s)) as Eh by (unfold held; by rewrite Hd).
  rewrite Eh in Hheld.
  destruct (select_tasks_cases _ _ _ Er (led_keys _ _ Hled))
    as [[Hw ->]|(results & rest & Hstep & Hp & Hw & [-> | ->])].
  - cbn in Es. injection Es as <-. split; [|by left]. split; cbn; by rewrite Hw.
  - cbn in Es. injection Es as <-. split; [|by right].
    split; cbn; [by eapply ledger_step|]. intros _. rewrite Hw.
    by eapply held_ok_started; [apply Hled|..].
  - unfold dispatch_invoke in Es. rewrite task_ids_results in Es. injection Es as <-.
    split; [|by right]. split; cbn; [by eapply ledger_step|]. intros _. rewrite Hw.
    by eapply held_ok_started; [apply Hled|..].
Qed.

Lemma db_inv_report c0 s e t r w :
  map_Forall (fun _ c => c < 2 ^ 31) c0 -> db_inv c0 s -> aborted s = false ->
  execs s !! e = Some (XRun t) -> report_task this t (st_world s) = (Done r, w) ->
  db_inv c0 (execute_report s e t r w) /\ db_moves s (execute_report s e t r w).
Proof.
  intros Hc0 [Hled Hheld] Ha He Er. specialize (Hheld Ha).
  pose proof (running_end _ _ _ XCheck He eq_refl) as Hrun.
  assert (held s ≡ₚ t :: (match disp s with DPush rows => rows | _ => [] end) ++
            taskQueue_ s ++ running (<[e := XCheck]> (execs s))) as Hp.
  { unfold held. rewrite Hrun. by rewrite <- !Permutation_middle. }
  apply (held_ok_perm _ _ _ (symmetry Hp)) in Hheld.
  assert (is_running (pkey_ this) (workerId_ this) t (w_db (st_world s))) as Ht
    by (apply Hheld; by left).
  destruct (report_task_cases _ _ _ _ c0 Er Hled Hc0 Ht) as [[Hw ->]|[Hstep Hw]].
  - clear Er. split; [|by left]. split; cbn; [by rewrite Hw|done].
  - clear Er. split; [|right; by destruct r]. destruct r; split; cbn; try done.
    1, 2: by eapply ledger_step.
    intros _. rewrite Hw. by apply held_ok_completed.
Qed.

Lemma db_inv_take s e :
  execs s !! e = Some XWait ->
  w_db (st_world (execute_take s e)) = w_db (st_world s) /\
  aborted (execute_take s e) = aborted s /\ held (execute_take s e) ≡ₚ held s.
Proof.
  intros He. unfold execute_take.
  destruct (stop_ s) eqn:Est; [|destruct (taskQueue_ s) as [|t q] eqn:Eq];
    (split; [done|split; [done|]]); unfold held; cbn; rewrite ?Eq.
  - by rewrite (running_idle _ _ _ _ He).
  - by rewrite (running_idle _ _ _ _ He).
  - rewrite (running_start _ _ _ t He eq_refl). cbn. by rewrite <- !Permutation_middle.
Qed.

Lemma db_inv_step c0 s s' :
  map_Forall (fun _ c => c < 2 ^ 31) c0 -> db_inv c0 s -> step this s s' ->
  db_inv c0 s' /\ db_moves s s'.
Proof.
  intros Hc0 Hinv [s1 Hstep|w Hsel].
  - assert (forall s', w_db (st_world s') = w_db (st_world s) -> aborted s' = aborted s ->
      held s' ≡ₚ held s -> db_inv c0 s' /\ db_moves s s') as Hquiet.
    { intros s2 Hw Hab Hp. split; [by eapply db_inv_quiet|by left]. }
    destruct Hstep as [r w s2 Ha Hd Er Es|t rows Ha Hd|Ha Hd|Ha Hd|e Ha He Hp
      |e t r w Ha He Er|e Ha He|Ha Hm|Ha Hm Hd|Ha Hm Hq|Ha Hm Hx].
    + by eapply db_inv_invoke.
    + apply Hquiet; [reflexivity..|]. unfold held. cbn. rewrite Hd.
      rewrite <- (assoc_L (++)). cbn. by rewrite <- !Permutation_middle.
    + apply Hquiet; [reflexivity..|]. unfold held. cbn. by rewrite Hd.
    + apply Hquiet; [reflexivity..|]. unfold held. cbn. rewrite Hd. by destruct (stopDispatch_ s).
    + apply db_inv_take in He. destruct He as (Hw & Hab & Hp'). by apply Hquiet.
    + by eapply db_inv_report.
    + apply Hquiet; [reflexivity..|]. unfold held. cbn.
      rewrite (running_idle _ _ _ _ He eq_refl); [done|]. by destruct (stop_ s).
    + apply Hquiet; reflexivity.
    + apply Hquiet; reflexivity.
    + apply Hquiet; reflexivity.
    + apply Hquiet; reflexivity.
  - destruct Hinv as [Hled Hheld]. pose proof (led_wf _ _ Hled) as Hwf.
    destruct (selects_step _ _ Hwf Hsel) as [Hstep [extra HT]].
    split; [|by right]. split; cbn; [by eapply ledger_step|].
    intros Ha. destruct (Hheld Ha) as [Hnd Hrun]. split; [done|]. intros t Ht.
    by eapply is_running_app, Hrun.
Qed.

Lemma db_inv_rtc c0 s s' :
  map_Forall (fun _ c => c < 2 ^ 31) c0 -> db_inv c0 s -> rtc (step this) s s' ->
  rtc Ledger.step (w_db (st_world s)) (w_db (st_world s')) /\ db_inv c0 s'.
Proof.
  intros Hc0 Hinv Hsteps. revert Hinv.
  induction Hsteps as [s|s1 s2 s3 Hs _ IH]; intros Hinv; [done|].
  destruct (db_inv_step _ _ _ Hc0 Hinv Hs) as [Hinv2 Hmove].
  destruct (IH Hinv2) as [Hrtc Hinv3]. split; [|done].
  destruct Hmove as [E|E]; [by rewrite <- E|by eapply rtc_l].
Qed.
End Database.

(** ** Properties *)

Section Properties.
Context `{Env} (this : MockPollWorker).


(** C2: the threads of the worker, together with the schedulers that give it
    tasks, implement the protocol: every run of theirs moves the database
    along steps of the protocol, so that the capacity accounting holds at
    every moment, also when transactions are aborted or responses lost. *)
Theorem poll_worker_refines_protocol w s :
  wf_db (w_db w) -> Task (w_db w) = [] ->
  rtc (step this) (startServing this w) s ->
  rtc Ledger.step (w_db w) (w_db (st_world s)) /\
  forall k c, capacity (w_db w) !! k = Some c ->
    capacity (w_db (st_world s)) !! k =
      Some (c - Z.of_nat (open_count k (w_db (st_world s)))).
Proof.
  intros Hwf HT Hsteps.
  pose proof (capacity_bounded _ Hwf) as Hc0.
  assert (db_inv this (capacity (w_db w)) (startServing this w)) as Hinv.
  { split; [by apply ledger_start|]. intros _. unfold held, startServing. cbn [disp taskQueue_ execs app].
    assert (running (replicate (Z.to_nat (numExecutors_ this)) XWait) = []) as ->.
    { induction (Z.to_nat (numExecutors_ this)) as [|n IH]; [done|]. exact IH. }
    split; [constructor|]. intros t Ht. by apply not_elem_of_nil in Ht. }
  destruct (db_inv_rtc this _ _ _ Hc0 Hinv Hsteps) as [Hrtc [[_ _ Hsum] _]].
  split; [done|]. intros k c Hc. by rewrite Hsum, Hc.
Qed.
End Properties.

(** ** Examples *)

Definition poll_demo : MockPollWorker :=
  {| workerId_ := 4; pkey_ := 0; numExecutors_ := 1; topk_ := 5 |}.

(** Task 7 waits for worker 4 of partition 0. *)
Definition poll_demo_world : world :=
  init_world (Db [WorkerRow 4 1 0 0 ""] [TaskRow 7 4 1 0] [] [] [] []).

Definition poll_demo_end : state :=
  State_ (World (Db [WorkerRow 4 2 0 0 ""] [TaskRow 7 4 3 0] [] [] [] []) 3 [] 0 0 0)
    [] true true DStopped [XStopped] Ended [7] [7] [7] false.

Definition poll_demo_polled : world :=
  World (Db [WorkerRow 4 1 0 0 ""] [TaskRow 7 4 2 0] [] [] [] []) 2 [] 0 0 0.

Lemma poll_demo_select :
  @select_tasks (steady Z.of_nat) poll_demo poll_demo_world =
  (Done (RSuccess [[VInt 7]]), poll_demo_polled).
Proof. vm_compute. reflexivity. Qed.

Lemma poll_demo_report :
  @report_task (steady Z.of_nat) poll_demo 7 poll_demo_polled =
  (Done (RSuccess [[VInt 0]]), st_world poll_demo_end).
Proof. vm_compute. reflexivity. Qed.

(** Compute the state a run has come to. *)
Ltac simp_state :=
  match goal with |- rtc _ ?s _ => let s' := eval vm_compute in s in change s with s' end.

(** The task is polled, executed and reported, and the worker is stopped. *)
Lemma poll_demo_run :
  rtc (@step (steady Z.of_nat) poll_demo)
    (startServing poll_demo poll_demo_world) poll_demo_end.
Proof.
  eapply rtc_l; [apply step_worker; eapply dispatch_step_invoke;
                 [reflexivity|reflexivity|exact poll_demo_select|reflexivity]|]; simp_state.
  eapply rtc_l; [apply step_worker; eapply dispatch_step_push; reflexivity|]; simp_state.
  eapply rtc_l; [apply step_worker; eapply dispatch_step_done; reflexivity|]; simp_state.
  eapply rtc_l; [apply step_worker; eapply (execute_step_take _ _ 0);
                 [reflexivity|reflexivity|by right]|]; simp_state.
  eapply rtc_l; [apply step_worker; eapply (execute_step_report _ _ 0);
                 [reflexivity|reflexivity|exact poll_demo_report]|]; simp_state.
  eapply rtc_l; [apply step_worker; eapply (execute_step_check _ _ 0); reflexivity|]; simp_state.
  eapply rtc_l; [apply step_worker; eapply end_step_stop; reflexivity|]; simp_state.
  eapply rtc_l; [apply step_worker; eapply dispatch_step_check; reflexivity|]; simp_state.
  eapply rtc_l; [apply step_worker; eapply end_step_join; reflexivity|]; simp_state.
  eapply rtc_l; [apply step_worker; eapply end_step_drained; reflexivity|]; simp_state.
  eapply rtc_l; [apply step_worker; eapply (execute_step_take _ _ 0);
                 [reflexivity|reflexivity|by left]|]; simp_state.
  eapply rtc_l; [apply step_worker; eapply end_step_done;
                 [reflexivity|reflexivity|by repeat constructor]|]; simp_state.
  reflexivity.
Qed.


(** From an empty Task table, the scheduler gives worker 4 the task first. *)
Lemma poll_demo_schedule :
  rtc (@step (steady Z.of_nat) poll_demo) (startServing poll_demo (init_world ledger_demo))
    (set_world (startServing poll_demo (init_world ledger_demo)) poll_demo_world).
Proof.
  apply rtc_once, step_scheduler.
  exists (steady Z.of_nat), 0, 7, (init_world ledger_demo),
    (World (w_db poll_demo_world) 1 [] 0 0 0), 4.
  split_and!; [done|done|apply not_elem_of_nil|by vm_compute|].
  left. reflexivity.
Qed.

Lemma poll_worker_refines_protocol_witness :
  wf_db ledger_demo /\
  capacity (w_db poll_demo_world) !! (0, 4) = Some (2 - 1).
Proof.
  split; [exact ledger_demo_wf|].
  apply (poll_worker_refines_protocol (H := steady Z.of_nat) poll_demo (init_world ledger_demo) _
    ledger_demo_wf eq_refl poll_demo_schedule); reflexivity.
Defined.
