(* ===== verification/WorkerManager.v ===== *)
(** * WorkerManager and MockGRPCWorker

    The base class of the workers
    ([src/libs/lib_worker/WorkerManager.{h,cc}]) and the worker the Spark-like
    scheduler starts ([MockGRPCWorker.{h,cc}]): it registers itself with the
    data it holds and answers [SubmitTask] after the task's execution time. *)

From S2P Require Import Prelude Tables World Procs Pool Client Frame SchedulerUtil.
From stdpp Require Import pretty.
From Stdlib Require Import Ascii.
#[local] Open Scope Z_scope.

(** ** WorkerManager *)

Inductive TaskState := UNKNOWN_ | PENDING_ | RUNNING_ | COMPLETE_.

(** The enumerators, as they are written to the database. *)
Definition TaskState_code (s : TaskState) : Z :=
  match s with UNKNOWN_ => 0 | PENDING_ => 1 | RUNNING_ => 2 | COMPLETE_ => 3 end.

Record WorkerManager := { workerId_ : Z; dbAddr_ : string; stop_ : bool }.

Definition WorkerManager_new (workerId : Z) (dbAddr : string) : WorkerManager :=
  {| workerId_ := workerId; dbAddr_ := dbAddr; stop_ := false |}.

(** [createVoltdbClient]: one host of the list is chosen at random; [connects]
    tells whether the connection to it succeeds.  An empty list makes the
    remainder a division by zero. *)
Definition createVoltdbClient `{Env} (connects : string -> bool) (dbAddr : string) :
    M world string :=
  let hostlist := hosts_of dbAddr in
  r ← c_rand;
  randIndex ← int_rem r (Z.of_nat (length hostlist));
  match hostlist !! Z.to_nat randIndex with
  | None => throw OutOfBounds
  | Some host => if connects host then mret host else throw UncaughtException
  end.

(** ** MockGRPCWorker *)

Record MockGRPCWorker := {
  g_manager : WorkerManager;
  workerPartitions_ : Z;
  capacity_ : Z;
  workerData_ : list Z;
}.

Definition MockGRPCWorker_new (workerId workerPartitions capacity : Z) (workerData : list Z) :
    MockGRPCWorker :=
  {| g_manager := WorkerManager_new workerId "example";
     workerPartitions_ := workerPartitions; capacity_ := capacity; workerData_ := workerData |}.

(** ["localhost:" + std::to_string(8000 + workerId)]. *)
Definition worker_port (workerId : Z) : string := pretty (wrap32 (8000 + workerId)).
Definition worker_addr (workerId : Z) : string := "localhost:" +:+ worker_port workerId.

Section GRPC.
Context `{Env}.
Implicit Types (this : MockGRPCWorker).

(** One row per item of data; [None] is [return false], [Some addr] the address
    the server thread listens at. *)
Definition startServing this : M world (option string) :=
  let fix register (data : list Z) : M world (option string) :=
    match data with
    | [] => mret (Some (worker_addr (workerId_ (g_manager this))))
    | d :: data' =>
        pkey ← int_rem (workerId_ (g_manager this)) (workerPartitions_ this);
        r ← invoke (Procedure_new "InsertSparkWorker"
                      [scalar WIRE_TYPE_INTEGER; scalar WIRE_TYPE_INTEGER;
                       scalar WIRE_TYPE_INTEGER; scalar WIRE_TYPE_INTEGER;
                       scalar WIRE_TYPE_STRING])
              [VInt (workerId_ (g_manager this)); VInt (capacity_ this); VInt d; VInt pkey;
               VStr ""];
        if succeeded r then register data' else mret None
    end in
  register (workerData_ this).

(** [FrontendServiceImpl::SubmitTask]: [usleep] takes an unsigned number of
    microseconds; the answer is always [SUCCESS].  The result is the time
    slept and the status. *)
Definition SubmitTask (request : SubmitTaskRequest) : Z * Z :=
  (wrapU32 (exectime request), SUCCESS).

End GRPC.

(** ** The hosts a worker connects to *)

Section Connect.
Context `{Env}.

(** The client of a worker is connected to one of the hosts of the address
    list; when that connection fails the exception passes through. *)
Theorem worker_connects_to_a_host connects hosts w :
  hosts <> [] -> Forall (fun h => has_char ","%char h = false) hosts ->
  last hosts <> Some ""%string ->
  exists host, host ∈ hosts /\
    createVoltdbClient connects (join_with ","%char hosts) w =
    (if connects host then Done host else Trap UncaughtException, tick w).
Proof.
  intros Hne Hh Hl. unfold createVoltdbClient, hosts_of. rewrite getlines_join by done.
  destruct (c_rand w) as [o w1] eqn:Er. pose proof Er as [= <- <-].
  pose proof (c_rand_range _ _ _ Er) as Hr.
  assert (0 < Z.of_nat (length hosts)) as Hlen by (destruct hosts; cbn; [done|lia]).
  run_bind Er. unfold int_rem. rewrite decide_False by lia. rewrite c_rem_mod by lia.
  rewrite (bind_done _ _ _ _ _ (ret_eq _ (tick w))).
  set (i := wrapU 31 (rand_stream (w_tick w)) mod Z.of_nat (length hosts)).
  pose proof (Z.mod_pos_bound (wrapU 31 (rand_stream (w_tick w))) (Z.of_nat (length hosts)) Hlen).
  destruct (lookup_lt_is_Some_2 hosts (Z.to_nat i)) as [host Hhost]; [unfold i; lia|].
  exists host. split; [by eapply list_elem_of_lookup_2|]. rewrite Hhost.
  by destruct (connects host).
Qed.
End Connect.

Lemma worker_connects_to_a_host_witness :
  let E := steady Z.of_nat in
  exists host, host ∈ ["a"; "b"]%string /\
    createVoltdbClient (fun _ => true) (join_with ","%char ["a"; "b"]%string) (init_world empty_db) =
    (Done host, tick (init_world empty_db)).
Proof.
  destruct (worker_connects_to_a_host (H := steady Z.of_nat) (fun _ => true) ["a"; "b"]%string
    (init_world empty_db)) as (host & Hin & E);
    [done|by repeat constructor|done|]. exists host. exact (conj Hin E).
Defined.
