(* ===== verification/GrpcServer.v ===== *)
(** * Servers behind gRPC

    The thread that serves requests in [src/libs/lib_scheduler/SchedulerServer.{h,cpp}]
    and [src/libs/lib_worker/MockGRPCWorker.{h,cc}]: the owner starts it and spins
    until it is online, later shuts the server down and joins the thread.  What the
    handlers of requests do is in Drivers.v and WorkerManager.v; the library's
    server accepts calls until it is shut down, [Shutdown] waits for the calls that
    are running, and [Wait] returns when they have ended. *)

From S2P Require Import Prelude.
#[local] Open Scope Z_scope.

(** ** One server *)

(** The owner: before the constructor (or [startServing]) makes the thread, spinning
    until [workerServer_] is set, serving, inside [Shutdown], inside [join], and
    behind the destructor (or [endServing]). *)
Inductive owner := OBefore | OSpinning | OServing | OShutting | OJoining | OGone.

#[export] Instance owner_eq_dec : EqDecision owner.
Proof. solve_decision. Defined.

(** [RunServer]: not started, in front of [BuildAndStart], inside [Wait], returned. *)
Inductive runner := RNone | RBuilding | RWaiting | RReturned.

Record server := Server_ {
  owner_ : owner;
  runServer : runner;
  workerServer_ : bool;             (* the pointer is not [NULL] *)
  shut : bool;                      (* no more calls are accepted *)
  running : nat;                    (* handlers *)
  accepted : nat;
  answered : nat;
}.

Definition new_server : server := Server_ OBefore RNone false false 0 0 0.

(** The owner's operations. *)
Definition start_thread (s : server) : server :=
  Server_ OSpinning RBuilding (workerServer_ s) (shut s) (running s) (accepted s) (answered s).
Definition set_owner (o : owner) (s : server) : server :=
  Server_ o (runServer s) (workerServer_ s) (shut s) (running s) (accepted s) (answered s).
Definition Shutdown (s : server) : server :=
  Server_ OShutting (runServer s) (workerServer_ s) true (running s) (accepted s) (answered s).

(** The thread's. *)
Definition BuildAndStart (s : server) : server :=
  Server_ (owner_ s) RWaiting true (shut s) (running s) (accepted s) (answered s).
Definition Wait_returns (s : server) : server :=
  Server_ (owner_ s) RReturned (workerServer_ s) (shut s) (running s) (accepted s) (answered s).

(** The library's: a call comes in, its handler has returned. *)
Definition accept (s : server) : server :=
  Server_ (owner_ s) (runServer s) (workerServer_ s) (shut s) (S (running s)) (S (accepted s)) (answered s).
Definition answer (n : nat) (s : server) : server :=
  Server_ (owner_ s) (runServer s) (workerServer_ s) (shut s) n (accepted s) (S (answered s)).

Section Steps.
(** Whether the port is free: otherwise [BuildAndStart] returns [NULL]. *)
Context (port_free : bool).

Inductive server_step (s : server) : server -> Prop :=
  | step_start : owner_ s = OBefore -> server_step s (start_thread s)
  | step_build : runServer s = RBuilding -> port_free = true -> server_step s (BuildAndStart s)
  | step_online : owner_ s = OSpinning -> workerServer_ s = true -> server_step s (set_owner OServing s)
  | step_accept : runServer s = RWaiting -> shut s = false -> server_step s (accept s)
  | step_answer n : running s = S n -> server_step s (answer n s)
  | step_shutdown : owner_ s = OServing -> server_step s (Shutdown s)
  | step_shut : owner_ s = OShutting -> running s = 0%nat -> server_step s (set_owner OJoining s)
  | step_wait : runServer s = RWaiting -> shut s = true -> running s = 0%nat -> server_step s (Wait_returns s)
  | step_join : owner_ s = OJoining -> runServer s = RReturned -> server_step s (set_owner OGone s).

(** A call through [NULL]: [Wait] when the server could not be built, [Shutdown]. *)
Inductive null_call (s : server) : Prop :=
  | null_wait : runServer s = RBuilding -> port_free = false -> null_call s
  | null_shutdown : owner_ s = OServing -> workerServer_ s = false -> null_call s.

(** What the owner knows of the thread: the phases that fit together, with the
    pointer, the flag and the running handlers. *)
Definition phase (s : server) : option (bool * bool * bool) :=
  match owner_ s, runServer s with
  | OBefore, RNone => Some (false, false, true)
  | OSpinning, RBuilding => Some (false, false, true)
  | OSpinning, RWaiting | OServing, RWaiting => Some (true, false, false)
  | OShutting, RWaiting => Some (true, true, false)
  | OShutting, RReturned | OJoining, RWaiting | OJoining, RReturned | OGone, RReturned => Some (true, true, true)
  | _, _ => None
  end.

Definition server_ok (s : server) : Prop :=
  match phase s with
  | Some (pointer, shut_, idle) =>
      workerServer_ s = pointer /\ shut s = shut_ /\ (idle = true -> running s = 0%nat) /\
      accepted s = (answered s + running s)%nat
  | None => False
  end.

Lemma server_ok_new : server_ok new_server.
Proof. done. Qed.

Lemma server_ok_step s s' : server_step s s' -> server_ok s -> server_ok s'.
Proof.
  destruct s as [o r w sh n a an]. unfold server_ok.
  intros Hs. destruct Hs as [E|E Ef|E E2|E E2|m E|E|E E2|E E2 E3|E E2]; cbn in E;
    try (cbn in E2); try (cbn in E3); subst; cbn;
    try destruct o; try destruct r; cbn; try done; intros (Hw & Hsh & Hi & Hc); subst; try discriminate;
    (split; [done|]); (split; [done|]); (split; [intros; try done; try (specialize (Hi eq_refl)); lia|lia]).
Qed.

Lemma server_ok_run s : rtc server_step new_server s -> server_ok s.
Proof.
  intros Hrun. enough (forall s0, server_ok s0 -> rtc server_step s0 s -> server_ok s) as Hall
    by (by eapply Hall, Hrun; apply server_ok_new).
  clear Hrun. intros s0 H0 Hrun. induction Hrun; [done|]. eauto using server_ok_step.
Qed.

Lemma never_built s : port_free = false -> rtc server_step new_server s ->
  runServer s = RNone \/ runServer s = RBuilding.
Proof.
  intros Hp Hrun. enough (forall s0, runServer s0 = RNone \/ runServer s0 = RBuilding ->
    rtc server_step s0 s -> runServer s = RNone \/ runServer s = RBuilding) as Hall by (eapply Hall, Hrun; by left).
  clear Hrun. intros s0 H0 Hrun. induction Hrun as [|s1 s2 s3 Hs _ IH]; [done|]. apply IH.
  destruct Hs; cbn; try done; try congruence; [by right|destruct H0; congruence].
Qed.

(** The steps that are left when the server was shut down. *)
Definition remaining (s : server) : nat :=
  running s + match owner_ s with OShutting => 2 | OJoining => 1 | _ => 0 end +
  match runServer s with RWaiting => 1 | _ => 0 end.

Definition stopping (s : server) : Prop :=
  server_ok s /\ (owner_ s = OShutting \/ owner_ s = OJoining \/ owner_ s = OGone).

Lemma stopping_step s s' : server_step s s' -> stopping s -> stopping s' /\ (remaining s' < remaining s)%nat.
Proof.
  intros Hs [Hok Ho]. split; [split; [by eapply server_ok_step|]|].
  - destruct Hs; cbn; try (by destruct Ho as [?|[?|?]]; congruence); try done; auto.
  - unfold server_ok, phase, remaining in *. destruct s as [o r w sh n a an].
    destruct Hs as [E|E Ef|E E2|E E2|m E|E|E E2|E E2 E3|E E2]; cbn in *; subst;
      try (by destruct Ho as [?|[?|?]]; congruence); try lia;
      try (by destruct o; destruct Ho as [?|[?|?]]; done);
      try (by destruct o; naive_solver).
    all: destruct Ho as [->|[->| ->]]; cbn in *; try lia; destruct r; naive_solver.
Qed.

Lemma stopping_moves s : stopping s -> owner_ s <> OGone -> exists s', server_step s s'.
Proof.
  intros [Hok Ho] Hg. unfold server_ok, phase in Hok.
  destruct (running s) as [|m] eqn:Hr; [|eexists; by eapply step_answer].
  destruct Ho as [Ho|[Ho|Ho]]; [by eexists; apply step_shut| |done].
  rewrite Ho in Hok. destruct (runServer s) eqn:Er; try done.
  - destruct Hok as (_ & Hsh & _). eexists. by apply step_wait.
  - eexists. by apply step_join.
Qed.
End Steps.

(** ** What the owner relies on *)


(** [Shutdown] and [join] return: once a server is shut down no call is accepted
    any more, every run has at most three steps more than there are handlers
    still running, and it can only end behind the join. *)
Theorem stopping_ends port_free s s' k :
  rtc (server_step port_free) new_server s -> owner_ s = OShutting ->
  nsteps (server_step port_free) k s s' ->
  (k <= running s + 3)%nat /\ accepted s' = accepted s /\
  (owner_ s' <> OGone -> exists s'', server_step port_free s' s'').
Proof.
  intros Hrun%server_ok_run Ho Hk.
  assert (stopping s) as Hst by (split; [done|by left]).
  enough (forall s, stopping s -> nsteps (server_step port_free) k s s' ->
    stopping s' /\ (k + remaining s' <= remaining s)%nat /\ accepted s' = accepted s) as Hall.
  { destruct (Hall s Hst Hk) as (H1 & H2 & H3). unfold remaining in H2 at 2. rewrite Ho in H2.
    split; [destruct (runServer s); lia|]. split; [done|by apply stopping_moves]. }
  clear. intros s Hst Hk. induction Hk as [s|k s s1 s2 Hs Hk IH]; [split; [done|]; split; [lia|done]|].
  destruct (stopping_step _ _ _ Hs Hst) as [H1 H2]. destruct (IH H1) as (H3 & H4 & H5).
  split; [done|]. split; [lia|]. rewrite H5.
  destruct Hs as [E|E Ef|E E2|E E2|m E|E|E E2|E E2 E3|E E2]; try done. exfalso.
  destruct Hst as [Hok Ho]. unfold server_ok, phase in Hok. rewrite E in Hok.
  destruct Ho as [Ho|[Ho|Ho]]; rewrite Ho in Hok; try done; destruct Hok as (_ & Hsh & _); congruence.
Qed.

(** ** Several workers *)

(** [SparkScheduler::teardown]: [endServing] of each worker in turn. *)
Section Teardown.
Context (port_free : nat -> bool).

Record teardown := Teardown { next_ : nat; workers_ : list server }.

Inductive teardown_step (t : teardown) : teardown -> Prop :=
  (** [workerServer_->Shutdown()] of the next worker. *)
  | teardown_begin s : workers_ t !! next_ t = Some s -> owner_ s = OServing ->
      teardown_step t (Teardown (next_ t) (<[next_ t := Shutdown s]> (workers_ t)))
  (** [endServing] has returned. *)
  | teardown_next s : workers_ t !! next_ t = Some s -> owner_ s = OGone ->
      teardown_step t (Teardown (S (next_ t)) (workers_ t))
  (** The worker's own steps; its owner starts nothing and shuts nothing down. *)
  | teardown_worker i s s' : workers_ t !! i = Some s -> server_step (port_free i) s s' ->
      (owner_ s = OServing -> owner_ s' = OServing) ->
      teardown_step t (Teardown (next_ t) (<[i := s']> (workers_ t))).

(** The workers before the next are gone, the next is serving or being stopped,
    the others serve. *)
Definition in_turn (n : nat) (t : teardown) : Prop :=
  length (workers_ t) = n /\ (next_ t <= n)%nat /\
  forall i s, workers_ t !! i = Some s -> server_ok s /\
    ((i < next_ t)%nat -> owner_ s = OGone) /\
    (i = next_ t -> owner_ s = OServing \/ stopping s) /\
    ((next_ t < i)%nat -> owner_ s = OServing).

Lemma in_turn_step n t t' : teardown_step t t' -> in_turn n t -> in_turn n t'.
Proof.
  intros Hs (Hlen & Hle & Hall). destruct Hs as [s Hi Ho|s Hi Ho|i s s' Hi Hs Hkeep]; cbn.
  - destruct (Hall _ _ Hi) as (Hok & _). split; [by rewrite <- Hlen; apply length_insert|]. split; [done|].
    intros j s' [(<- & <- & _)|[Hne Hj]]%list_lookup_insert_Some.
    + assert (server_ok (Shutdown s)) as Hok' by (eapply (server_ok_step true), Hok; by apply step_shutdown).
      split; [done|]. split; [intros Hj; cbn in Hj; lia|]. split; [|intros Hj; cbn in Hj; lia]. intros _. right. split; [done|by left].
    + by apply Hall.
  - split; [done|]. split; [apply lookup_lt_Some in Hi; cbn; lia|].
    intros j s' Hj. cbn [workers_ next_] in *. destruct (Hall _ _ Hj) as (Hok & H1 & H2 & H3). split; [done|]. split; [|split].
    + intros Hj'. destruct (decide (j = next_ t)) as [->|]; [congruence|apply H1; lia].
    + intros ->. left. apply H3. lia.
    + intros Hj'. apply H3. lia.
  - destruct (Hall _ _ Hi) as (Hok & H1 & H2 & H3).
    split; [by rewrite <- Hlen; apply length_insert|]. split; [done|].
    intros j s0 [(<- & <- & _)|[Hne Hj]]%list_lookup_insert_Some; [|by apply Hall].
    split; [by eapply server_ok_step|]. split; [|split; [|intros Hj; by apply Hkeep, H3]].
    + intros Hj. specialize (H1 Hj).
      assert (stopping s) as Hst by (split; [done|by right; right]).
      destruct (stopping_step _ _ _ Hs Hst) as [[_ _] _]. destruct Hs; cbn in *; congruence.
    + intros Hj. destruct (H2 Hj) as [Ho|Hst]; [left; by apply Hkeep|right; by eapply stopping_step].
Qed.

Lemma in_turn_run n t t' : rtc teardown_step t t' -> in_turn n t -> in_turn n t'.
Proof. induction 1; eauto using in_turn_step. Qed.
End Teardown.

(** [teardown] of a Spark-like scheduler whose workers all serve stops one after
    the other, while the others go on serving: when it has passed worker [i], the
    threads of the workers up to [i] have returned and each call they accepted has been answered; it is
    never stuck before the last. *)
Theorem teardown_stops_workers port_free ws t :
  Forall (fun s => server_ok s /\ owner_ s = OServing) ws ->
  rtc (teardown_step port_free) (Teardown 0 ws) t ->
  (forall i s, (i < next_ t)%nat -> workers_ t !! i = Some s ->
     owner_ s = OGone /\ runServer s = RReturned /\ accepted s = answered s) /\
  ((next_ t < length ws)%nat -> exists t', teardown_step port_free t t').
Proof.
  intros Hws Hrun.
  assert (in_turn (length ws) t) as (Hlen & Hle & Hall).
  { eapply in_turn_run; [exact Hrun|]. split; [done|]. split; [cbn; lia|]. intros i s Hi. cbn in *.
    eapply Forall_lookup_1 in Hws as [Hok Ho]; [|exact Hi]. split; [done|]. split; [intros Hj; cbn in Hj; lia|]. split; [by left|done]. }
  split.
  - intros i s Hi Hs. destruct (Hall i s Hs) as (Hok & Hg & _). specialize (Hg Hi). split; [done|].
    unfold server_ok, phase in Hok. rewrite Hg in Hok. destruct (runServer s); try done.
    destruct Hok as (_ & _ & Hr & ->). split; [done|]. rewrite Hr; [lia|done].
  - intros Hlt. destruct (lookup_lt_is_Some_2 (workers_ t) (next_ t)) as [s Hs]; [lia|].
    destruct (Hall _ _ Hs) as (Hok & _ & Hnow & _). destruct (Hnow eq_refl) as [Ho|Hst].
    + eexists. by eapply teardown_begin.
    + destruct (decide (owner_ s = OGone)); [eexists; by eapply teardown_next|].
      destruct (stopping_moves (port_free (next_ t)) s Hst) as [s' Hs']; [done|].
      eexists. eapply teardown_worker; [exact Hs|exact Hs'|]. destruct Hst as [_ [Ho|[Ho|Ho]]]; congruence.
Qed.

(** ** Examples *)

Definition serving : server := Server_ OServing RWaiting true false 0 0 0.

Lemma serving_reached : rtc (server_step true) new_server serving.
Proof.
  eapply rtc_l; [by apply step_start|]. eapply rtc_l; [by apply step_build|].
  eapply rtc_l; [by apply step_online|]. apply rtc_refl.
Qed.


(** One call is running when the server is shut down. *)
Lemma stopping_ends_witness :
  exists s', nsteps (server_step true) 1 (Shutdown (accept serving)) s' /\ (1 <= 4)%nat /\ accepted s' = 1%nat.
Proof.
  assert (rtc (server_step true) new_server (Shutdown (accept serving))) as Hrun.
  { etrans; [exact serving_reached|]. eapply rtc_l; [by apply step_accept|].
    apply rtc_once. by apply step_shutdown. }
  assert (nsteps (server_step true) 1 (Shutdown (accept serving)) (answer 0 (Shutdown (accept serving)))) as Hk.
  { apply nsteps_once. by apply step_answer. }
  destruct (stopping_ends true _ _ 1 Hrun eq_refl Hk) as (H1 & H2 & _).
  exists (answer 0 (Shutdown (accept serving))). split; [exact Hk|]. split; [exact H1|exact H2].
Defined.

Lemma teardown_stops_workers_witness :
  exists t', teardown_step (fun _ => true) (Teardown 0 [serving; serving]) t'.
Proof.
  destruct (teardown_stops_workers (fun _ => true) [serving; serving] (Teardown 0 [serving; serving])) as [_ H].
  - by repeat constructor.
  - apply rtc_refl.
  - apply H. apply Nat.ltb_lt. reflexivity.
Defined.
