(* ===== verification/SparkScheduler.v ===== *)
(** * SparkScheduler

    [src/libs/lib_scheduler/SparkScheduler.{h,cc}]: clients queue tasks and
    wait; one thread gives the queued tasks to workers that hold their data,
    another takes the workers' answers and wakes the clients.  The database
    calls are functions, the threads a step relation. *)

From S2P Require Import Prelude Tables World Procs Pool Client Frame.
From S2P Require Import Ledger SchedulerUtil Select WorkerManager.
#[local] Open Scope Z_scope.

Record SparkScheduler := {
  workerPartitions_ : Z;
  workerCapacity_ : Z;
  numWorkers_ : Z;
}.

Section Scheduler.
Context `{Env}.
Implicit Types (this : SparkScheduler).

Definition truncateWorkerTable : M world unit := SchedulerUtil.truncateWorkerTable.

(** A worker is made and started; [None]: it could not register. *)
Definition insertWorker this (workerID capacity : Z) (workerData : list Z) :
    M world (option string) :=
  startServing (MockGRPCWorker_new workerID (workerPartitions_ this) capacity workerData).

Definition setup this : M world bool :=
  truncateWorkerTable ;;
  c ← insert_all (numWorkers_ this) (fun i =>
        addr ← insertWorker this i (workerCapacity_ this) [i];
        mret (match addr with Some _ => true | None => false end));
  after c (fun _ => mret true).

(** [results[0]] of a failed response does not exist. *)
Definition first_table (r : response) : M world table :=
  match r with RSuccess results => mret results | RFailure => throw OutOfBounds end.

Fixpoint partition_numbers (rows : table) : option (list Z) :=
  match rows with
  | [] => Some []
  | (VInt z :: _) :: rows' =>
      match partition_numbers rows' with Some ps => Some (wrap32 z :: ps) | None => None end
  | _ => None
  end.

(** One iteration of [while (true)]. *)
Definition poll_partition (targetData : Z) (targetPartitions : list Z) :
    M world (ctl unit Z) :=
  r ← c_rand;
  i ← int_rem r (Z.of_nat (length targetPartitions));
  match targetPartitions !! Z.to_nat i with
  | None => throw OutOfBounds
  | Some partitionNum =>
      r ← invoke (Procedure_new "SelectSparkWorker"
                    [scalar WIRE_TYPE_INTEGER; scalar WIRE_TYPE_INTEGER])
            [VInt partitionNum; VInt targetData];
      match r with
      | RFailure => mret (Return (-1))
      | RSuccess results =>
          z ← first_int64 results;
          let selectedWorker := wrap32 z in
          if decide (selectedWorker <> -1) then mret (Return selectedWorker)
          else mret (Next tt)
      end
  end.

(** [while (true)], cut off after [fuel] iterations. *)
Fixpoint poll_loop (fuel : nat) (targetData : Z) (ps : list Z) : M world Z :=
  match fuel with
  | O => out_of_fuel
  | S fuel' =>
      c ← poll_partition targetData ps;
      match c with
      | Return z => mret z
      | Next _ | Break _ => poll_loop fuel' targetData ps
      end
  end.

Definition target_partitions (targetData : Z) : M world (list Z) :=
  pr ← invoke (Procedure_new "SelectDataShardPartition" [scalar WIRE_TYPE_INTEGER])
         [VInt targetData];
  presults ← first_table pr;
  match partition_numbers presults with
  | None => throw UncaughtException
  | Some ps => mret ps
  end.

Definition selectWorker (fuel : nat) (targetData : Z) : M world Z :=
  ps ← target_partitions targetData;
  poll_loop fuel targetData ps.

(** The database part of [finishTask]. *)
Definition finish_worker_task this (taskId workerId : Z) : M world bool :=
  pkey ← int_rem workerId (workerPartitions_ this);
  r ← invoke (Procedure_new "FinishWorkerTask"
                [scalar WIRE_TYPE_INTEGER; scalar WIRE_TYPE_INTEGER; scalar WIRE_TYPE_INTEGER])
        [VInt workerId; VInt taskId; VInt pkey];
  mret (succeeded r).
End Scheduler.

(** ** Channels: one per address *)

Section Channels.
Context {Channel : Type} (CreateChannel : string -> Channel).

Definition addrToChannel (channelMap : gmap string Channel) (workerAddr : string) :
    Channel * gmap string Channel :=
  match channelMap !! workerAddr with
  | Some c => (c, channelMap)
  | None => let c := CreateChannel workerAddr in (c, <[workerAddr := c]> channelMap)
  end.
End Channels.

(** ** Threads *)

(** A remote call: the [AsyncClientCall] and the request it carries. *)
Record call := Call { c_taskID : Z; c_workerID : Z; c_request : SubmitTaskRequest }.

(** A client of [schedule]: before the call, with its task id drawn, waiting for
    its completion, returned. *)
Inductive client := CNew (t : task) | CDrawn (id : Z) (t : task) | CWait (id : Z) | CDone (id : Z).

(** [processTaskQueue]: before it has the lock for the first time, inside
    [taskProcessCV.wait], notified, holding the lock, returned. *)
Inductive processor := PStart | PWaiting | PNotified | PHolding | PReturned.

Record state := State_ {
  st_world : world;
  taskIDs : Z;
  taskQueue : list (Z * task);
  proc : processor;
  calls : list call;                 (* calls whose answer is not taken yet *)
  finishing : option call;           (* the client notified, the database not yet *)
  taskCompletionSet : gset Z;
  runTaskQueueThread : bool;
  clients : list client;
  submitted : list Z;                (* the task ids queued so far *)
  completions : list Z;              (* the tasks whose call completed *)
  leaked : list Z;                   (* workers whose unit was not given back *)
}.

Definition init (w : world) (first_id : Z) (tasks : list task) : state :=
  State_ w first_id [] PStart [] None ∅ true (CNew <$> tasks) [] [] [].

Section Steps.
Context `{Env} (this : SparkScheduler).

(** [taskID = taskIDs++]. *)
Definition schedule_draw (s : state) (k : nat) (t : task) : state :=
  State_ (st_world s) (wrap32 (taskIDs s + 1)) (taskQueue s) (proc s) (calls s) (finishing s)
    (taskCompletionSet s) (runTaskQueueThread s)
    (<[k := CDrawn (taskIDs s) t]> (clients s)) (submitted s) (completions s) (leaked s).

(** The critical section of [schedule]: push and notify.  A notification only
    reaches a thread that waits. *)
Definition schedule_push (s : state) (k : nat) (id : Z) (t : task) : state :=
  State_ (st_world s) (taskIDs s) (taskQueue s ++ [(id, t)])
    (match proc s with PWaiting => PNotified | p => p end) (calls s) (finishing s)
    (taskCompletionSet s) (runTaskQueueThread s)
    (<[k := CWait id]> (clients s)) (submitted s ++ [id]) (completions s) (leaked s).

Definition schedule_return (s : state) (k : nat) (id : Z) : state :=
  State_ (st_world s) (taskIDs s) (taskQueue s) (proc s) (calls s) (finishing s)
    (taskCompletionSet s) (runTaskQueueThread s)
    (<[k := CDone id]> (clients s)) (submitted s) (completions s) (leaked s).

Definition process_goto (s : state) (p : processor) : state :=
  State_ (st_world s) (taskIDs s) (taskQueue s) p (calls s) (finishing s)
    (taskCompletionSet s) (runTaskQueueThread s) (clients s) (submitted s) (completions s)
    (leaked s).

(** The loop condition [runTaskQueueThread], then [wait]. *)
Definition process_wait (s : state) : state :=
  process_goto s (if runTaskQueueThread s then PWaiting else PReturned).

(** [assignTaskToWorker] and [pop], for the task at the front. *)
Definition process_assign (s : state) (id : Z) (t : task) (q : list (Z * task))
    (workerId : Z) (w : world) : state :=
  State_ w (taskIDs s) q (proc s) (calls s ++ [Call id workerId (taskToProtobuf t)])
    (finishing s) (taskCompletionSet s) (runTaskQueueThread s) (clients s) (submitted s)
    (completions s) (leaked s).

(** [finishRequests] takes an answer; [finishTask] wakes the clients. *)
Definition finish_notify (s : state) (c : call) (before after_ : list call) : state :=
  State_ (st_world s) (taskIDs s) (taskQueue s) (proc s) (before ++ after_) (Some c)
    ({[c_taskID c]} ∪ taskCompletionSet s) (runTaskQueueThread s) (clients s) (submitted s)
    (completions s ++ [c_taskID c]) (leaked s).

(** ... and updates the database; the outcome is only printed. *)
Definition finish_update (s : state) (c : call) (w : world) : state :=
  State_ w (taskIDs s) (taskQueue s) (proc s) (calls s) None
    (taskCompletionSet s) (runTaskQueueThread s) (clients s) (submitted s) (completions s)
    (if decide (w_db w = w_db (st_world s)) then leaked s ++ [c_workerID c] else leaked s).

Inductive step (s : state) : state -> Prop :=
  | step_draw k t :
      clients s !! k = Some (CNew t) -> step s (schedule_draw s k t)
  | step_push k id t :
      clients s !! k = Some (CDrawn id t) -> proc s <> PHolding ->
      step s (schedule_push s k id t)
  | step_return k id :
      clients s !! k = Some (CWait id) -> id ∈ taskCompletionSet s ->
      step s (schedule_return s k id)
  | step_process_start :
      proc s = PStart -> step s (process_wait s)
  | step_process_wake :
      proc s = PNotified -> step s (process_goto s PHolding)
  | step_process_assign id t q fuel workerId w :
      proc s = PHolding -> taskQueue s = (id, t) :: q ->
      selectWorker fuel (targetData t) (st_world s) = (Done workerId, w) -> 0 <= workerId ->
      step s (process_assign s id t q workerId w)
  | step_process_empty :
      proc s = PHolding -> taskQueue s = [] -> step s (process_wait s)
  | step_finish_notify c before after_ :
      calls s = before ++ c :: after_ -> finishing s = None ->
      step s (finish_notify s c before after_)
  | step_finish_update c b w :
      finishing s = Some c ->
      finish_worker_task this (c_taskID c) (c_workerID c) (st_world s) = (Done b, w) ->
      step s (finish_update s c w).

(** A condition variable may also wake without a notification. *)
Inductive spurious (s : state) : state -> Prop :=
  | spurious_wake : proc s = PWaiting -> spurious s (process_goto s PNotified).

Definition any_step (s s' : state) : Prop := step s s' \/ spurious s s'.
End Steps.

(** ** Selecting a worker *)

Section Selection.
Context `{Env}.

Lemma SelectSparkWorker_spec p td w :
  wf_db (w_db w) ->
  (spark_workers p td (w_db w) = [] /\ SelectSparkWorker_run p td w = (Done (-1), tick w)) \/
  (exists r, r ∈ spark_workers p td (w_db w) /\
     SelectSparkWorker_run p td w =
       (Done (WorkerID r), set_db (acquired p r (w_db w)) (tick w))).
Proof.
  intros Hwf. unfold SelectSparkWorker_run. query_split Emp r Hr; [by left | right].
  exists r. split; [done|]. apply list_elem_of_filter in Hr as [[Hfree _] Hin].
  assert (r ∈ free_workers p (w_db w)) as Hf by (by apply list_elem_of_filter).
  destruct (free_worker_ids p _ r Hwf Hf) as (_ & _ & _ & Hc & _).
  by rewrite (bind_done _ _ _ _ _ (updateCapacity_ok _ _ _ _ Hc)).
Qed.

(** The worker a selection took, and what it did to the database. *)
Definition took_spark (td : Z) (r : worker_row) (d d' : db) : Prop :=
  r ∈ Worker d /\ 0 < Capacity r /\ DataShards r = td /\ d' = acquired (W_PKey r) r d.

Lemma poll_partition_cases td ps w c w' :
  wf_db (w_db w) -> poll_partition td ps w = (Done c, w') ->
  (c = Next tt /\ w_db w' = w_db w) \/
  (exists r, c = Return (WorkerID r) /\ took_spark td r (w_db w) (w_db w')) \/ c = Return (-1).
Proof.
  intros Hwf E. unfold poll_partition in E.
  apply bind_inv in E as (rnd & w1 & Er & E). injection Er as <- <-.
  apply bind_inv in E as (i & w2 & Ei & E). unfold int_rem in Ei. case_decide; [done|].
  injection Ei as <- <-. destruct (ps !! _) as [p|]; [|done].
  apply bind_inv in E as (resp & w3 & Einv & E).
  apply (transaction_cases (long_proc (SelectSparkWorker_run p td))) in Einv
    as [[Hd ->]|(t & Et & Hresp)]; [injection E as <- <-; by right; right|].
  destruct (SelectSparkWorker_spec p td (tick (tick w)) Hwf) as [[Emp Es]|(r & Hr & Es)];
    rewrite (long_proc_run _ _ _ _ Es) in Et; injection Et as <- <-;
    destruct Hresp as [-> | ->]; try (injection E as <- <-; by right; right).
  - left. rewrite (bind_done _ _ _ _ _ (first_int64_long _ _)) in E.
    change (wrap32 (-1)) with (-1) in E. rewrite decide_False in E by (intros Hn; by apply Hn).
    by injection E as <- <-.
  - right. left. apply list_elem_of_filter in Hr as [[[Hp Hpos] Hshard] Hin].
    rewrite (bind_done _ _ _ _ _ (first_int64_long _ _)) in E.
    rewrite (wrap32_worker_id _ r Hwf Hin) in E.
    destruct (wf_row _ _ Hwf Hin) as (_ & Hid & _).
    rewrite decide_True in E by lia. injection E as <- <-.
    exists r. split; [done|]. split_and!; [done..|]. by rewrite Hp.
Qed.

Lemma poll_loop_cases td ps fuel : forall w z w',
  wf_db (w_db w) -> poll_loop fuel td ps w = (Done z, w') -> 0 <= z ->
  exists r, z = WorkerID r /\ took_spark td r (w_db w) (w_db w').
Proof.
  induction fuel as [|fuel IH]; intros w z w' Hwf E Hz; [done|]. cbn [poll_loop] in E.
  apply bind_inv in E as (c & w1 & Ec & E).
  destruct (poll_partition_cases _ _ _ _ _ Hwf Ec) as [[-> Hd]|[(r & -> & Ht)| ->]].
  - destruct (IH w1 z w') as (r & Hr & Ht); [by rewrite Hd|done|done|].
    exists r. by rewrite Hd in Ht.
  - injection E as <- <-. by exists r.
  - injection E as <- <-. lia.
Qed.

Lemma target_partitions_db td w ps w' :
  target_partitions td w = (Done ps, w') -> w_db w' = w_db w.
Proof.
  intros E. unfold target_partitions in E. apply bind_inv in E as (r & w1 & Er & E).
  assert (w_db w1 = w_db w) as Hd.
  { apply (transaction_cases (SelectDataShardPartition_run td)) in Er
      as [[Hd _]|(t & Et & _)]; [done|].
    unfold SelectDataShardPartition_run in Et. rewrite bind_read in Et.
    destruct (pick_rows_spec (length (shard_partitions td (w_db (tick w))))
      (shard_partitions td (w_db (tick w))) (tick w)) as (xs & rest & n & Ep & _).
    rewrite (bind_done _ _ _ _ _ Ep) in Et. injection Et as _ <-.
    cbn. done. }
  apply bind_inv in E as (rows & w2 & Eo & E).
  destruct r as [|results]; [discriminate Eo|]. injection Eo as <- <-.
  destruct (partition_numbers results); [|discriminate E]. by injection E as _ <-.
Qed.

Lemma selectWorker_cases td fuel w z w' :
  wf_db (w_db w) -> selectWorker fuel td w = (Done z, w') -> 0 <= z ->
  exists r, z = WorkerID r /\ took_spark td r (w_db w) (w_db w').
Proof.
  intros Hwf E Hz. unfold selectWorker in E. apply bind_inv in E as (ps & w1 & Ep & E).
  apply target_partitions_db in Ep. rewrite <- Ep in Hwf |- *. by eapply poll_loop_cases.
Qed.

(** *** How long the polling takes *)

Context `{!Reliable}.

(** The partition of the [k]-th poll that starts in [w]: each poll draws one
    random number, one fate and one row. *)
Definition polled (ps : list Z) (w : world) (k : nat) : option Z :=
  ps !! Z.to_nat (wrapU 31 (rand_stream (w_tick w + 3 * k)) mod Z.of_nat (length ps)).

Lemma poll_partition_run td ps p w :
  wf_db (w_db w) -> ps <> [] -> polled ps w 0 = Some p ->
  (spark_workers p td (w_db w) = [] /\
     poll_partition td ps w = (Done (Next tt), tick (tick (tick w)))) \/
  (exists r w', r ∈ spark_workers p td (w_db w) /\
     poll_partition td ps w = (Done (Return (WorkerID r)), w')).
Proof.
  intros Hwf Hps Hp. unfold poll_partition, polled in *. rewrite Nat.add_0_r in Hp.
  assert (0 < Z.of_nat (length ps)) as Hlen by (destruct ps; cbn; [done|lia]).
  rewrite random_start by done. unfold offset_of. rewrite Hp.
  destruct (SelectSparkWorker_spec p td (tick (tick w)) Hwf) as [[Emp Es]|(r & Hr & Es)];
    apply transaction_long in Es;
    change (transaction _ (tick w)) with (invoke (Procedure_new "SelectSparkWorker"
      [scalar WIRE_TYPE_INTEGER; scalar WIRE_TYPE_INTEGER]) [VInt p; VInt td] (tick w)) in Es;
    run_bind Es; rewrite (bind_done _ _ _ _ _ (first_int64_long _ _)).
  - left. split; [done|]. change (wrap32 (-1)) with (-1).
    by rewrite decide_False by (intros Hn; by apply Hn).
  - right. pose proof Hr as [[Hfree _] Hin]%list_elem_of_filter.
    rewrite (wrap32_worker_id _ r Hwf Hin). destruct (wf_row _ _ Hwf Hin) as (_ & Hid & _).
    rewrite decide_True by lia. eauto.
Qed.

Lemma polled_exists ps w k : ps <> [] -> exists p, polled ps w k = Some p.
Proof.
  intros Hps. unfold polled. apply lookup_lt_is_Some_2.
  assert (0 < Z.of_nat (length ps)) as Hlen by (destruct ps; cbn; [done|lia]).
  pose proof (Z.mod_pos_bound (wrapU 31 (rand_stream (w_tick w + 3 * k))) _ Hlen). lia.
Qed.

Lemma polled_shift ps w k : polled ps (tick (tick (tick w))) k = polled ps w (S k).
Proof. unfold polled. cbn. repeat f_equal. lia. Qed.

Lemma poll_loop_hits td ps n : forall w,
  wf_db (w_db w) -> ps <> [] ->
  (exists p, polled ps w n = Some p /\ spark_workers p td (w_db w) <> []) ->
  exists r w', poll_loop (S n) td ps w = (Done (WorkerID r), w') /\
    r ∈ Worker (w_db w) /\ DataShards r = td.
Proof.
  induction n as [|n IH]; intros w Hwf Hps (p & Hp & Hw).
  - destruct (poll_partition_run td ps p w Hwf Hps Hp) as [[Emp _]|(r & w' & Hr & E)]; [done|].
    exists r, w'. split; [cbn [poll_loop]; by run_bind E|].
    by apply list_elem_of_filter in Hr as [[_ ?] ?].
  - destruct (polled_exists ps w 0 Hps) as [q Hq].
    destruct (poll_partition_run td ps q w Hwf Hps Hq) as [[Emp E]|(r & w' & Hr & E)].
    + destruct (IH (tick (tick (tick w)))) as (r & w' & E2 & Hr); [done|done| |].
      { exists p. by rewrite polled_shift. }
      exists r, w'. split; [|done].
      change (poll_loop (S (S n)) td ps w) with
        ((c ← poll_partition td ps; match c with
          | Return z => mret z | Next _ | Break _ => poll_loop (S n) td ps end) w).
      by run_bind E.
    + exists r, w'. split; [cbn [poll_loop]; by run_bind E|].
      by apply list_elem_of_filter in Hr as [[_ ?] ?].
Qed.

Lemma poll_loop_more td ps n m : forall w z w',
  poll_loop n td ps w = (Done z, w') -> poll_loop (n + m) td ps w = (Done z, w').
Proof.
  induction n as [|n IH]; intros w z w' E; [done|]. cbn [poll_loop plus] in *.
  apply bind_inv in E as (c & w1 & Ec & E). run_bind Ec. destruct c; eauto.
Qed.

Lemma poll_loop_starves td ps fuel : forall w,
  wf_db (w_db w) -> ps <> [] ->
  (forall p, p ∈ ps -> spark_workers p td (w_db w) = []) ->
  exists w', poll_loop fuel td ps w = (OutOfFuel, w') /\ w_db w' = w_db w.
Proof.
  induction fuel as [|fuel IH]; intros w Hwf Hps Hnone; [by exists w|].
  destruct (polled_exists ps w 0 Hps) as [q Hq].
  assert (q ∈ ps) as Hin by (by eapply list_elem_of_lookup_2).
  destruct (poll_partition_run td ps q w Hwf Hps Hq) as [[Emp E]|(r & w' & Hr & _)].
  - destruct (IH (tick (tick (tick w)))) as (w' & E2 & Hd); [done..|].
    exists w'. split; [|done]. cbn [poll_loop]. by run_bind E.
  - rewrite (Hnone q Hin) in Hr. by apply not_elem_of_nil in Hr.
Qed.
End Selection.

(** ** Exactly-once processing *)

Definition drawn_id (c : client) : option Z :=
  match c with CNew _ => None | CDrawn id _ | CWait id | CDone id => Some id end.
Definition queued_id (c : client) : option Z :=
  match c with CNew _ | CDrawn _ _ => None | CWait id | CDone id => Some id end.

Lemma omap_insert {A B} (f : A -> option B) (l : list A) k x y :
  l !! k = Some x -> exists a b, omap f l = a ++ omap f [x] ++ b /\
    omap f (<[k := y]> l) = a ++ omap f [y] ++ b.
Proof.
  intros Hk. exists (omap f (take k l)), (omap f (drop (S k) l)).
  rewrite <- !omap_app. cbn [app]. rewrite take_drop_middle by done. split; [done|].
  rewrite insert_take_drop by (by eapply lookup_lt_Some). done.
Qed.

Lemma omap_same {A B} (f : A -> option B) (l : list A) k x y :
  l !! k = Some x -> f x = f y -> omap f (<[k := y]> l) = omap f l.
Proof.
  intros Hk Hf. destruct (omap_insert f l k x y Hk) as (a & b & -> & ->).
  cbn. by rewrite Hf.
Qed.

Lemma omap_new {A B} (f : A -> option B) (l : list A) k x y z :
  l !! k = Some x -> f x = None -> f y = Some z -> omap f (<[k := y]> l) ≡ₚ z :: omap f l.
Proof.
  intros Hk Hx Hy. destruct (omap_insert f l k x y Hk) as (a & b & -> & ->).
  cbn. rewrite Hx, Hy. cbn. symmetry. apply Permutation_middle.
Qed.

(** The invariant of the task ids; [first] is the value [taskIDs] had. *)
Record ids_inv (first : Z) (s : state) : Prop := {
  ii_next : taskIDs s = first + Z.of_nat (length (omap drawn_id (clients s)));
  ii_range : Forall (fun id => first <= id < taskIDs s) (omap drawn_id (clients s));
  ii_nodup : NoDup (omap drawn_id (clients s));
  ii_submitted : submitted s ≡ₚ omap queued_id (clients s);
  ii_once : submitted s ≡ₚ (taskQueue s).*1 ++ (c_taskID <$> calls s) ++ completions s;
  ii_set : taskCompletionSet s = list_to_set (completions s);
  ii_done : forall k id, clients s !! k = Some (CDone id) -> id ∈ completions s;
}.

Lemma queued_sub_drawn (l : list client) : omap queued_id l `sublist_of` omap drawn_id l.
Proof.
  induction l as [|c l IH]; cbn; [done|]. destruct c; cbn; try done.
  - by apply sublist_cons.
  - by apply sublist_skip.
  - by apply sublist_skip.
Qed.

Lemma length_omap_le {A B} (f : A -> option B) (l : list A) k x :
  l !! k = Some x -> f x = None -> (length (omap f l) < length l)%nat.
Proof.
  revert k. induction l as [|y l IH]; intros k Hk Hf; [done|]. cbn.
  assert (forall l, (length (omap f l) <= length l)%nat) as Hle.
  { clear. induction l as [|z l IH]; [done|]. cbn. destruct (f z); cbn; lia. }
  destruct k as [|k]; cbn in Hk.
  - injection Hk as ->. rewrite Hf. specialize (Hle l). cbn. lia.
  - specialize (IH k Hk Hf). destruct (f y); cbn; lia.
Qed.

Section Once.
Context `{Env} (this : SparkScheduler).
Context (first : Z) (n : nat).
Context (first_range : - 2 ^ 31 <= first) (ids_fit : first + Z.of_nat n < 2 ^ 31).

Lemma ids_inv_quiet s s' :
  ids_inv first s -> taskIDs s' = taskIDs s -> clients s' = clients s ->
  submitted s' = submitted s -> completions s' = completions s ->
  taskCompletionSet s' = taskCompletionSet s ->
  (taskQueue s').*1 ++ (c_taskID <$> calls s') ≡ₚ (taskQueue s).*1 ++ (c_taskID <$> calls s) ->
  ids_inv first s'.
Proof.
  intros [H1 H2 H3 H4 H5 H6 H7] E1 E2 E3 E4 E5 Hp.
  split; rewrite ?E1, ?E2, ?E3, ?E4, ?E5; try done.
  rewrite (assoc_L (++)), Hp. by rewrite <- (assoc_L (++)).
Qed.

Lemma ids_inv_draw s k t :
  ids_inv first s -> length (clients s) = n -> clients s !! k = Some (CNew t) ->
  ids_inv first (schedule_draw s k t).
Proof using first_range ids_fit.
  intros [H1 H2 H3 H4 H5 H6 H7] Hlen Hk.
  pose proof (length_omap_le drawn_id _ _ _ Hk eq_refl) as Hlt.
  pose proof (omap_new drawn_id _ k _ (CDrawn (taskIDs s) t) _ Hk eq_refl eq_refl) as Hp.
  assert (wrap32 (taskIDs s + 1) = taskIDs s + 1) as Ew by (apply wrap32_id; lia).
  split; cbn; rewrite ?Ew; try done.
  - rewrite Hp. cbn. lia.
  - rewrite Hp. constructor; [lia|]. eapply Forall_impl; [exact H2|]. cbn. lia.
  - rewrite Hp. constructor; [|done]. intros Hin.
    pose proof (proj1 (Forall_forall _ _) H2 _ Hin) as Hr. cbn in Hr. lia.
  - by rewrite (omap_same queued_id _ k _ (CDrawn (taskIDs s) t) Hk eq_refl).
  - intros j id Hj. destruct (decide (j = k)) as [->|Hne].
    + rewrite list_lookup_insert_eq in Hj by (by eapply lookup_lt_Some). done.
    + rewrite list_lookup_insert_ne in Hj by done. by eapply H7.
Qed.

Lemma ids_inv_push s k id t :
  ids_inv first s -> clients s !! k = Some (CDrawn id t) ->
  ids_inv first (schedule_push s k id t).
Proof.
  intros [H1 H2 H3 H4 H5 H6 H7] Hk.
  pose proof (omap_same drawn_id _ k _ (CWait id) Hk eq_refl) as Hd.
  pose proof (omap_new queued_id _ k _ (CWait id) _ Hk eq_refl eq_refl) as Hq.
  split; cbn; rewrite ?Hd; try done.
  - rewrite Hq, H4. symmetry. apply Permutation_cons_append.
  - rewrite fmap_app, H5. cbn. rewrite <- !(assoc_L (++)).
    apply Permutation_app_head. rewrite (assoc_L (++)). apply Permutation_app_comm.
  - intros j i Hj. destruct (decide (j = k)) as [->|Hne].
    + rewrite list_lookup_insert_eq in Hj by (by eapply lookup_lt_Some). done.
    + rewrite list_lookup_insert_ne in Hj by done. by eapply H7.
Qed.

Lemma ids_inv_return s k id :
  ids_inv first s -> clients s !! k = Some (CWait id) -> id ∈ taskCompletionSet s ->
  ids_inv first (schedule_return s k id).
Proof.
  intros [H1 H2 H3 H4 H5 H6 H7] Hk Hin.
  pose proof (omap_same drawn_id _ k _ (CDone id) Hk eq_refl) as Hd.
  pose proof (omap_same queued_id _ k _ (CDone id) Hk eq_refl) as Hq.
  split; cbn; rewrite ?Hd, ?Hq; try done.
  intros j i Hj. destruct (decide (j = k)) as [->|Hne].
  - rewrite list_lookup_insert_eq in Hj by (by eapply lookup_lt_Some). injection Hj as <-.
    rewrite H6 in Hin. by apply elem_of_list_to_set in Hin.
  - rewrite list_lookup_insert_ne in Hj by done. by eapply H7.
Qed.

Lemma ids_inv_notify s c before after_ :
  ids_inv first s -> calls s = before ++ c :: after_ ->
  ids_inv first (finish_notify s c before after_).
Proof.
  intros [H1 H2 H3 H4 H5 H6 H7] Ec. split; cbn; try done.
  - rewrite H5, Ec, !fmap_app, fmap_cons. apply Permutation_app_head.
    rewrite <- !(assoc_L (++)). apply Permutation_app_head. cbn.
    rewrite (assoc_L (++)). apply Permutation_cons_append.
  - rewrite H6, list_to_set_app_L. cbn. apply set_eq. intros x.
    rewrite !elem_of_union, elem_of_empty. tauto.
  - intros k id Hk. apply elem_of_app. left. by eapply H7.
Qed.

Lemma ids_inv_step s s' :
  ids_inv first s /\ length (clients s) = n -> any_step this s s' ->
  ids_inv first s' /\ length (clients s') = n.
Proof using first_range ids_fit.
  intros [Hinv Hlen] [Hs|[Hp]]; [|by split; [eapply ids_inv_quiet|]].
  destruct Hs as [k t Hk|k id t Hk _|k id Hk Hin|Hp|Hp|id t q fuel wid w Hp Hq _ _
    |Hp Hq|c before after_ Hc _|c b w Hc _].
  - split; [by apply ids_inv_draw|]. cbn. by rewrite length_insert.
  - split; [by apply ids_inv_push|]. cbn. by rewrite length_insert.
  - split; [by apply ids_inv_return|]. cbn. by rewrite length_insert.
  - split; [|done]. by eapply ids_inv_quiet.
  - split; [|done]. by eapply ids_inv_quiet.
  - split; [|done]. eapply ids_inv_quiet; try done. cbn. rewrite Hq, fmap_app. cbn.
    rewrite (assoc_L (++)). symmetry. apply Permutation_cons_append.
  - split; [|done]. by eapply ids_inv_quiet.
  - split; [|done]. by apply ids_inv_notify.
  - split; [|done]. by eapply ids_inv_quiet.
Qed.
End Once.

Lemma ids_inv_init w first tasks :
  ids_inv first (init w first tasks) /\ length (clients (init w first tasks)) = length tasks.
Proof.
  assert (forall tasks, omap drawn_id (CNew <$> tasks) = []) as Hd
    by (induction tasks0 as [|t l IH]; [done|exact IH]).
  assert (forall tasks, omap queued_id (CNew <$> tasks) = []) as Hq
    by (induction tasks0 as [|t l IH]; [done|exact IH]).
  split; [|by cbn; rewrite length_fmap]. split; cbn; rewrite ?Hd, ?Hq; try done.
  - cbn. lia.
  - constructor.
  - intros k id Hk. rewrite list_lookup_fmap in Hk. by destruct (tasks !! k).
Qed.

(** ** Capacity *)

Section Capacity.
Context `{Env} (this : SparkScheduler) (c0 : gmap wkey Z).
Context (parts_pos : 0 < workerPartitions_ this).

(** Workers are where [finishTask] looks for them, and their capacities fit. *)
Definition placed : Prop :=
  map_Forall (fun k c => k.1 = k.2 mod workerPartitions_ this /\ 0 <= k.2 /\ c < 2 ^ 31) c0.
Context (c0_placed : placed).

Definition spark_key (i : Z) : wkey := (i mod workerPartitions_ this, i).

Lemma FinishWorkerTask_spec r tid w :
  wf_db (w_db w) -> r ∈ Worker (w_db w) -> Capacity r + 1 < 2 ^ 31 ->
  exists d', FinishWorkerTask_run (WorkerID r) tid (W_PKey r) w = (Done 0, set_db d' (tick w)) /\
    Worker d' = update_where (worker_is (W_PKey r) (WorkerID r))
                  (set_Capacity (Capacity r + 1)) (Worker (w_db w)).
Proof.
  intros Hwf Hr Hlt. unfold FinishWorkerTask_run.
  query_split Emp x Hx.
  - assert (r ∈ filter (worker_is (W_PKey r) (WorkerID r)) (Worker (w_db w))) as Hin
      by (by apply list_elem_of_filter).
    rewrite Emp in Hin. by apply not_elem_of_nil in Hin.
  - apply list_elem_of_filter in Hx as [Hk%worker_is_key Hx].
    assert (x = r) as -> by (by eapply key_inj).
    destruct (wf_row _ r Hwf Hr) as (Hc & _).
    rewrite (bind_done _ _ _ _ _ (updateCapacity_ok (Capacity r + 1) _ _ _
      ltac:(unfold id_ok; lia))).
    case_decide; eexists; done.
Qed.

(** Units in use on worker [i]: answers still to come or to be recorded, and
    those that could not be given back. *)
Definition in_use (s : state) : list Z :=
  (c_workerID <$> calls s) ++ (match finishing s with Some c => [c_workerID c] | None => [] end) ++
  leaked s.
Definition used (s : state) (i : Z) : Z :=
  Z.of_nat (length (filter (fun j => j = i) (in_use s))).

Record cap_inv (s : state) : Prop := {
  ci_wf : wf_db (w_db (st_world s));
  ci_sum k : capacity (w_db (st_world s)) !! k = (fun c => c - used s k.2) <$> c0 !! k;
  ci_known : Forall (fun i => is_Some (c0 !! spark_key i)) (in_use s);
}.

Lemma cap_inv_quiet s s' :
  cap_inv s -> st_world s' = st_world s -> in_use s' ≡ₚ in_use s -> cap_inv s'.
Proof.
  intros [H1 H2 H3] Ew Hp. split; rewrite ?Ew; [done| |by rewrite Hp].
  intros k. assert (used s' k.2 = used s k.2) as -> by (unfold used; by rewrite Hp). apply H2.
Qed.

(** Every worker in the database is one of the initial ones. *)
Lemma worker_placed s r :
  cap_inv s -> r ∈ Worker (w_db (st_world s)) ->
  exists c, c0 !! key r = Some c /\ key r = spark_key (WorkerID r) /\ 0 <= WorkerID r /\
    Capacity r = c - used s (WorkerID r) /\ c < 2 ^ 31.
Proof using c0_placed.
  intros [Hwf Hsum _] Hr. specialize (Hsum (key r)). rewrite (capacity_lookup _ r) in Hsum by done.
  destruct (c0 !! key r) as [c|] eqn:Ec; [|done]. cbn in Hsum. injection Hsum as Hsum.
  destruct (c0_placed _ _ Ec) as (Hp & Hi & Hc). cbn in Hp, Hi.
  exists c. split_and!; try done. unfold key, spark_key. by rewrite Hp.
Qed.

Lemma used_more s i j l :
  in_use s ≡ₚ j :: l ->
  used s i = Z.of_nat (length (filter (fun x => x = i) l)) + (if decide (j = i) then 1 else 0).
Proof.
  intros Hp. unfold used. rewrite Hp, filter_cons. case_decide; cbn [length]; lia.
Qed.

Lemma cap_inv_assign s id t q wid w fuel :
  cap_inv s -> selectWorker fuel (targetData t) (st_world s) = (Done wid, w) -> 0 <= wid ->
  cap_inv (process_assign s id t q wid w).
Proof using c0_placed.
  intros Hinv E Hz. pose proof Hinv as [Hwf Hsum Hknown].
  destruct (selectWorker_cases _ _ _ _ _ Hwf E Hz) as (r & -> & Hr & Hpos & _ & Hd).
  clear E. assert (r ∈ free_workers (W_PKey r) (w_db (st_world s))) as Hf
    by (by apply elem_of_free_workers).
  destruct (worker_placed s r Hinv Hr) as (c & Ec & Ek & _ & Hcap & _).
  assert (in_use (process_assign s id t q (WorkerID r) w) ≡ₚ WorkerID r :: in_use s) as Hp.
  { unfold in_use. cbn. rewrite fmap_app, <- (assoc_L (++)). cbn. symmetry.
    apply Permutation_middle. }
  split; cbn.
  - rewrite Hd. by apply wf_db_acquired.
  - intros k. rewrite Hd, capacity_acquired by done.
    rewrite (used_more _ _ _ _ Hp). fold (used s k.2).
    destruct (decide (key r = k)) as [<-|Hne].
    + rewrite lookup_insert_eq, Ec. cbn. rewrite decide_True by done. f_equal. lia.
    + rewrite lookup_insert_ne, Hsum by done.
      destruct (c0 !! k) as [c'|] eqn:Ec'; [|done]. cbn. rewrite decide_False; [f_equal; lia|].
      intros Ei. apply Hne. destruct (c0_placed _ _ Ec') as (Hp' & _).
      rewrite Ek. unfold spark_key. rewrite Ei. destruct k as [kp ki]. cbn in *. by rewrite Hp'.
  - rewrite Hp. constructor; [|done]. rewrite <- Ek. by eexists.
Qed.

(** The answer of call [c] is recorded: worker [r] has its unit back. *)
Lemma cap_inv_given_back s c r w d' :
  cap_inv s -> finishing s = Some c -> r ∈ Worker (w_db (st_world s)) ->
  WorkerID r = c_workerID c -> Capacity r + 1 < 2 ^ 31 ->
  Worker d' = update_where (worker_is (W_PKey r) (WorkerID r))
                (set_Capacity (Capacity r + 1)) (Worker (w_db (st_world s))) ->
  cap_inv (finish_update s c (set_db d' w)).
Proof using c0_placed.
  intros Hinv Hfin Hr Hid Hlt HW. pose proof Hinv as [Hwf Hsum Hknown].
  destruct (worker_placed s r Hinv Hr) as (c1 & Ec & Ek & _ & Hcap & _).
  set (d1 := on_Worker (update_where (worker_is (W_PKey r) (WorkerID r))
               (set_Capacity (Capacity r + 1))) (w_db (st_world s))).
  assert (capacity d' = <[key r := Capacity r + 1]> (capacity (w_db (st_world s)))) as Hc.
  { unfold capacity at 1. rewrite HW. change (capacity d1 =
      <[key r := Capacity r + 1]> (capacity (w_db (st_world s)))). unfold d1.
    rewrite (capacity_update (fun _ => Capacity r + 1) _ _ _ (fun _ => Capacity r + 1)) by done.
    change (W_PKey r, WorkerID r) with (key r). apply map_eq. intros k.
    destruct (decide (key r = k)) as [<-|Hne].
    - by rewrite lookup_alter_eq, lookup_insert_eq, (capacity_lookup _ r).
    - by rewrite lookup_alter_ne, lookup_insert_ne. }
  assert (w_db (set_db d' w) <> w_db (st_world s)) as Hne.
  { cbn. intros E. rewrite E in Hc. pose proof (capacity_lookup _ r Hwf Hr) as Hl.
    rewrite Hc, lookup_insert_eq in Hl. injection Hl as Hl. lia. }
  assert (in_use s ≡ₚ WorkerID r :: in_use (finish_update s c (set_db d' w))) as Hp.
  { unfold in_use. rewrite Hfin. cbn. rewrite decide_False by done. rewrite Hid.
    symmetry. apply Permutation_middle. }
  split; cbn.
  - destruct (wf_db_update (W_PKey r) (WorkerID r) (fun _ => Capacity r + 1)
      (w_db (st_world s)) Hwf) as [Hn1 Hn2].
    { intros _ _ _. destruct (wf_row _ r Hwf Hr) as (Hge & _). lia. }
    by split; rewrite HW.
  - intros k. rewrite Hc. pose proof (used_more s k.2 _ _ Hp) as Hu.
    fold (used (finish_update s c (set_db d' w)) k.2) in Hu.
    destruct (decide (key r = k)) as [<-|Hk].
    + rewrite lookup_insert_eq, Ec. cbn in Hu |- *. rewrite decide_True in Hu by done.
      f_equal. lia.
    + rewrite lookup_insert_ne, Hsum by done.
      destruct (c0 !! k) as [c'|] eqn:Ec'; [|done]. cbn. rewrite decide_False in Hu; [f_equal; lia|].
      intros Ei. apply Hk. destruct (c0_placed _ _ Ec') as (Hp' & _).
      rewrite Ek. unfold spark_key. rewrite Ei. destruct k as [kp ki]. cbn in *. by rewrite Hp'.
  - rewrite Hp in Hknown. by apply Forall_cons in Hknown as [_ Hknown].
Qed.

Lemma cap_inv_update s c b w :
  cap_inv s -> finishing s = Some c ->
  finish_worker_task this (c_taskID c) (c_workerID c) (st_world s) = (Done b, w) ->
  cap_inv (finish_update s c w).
Proof using c0_placed parts_pos.
  intros Hinv Hfin E. pose proof Hinv as [Hwf Hsum Hknown].
  assert (in_use s ≡ₚ c_workerID c :: (c_workerID <$> calls s) ++ leaked s) as Hp.
  { unfold in_use. rewrite Hfin. cbn. symmetry. apply Permutation_middle. }
  rewrite Hp in Hknown. apply Forall_cons in Hknown as [[c1 Hc1] Hknown].
  pose proof (Hsum (spark_key (c_workerID c))) as Hr. rewrite Hc1 in Hr.
  apply capacity_inv in Hr as (r & Hr & Hk & Hcap). cbn in Hcap.
  assert (W_PKey r = c_workerID c mod workerPartitions_ this /\ WorkerID r = c_workerID c)
    as [Hpk Hid] by (by injection Hk).
  destruct (c0_placed _ _ Hc1) as (_ & Hge & Hlt). cbn in Hge.
  pose proof (used_more s (c_workerID c) _ _ Hp) as Hu. rewrite decide_True in Hu by done.
  assert (Capacity r + 1 < 2 ^ 31) as Hc31 by lia.
  apply bind_inv in E as (p & w1 & Ep & E). unfold int_rem in Ep.
  rewrite decide_False in Ep by lia. rewrite c_rem_mod in Ep by done. injection Ep as <- <-.
  apply bind_inv in E as (resp & w2 & Einv & E). injection E as _ <-.
  apply (transaction_cases (long_proc
    (FinishWorkerTask_run (c_workerID c) (c_taskID c) (c_workerID c mod workerPartitions_ this))))
    in Einv as [[Hd _]|(t & Et & _)].
  - (* rolled back: the unit is leaked *)
    assert (in_use (finish_update s c w2) ≡ₚ in_use s) as Hp'.
    { rewrite Hp. unfold in_use. cbn. rewrite decide_True by done.
      rewrite (assoc_L (++)). symmetry. apply Permutation_cons_append. }
    destruct Hinv as [_ _ Hknown']. split; cbn.
    + by rewrite Hd.
    + intros k. rewrite Hd.
      assert (used (finish_update s c w2) k.2 = used s k.2) as ->
        by (unfold used; by rewrite Hp').
      apply Hsum.
    + by rewrite Hp'.
  - rewrite <- Hpk, <- Hid in Et.
    destruct (FinishWorkerTask_spec r (c_taskID c) (tick (st_world s)) Hwf Hr Hc31)
      as (d' & Ef & HW).
    rewrite (long_proc_run _ _ _ _ Ef) in Et. injection Et as _ <-.
    by apply (cap_inv_given_back s c r (tick (tick (st_world s)))).
Qed.

Lemma cap_inv_step s s' : cap_inv s -> any_step this s s' -> cap_inv s'.
Proof using c0_placed parts_pos.
  intros Hinv [Hs|[Hp]]; [|by eapply cap_inv_quiet].
  destruct Hs as [k t Hk|k id t Hk _|k id Hk Hin|Hp|Hp|id t q fuel wid w Hp Hq E Hz
    |Hp Hq|c before after_ Hc Hf|c b w Hc E].
  1-5, 7: by eapply cap_inv_quiet.
  - by eapply cap_inv_assign.
  - eapply cap_inv_quiet; [done|done|]. unfold in_use. cbn. rewrite Hc, Hf, !fmap_app.
    rewrite fmap_cons, <- !(assoc_L (++)). cbn. apply Permutation_app_head.
    symmetry. apply Permutation_middle.
  - by eapply cap_inv_update.
Qed.
End Capacity.

Lemma cap_inv_init w first tasks this :
  wf_db (w_db w) -> cap_inv this (capacity (w_db w)) (init w first tasks).
Proof.
  intros Hwf. split; [done| |constructor]. intros k. cbn.
  destruct (capacity (w_db w) !! k); cbn; [f_equal; unfold used; cbn; lia|done].
Qed.

(** ** The partitions of a shard *)

Section Target.
Context `{Env, !Reliable}.

Definition shards_fit (d : db) : Prop := Forall (fun r => in_signed 32 (D_PKey r)) (DataLocation d).

Lemma partition_numbers_rows ps :
  Forall (in_signed 32) ps -> partition_numbers ((fun p => [VInt p]) <$> ps) = Some ps.
Proof.
  induction 1 as [|p ps Hp _ IH]; [done|]. cbn in *. rewrite IH. by rewrite wrapS_id.
Qed.

Lemma target_partitions_run td w :
  shards_fit (w_db w) ->
  exists ps n, target_partitions td w = (Done ps, Nat.iter n tick w) /\
    ps ≡ₚ shard_partitions td (w_db w).
Proof.
  intros Hfit. set (all := shard_partitions td (w_db w)).
  destruct (pick_rows_spec (length all) all (tick w)) as (ps & rest & n & Ep & Hlen & Hp).
  assert (rest = []) as ->.
  { rewrite Nat.min_id in Hlen. apply Permutation_length in Hp. rewrite length_app in Hp.
    destruct rest; [done|cbn in Hp; lia]. }
  rewrite app_nil_r in Hp. exists ps, (S n). split; [|done].
  assert (SelectDataShardPartition_run td (tick w) =
    (Done ((fun p => [VInt p]) <$> ps), set_db (w_db w) (Nat.iter n tick (tick w)))) as Es.
  { unfold SelectDataShardPartition_run. rewrite bind_read.
    change (shard_partitions td (w_db (tick w))) with all. by run_bind Ep. }
  apply transaction_committed in Es.
  change (transaction _ w) with (invoke (Procedure_new "SelectDataShardPartition"
    [scalar WIRE_TYPE_INTEGER]) [VInt td] w) in Es.
  unfold target_partitions. run_bind Es. cbn [first_table].
  rewrite (bind_done _ _ _ _ _ (ret_eq _ _)). rewrite partition_numbers_rows.
  - unfold mret, M_ret. f_equal. rewrite Nat.iter_succ_r.
    rewrite <- (w_db_iter_tick n (tick w)) at 1. by destruct (Nat.iter n tick (tick w)).
  - rewrite <- Hp. unfold all, shard_partitions. apply Forall_forall.
    intros p (r & -> & [_ Hr]%list_elem_of_filter)%elem_of_remove_dups%list_elem_of_fmap.
    by apply (proj1 (Forall_forall _ _) Hfit).
Qed.
End Target.

(** ** Properties *)

(** C19: however clients, the processing thread and the completion thread
    interleave, and whatever happens to the transactions, a worker is never
    given more tasks than its capacity: its capacity in the database is what it
    started with minus the calls under way (and the units leaked by rolled-back
    [FinishWorkerTask] transactions). *)
Theorem spark_never_overcommits `{Env} this w first tasks s :
  0 < workerPartitions_ this -> wf_db (w_db w) -> placed this (capacity (w_db w)) ->
  rtc (any_step this) (init w first tasks) s ->
  forall i c, capacity (w_db w) !! spark_key this i = Some c ->
    capacity (w_db (st_world s)) !! spark_key this i = Some (c - used s i) /\ used s i <= c.
Proof.
  intros HP Hwf Hpl Hsteps i c Hc.
  assert (cap_inv this (capacity (w_db w)) s) as [Hwf' Hsum _].
  { pose proof (cap_inv_init w first tasks this Hwf) as Hinv.
    induction Hsteps; eauto using cap_inv_step. }
  pose proof (Hsum (spark_key this i)) as Hi. rewrite Hc in Hi. cbn in Hi. split; [done|].
  apply capacity_inv in Hi as (r & Hr & _ & E). destruct (wf_row _ r Hwf' Hr). lia.
Qed.

(** C23: every task whose id was queued is in exactly one place, the queue, a
    call, or the completed ones; ids are never shared; and a call of [schedule]
    that returned did so after the call of its own task had completed. *)
Theorem spark_each_task_once `{Env} this w first tasks s :
  - 2 ^ 31 <= first -> first + Z.of_nat (length tasks) < 2 ^ 31 ->
  rtc (any_step this) (init w first tasks) s ->
  NoDup ((taskQueue s).*1 ++ (c_taskID <$> calls s) ++ completions s) /\
  submitted s ≡ₚ (taskQueue s).*1 ++ (c_taskID <$> calls s) ++ completions s /\
  NoDup (omap drawn_id (clients s)) /\
  forall k id, clients s !! k = Some (CDone id) -> id ∈ completions s.
Proof.
  intros Hlo Hhi Hsteps.
  assert (ids_inv first s /\ length (clients s) = length tasks) as [[_ _ Hnd Hsub Honce _ Hdone] _].
  { pose proof (ids_inv_init w first tasks) as Hinv.
    induction Hsteps; [done|]. apply IHHsteps. by eapply ids_inv_step. }
  split_and!; [|done..]. rewrite <- Honce, Hsub.
  eapply sublist_NoDup; [exact Hnd|apply queued_sub_drawn].
Qed.

(** C34: a client that queues its task before the processing thread waits for
    the first time is not heard: its notification is lost, and without another
    client (or a spurious wake-up) nothing ever happens again. *)
Theorem spark_lost_wakeup `{Env} this w first t :
  exists s, rtc (step this) (init w first [t]) s /\
    clients s = [CWait first] /\ taskQueue s = [(first, t)] /\
    forall s', ~ step this s s'.
Proof.
  set (s0 := init w first [t]).
  set (s1 := schedule_draw s0 0 t). set (s2 := schedule_push s1 0 first t).
  exists (process_wait s2). split_and!; [|done|done|].
  - eapply rtc_l; [by apply (step_draw _ s0 0 t)|].
    eapply rtc_l; [by apply (step_push _ s1 0 first t)|].
    apply rtc_once. by apply (step_process_start _ s2).
  - intros s' Hs. inversion Hs as [k t' Hk|k id t' Hk _|k id Hk Hin|Hp|Hp|id t' q fuel wid w' Hp
      |Hp|c before after_ Hc|c b w' Hc]; try done.
    + by destruct k as [|[|k]].
    + by destruct k as [|[|k]].
    + cbn in Hc. by destruct before.
Qed.

(** C35: [selectWorker] polls random partitions that hold the data until one has
    a free worker with it.  It returns at the poll at which [rand()] first
    draws such a partition at the latest, and never returns while there is none. *)
Theorem spark_polling_terminates `{Env, !Reliable} td w :
  wf_db (w_db w) -> shards_fit (w_db w) -> shard_partitions td (w_db w) <> [] ->
  exists ps w1, target_partitions td w = (Done ps, w1) /\
    ps ≡ₚ shard_partitions td (w_db w) /\
    (forall n p, polled ps w1 n = Some p -> spark_workers p td (w_db w) <> [] ->
       exists r w', r ∈ Worker (w_db w) /\ DataShards r = td /\
         forall fuel, (n < fuel)%nat -> selectWorker fuel td w = (Done (WorkerID r), w')) /\
    ((forall p, p ∈ shard_partitions td (w_db w) -> spark_workers p td (w_db w) = []) ->
       forall fuel, exists w', selectWorker fuel td w = (OutOfFuel, w') /\ w_db w' = w_db w).
Proof.
  intros Hwf Hfit Hne. destruct (target_partitions_run td w Hfit) as (ps & m & E & Hp).
  exists ps, (Nat.iter m tick w). split_and!; [done|done| |].
  all: assert (ps <> []) as Hps by (intros ->; by apply Permutation_nil_l in Hp).
  all: pose proof (w_db_iter_tick m w) as Hd.
  - intros n p Hpoll Hfree.
    destruct (poll_loop_hits td ps n (Nat.iter m tick w)) as (r & w' & El & Hr & Hs);
      [by rewrite Hd|done|exists p; by rewrite Hd|].
    rewrite Hd in Hr. exists r, w'. split_and!; [done|done|]. intros fuel Hfuel.
    unfold selectWorker. run_bind E. replace fuel with (S n + (fuel - S n))%nat by lia.
    by apply poll_loop_more.
  - intros Hnone fuel.
    destruct (poll_loop_starves td ps fuel (Nat.iter m tick w)) as (w' & El & Hd');
      [by rewrite Hd|done|intros p; rewrite Hp, Hd; apply Hnone|].
    exists w'. split; [|by rewrite Hd', Hd]. unfold selectWorker. by run_bind E.
Qed.

(** For data that no worker holds, [rand() % targetPartitions.size()] is a
    division by zero, in the thread that holds the queue's lock. *)
Theorem spark_unknown_data_traps `{Env, !Reliable} td w fuel :
  shards_fit (w_db w) -> shard_partitions td (w_db w) = [] ->
  exists w', selectWorker (S fuel) td w = (Trap DivisionByZero, w').
Proof.
  intros Hfit Hnone. destruct (target_partitions_run td w Hfit) as (ps & m & E & Hp).
  rewrite Hnone in Hp. apply Permutation_nil_r in Hp as ->.
  eexists. unfold selectWorker. run_bind E. reflexivity.
Qed.

(** ** Examples *)

(** Worker 4 lives in partition 4 mod 3 and holds shard 9. *)
Definition spark_demo : SparkScheduler :=
  {| workerPartitions_ := 3; workerCapacity_ := 2; numWorkers_ := 1 |}.
Definition spark_demo_db : db :=
  Db [WorkerRow 4 2 9 1 ""] [] [DataRow 9 1] [] [] [].
Definition spark_demo_world : world := init_world spark_demo_db.

Lemma spark_demo_wf : wf_db spark_demo_db.
Proof. split; [apply NoDup_singleton|]. repeat constructor; by vm_compute. Qed.

Lemma spark_demo_placed : placed spark_demo (capacity spark_demo_db).
Proof.
  intros k c (r & Hr & <- & <-)%capacity_inv. cbn in Hr.
  apply list_elem_of_singleton in Hr as ->. by vm_compute.
Qed.

Lemma spark_demo_shards : shards_fit spark_demo_db.
Proof. repeat constructor; by vm_compute. Qed.

(** One client's task is queued and given to worker 4. *)
Definition spark_demo_state : state :=
  State_ (World (Db [WorkerRow 4 1 9 1 ""] [] [DataRow 9 1] [] [] []) 5 [] 0 0 0)
    8 [] PHolding [Call 7 4 {| targetdata := 9; exectime := 10 |}] None ∅ true [CWait 7] [7] [] [].

Lemma spark_demo_select :
  @selectWorker (steady Z.of_nat) 1 9 spark_demo_world = (Done 4, st_world spark_demo_state).
Proof. vm_compute. reflexivity. Qed.

Lemma spark_demo_run :
  rtc (@any_step (steady Z.of_nat) spark_demo)
    (init spark_demo_world 7 [Task_ 9 10]) spark_demo_state.
Proof.
  eapply rtc_l; [left; by eapply (step_process_start)|].
  eapply rtc_l; [left; by apply (step_draw _ _ 0)|].
  eapply rtc_l; [left; by apply (step_push _ _ 0 7)|].
  eapply rtc_l; [left; by apply step_process_wake|].
  eapply rtc_l; [left; apply (step_process_assign _ _ 7 (Task_ 9 10) [] 1 4);
                 [reflexivity|reflexivity|exact spark_demo_select|done]|].
  reflexivity.
Qed.

Lemma spark_never_overcommits_witness :
  rtc (@any_step (steady Z.of_nat) spark_demo)
    (init spark_demo_world 7 [Task_ 9 10]) spark_demo_state /\
  used spark_demo_state 4 <= 2.
Proof.
  split; [exact spark_demo_run|].
  apply (spark_never_overcommits (H := steady Z.of_nat) spark_demo spark_demo_world 7
    [Task_ 9 10] spark_demo_state ltac:(done) spark_demo_wf spark_demo_placed
    spark_demo_run 4 2 eq_refl).
Defined.

Lemma spark_each_task_once_witness :
  rtc (@any_step (steady Z.of_nat) spark_demo)
    (init spark_demo_world 7 [Task_ 9 10]) spark_demo_state /\
  submitted spark_demo_state ≡ₚ [7].
Proof.
  split; [exact spark_demo_run|].
  apply (spark_each_task_once (H := steady Z.of_nat) spark_demo spark_demo_world 7
    [Task_ 9 10] spark_demo_state ltac:(lia) ltac:(cbn; lia) spark_demo_run).
Defined.

Lemma spark_polling_terminates_witness :
  let E := steady Z.of_nat in
  shard_partitions 9 spark_demo_db <> [] /\
  exists ps w1, target_partitions 9 spark_demo_world = (Done ps, w1).
Proof.
  assert (shard_partitions 9 spark_demo_db <> []) as Hne by (by vm_compute).
  split; [exact Hne|].
  destruct (spark_polling_terminates (H := steady Z.of_nat) 9 spark_demo_world
    spark_demo_wf spark_demo_shards Hne) as (ps & w1 & E & _).
  exists ps, w1. exact E.
Defined.

Lemma spark_unknown_data_traps_witness :
  let E := steady Z.of_nat in
  exists w', selectWorker 1 5 spark_demo_world = (Trap DivisionByZero, w').
Proof.
  apply (spark_unknown_data_traps (H := steady Z.of_nat) 5 spark_demo_world 0
    spark_demo_shards). reflexivity.
Defined.
