(* ===== verification/SparkSetup.v ===== *)
(** * The database a Spark-like scheduler sets up

    [SparkScheduler::setup] ([src/libs/lib_scheduler/SparkScheduler.cc]) starts a
    worker for every number below [numWorkers_]; worker [i] registers itself for
    the data [i] in its partition.  What the tables hold afterwards, and what a
    selection finds there. *)

From S2P Require Import SparkScheduler WorkerManager.
From S2P Require Import Prelude Probing Tables World Procs Pool Client SchedulerUtil Select Setup.
#[local] Open Scope Z_scope.

(** ** Inserting one row after the other *)

Lemma insert_loop_iter (f : Z -> M world bool) (g : nat -> db -> db) m : forall i w,
  (forall j w, (i <= j < i + m)%nat -> f (Z.of_nat j) w = (Done true, set_db (g j (w_db w)) (tick w))) ->
  for_loop (R := bool) m (Z.of_nat i) tt (fun i _ =>
    ret ← f i;
    if (negb ret : bool) then mret (Return false) else mret (Next tt)) w =
  (Done (Next tt), set_db (foldl (fun d j => g j d) (w_db w) (seq i m)) (Nat.iter m tick w)).
Proof.
  induction m as [|m IH]; intros i w Hf; [by destruct w|].
  cbn [for_loop]. set (w1 := set_db (g i (w_db w)) (tick w)).
  assert ((ret ← f (Z.of_nat i);
    if (negb ret : bool) then mret (Return false) else mret (Next tt)) w
    = (Done (Next tt : ctl unit bool), w1)) as E1.
  { by rewrite (bind_done _ _ _ _ _ (Hf i w ltac:(lia))). }
  rewrite (bind_done _ _ _ _ _ E1). replace (Z.of_nat i + 1) with (Z.of_nat (S i)) by lia.
  rewrite IH by (intros; apply Hf; lia). f_equal. unfold w1.
  by rewrite iter_tick_set_db, set_db_set_db, Nat.iter_succ_r.
Qed.

Lemma insert_all_iter (f : Z -> M world bool) (g : nat -> db -> db) n w :
  0 <= n ->
  (forall j w, (j < Z.to_nat n)%nat -> f (Z.of_nat j) w = (Done true, set_db (g j (w_db w)) (tick w))) ->
  insert_all n f w =
  (Done (Next tt), set_db (foldl (fun d j => g j d) (w_db w) (seq 0 (Z.to_nat n)))
     (Nat.iter (Z.to_nat n) tick w)).
Proof.
  intros Hn Hf. apply (insert_loop_iter f g (Z.to_nat n) 0 w). intros j w' Hj. apply Hf. lia.
Qed.

(** ** The rows *)

Section Rows.
Context (P cap : Z).

Definition spark_row (i : nat) : worker_row :=
  WorkerRow (Z.of_nat i) cap (Z.of_nat i) (Z.of_nat i mod P) "".
Definition shard_row (i : nat) : data_row := DataRow (Z.of_nat i) (Z.of_nat i mod P).

Definition register (i : nat) (d : db) : db :=
  on_DataLocation (fun l => l ++ [shard_row i]) (on_Worker (fun l => l ++ [spark_row i]) d).

(** [n] workers are registered and nothing else. *)
Definition spark_fresh (n : nat) (d : db) : Prop :=
  Worker d = spark_row <$> seq 0 n /\ DataLocation d = shard_row <$> seq 0 n.

Lemma registered n d :
  let d' := foldl (fun d j => register j d) d (seq 0 n) in
  Worker d' = Worker d ++ (spark_row <$> seq 0 n) /\
  DataLocation d' = DataLocation d ++ (shard_row <$> seq 0 n).
Proof.
  cbn zeta. generalize 0%nat as i. revert d. induction n as [|n IH]; intros d i; cbn.
  - by rewrite !app_nil_r.
  - destruct (IH (register i d) (S i)) as [-> ->]. cbn. by rewrite <- !app_assoc.
Qed.
End Rows.

(** The one element of a list of different ones. *)
Lemma filter_one {A} (Q : A -> Prop) `{!forall x, Decision (Q x)} (f : nat -> A) i m :
  (i < m)%nat -> (forall j, Q (f j) <-> j = i) -> filter Q (f <$> seq 0 m) = [f i].
Proof.
  intros Hi HQ. enough (forall s, filter Q (f <$> seq s m) =
    if decide (s <= i < s + m)%nat then [f i] else []) as -> by (rewrite decide_True; [done|lia]).
  clear Hi. induction m as [|m IH]; intros s; [by rewrite decide_False by lia|].
  cbn [seq fmap list_fmap]. rewrite filter_cons, IH. destruct (decide (Q (f s))) as [E|E]; rewrite HQ in E.
  - subst. by rewrite decide_False, decide_True by lia.
  - destruct (decide (S s <= i < S s + m)%nat); [by rewrite decide_True by lia|].
    by rewrite decide_False by lia.
Qed.

(** ** Setting up *)

Section Setup.
Context `{Env, !Reliable}.
Context (this : SparkScheduler).
Let P := SparkScheduler.workerPartitions_ this.
Let cap := SparkScheduler.workerCapacity_ this.
Let n := SparkScheduler.numWorkers_ this.
Context (P_range : 0 < P < 2147483648) (cap_range : 0 <= cap < 2147483648).
Context (n_range : 0 <= n < 2147483648).

Lemma InsertSparkWorker_ok i c s p u w :
  id_ok i -> id_ok c -> id_ok s -> id_ok p ->
  InsertSparkWorker_run i c s p u w =
  (Done 0, set_db (on_DataLocation (fun l => l ++ [DataRow s p])
                     (on_Worker (fun l => l ++ [WorkerRow i c s p u]) (w_db w))) w).
Proof.
  intros Hi Hc Hs Hp. unfold InsertSparkWorker_run.
  by rewrite (bind_done _ _ _ _ _ (int_col_ok i w Hi)), (bind_done _ _ _ _ _ (int_col_ok c w Hc)),
    (bind_done _ _ _ _ _ (int_col_ok s w Hs)), (bind_done _ _ _ _ _ (int_col_ok p w Hp)).
Qed.

Lemma insertWorker_registers j w : (j < Z.to_nat n)%nat ->
  SparkScheduler.insertWorker this (Z.of_nat j) cap [Z.of_nat j] w =
  (Done (Some (worker_addr (Z.of_nat j))), set_db (register P cap j (w_db w)) (tick w)).
Proof.
  intros Hj. unfold SparkScheduler.insertWorker, startServing, MockGRPCWorker_new. cbn [g_manager workerData_ workerId_
    WorkerManager_new WorkerManager.workerPartitions_ capacity_].
  fold P. rewrite (bind_done _ _ _ _ _ (int_rem_ok (Z.of_nat j) P w ltac:(lia) ltac:(lia))).
  pose proof (Z.mod_pos_bound (Z.of_nat j) P ltac:(lia)).
  pose proof (transaction_long _ w 0 _
    (InsertSparkWorker_ok (Z.of_nat j) cap (Z.of_nat j) (Z.of_nat j mod P) "" (tick w)
       ltac:(unfold id_ok; lia) ltac:(unfold id_ok; lia) ltac:(unfold id_ok; lia) ltac:(unfold id_ok; lia))) as E.
  change (transaction _ w) with (invoke (Procedure_new "InsertSparkWorker"
      [scalar WIRE_TYPE_INTEGER; scalar WIRE_TYPE_INTEGER; scalar WIRE_TYPE_INTEGER;
       scalar WIRE_TYPE_INTEGER; scalar WIRE_TYPE_STRING])
    [VInt (Z.of_nat j); VInt cap; VInt (Z.of_nat j); VInt (Z.of_nat j mod P); VStr ""] w) in E.
  by run_bind E.
Qed.

Lemma spark_setup_run w :
  exists w', setup this w = (Done true, w') /\ spark_fresh P cap (Z.to_nat n) (w_db w').
Proof.
  unfold setup, SparkScheduler.truncateWorkerTable.
  rewrite (bind_done _ _ _ _ _ (truncateWorkerTable_ok w)). fold n cap.
  set (w1 := set_db _ _). eexists. split.
  - erewrite bind_done; [|apply (insert_all_iter _ (register P cap)); [lia|]].
    + reflexivity.
    + intros j w2 Hj. by rewrite (bind_done _ _ _ _ _ (insertWorker_registers j w2 Hj)).
  - destruct (registered P cap (Z.to_nat n) (w_db w1)) as [E1 E2].
    split; cbn [w_db set_db]; [rewrite E1|rewrite E2]; done.
Qed.

(** ** What a selection finds *)

Context (d : db) (fresh : spark_fresh P cap (Z.to_nat n) d).

Lemma spark_fresh_wf : wf_db d.
Proof using All.
  destruct fresh as [E _]. split; rewrite E.
  - rewrite <- list_fmap_compose. apply NoDup_fmap_2_strong; [|apply NoDup_seq].
    intros i j _ _ [= _ Hij]. lia.
  - apply Forall_fmap, Forall_forall. intros i Hi%elem_of_seq. unfold wf_worker, compose. cbn.
    pose proof (Z.mod_pos_bound (Z.of_nat i) P ltac:(lia)). lia.
Qed.

Lemma spark_fresh_shards : shards_fit d.
Proof using All.
  destruct fresh as [_ E]. unfold shards_fit. rewrite E. apply Forall_fmap, Forall_forall.
  intros i Hi%elem_of_seq. unfold compose, in_signed. cbn.
  pose proof (Z.mod_pos_bound (Z.of_nat i) P ltac:(lia)). lia.
Qed.

Lemma spark_fresh_partitions i : (i < Z.to_nat n)%nat ->
  shard_partitions (Z.of_nat i) d = [Z.of_nat i mod P].
Proof using All.
  intros Hi. destruct fresh as [_ E]. unfold shard_partitions. rewrite E.
  by rewrite (filter_one _ _ i) by (lia || (intros j; cbn; lia)).
Qed.

Lemma spark_fresh_workers i : (i < Z.to_nat n)%nat -> 0 < cap ->
  spark_workers (Z.of_nat i mod P) (Z.of_nat i) d = [spark_row P cap i].
Proof using All.
  intros Hi Hc. destruct fresh as [E _]. unfold spark_workers. rewrite E.
  apply filter_one; [lia|]. intros j. unfold free_worker. cbn. split; [lia|]. by intros ->.
Qed.

(** A task for the data of a worker is given to this worker by the first poll. *)
Lemma spark_fresh_selects i w fuel : w_db w = d -> (i < Z.to_nat n)%nat -> 0 < cap -> (0 < fuel)%nat ->
  exists w', selectWorker fuel (Z.of_nat i) w = (Done (Z.of_nat i), w').
Proof using All.
  intros Hd Hi Hc Hf. pose proof spark_fresh_wf as Hwf.
  destruct (target_partitions_run (Z.of_nat i) w) as (ps & m & E & Hp); [rewrite Hd; exact spark_fresh_shards|].
  rewrite Hd, (spark_fresh_partitions i Hi) in Hp. apply Permutation_singleton_r in Hp as ->.
  set (w1 := Nat.iter m tick w) in *. assert (w_db w1 = d) as Hd1 by (unfold w1; by rewrite w_db_iter_tick).
  destruct (poll_loop_hits (Z.of_nat i) [Z.of_nat i mod P] 0 w1) as (r & w' & El & Hr & Hs).
  - by rewrite Hd1.
  - done.
  - exists (Z.of_nat i mod P). split.
    + unfold polled. cbn [length]. rewrite Z.mod_1_r. done.
    + by rewrite Hd1, (spark_fresh_workers i Hi Hc).
  - rewrite Hd1 in Hr. destruct fresh as [Ew _]. rewrite Ew in Hr.
    apply list_elem_of_fmap in Hr as (j & -> & _). cbn in Hs. apply Nat2Z.inj in Hs as ->.
    exists w'. unfold selectWorker. run_bind E. replace fuel with (1 + (fuel - 1))%nat by lia.
    by apply poll_loop_more.
Qed.
End Setup.

(** Data that nobody registered for. *)
Lemma no_data_traps `{Env, !Reliable} td w fuel :
  DataLocation (w_db w) = [] -> (0 < fuel)%nat ->
  exists w', selectWorker fuel td w = (Trap DivisionByZero, w').
Proof.
  intros Hd Hf. destruct (target_partitions_run td w) as (ps & m & E & Hp).
  { unfold shards_fit. rewrite Hd. by apply Forall_nil. }
  unfold shard_partitions in Hp. rewrite Hd in Hp. apply Permutation_nil_r in Hp as ->.
  destruct fuel as [|fuel]; [lia|]. eexists. unfold selectWorker. run_bind E. reflexivity.
Qed.
