(* ===== verification/SparkShutdown.v ===== *)
(** * The end of a SparkScheduler

    The destructor of [src/libs/lib_scheduler/SparkScheduler.h], with the two
    threads of SparkScheduler.v still running: the completion queue is shut down,
    the queue thread is told to stop and notified, both are joined. *)

From S2P Require Import SparkScheduler.
From S2P Require Import Prelude Tables World Procs Client Frame SchedulerUtil.
#[local] Open Scope Z_scope.

(** The statements of the destructor that were executed. *)
Inductive destructor := DBefore | DClosed | DStopped | DNotified | DJoined | DDone.

Record closing := Closing {
  sched : state;
  at_ : destructor;
  finisher_returned : bool;        (* [finishRequests] has left its loop *)
}.

Section Steps.
Context `{Env} (this : SparkScheduler).

Definition with_flag (b : bool) (p : processor) (s : state) : state :=
  State_ (st_world s) (taskIDs s) (taskQueue s) p (calls s) (finishing s)
    (taskCompletionSet s) b (clients s) (submitted s) (completions s) (leaked s).

(** [taskProcessCV.notify_one()]. *)
Definition notified (p : processor) : processor := match p with PWaiting => PNotified | p => p end.

Inductive closing_step (c : closing) : closing -> Prop :=
  (** The threads go on. *)
  | close_sched s' : step this (sched c) s' ->
      closing_step c (Closing s' (at_ c) (finisher_returned c))
  (** [cq_.Shutdown()]. *)
  | close_queue : at_ c = DBefore -> closing_step c (Closing (sched c) DClosed (finisher_returned c))
  (** [runTaskQueueThread = false]. *)
  | close_stop : at_ c = DClosed ->
      closing_step c (Closing (with_flag false (proc (sched c)) (sched c)) DStopped (finisher_returned c))
  (** The critical section: the lock is free and the queue thread is notified. *)
  | close_notify : at_ c = DStopped -> proc (sched c) <> PHolding ->
      closing_step c (Closing (with_flag (runTaskQueueThread (sched c)) (notified (proc (sched c))) (sched c))
                        DNotified (finisher_returned c))
  | close_join : at_ c = DNotified -> proc (sched c) = PReturned ->
      closing_step c (Closing (sched c) DJoined (finisher_returned c))
  | close_join_finisher : at_ c = DJoined -> finisher_returned c = true ->
      closing_step c (Closing (sched c) DDone (finisher_returned c))
  (** [cq_.Next] returns [false]: shut down and nothing left. *)
  | close_finisher : at_ c <> DBefore -> calls (sched c) = [] -> finishing (sched c) = None ->
      finisher_returned c = false -> closing_step c (Closing (sched c) (at_ c) true).

(** Nobody is inside of [schedule] and no task is left; the last one may not be
    recorded yet. *)
Record quiet (s : state) : Prop := {
  quiet_clients : Forall (fun c => exists id, c = CDone id) (clients s);
  quiet_queue : taskQueue s = [];
  quiet_calls : calls s = [];
}.

(** The destructor has passed the statement. *)
Definition passed (d : destructor) : nat :=
  match d with DBefore => 0 | DClosed => 1 | DStopped => 2 | DNotified => 3 | DJoined => 4 | DDone => 5 end.

Record closing_ok (c : closing) : Prop := {
  cl_quiet : quiet (sched c);
  cl_flag : runTaskQueueThread (sched c) = true <-> (passed (at_ c) < 2)%nat;
  cl_returned : proc (sched c) = PReturned -> runTaskQueueThread (sched c) = false;
  cl_notified : (3 <= passed (at_ c))%nat -> proc (sched c) <> PWaiting;
  cl_joined : (4 <= passed (at_ c))%nat -> proc (sched c) = PReturned;
  cl_done : at_ c = DDone -> finisher_returned c = true;
  cl_finisher : finisher_returned c = true -> finishing (sched c) = None;
}.

(** What the threads still do. *)
Lemma quiet_step s s' : quiet s -> step this s s' ->
  (exists p, s' = process_goto s p /\
     ((proc s = PStart \/ proc s = PHolding) /\ p = (if runTaskQueueThread s then PWaiting else PReturned) \/
      proc s = PNotified /\ p = PHolding)) \/
  (exists c w, finishing s = Some c /\ s' = finish_update s c w).
Proof.
  intros [Hc Hq Hcl] Hs.
  destruct Hs as [k t E|k id t E Hp|k id E Hin|E|E|id t q fuel wid w E Eq Es Hw|E Eq|c b a E En|c b w E Ew].
  - eapply Forall_lookup_1 in Hc; [|exact E]. by destruct Hc.
  - eapply Forall_lookup_1 in Hc; [|exact E]. by destruct Hc.
  - eapply Forall_lookup_1 in Hc; [|exact E]. by destruct Hc.
  - left. eexists. split; [done|]. left. split; [by left|done].
  - left. eexists. split; [done|]. by right.
  - congruence.
  - left. eexists. split; [done|]. left. split; [by right|done].
  - rewrite Hcl in E. by destruct b.
  - right. by exists c, w.
Qed.

(** The steps that are left. *)
Definition closing_left (c : closing) : nat :=
  match at_ c with DBefore => 7 | DClosed => 6 | DStopped => 5 | DNotified => 2 | DJoined => 1 | DDone => 0 end +
  match proc (sched c) with PStart => 1 | PNotified => 2 | PHolding => 1 | PWaiting | PReturned => 0 end +
  (if finisher_returned c then 0 else 1) + (if finishing (sched c) is Some _ then 1 else 0).

Lemma closing_ok_step c c' : closing_step c c' -> closing_ok c ->
  closing_ok c' /\ (closing_left c' < closing_left c)%nat.
Proof.
  intros Hs [Hq Hf Hr Hn Hj Hd Hfi].
  destruct Hs as [s' Hs|E|E|E Ep|E Ep|E Ef|E Ecl Efi Ef]; unfold closing_left; cbn [sched at_ finisher_returned].
  - destruct (quiet_step _ _ Hq Hs) as [(p & -> & Hp)|(cl & w & Efi & ->)].
    + assert (p = PReturned -> runTaskQueueThread (sched c) = false) as Hpr.
      { destruct Hp as [[_ ->]|[_ ->]]; [by destruct (runTaskQueueThread (sched c))|done]. }
      assert (runTaskQueueThread (sched c) = false -> p <> PWaiting) as Hpw.
      { intros E. rewrite E in Hp. destruct Hp as [[_ ->]|[_ ->]]; done. }
      assert ((2 <= passed (at_ c))%nat -> runTaskQueueThread (sched c) = false) as Hst.
      { intros Hle. destruct (runTaskQueueThread (sched c)); [|done]. destruct Hf as [Hf _]. specialize (Hf eq_refl). lia. }
      split.
      * destruct Hq as [Q1 Q2 Q3]. split; cbn [sched at_ finisher_returned process_goto proc runTaskQueueThread finishing];
          [by split|done|done| | |done|done].
        -- intros Hle. apply Hpw, Hst. lia.
        -- intros Hle. specialize (Hj Hle). destruct Hp as [[[E|E] _]|[E _]]; congruence.
      * cbn. destruct Hp as [[[-> | ->] ->]|[-> ->]]; try (destruct (runTaskQueueThread (sched c))); lia.
    + split.
      * destruct Hq as [Q1 Q2 Q3]. split; cbn; [by split|done..].
      * cbn. rewrite Efi. lia.
  - split; [|cbn; rewrite E; lia]. split; cbn [sched at_ finisher_returned passed]; try done; try lia.
    rewrite E in Hf. cbn in Hf. rewrite Hf. lia.
  - split; [|cbn; rewrite E; lia]. destruct Hq as [Q1 Q2 Q3].
    split; cbn; try done; try lia.
  - split; [|cbn; rewrite E; destruct (proc (sched c)); cbn; lia]. destruct Hq as [Q1 Q2 Q3].
    assert (runTaskQueueThread (sched c) = false) as Hfl.
    { destruct (runTaskQueueThread (sched c)); [|done]. rewrite E in Hf. destruct Hf as [Hf _]. specialize (Hf eq_refl). cbn in Hf. lia. }
    split; cbn; try done; try lia.
    + rewrite Hfl. split; [done|lia].
    + intros _. by destruct (proc (sched c)).
  - split; [|cbn; rewrite E; lia]. rewrite E in Hf, Hn. split; cbn in *; try done; try lia.
    + split; [intros H1; apply Hf in H1; lia|lia].
    + intros _. apply Hn. lia.
  - split; [|cbn; rewrite E; lia]. rewrite E in Hf, Hn, Hj. split; cbn in *; try done; try lia.
    + split; [intros H1; apply Hf in H1; lia|lia].
    + intros _. apply Hn. lia.
    + intros _. apply Hj. lia.
  - split; [|rewrite Ef; lia]. split; cbn; done.
Qed.

Lemma finish_total taskId workerId w : workerPartitions_ this <> 0 ->
  exists b w', finish_worker_task this taskId workerId w = (Done b, w').
Proof.
  intros Hp. unfold finish_worker_task, int_rem. rewrite decide_False by done.
  set (k := c_rem _ _). rewrite (bind_done (mret k) _ _ _ _ eq_refl).
  destruct (transaction_answers (long_proc (FinishWorkerTask_run workerId taskId k)) w) as (r & w' & E).
  change (transaction _ w) with (invoke (Procedure_new "FinishWorkerTask"
    [scalar WIRE_TYPE_INTEGER; scalar WIRE_TYPE_INTEGER; scalar WIRE_TYPE_INTEGER])
    [VInt workerId; VInt taskId; VInt k] w) in E.
  exists (succeeded r), w'. by run_bind E.
Qed.

Lemma closing_moves c : workerPartitions_ this <> 0 -> closing_ok c -> at_ c <> DDone ->
  exists c', closing_step c c'.
Proof.
  intros Hp [[Q1 Q2 Q3] Hf Hr Hn Hj Hd Hfi] Hnd. destruct (at_ c) eqn:E; try done.
  - eexists. by apply close_queue.
  - eexists. by apply close_stop.
  - destruct (proc (sched c)) eqn:Ep; try (eexists; apply close_notify; [done|congruence]).
    eexists. apply close_sched. by apply step_process_empty.
  - destruct (proc (sched c)) eqn:Ep.
    + eexists. apply close_sched. by apply step_process_start.
    + by destruct (Hn (le_n 3)).
    + eexists. apply close_sched. by apply step_process_wake.
    + eexists. apply close_sched. by apply step_process_empty.
    + eexists. by apply close_join.
  - destruct (finisher_returned c) eqn:Ef; [eexists; by apply close_join_finisher|].
    destruct (finishing (sched c)) as [cl|] eqn:Efi.
    + destruct (finish_total (c_taskID cl) (c_workerID cl) (st_world (sched c)) Hp) as (b & w & Ew).
      eexists. apply close_sched. by eapply step_finish_update.
    + eexists. apply close_finisher; [congruence|done|done|done].
Qed.
End Steps.

(** C29: the destructor returns: when no client is inside of [schedule] and no call is
    outstanding, then however its statements interleave with the queue thread, wherever
    that thread is (it may not even have run yet), and with the thread that takes the
    answers, which may still have to record the last task, there are at most eleven
    further steps; the run can only end behind the destructor, with both threads returned and
    the last task recorded. *)
Theorem destructor_returns `{Env} this s k c :
  workerPartitions_ this <> 0 -> quiet s -> runTaskQueueThread s = true -> proc s <> PReturned ->
  nsteps (closing_step this) k (Closing s DBefore false) c ->
  (k <= 11)%nat /\
  (at_ c = DDone -> proc (sched c) = PReturned /\ finisher_returned c = true /\ finishing (sched c) = None) /\
  (at_ c <> DDone -> exists c', closing_step this c c').
Proof.
  intros Hp Hq Hrun Hpr Hk.
  assert (forall c0, closing_ok c0 -> nsteps (closing_step this) k c0 c ->
    closing_ok c /\ (k + closing_left c <= closing_left c0)%nat) as Hall.
  { clear. intros c0 H0 Hk. induction Hk as [c|k c0 c1 c Hs Hk IH]; [split; [done|lia]|].
    destruct (closing_ok_step _ _ _ Hs H0) as [H1 H2]. destruct (IH H1) as [H3 H4]. split; [done|lia]. }
  destruct (Hall (Closing s DBefore false)) as [Hok Hlen]; [|exact Hk|].
  { split; cbn; try done; try lia. rewrite Hrun. split; [lia|done]. }
  split; [|split].
  - unfold closing_left in Hlen at 2. cbn in Hlen.
    destruct (proc s), (finishing s); lia.
  - intros E. destruct Hok as [_ _ _ _ Hj Hd Hfi]. rewrite E in *. split; [apply Hj; cbn; lia|].
    specialize (Hd eq_refl). split; [done|by apply Hfi].
  - by apply closing_moves.
Qed.

Lemma destructor_returns_witness :
  let s := init (init_world empty_db) 0 [] in
  exists c', closing_step (H := steady Z.of_nat) spark_demo (Closing s DBefore false) c'.
Proof.
  intros s.
  destruct (destructor_returns (H := steady Z.of_nat) spark_demo s 0 (Closing s DBefore false)) as (_ & _ & H);
    [discriminate| |reflexivity|discriminate|apply nsteps_O|apply H; discriminate].
  split; [apply Forall_nil; exact Logic.I|reflexivity|reflexivity].
Defined.
