(* ===== verification/TestPrograms.v ===== *)
(** * The test programs

    [src/simulation/TestPartitionedFIFOScheduler.cc] and
    [TestPartitionedScanTask.cc]: a scheduler with fixed parameters, its [setup],
    and one of each of its operations.  (The one for the Spark-like scheduler runs
    on threads: SparkScheduler.v, SparkSetup.v, SparkShutdown.v.) *)

From S2P Require PartitionedFIFOScheduler PartitionedScanTask.
From S2P Require Import Prelude Probing Tables World Procs Pool Client SchedulerUtil Select Setup SparkSetup.
#[local] Open Scope Z_scope.

Section Mains.
Context `{Env} (connects : string -> bool).

Definition fifo_test : PartitionedFIFOScheduler.PartitionedFIFOScheduler :=
  {| PartitionedFIFOScheduler.workerPartitions_ := 8; PartitionedFIFOScheduler.workerCapacity_ := 2;
     PartitionedFIFOScheduler.numWorkers_ := 2 |}.

(** The selected worker, which is printed, and the result of [finishTask]; the
    program ignores the results and returns 0. *)
Definition TestPartitionedFIFOScheduler_main : M world (Z * bool) :=
  match VoltdbSchedulerUtil_new connects "localhost" with
  | None => throw UncaughtException
  | Some _ =>
      PartitionedFIFOScheduler.truncateWorkerTable ;;
      PartitionedFIFOScheduler.setup fifo_test ;;
      workerId ← PartitionedFIFOScheduler.selectWorker fifo_test;
      PartitionedFIFOScheduler.assignTaskToWorker 1 workerId ;;
      ret ← PartitionedFIFOScheduler.finishTask fifo_test 1 workerId;
      mret (workerId, ret)
  end.

Definition scan_test : PartitionedScanTask.PartitionedScanTask :=
  {| PartitionedScanTask.partitions_ := 8; PartitionedScanTask.numTasks_ := 2;
     PartitionedScanTask.numWorkers_ := 2; PartitionedScanTask.probMultiTx_ := f32_of_int 1 |}.

Definition TestPartitionedScanTask_main : M world Z :=
  match VoltdbSchedulerUtil_new connects "localhost" with
  | None => throw UncaughtException
  | Some _ =>
      PartitionedScanTask.setup scan_test ;;
      PartitionedScanTask.selectMostTaskWorker scan_test
  end.
End Mains.

(** ** What the tests show *)

Section Tests.
Context `{Env, !Reliable} (connects : string -> bool) (connected : connects "localhost" = true).

Lemma test_connects : is_Some (VoltdbSchedulerUtil_new connects "localhost").
Proof using connected.
  unfold VoltdbSchedulerUtil_new. replace (hosts_of "localhost") with ["localhost"%string] by by vm_compute.
  cbn. rewrite connected. by eexists.
Qed.

(** The FIFO test ends with a worker selected; its task is never finished, so that of
    the four units of capacity three are left. *)
Theorem fifo_test_leaks_unit w :
  exists z w', TestPartitionedFIFOScheduler_main connects w = (Done (z, false), w') /\
    (z = 0 \/ z = 1) /\ total_capacity (w_db w') = 3.
Proof.
  unfold TestPartitionedFIFOScheduler_main. destruct test_connects as [hosts ->].
  unfold PartitionedFIFOScheduler.truncateWorkerTable at 1.
  rewrite (bind_done _ _ _ _ _ (truncateWorkerTable_ok w)). set (w1 := set_db _ _).
  assert (PartitionedFIFOScheduler.config_ok fifo_test) as Hc by (repeat split; vm_compute; congruence).
  destruct (PartitionedFIFOScheduler.fifo_setup_run fifo_test Hc w1) as (w2 & E & Hf). run_bind E.
  destruct (PartitionedFIFOScheduler.fifo_fresh fifo_test Hc _ Hf) as (Hwf & Hin & Htot).
  pose proof (PartitionedFIFOScheduler.fifo_selectWorker_run fifo_test ltac:(vm_compute; split; congruence) w2 Hwf Hin) as Hsel.
  destruct (PartitionedFIFOScheduler.selectWorker fifo_test w2) as [o w3] eqn:Es. cbn in Hsel.
  change (PartitionedFIFOScheduler.numWorkers_ fifo_test * PartitionedFIFOScheduler.workerCapacity_ fifo_test) with 4 in Htot.
  destruct (selected_hit _ _ _ _ takes_acquired _ _ _ Hwf Hsel ltac:(lia)) as (r & Hr & _ & _ & -> & _ & Ht).
  run_bind Es. rewrite (bind_done (PartitionedFIFOScheduler.assignTaskToWorker _ _) _ _ _ _ eq_refl).
  assert (PartitionedFIFOScheduler.finishTask fifo_test 1 (WorkerID r) w3 = (Done false, w3)) as Ef.
  { unfold PartitionedFIFOScheduler.finishTask, int_rem. by rewrite decide_False by done. }
  run_bind Ef. exists (WorkerID r), w3. split; [done|]. split; [|lia].
  rewrite Hf in Hr. apply elem_of_fresh in Hr as (i & Hi & ->). cbn in Hi |- *. lia.
Qed.

Lemma insertTask_test j w : (j < 2)%nat ->
  PartitionedScanTask.insertTask scan_test (Z.of_nat j) w =
  (Done true, set_db (on_Task (fun l => l ++ [TaskRow (Z.of_nat j) (Z.of_nat j) 1 (Z.of_nat j)]) (w_db w)) (tick w)).
Proof using All.
  intros Hj. unfold PartitionedScanTask.insertTask.
  assert (Z.of_nat j mod 2 = Z.of_nat j /\ Z.of_nat j mod 8 = Z.of_nat j) as [E2 E8]
    by (split; apply Z.mod_small; lia).
  rewrite (bind_done _ _ _ _ _ (int_rem_ok (Z.of_nat j) 2 w ltac:(lia) ltac:(lia))), E2.
  rewrite (bind_done _ _ _ _ _ (int_rem_ok (Z.of_nat j) 8 w ltac:(lia) ltac:(lia))), E8.
  assert (InsertTask_run (Z.of_nat j) (Z.of_nat j) 1 (Z.of_nat j) (tick w) = (Done 0,
    set_db (on_Task (fun l => l ++ [TaskRow (Z.of_nat j) (Z.of_nat j) 1 (Z.of_nat j)]) (w_db w)) (tick w))) as E.
  { destruct j as [|[|]]; [reflexivity|reflexivity|lia]. }
  apply transaction_long in E.
  change (transaction _ w) with (invoke (Procedure_new "InsertTask"
    [scalar WIRE_TYPE_INTEGER; scalar WIRE_TYPE_INTEGER; scalar WIRE_TYPE_INTEGER; scalar WIRE_TYPE_INTEGER])
    [VInt (Z.of_nat j); VInt (Z.of_nat j); VInt 1; VInt (Z.of_nat j)] w) in E.
  by run_bind E.
Qed.

(** The scan test leaves two tasks, one at each worker, and selects one of the two
    workers. *)
Theorem scan_test_selects w :
  exists z w', TestPartitionedScanTask_main connects w = (Done z, w') /\ (z = 0 \/ z = 1) /\
    w_db w' = on_Task (fun _ => [TaskRow 0 0 1 0; TaskRow 1 1 1 1]) (w_db w).
Proof.
  unfold TestPartitionedScanTask_main. destruct test_connects as [hosts ->].
  set (d' := on_Task (fun _ => [TaskRow 0 0 1 0; TaskRow 1 1 1 1]) (w_db w)).
  assert (exists w1, PartitionedScanTask.setup scan_test w = (Done true, w1) /\ w_db w1 = d') as (w1 & E & Hd).
  { unfold PartitionedScanTask.setup, PartitionedScanTask.truncateTaskTable.
    rewrite (bind_done _ _ _ _ _ (truncateTaskTable_ok w)). eexists. split.
    - erewrite bind_done; [|apply (insert_all_iter _ (fun j => on_Task (fun l => l ++ [TaskRow (Z.of_nat j) (Z.of_nat j) 1 (Z.of_nat j)])));
        [done|by apply insertTask_test]]. reflexivity.
    - reflexivity. }
  run_bind E.
  destruct (PartitionedScanTask.scan_most_loaded scan_test w1) as (z & w2 & Ez & Hd2 & Hz).
  - split; vm_compute; congruence.
  - rewrite Hd. repeat constructor; by vm_compute.
  - exists z, w2. split; [exact Ez|]. split; [|by rewrite Hd2].
    rewrite Hd in Hz. destruct Hz as [(q & _ & (t & Ht & <-) & _)|[((t & Ht & <-) & _)|[_ Hnone]]]; [| |done].
    all: apply list_elem_of_filter in Ht as [_ Ht]; cbn in Ht; set_unfold; destruct Ht as [->|[->|[]]]; cbn; lia.
Qed.
End Tests.

Lemma fifo_test_leaks_unit_witness :
  let E := steady Z.of_nat in
  exists z w', TestPartitionedFIFOScheduler_main (fun _ => true) (init_world empty_db) = (Done (z, false), w').
Proof.
  destruct (fifo_test_leaks_unit (H := steady Z.of_nat) (fun _ => true) eq_refl (init_world empty_db))
    as (z & w' & E & _). exists z, w'. exact E.
Defined.

Lemma scan_test_selects_witness :
  let E := steady Z.of_nat in
  exists z w', TestPartitionedScanTask_main (fun _ => true) (init_world empty_db) = (Done z, w') /\ (z = 0 \/ z = 1).
Proof.
  destruct (scan_test_selects (H := steady Z.of_nat) (fun _ => true) eq_refl (init_world empty_db))
    as (z & w' & E & Hz & _). exists z, w'. exact (conj E Hz).
Defined.
