(* ===== verification/HttpTables.v ===== *)
(** * HTTP server: tables

    The enumerations and the constant tables of
    [src/libs/lib_worker/httpserver.h]: the state machine over the characters
    of a request, the state machine over its framing, the character classes,
    the token each state starts, the texts of the status codes.  Tables are
    flat arrays, indexed as the code indexes them. *)

From S2P Require Import Prelude.
#[local] Open Scope Z_scope.

(** ** Limits *)

Definition HTTP_REQUEST_BUF_SIZE : Z := 1024.
Definition HTTP_RESPONSE_BUF_SIZE : Z := 1024.
Definition HTTP_REQUEST_TIMEOUT : Z := 20.
Definition HTTP_KEEP_ALIVE_TIMEOUT : Z := 120.
Definition HTTP_MAX_TOKEN_LENGTH : Z := 8192.
Definition HTTP_MAX_TOTAL_EST_MEM_USAGE : Z := 4294967296.
Definition HTTP_MAX_REQUEST_BUF_SIZE : Z := 8388608.
Definition HTTP_MAX_HEADER_COUNT : Z := 127.

(** Bits of the flag fields. *)
Definition HTTP_FLG_STREAMED : Z := 1.
Definition HTTP_KEEP_ALIVE : Z := 1.
Definition HTTP_CLOSE : Z := 0.
Definition HTTP_END_SESSION : Z := 2.
Definition HTTP_AUTOMATIC : Z := 8.
Definition HTTP_CHUNKED_RESPONSE : Z := 32.

(** [HTTP_FLAG_SET], [HTTP_FLAG_CLEAR], [HTTP_FLAG_CHECK]. *)
Definition flag_set (var flag : Z) : Z := Z.lor var flag.
Definition flag_clear (var flag : Z) : Z := Z.land var (Z.lnot flag).
Definition flag_check (var flag : Z) : bool := negb (Z.land var flag =? 0).

(** ** Enumerations *)

Inductive hs_token :=
  | HS_TOK_NONE | HS_TOK_METHOD | HS_TOK_TARGET | HS_TOK_VERSION
  | HS_TOK_HEADER_KEY | HS_TOK_HEADER_VAL | HS_TOK_CHUNK_BODY | HS_TOK_BODY
  | HS_TOK_BODY_STREAM | HS_TOK_REQ_END | HS_TOK_EOF | HS_TOK_ERROR.

Inductive hs_state :=
  | ST | MT | MS | TR | TS | VN | RR | RN | HK | HS | HV | HR | HE
  | ER | HN | BD | CS | CB | CE | CR | CN | CD | C1 | C2 | BR.

Inductive hs_char_type :=
  | HS_SPC | HS_NL | HS_CR | HS_COLN | HS_TAB | HS_SCOLN
  | HS_DIGIT | HS_HEX | HS_ALPHA | HS_TCHAR | HS_VCHAR | HS_ETC.

Inductive hs_meta_state :=
  | M_WFK | M_ANY | M_MTE | M_MCL | M_CLV | M_MCK | M_SML | M_CHK | M_BIG | M_ZER | M_CSZ
  | M_CBD | M_LST | M_STR | M_SEN | M_BDY | M_END | M_ERR.

#[export] Instance hs_token_eq_dec : EqDecision hs_token.
Proof. solve_decision. Defined.
#[export] Instance hs_state_eq_dec : EqDecision hs_state.
Proof. solve_decision. Defined.
#[export] Instance hs_char_type_eq_dec : EqDecision hs_char_type.
Proof. solve_decision. Defined.
#[export] Instance hs_meta_state_eq_dec : EqDecision hs_meta_state.
Proof. solve_decision. Defined.

(** The numbers of the enumerators, which index the tables. *)
Definition hs_state_code (s : hs_state) : nat :=
  match s with
  | ST => 0 | MT => 1 | MS => 2 | TR => 3 | TS => 4 | VN => 5 | RR => 6 | RN => 7 | HK => 8
  | HS => 9 | HV => 10 | HR => 11 | HE => 12 | ER => 13 | HN => 14 | BD => 15 | CS => 16
  | CB => 17 | CE => 18 | CR => 19 | CN => 20 | CD => 21 | C1 => 22 | C2 => 23 | BR => 24
  end.

Definition hs_char_type_code (t : hs_char_type) : nat :=
  match t with
  | HS_SPC => 0 | HS_NL => 1 | HS_CR => 2 | HS_COLN => 3 | HS_TAB => 4 | HS_SCOLN => 5
  | HS_DIGIT => 6 | HS_HEX => 7 | HS_ALPHA => 8 | HS_TCHAR => 9 | HS_VCHAR => 10 | HS_ETC => 11
  end.
Definition HS_CHAR_TYPE_LEN : nat := 12.

Definition hs_meta_code (m : hs_meta_state) : nat :=
  match m with
  | M_WFK => 0 | M_ANY => 1 | M_MTE => 2 | M_MCL => 3 | M_CLV => 4 | M_MCK => 5 | M_SML => 6
  | M_CHK => 7 | M_BIG => 8 | M_ZER => 9 | M_CSZ => 10 | M_CBD => 11 | M_LST => 12 | M_STR => 13
  | M_SEN => 14 | M_BDY => 15 | M_END => 16 | M_ERR => 17
  end.

(** Events of the framing machine: [hs_meta_type] and, sharing its numbers, the
    macros used for bodies. *)
Definition HS_META_NOT_CONTENT_LEN : nat := 0.
Definition HS_META_NOT_TRANSFER_ENC : nat := 1.
Definition HS_META_END_KEY : nat := 2.
Definition HS_META_END_VALUE : nat := 3.
Definition HS_META_END_HEADERS : nat := 4.
Definition HS_META_LARGE_BODY : nat := 5.
Definition HS_META_TYPE_LEN : nat := 6.
Definition HS_META_NOT_CHUNKED : nat := 0.
Definition HS_META_NON_ZERO : nat := 0.
Definition HS_META_END_CHK_SIZE : nat := 1.
Definition HS_META_END_CHUNK : nat := 2.
Definition HS_META_NEXT : nat := 0.

(** ** Tables *)

(** spc NL CR : tab ; 0-9 A-F/a-f G-Z/g-z tchar vchar etc *)
Definition hs_transitions : list hs_state := [
  (* ST start *) BR; BR; BR; BR; BR; BR; BR; MT; MT; MT; BR; BR;
  (* MT method *) MS; BR; BR; BR; BR; BR; MT; MT; MT; MT; BR; BR;
  (* MS methodsp *) BR; BR; BR; BR; BR; BR; TR; TR; TR; TR; TR; BR;
  (* TR target *) TS; BR; BR; TR; BR; TR; TR; TR; TR; TR; TR; BR;
  (* TS targetsp *) BR; BR; BR; BR; BR; BR; VN; VN; VN; VN; VN; BR;
  (* VN version *) BR; BR; RR; BR; BR; BR; VN; VN; VN; VN; VN; BR;
  (* RR rl CR *) BR; RN; BR; BR; BR; BR; BR; BR; BR; BR; BR; BR;
  (* RN rl NL *) BR; BR; BR; BR; BR; BR; HK; HK; HK; HK; BR; BR;
  (* HK headkey *) BR; BR; BR; HS; BR; BR; HK; HK; HK; HK; BR; BR;
  (* HS headspc *) HS; HS; HS; HV; HS; HV; HV; HV; HV; HV; HV; BR;
  (* HV headval *) HV; BR; HR; HV; HV; HV; HV; HV; HV; HV; HV; BR;
  (* HR headCR *) BR; HE; BR; BR; BR; BR; BR; BR; BR; BR; BR; BR;
  (* HE headNL *) BR; BR; ER; BR; BR; BR; HK; HK; HK; HK; BR; BR;
  (* ER hendCR *) BR; HN; BR; BR; BR; BR; BR; BR; BR; BR; BR; BR;
  (* HN hendNL *) BD; BD; BD; BD; BD; BD; BD; BD; BD; BD; BD; BD;
  (* BD body *) BD; BD; BD; BD; BD; BD; BD; BD; BD; BD; BD; BD;
  (* CS chksz *) BR; BR; CR; BR; BR; CE; CS; CS; BR; BR; BR; BR;
  (* CB chkbd *) CB; CB; CB; CB; CB; CB; CB; CB; CB; CB; CB; CB;
  (* CE chkext *) BR; BR; CR; CE; CE; CE; CE; CE; CE; CE; CE; BR;
  (* CR chkszCR *) BR; CN; BR; BR; BR; BR; BR; BR; BR; BR; BR; BR;
  (* CN chkszNL *) CB; CB; CB; CB; CB; CB; CB; CB; CB; CB; CB; CB;
  (* CD chkend *) BR; BR; C1; BR; BR; BR; BR; BR; BR; BR; BR; BR;
  (* C1 chkendCR *) BR; C2; BR; BR; BR; BR; BR; BR; BR; BR; BR; BR;
  (* C2 chkendNL *) BR; BR; BR; BR; BR; BR; CS; CS; BR; BR; BR; BR
].

(** no chunk or not cl, not te, end key, end value, end headers, too big *)
Definition hs_meta_transitions : list hs_meta_state := [
  (* WFK wait *) M_WFK; M_WFK; M_WFK; M_ANY; M_END; M_ERR;
  (* ANY matchkey *) M_MTE; M_MCL; M_WFK; M_ERR; M_END; M_ERR;
  (* MTE matchte *) M_MTE; M_WFK; M_MCK; M_ERR; M_ERR; M_ERR;
  (* MCL matchcl *) M_WFK; M_MCL; M_CLV; M_ERR; M_ERR; M_ERR;
  (* CLV clvalue *) M_ERR; M_ERR; M_ERR; M_SML; M_ERR; M_ERR;
  (* MCK matchchk *) M_WFK; M_ERR; M_ERR; M_CHK; M_ERR; M_ERR;
  (* SML smallbdy *) M_SML; M_SML; M_SML; M_SML; M_BDY; M_BIG;
  (* CHK chunkbdy *) M_CHK; M_CHK; M_CHK; M_CHK; M_ZER; M_ERR;
  (* BIG bigbody *) M_BIG; M_BIG; M_BIG; M_BIG; M_STR; M_ERR;
  (* ZER zerochk *) M_CSZ; M_LST; M_ERR; M_ERR; M_ERR; M_ERR;
  (* CSZ chksize *) M_CSZ; M_CBD; M_ERR; M_ERR; M_ERR; M_ERR;
  (* CBD readchk *) M_CBD; M_CBD; M_ZER; M_ERR; M_ERR; M_ERR;
  (* LST lastchk *) M_LST; M_END; M_END; M_ERR; M_ERR; M_ERR;
  (* STR readstr *) M_SEN; M_ERR; M_ERR; M_ERR; M_ERR; M_ERR;
  (* SEN strend *) M_END; M_ERR; M_ERR; M_ERR; M_ERR; M_ERR;
  (* BDY readbody *) M_END; M_ERR; M_ERR; M_ERR; M_ERR; M_ERR;
  (* END reqend *) M_WFK; M_ERR; M_ERR; M_ERR; M_ERR; M_ERR
].

Definition hs_ctype : list hs_char_type := [
  HS_ETC; HS_ETC; HS_ETC; HS_ETC; HS_ETC; HS_ETC; HS_ETC;
  HS_ETC; HS_ETC; HS_TAB; HS_NL; HS_ETC; HS_ETC; HS_CR;
  HS_ETC; HS_ETC; HS_ETC; HS_ETC; HS_ETC; HS_ETC; HS_ETC;
  HS_ETC; HS_ETC; HS_ETC; HS_ETC; HS_ETC; HS_ETC; HS_ETC;
  HS_ETC; HS_ETC; HS_ETC; HS_ETC; HS_SPC; HS_TCHAR; HS_VCHAR;
  HS_TCHAR; HS_TCHAR; HS_TCHAR; HS_TCHAR; HS_TCHAR; HS_VCHAR; HS_VCHAR;
  HS_TCHAR; HS_TCHAR; HS_TCHAR; HS_TCHAR; HS_TCHAR; HS_VCHAR; HS_DIGIT;
  HS_DIGIT; HS_DIGIT; HS_DIGIT; HS_DIGIT; HS_DIGIT; HS_DIGIT; HS_DIGIT;
  HS_DIGIT; HS_DIGIT; HS_COLN; HS_SCOLN; HS_VCHAR; HS_VCHAR; HS_VCHAR;
  HS_VCHAR; HS_VCHAR; HS_HEX; HS_HEX; HS_HEX; HS_HEX; HS_HEX;
  HS_HEX; HS_ALPHA; HS_ALPHA; HS_ALPHA; HS_ALPHA; HS_ALPHA; HS_ALPHA;
  HS_ALPHA; HS_ALPHA; HS_ALPHA; HS_ALPHA; HS_ALPHA; HS_ALPHA; HS_ALPHA;
  HS_ALPHA; HS_ALPHA; HS_ALPHA; HS_ALPHA; HS_ALPHA; HS_ALPHA; HS_ALPHA;
  HS_VCHAR; HS_VCHAR; HS_VCHAR; HS_TCHAR; HS_TCHAR; HS_TCHAR; HS_HEX;
  HS_HEX; HS_HEX; HS_HEX; HS_HEX; HS_HEX; HS_ALPHA; HS_ALPHA;
  HS_ALPHA; HS_ALPHA; HS_ALPHA; HS_ALPHA; HS_ALPHA; HS_ALPHA; HS_ALPHA;
  HS_ALPHA; HS_ALPHA; HS_ALPHA; HS_ALPHA; HS_ALPHA; HS_ALPHA; HS_ALPHA;
  HS_ALPHA; HS_ALPHA; HS_ALPHA; HS_ALPHA; HS_VCHAR; HS_TCHAR; HS_VCHAR;
  HS_TCHAR; HS_ETC
].

(** One entry per state up to [C2]: there is none for [BR]. *)
Definition hs_token_start_states : list hs_token := [
  HS_TOK_NONE; HS_TOK_METHOD; HS_TOK_NONE; HS_TOK_TARGET; HS_TOK_NONE; HS_TOK_VERSION; HS_TOK_NONE; HS_TOK_NONE; HS_TOK_HEADER_KEY;
  HS_TOK_NONE; HS_TOK_HEADER_VAL; HS_TOK_NONE; HS_TOK_NONE; HS_TOK_NONE; HS_TOK_NONE; HS_TOK_BODY; HS_TOK_NONE; HS_TOK_CHUNK_BODY; HS_TOK_NONE; HS_TOK_NONE; HS_TOK_NONE;
  HS_TOK_NONE; HS_TOK_NONE; HS_TOK_NONE
].

Definition blank (n : nat) : list string := replicate n ""%string.

(** The row after "Gateway Timeout" has no comma at its end: its last string
    and the first one of the next row are one string literal, so that the table
    has an entry less than it has strings. *)
Definition hs_status_text : list string :=
  (blank 100
   ++ ["Continue"; "Switching Protocols"]%string ++ blank 98
   ++ ["OK"; "Created"; "Accepted"; "Non-Authoritative Information"; "No Content";
       "Reset Content"; "Partial Content"]%string ++ blank 93
   ++ ["Multiple Choices"; "Moved Permanently"; "Found"; "See Other"; "Not Modified";
       "Use Proxy"; ""; "Temporary Redirect"]%string ++ blank 92
   ++ ["Bad Request"; "Unauthorized"; "Payment Required"; "Forbidden"; "Not Found";
       "Method Not Allowed"; "Not Acceptable"; "Proxy Authentication Required";
       "Request Timeout"; "Conflict";
       "Gone"; "Length Required"; ""; "Payload Too Large"]%string ++ blank 86
   ++ ["Internal Server Error"; "Not Implemented"; "Bad Gateway"; "Service Unavailable";
       "Gateway Timeout"; ""; ""; ""; ""; "" +:+ ""]%string
   ++ blank 89).

(** ** Characters

    A [char] is signed: bytes from 128 on are negative. *)

Definition char_of_ascii (a : Ascii.ascii) : Z := wrap8 (Z.of_nat (Ascii.nat_of_ascii a)).
Definition chars (s : string) : list Z := char_of_ascii <$> String.list_ascii_of_string s.

Definition hs_char_type_of (c : Z) : option hs_char_type :=
  if c <? 0 then Some HS_ETC else hs_ctype !! Z.to_nat c.

(** The row of [st], the column of [type]. *)
Definition hs_transition (st : hs_state) (type : hs_char_type) : option hs_state :=
  hs_transitions !! (hs_state_code st * HS_CHAR_TYPE_LEN + hs_char_type_code type)%nat.

Definition hs_meta_transition (m : hs_meta_state) (event : nat) : option hs_meta_state :=
  hs_meta_transitions !! (hs_meta_code m * HS_META_TYPE_LEN + event)%nat.
