(* ===== verification/HttpParser.v ===== *)
(** * HTTP server: input stream and parser

    [hs_stream_t], [http_parser_t] and [http_parse] of
    [src/libs/lib_worker/httpserver.h].  One call of [http_parse] runs over the
    bytes that were read until it completes a token. *)

From S2P Require Import Prelude HttpTables.
#[local] Open Scope Z_scope.

(** ** Data *)

Record http_token_t := Token { t_index : Z; t_len : Z; t_type : hs_token }.

Definition none_token : http_token_t := Token 0 0 HS_TOK_NONE.

#[export] Instance http_token_t_eq_dec : EqDecision http_token_t.
Proof. solve_decision. Defined.

(** [s_buf]: the bytes of the buffer that were written so far, from its start;
    the positions below [s_length] always were.  [None] is [NULL]. *)
Record hs_stream_t := Stream {
  s_buf : option (list Z);
  s_total_bytes : Z;
  s_capacity : Z;
  s_length : Z;
  s_index : Z;
  s_anchor : Z;
  s_token : http_token_t;
  s_consumed : bool;                 (* the flag HS_SF_CONSUMED *)
}.

Record http_parser_t := Parser {
  p_content_length : Z;
  p_body_consumed : Z;
  p_match_index : Z;
  p_header_count : Z;
  p_state : hs_state;
  p_meta : hs_meta_state;
}.

(** All bytes zero. *)
Definition hs_stream_zero : hs_stream_t := Stream None 0 0 0 0 0 none_token false.
Definition http_parser_zero : http_parser_t := Parser 0 0 0 0 ST M_WFK.

Definition bytes_of (s : hs_stream_t) : list Z := default [] (s_buf s).

(** ** Input stream *)

(** The effect of [read]: the bytes go to the positions from [s_length] on. *)
Definition overwrite (at_ : nat) (data b : list Z) : list Z :=
  take at_ b ++ data ++ drop (at_ + length data) b.

(** What a socket gives to successive calls of [read]: data, of which a call
    takes as much as it has room for, the end of the stream, or, when there is
    nothing more, [EAGAIN]. *)
Inductive arrival := Arrived (data : list Z) | EndOfStream.
Abbreviation socket_in := (list arrival).

(** [read(socket, dst, room)]: the result and the bytes. *)
Definition sock_read (room : Z) (sock : socket_in) : Z * list Z * socket_in :=
  if room <=? 0 then (0, [], sock) else
  match sock with
  | [] => (-1, [], [])
  | EndOfStream :: _ => (0, [], sock)
  | Arrived [] :: sock' => (-1, [], sock')
  | Arrived data :: sock' =>
      let got := take (Z.to_nat room) data in
      let rest := drop (Z.to_nat room) data in
      (Z.of_nat (length got), got,
       match rest with [] => sock' | _ => Arrived rest :: sock' end)
  end.

(** The first allocation. *)
Definition hs_stream_alloc (s : hs_stream_t) (memused : Z) : hs_stream_t * Z :=
  match s_buf s with
  | Some _ => (s, memused)
  | None =>
      (Stream (Some []) (s_total_bytes s) HTTP_REQUEST_BUF_SIZE (s_length s) (s_index s)
         (s_anchor s) (s_token s) (s_consumed s), memused + HTTP_REQUEST_BUF_SIZE)
  end.

(** [if (bytes > 0) ...] *)
Definition hs_stream_received (s : hs_stream_t) (bytes : Z) (data : list Z) : hs_stream_t :=
  if 0 <? bytes then
    Stream (Some (overwrite (Z.to_nat (s_length s)) data (bytes_of s)))
      (s_total_bytes s + bytes) (s_capacity s) (s_length s + bytes) (s_index s)
      (s_anchor s) (s_token s) (s_consumed s)
  else s.

(** The buffer is full: double it, up to the limit. *)
Definition hs_stream_grow (s : hs_stream_t) (memused : Z) : hs_stream_t * Z :=
  if (s_length s =? s_capacity s) && negb (s_capacity s =? HTTP_MAX_REQUEST_BUF_SIZE) then
    let c := s_capacity s * 2 in
    let c := if HTTP_MAX_REQUEST_BUF_SIZE <? c then HTTP_MAX_REQUEST_BUF_SIZE else c in
    (Stream (s_buf s) (s_total_bytes s) c (s_length s) (s_index s) (s_anchor s)
       (s_token s) (s_consumed s), memused - s_capacity s + c)
  else (s, memused).

(** [do ... while (bytes > 0 && capacity < MAX)]. *)
Fixpoint hs_read_loop (fuel : nat) (s : hs_stream_t) (memused : Z) (sock : socket_in) :
    option (Z * hs_stream_t * Z * socket_in) :=
  match fuel with
  | O => None
  | S fuel' =>
      let '(bytes, data, sock') := sock_read (s_capacity s - s_length s) sock in
      let '(s', memused') := hs_stream_grow (hs_stream_received s bytes data) memused in
      if (0 <? bytes) && (s_capacity s' <? HTTP_MAX_REQUEST_BUF_SIZE) then
        hs_read_loop fuel' s' memused' sock'
      else Some (bytes, s', memused', sock')
  end.

(** The result 0 says that the peer closed the connection; [None] that the fuel
    was not enough. *)
Definition hs_stream_read_socket (fuel : nat) (s : hs_stream_t) (memused : Z)
    (sock : socket_in) : option (Z * hs_stream_t * Z * socket_in) :=
  if s_index s <? s_length s then Some (1, s, memused, sock) else
  let '(s', memused') := hs_stream_alloc s memused in
  match hs_read_loop fuel s' memused' sock with
  | None => None
  | Some (bytes, s2, memused2, sock2) =>
      Some (if bytes =? 0 then 0 else 1, s2, memused2, sock2)
  end.

(** ** The parser's monad *)

Record hs := HS_ { h_parser : http_parser_t; h_stream : hs_stream_t }.

Definition on_stream (f : hs_stream_t -> hs_stream_t) : M hs unit :=
  modify (fun h => HS_ (h_parser h) (f (h_stream h))).
Definition on_parser (f : http_parser_t -> http_parser_t) : M hs unit :=
  modify (fun h => HS_ (f (h_parser h)) (h_stream h)).
Definition of_option {S A} (o : option A) : M S A :=
  match o with Some a => mret a | None => throw OutOfBounds end.

Definition with_consumed (b : bool) (s : hs_stream_t) : hs_stream_t :=
  Stream (s_buf s) (s_total_bytes s) (s_capacity s) (s_length s) (s_index s) (s_anchor s)
    (s_token s) b.
Definition with_index_token (i : Z) (t : http_token_t) (b : bool) (s : hs_stream_t) :
    hs_stream_t :=
  Stream (s_buf s) (s_total_bytes s) (s_capacity s) (s_length s) i (s_anchor s) t b.
Definition with_meta (m : hs_meta_state) (p : http_parser_t) : http_parser_t :=
  Parser (p_content_length p) (p_body_consumed p) (p_match_index p) (p_header_count p)
    (p_state p) m.
Definition with_state (st : hs_state) (p : http_parser_t) : http_parser_t :=
  Parser (p_content_length p) (p_body_consumed p) (p_match_index p) (p_header_count p)
    st (p_meta p).
Definition with_content (n consumed : Z) (p : http_parser_t) : http_parser_t :=
  Parser n consumed (p_match_index p) (p_header_count p) (p_state p) (p_meta p).
Definition with_match (i : Z) (p : http_parser_t) : http_parser_t :=
  Parser (p_content_length p) (p_body_consumed p) i (p_header_count p) (p_state p) (p_meta p).
Definition with_headers (n : Z) (p : http_parser_t) : http_parser_t :=
  Parser (p_content_length p) (p_body_consumed p) (p_match_index p) n (p_state p) (p_meta p).

(** [None] when all bytes that were read are consumed. *)
Definition hs_stream_next : M hs (option Z) :=
  on_stream (with_consumed false) ;;
  s ← gets h_stream;
  if s_length s <=? s_index s then mret None
  else match bytes_of s !! Z.to_nat (s_index s) with
       | Some c => mret (Some c)
       | None => throw OutOfBounds
       end.

Definition token_type_none (t : http_token_t) : bool := bool_decide (t_type t = HS_TOK_NONE).

(** The current token, [n] bytes longer; without a token the length stays 0. *)
Definition token_extend (n : Z) (t : http_token_t) : http_token_t :=
  Token (t_index t) (if token_type_none t then 0 else t_len t + n) (t_type t).

Definition hs_stream_consume : M hs unit :=
  on_stream (fun s =>
    if s_consumed s then s
    else with_index_token (s_index s + 1) (token_extend 1 (s_token s)) true s).

Definition hs_stream_begin_token (type : hs_token) : M hs unit :=
  on_stream (fun s =>
    with_index_token (s_index s) (Token (s_index s) (t_len (s_token s)) type) (s_consumed s) s).

Definition hs_stream_jump (offset : Z) : M hs bool :=
  on_stream (with_consumed true) ;;
  s ← gets h_stream;
  if s_length s <? wrap32 (s_index s + offset) then mret false
  else
    on_stream (fun s =>
      with_index_token (wrap32 (s_index s + offset)) (token_extend offset (s_token s)) true s) ;;
    mret true.

Definition hs_stream_jumpall : M hs Z :=
  s ← gets h_stream;
  let offset := s_length s - s_index s in
  on_stream (fun s =>
    with_index_token (s_index s + offset) (token_extend offset (s_token s)) true s) ;;
  mret offset.

Definition hs_stream_anchor : M hs unit :=
  on_stream (fun s =>
    Stream (s_buf s) (s_total_bytes s) (s_capacity s) (s_length s) (s_index s) (s_index s)
      (s_token s) (s_consumed s)).

Definition hs_stream_emit : M hs http_token_t :=
  s ← gets h_stream;
  on_stream (fun s => with_index_token (s_index s) none_token (s_consumed s) s) ;;
  mret (s_token s).

Definition hs_stream_can_contain (s : hs_stream_t) (size : Z) : bool :=
  size <=? HTTP_MAX_REQUEST_BUF_SIZE - s_index s + 1.

(** The current token moves to the anchor, over what was parsed since. *)
Definition hs_stream_shift : M hs unit :=
  on_stream (fun s =>
    let t := s_token s in
    if t_index t =? s_anchor s then s
    else
      let b :=
        if 0 <? t_len t then
          let src := take (Z.to_nat (s_length s - t_index t))
                       (drop (Z.to_nat (t_index t)) (bytes_of s)) in
          overwrite (Z.to_nat (s_anchor s)) src (bytes_of s)
        else bytes_of s in
      Stream (Some b) (s_total_bytes s) (s_capacity s) (s_anchor s + t_len t)
        (t_len t + s_anchor s) (s_anchor s) (Token (s_anchor s) (t_len t) (t_type t))
        (s_consumed s)).

(** ** Parser *)

Definition hs_trigger_meta (event : nat) : M hs unit :=
  p ← gets h_parser;
  to ← of_option (hs_meta_transition (p_meta p) event);
  on_parser (with_meta to).

Definition lower (c : Z) : Z := if (65 <=? c) && (c <=? 90) then c + 32 else c.

(** [HS_MATCH(str, meta)].  [m] is the local variable of the caller: outside of
    [str] it keeps its value.  A negative [match_index] passes the test
    [in_bounds]. *)
Definition hs_match (str : list Z) (meta : nat) (c m : Z) : M hs Z :=
  p ← gets h_parser;
  m ← (if p_match_index p <? Z.of_nat (length str) then
         if p_match_index p <? 0 then throw OutOfBounds
         else of_option (str !! Z.to_nat (p_match_index p))
       else mret m);
  (if lower c =? m then mret tt else hs_trigger_meta meta) ;;
  mret m.

Definition transfer_encoding : list Z := Eval cbv in chars "transfer-encoding".
Definition content_length : list Z := Eval cbv in chars "content-length".
Definition chunked : list Z := Eval cbv in chars "chunked".

Section Parse.
(** The word behind the table [hs_token_start_states], which the code reads on
    its way to [BR]. *)
Context (behind_table : hs_token).

Definition token_start (to : hs_state) : hs_token :=
  default behind_table (hs_token_start_states !! hs_state_code to).

(** The part of [hs_transition_action] before the [switch]. *)
Definition hs_enter (from to : hs_state) : M hs http_token_t :=
  (if decide (from = HN) then hs_stream_anchor else mret tt) ;;
  if decide (from = to) then mret none_token else
    (if decide (token_start to = HS_TOK_NONE) then mret tt
     else hs_stream_begin_token (token_start to)) ;;
    (if decide (from = CS) then hs_trigger_meta HS_META_END_CHK_SIZE else mret tt) ;;
    emitted ←
      (if decide (to = HK) then
         on_parser (fun p => with_headers (wrap16 (p_header_count p + 1)) p) ;;
         p ← gets h_parser;
         mret (if HTTP_MAX_HEADER_COUNT <? p_header_count p then Token 0 0 HS_TOK_ERROR
               else none_token)
       else if decide (to = HS) then
         hs_trigger_meta HS_META_END_KEY ;; hs_stream_emit
       else mret none_token);
    on_parser (with_match 0) ;;
    mret emitted.

Definition next_match (p : http_parser_t) : http_parser_t :=
  with_match (wrap16 (p_match_index p + 1)) p.

(** [case HV]: the value of a framing header. *)
Definition hs_value_char (c : Z) : M hs unit :=
  p ← gets h_parser;
  match p_meta p with
  | M_MCK => hs_match chunked HS_META_NOT_CHUNKED c 0 ;; on_parser next_match
  | M_CLV => on_parser (fun p =>
      with_content (wrap64 (wrap64 (p_content_length p * 10) + (c - 48))) (p_body_consumed p) p)
  | _ => mret tt
  end.

(** [case HN]: the end of the headers. *)
Definition hs_headers_end (emitted : http_token_t) : M hs http_token_t :=
  h ← get;
  (if decide (p_meta (h_parser h) = M_SML) then
     if hs_stream_can_contain (h_stream h) (p_content_length (h_parser h)) then mret tt
     else hs_trigger_meta HS_META_LARGE_BODY
   else mret tt) ;;
  p ← gets h_parser;
  let emitted :=
    if decide (p_meta p = M_BIG \/ p_meta p = M_CHK) then
      Token (t_index emitted) (t_len emitted) HS_TOK_BODY_STREAM
    else emitted in
  hs_trigger_meta HS_META_END_HEADERS ;;
  on_parser (fun p =>
    if decide (p_content_length p = 0 /\ p_meta p = M_BDY) then with_meta M_END p else p) ;;
  p ← gets h_parser;
  mret (if decide (p_meta p = M_END) then Token (t_index emitted) (t_len emitted) HS_TOK_BODY
        else emitted).

(** [case CS]: a hexadecimal digit of a chunk's size. *)
Definition hex_value (c : Z) : option Z :=
  if (65 <=? c) && (c <=? 70) then Some (c - 55)
  else if (97 <=? c) && (c <=? 102) then Some (c - 87)
  else if (48 <=? c) && (c <=? 57) then Some (c - 48)
  else None.

Definition hs_chunk_size_char (c : Z) : M hs unit :=
  (if c =? 48 then mret tt else hs_trigger_meta HS_META_NON_ZERO) ;;
  match hex_value c with
  | Some d => on_parser (fun p =>
      with_content (wrap64 (wrap64 (p_content_length p * 16) + d)) (p_body_consumed p) p)
  | None => mret tt
  end.

(** [case CB], [case BD]: the body, or what there is of it, in one step. *)
Definition hs_body (to : hs_state) (emitted : http_token_t) : M hs http_token_t :=
  p ← gets h_parser;
  (if decide (p_meta p = M_STR) then hs_stream_begin_token HS_TOK_CHUNK_BODY else mret tt) ;;
  let body_left := wrap32 (p_content_length p - p_body_consumed p) in
  done_ ← hs_stream_jump body_left;
  if done_ : bool then
    emitted ← hs_stream_emit;
    hs_trigger_meta HS_META_NEXT ;;
    on_parser (fun p => with_content 0 0 (if decide (to = CB) then with_state CD p else p)) ;;
    mret emitted
  else
    n ← hs_stream_jumpall;
    on_parser (fun p => with_content (p_content_length p) (p_body_consumed p + n) p) ;;
    p ← gets h_parser;
    if decide (p_meta p = M_STR) then
      emitted ← hs_stream_emit; hs_stream_shift ;; mret emitted
    else mret emitted.

Definition hs_transition_action (c : Z) (from to : hs_state) : M hs http_token_t :=
  emitted ← hs_enter from to;
  match to with
  | MS | TS => hs_stream_emit
  | RR | HR => hs_trigger_meta HS_META_END_VALUE ;; hs_stream_emit
  | HK =>
      m ← hs_match transfer_encoding HS_META_NOT_TRANSFER_ENC c 0;
      hs_match content_length HS_META_NOT_CONTENT_LEN c m ;;
      on_parser next_match ;;
      mret emitted
  | HV => hs_value_char c ;; mret emitted
  | HN => hs_headers_end emitted
  | CS => hs_chunk_size_char c ;; mret emitted
  | CB | BD => hs_body to emitted
  | C2 => hs_trigger_meta HS_META_END_CHUNK ;; mret emitted
  | BR => mret (Token (t_index emitted) (t_len emitted) HS_TOK_ERROR)
  | _ => mret emitted
  end.

Definition hs_meta_emit : M hs http_token_t :=
  p ← gets h_parser;
  match p_meta p with
  | M_SEN => hs_trigger_meta HS_META_NEXT ;; mret (Token 0 0 HS_TOK_CHUNK_BODY)
  | M_END => on_parser (fun _ => http_parser_zero) ;; mret (Token 0 0 HS_TOK_REQ_END)
  | _ => mret none_token
  end.

(** One iteration of the [while] loop; [None]: no more bytes. *)
Definition hs_parse_char : M hs (option http_token_t) :=
  o ← hs_stream_next;
  match o with
  | None => mret None
  | Some c =>
      p ← gets h_parser;
      type ← of_option (hs_char_type_of c);
      to ← of_option (hs_transition (p_state p) type);
      let to :=
        if decide (p_meta p = M_ZER /\ p_state p = HN /\ to = BD) then CS else to in
      let from := p_state p in
      on_parser (with_state to) ;;
      emitted ← hs_transition_action c from to;
      hs_stream_consume ;;
      mret (Some emitted)
  end.

(** The loop; [None] when it ran out of bytes. *)
Fixpoint hs_parse_loop (fuel : nat) : M hs (option http_token_t) :=
  match fuel with
  | O => out_of_fuel
  | S fuel' =>
      o ← hs_parse_char;
      match o with
      | None => mret None
      | Some t => if token_type_none t then hs_parse_loop fuel' else mret (Some t)
      end
  end.

(** The code after the loop. *)
Definition hs_parse_rest : M hs http_token_t :=
  p ← gets h_parser;
  (if decide (p_state p = CB) then hs_stream_shift else mret tt) ;;
  token ← hs_meta_emit;
  s ← gets h_stream;
  let current := s_token s in
  mret (if decide (t_type current <> HS_TOK_CHUNK_BODY /\ t_type current <> HS_TOK_BODY /\
                   HTTP_MAX_TOKEN_LENGTH < t_len current)
        then Token (t_index token) (t_len token) HS_TOK_ERROR else token).

(** Every iteration that goes on consumes a byte at least. *)
Definition http_parse : M hs http_token_t :=
  token ← hs_meta_emit;
  if token_type_none token then
    s ← gets h_stream;
    o ← hs_parse_loop (S (Z.to_nat (s_length s - s_index s)));
    match o with
    | Some t => mret t
    | None => hs_parse_rest
    end
  else mret token.
End Parse.
