(* ===== verification/HttpReading.v ===== *)
(** * HTTP server: reading from the socket

    [hs_stream_read_socket]: it ends, keeps the buffer within its limits, loses
    no byte and keeps the account of the memory used. *)

From S2P Require Import Prelude HttpTables HttpParser.
#[local] Open Scope Z_scope.

(** The bytes that are in the buffer. *)
Definition content (s : hs_stream_t) : list Z := take (Z.to_nat (s_length s)) (bytes_of s).

(** The bytes that are still to be read before the peer closes. *)
Fixpoint arriving (sock : socket_in) : list Z :=
  match sock with
  | [] => []
  | Arrived data :: sock' => data ++ arriving sock'
  | EndOfStream :: _ => []
  end.

(** What the stream counts in [memused]. *)
Definition held (s : hs_stream_t) : Z := match s_buf s with Some _ => s_capacity s | None => 0 end.

(** A buffer that is not larger than the limit and, below the limit, never
    full. *)
Record buffer_ok (s : hs_stream_t) : Prop := {
  buf_some : s_buf s <> None;
  buf_bytes : s_length s <= Z.of_nat (length (bytes_of s));
  buf_length : 0 <= s_length s <= s_capacity s;
  buf_capacity : HTTP_REQUEST_BUF_SIZE <= s_capacity s <= HTTP_MAX_REQUEST_BUF_SIZE;
  buf_room : s_length s < s_capacity s \/ s_capacity s = HTTP_MAX_REQUEST_BUF_SIZE;
}.

Lemma take_overwrite n data b :
  (n <= length b)%nat -> take (n + length data) (overwrite n data b) = take n b ++ data.
Proof.
  intros Hn. unfold overwrite. rewrite (assoc_L (++)).
  apply take_app_length'. rewrite length_app, length_take. lia.
Qed.

Lemma length_overwrite n data b :
  (n <= length b)%nat -> (n + length data <= length (overwrite n data b))%nat.
Proof. intros Hn. unfold overwrite. rewrite !length_app, length_take, length_drop. lia. Qed.

(** One [read]. *)
Lemma sock_read_spec room sock bytes data sock' :
  sock_read room sock = (bytes, data, sock') ->
  arriving sock = data ++ arriving sock' /\
  (0 < bytes -> bytes = Z.of_nat (length data) /\ bytes <= room) /\
  (bytes <= 0 -> data = []) /\
  (bytes = 0 -> room <= 0 \/ exists rest, sock = EndOfStream :: rest).
Proof.
  unfold sock_read. destruct (room <=? 0) eqn:Hroom.
  - intros [= <- <- <-]. split; [done|]. split; [lia|]. split; [done|]. intros _. left. lia.
  - apply Z.leb_gt in Hroom. destruct sock as [|[[|c d]|] sock].
    + intros [= <- <- <-]. repeat split; try done; lia.
    + intros [= <- <- <-]. repeat split; try done; lia.
    + intros [= <- <- <-]. rewrite length_take. repeat split; try lia.
      * cbn [arriving]. rewrite <- (take_drop (Z.to_nat room) (c :: d)) at 1.
        destruct (drop (Z.to_nat room) (c :: d)) eqn:E; cbn [arriving]; [by rewrite app_nil_r|].
        by rewrite <- (assoc_L (++)).
      * intros Hle. cbn [length] in Hle. destruct (take _ _) eqn:Et; [done|].
        apply (f_equal length) in Et. rewrite length_take in Et. cbn [length] in Et. lia.
      * intros H0. cbn [length] in H0. lia.
    + intros [= <- <- <-]. repeat split; try done; try lia. intros _. right. by exists sock.
Qed.

Lemma received_ok s bytes data :
  buffer_ok s -> (0 < bytes -> bytes = Z.of_nat (length data) /\ bytes <= s_capacity s - s_length s) ->
  (bytes <= 0 -> data = []) ->
  let s' := hs_stream_received s bytes data in
  content s' = content s ++ data /\ s_length s' = s_length s + Z.of_nat (length data) /\
  s_length s' <= Z.of_nat (length (bytes_of s')) /\ s_capacity s' = s_capacity s /\
  s_buf s' <> None /\ s_length s' <= s_capacity s'.
Proof.
  intros [H1 H2 H3 H4 H5] Hpos Hneg. cbv zeta. unfold hs_stream_received, content.
  destruct (0 <? bytes) eqn:E; cbn [s_length s_capacity s_buf].
  - apply Z.ltb_lt in E. destruct (Hpos E) as [-> Hle]. unfold bytes_of in *. cbn [s_buf default].
    assert (Z.to_nat (s_length s) <= length (default [] (s_buf s)))%nat as Hl by lia.
    replace (Z.to_nat (s_length s + Z.of_nat (length data))) with
      (Z.to_nat (s_length s) + length data)%nat by lia.
    pose proof (length_overwrite _ data _ Hl).
    split; [by apply take_overwrite|]. repeat split; try done; cbn; lia.
  - apply Z.ltb_ge in E. rewrite (Hneg E). rewrite app_nil_r. cbn. repeat split; try done; lia.
Qed.

Lemma grow_ok s memused :
  s_buf s <> None -> s_length s <= Z.of_nat (length (bytes_of s)) ->
  0 <= s_length s <= s_capacity s ->
  HTTP_REQUEST_BUF_SIZE <= s_capacity s <= HTTP_MAX_REQUEST_BUF_SIZE ->
  let '(s', memused') := hs_stream_grow s memused in
  buffer_ok s' /\ content s' = content s /\ s_length s' = s_length s /\
  memused' - held s' = memused - held s.
Proof.
  unfold HTTP_REQUEST_BUF_SIZE. intros H1 H2 H3 H4. unfold hs_stream_grow, held.
  destruct ((s_length s =? s_capacity s) && negb (s_capacity s =? HTTP_MAX_REQUEST_BUF_SIZE)) eqn:E.
  - apply andb_true_iff in E as [E1%Z.eqb_eq E2%negb_true_iff%Z.eqb_neq].
    set (c := if HTTP_MAX_REQUEST_BUF_SIZE <? _ then _ else _).
    assert (s_capacity s < c <= HTTP_MAX_REQUEST_BUF_SIZE) as Hc
      by (unfold c; case_match; lia).
    repeat split; try done; cbn; unfold HTTP_REQUEST_BUF_SIZE; try lia.
    destruct (s_buf s); [lia|done].
  - apply andb_false_iff in E. split; [|done]. split; try done.
    destruct E as [E%Z.eqb_neq|E%negb_false_iff%Z.eqb_eq]; [left; lia|by right].
Qed.

(** A byte is read at every turn but the last. *)
Lemma read_loop_ends fuel : forall s memused sock,
  buffer_ok s -> (length (arriving sock) < fuel)%nat ->
  exists bytes s' memused' sock' got,
    hs_read_loop fuel s memused sock = Some (bytes, s', memused', sock') /\
    buffer_ok s' /\ memused' - held s' = memused - held s /\
    content s' = content s ++ got /\ arriving sock = got ++ arriving sock' /\
    (bytes = 0 -> s_capacity s = HTTP_MAX_REQUEST_BUF_SIZE /\ s_length s = s_capacity s \/
                  arriving sock' = []).
Proof.
  induction fuel as [|fuel IH]; intros s memused sock Hok Hfuel; [lia|]. cbn [hs_read_loop].
  destruct (sock_read (s_capacity s - s_length s) sock) as [[bytes data] sock1] eqn:Er.
  apply sock_read_spec in Er as (Harr & Hpos & Hneg & Hzero).
  destruct (received_ok s bytes data Hok Hpos Hneg) as (R1 & R2 & R3 & R4 & R5 & R6).
  pose proof Hok as [K1 K2 K3 K4 K5].
  set (s1 := hs_stream_received s bytes data) in *.
  assert (held s1 = held s) as Hheld by (unfold held; destruct (s_buf s), (s_buf s1); done).
  pose proof (grow_ok s1 memused R5 R3 ltac:(lia) ltac:(lia)) as Hg.
  destruct (hs_stream_grow s1 memused) as [s2 m2]. destruct Hg as (G1 & G2 & G3 & G4).
  destruct ((0 <? bytes) && (s_capacity s2 <? HTTP_MAX_REQUEST_BUF_SIZE)) eqn:Ec.
  - apply andb_true_iff in Ec as [Ec1%Z.ltb_lt Ec2%Z.ltb_lt]. destruct (Hpos Ec1) as [Hb _].
    destruct (IH s2 m2 sock1 G1) as (b & s' & m' & sock' & got & E & E1 & E2 & E3 & E4 & E5).
    { rewrite Harr, length_app in Hfuel. lia. }
    exists b, s', m', sock', (data ++ got). split; [done|]. split; [done|]. split; [lia|].
    split; [by rewrite E3, G2, R1, (assoc_L (++))|].
    split; [by rewrite Harr, E4, (assoc_L (++))|]. intros Hb0.
    destruct (E5 Hb0) as [[E6 E7]|E6]; [lia|by right].
  - exists bytes, s2, m2, sock1, data. split; [done|]. split; [done|]. split; [lia|].
    split; [by rewrite G2, R1|]. split; [done|]. intros Hb0.
    destruct (Hzero Hb0) as [Hroom|[rest ->]]; [left; lia|right].
    rewrite (Hneg ltac:(lia)) in Harr. cbn in Harr. congruence.
Qed.

(** C36: reading what has arrived ends, with at most one turn more than there
    are bytes, for every way the input is cut into pieces; the buffer never
    grows past its limit, what was read is appended to it and nothing is lost,
    and [memused] changes by what the buffer grew. *)
Theorem read_socket_ends s memused sock :
  buffer_ok s \/ s = hs_stream_zero ->
  exists rc s' memused' sock' got,
    hs_stream_read_socket (S (length (arriving sock))) s memused sock = Some (rc, s', memused', sock') /\
    buffer_ok s' /\ memused' - held s' = memused - held s /\
    content s' = content s ++ got /\ arriving sock = got ++ arriving sock' /\
    (rc = 0 -> s_length s = HTTP_MAX_REQUEST_BUF_SIZE \/ arriving sock' = []).
Proof.
  intros Hs. unfold hs_stream_read_socket.
  destruct (s_index s <? s_length s) eqn:Ei.
  { destruct Hs as [Hs|Hs]; [|by rewrite Hs in Ei].
    eexists _, _, _, _, []. split; [reflexivity|]. by rewrite app_nil_r. }
  assert (exists s0 m0, hs_stream_alloc s memused = (s0, m0) /\ buffer_ok s0 /\
    m0 - held s0 = memused - held s /\ content s0 = content s /\ s_length s0 = s_length s)
    as (s0 & m0 & -> & Hok & Hm & Hc & Hl).
  { destruct Hs as [Hs|Hs].
    - exists s, memused. pose proof (buf_some _ Hs). unfold hs_stream_alloc. by destruct (s_buf s).
    - subst s. eexists _, _. split; [reflexivity|]. split; [|split; [cbn; lia|done]].
      split; cbn; unfold HTTP_REQUEST_BUF_SIZE, HTTP_MAX_REQUEST_BUF_SIZE; try done; lia. }
  destruct (read_loop_ends (S (length (arriving sock))) s0 m0 sock Hok ltac:(lia))
    as (b & s' & m' & sock' & got & -> & H1 & H2 & H3 & H4 & H5).
  eexists _, s', m', sock', got. split; [reflexivity|]. split; [done|]. split; [lia|].
  split; [by rewrite H3, Hc|]. split; [done|]. intros Hrc. destruct (b =? 0) eqn:Eb; [|done].
  apply Z.eqb_eq in Eb. destruct (H5 Eb) as [[H6 H7]|H6]; [left; lia|by right].
Qed.

Lemma read_socket_ends_witness :
  let sock := [Arrived (repeat 65 2000); Arrived [66]; EndOfStream] in
  exists rc s' memused' sock' got,
    hs_stream_read_socket (S (length (arriving sock))) hs_stream_zero 0 sock
      = Some (rc, s', memused', sock') /\
    buffer_ok s' /\ memused' - held s' = 0 - held hs_stream_zero /\
    content s' = content hs_stream_zero ++ got /\ arriving sock = got ++ arriving sock' /\
    (rc = 0 -> s_length hs_stream_zero = HTTP_MAX_REQUEST_BUF_SIZE \/ arriving sock' = []).
Proof. apply read_socket_ends. by right. Defined.
