(* ===== verification/HttpGrammar.v ===== *)
(** * HTTP server: the parser on well-formed requests

    A request as its parts, its text, and the tokens [http_parse] finds in that
    text; which header keys the parser takes for the framing headers. *)

From S2P Require Import Prelude HttpTables HttpParser.
#[local] Open Scope Z_scope.

(** ** Character classes *)

Definition digit (c : Z) : bool := (48 <=? c) && (c <=? 57).
Definition letter (c : Z) : bool := ((65 <=? c) && (c <=? 90)) || ((97 <=? c) && (c <=? 122)).
(** The characters of a token in RFC 7230. *)
Definition tchar (c : Z) : bool :=
  digit c || letter c || bool_decide (c ∈ chars "!#$%&'*+-.^_`|~").
Definition visible (c : Z) : bool := (33 <=? c) && (c <=? 126).
Definition colon_free (c : Z) : bool := visible c && negb (c =? 58) && negb (c =? 59).
Definition value_char (c : Z) : bool := visible c || (c =? 32) || (c =? 9).

(** A property of the characters is checked on all of them. *)
Lemma all_chars (P Q : Z -> bool) :
  (forall c, P c = true -> 0 <= c < 127) ->
  forallb (fun c => implb (P c) (Q c)) (seqZ 0 127) = true ->
  forall c, P c = true -> Q c = true.
Proof.
  intros HP Hall c Hc. rewrite forallb_forall in Hall.
  specialize (Hall c). rewrite Hc in Hall. apply Hall.
  apply list_elem_of_In, elem_of_seqZ. specialize (HP c Hc). lia.
Qed.

Lemma tchar_range c : tchar c = true -> 0 <= c < 127.
Proof.
  unfold tchar, digit, letter. rewrite !orb_true_iff, !andb_true_iff, !Z.leb_le, bool_decide_eq_true.
  intros [[[]|[[]|[]]]|Hc]; [lia..|]. vm_compute in Hc.
  repeat (apply elem_of_cons in Hc as [->|Hc]; [lia|]). by apply not_elem_of_nil in Hc.
Qed.

Lemma visible_range c : visible c = true -> 0 <= c < 127.
Proof. unfold visible. rewrite andb_true_iff, !Z.leb_le. lia. Qed.

Lemma colon_free_range c : colon_free c = true -> 0 <= c < 127.
Proof. unfold colon_free. rewrite !andb_true_iff. intros [[H _] _]. by apply visible_range. Qed.

Lemma value_range c : value_char c = true -> 0 <= c < 127.
Proof.
  unfold value_char. rewrite !orb_true_iff, !Z.eqb_eq. intros [[H| ->]| ->]; [|lia..].
  by apply visible_range.
Qed.

Lemma letter_range c : letter c = true -> 0 <= c < 127.
Proof. unfold letter. rewrite !orb_true_iff, !andb_true_iff, !Z.leb_le. lia. Qed.

(** The next state, by the tables. *)
Definition goes (from : hs_state) (c : Z) (to : hs_state) : bool :=
  match hs_char_type_of c with
  | None => false
  | Some ty => bool_decide (hs_transition from ty = Some to)
  end.

Ltac class_solve lem := apply all_chars; [exact lem | vm_compute; reflexivity].

Lemma letter_method : forall c, letter c = true -> goes ST c MT = true.
Proof. class_solve letter_range. Qed.
Lemma tchar_method : forall c, tchar c = true -> goes MT c MT = true.
Proof. class_solve tchar_range. Qed.
Lemma colon_free_target : forall c, colon_free c = true -> goes MS c TR = true.
Proof. class_solve colon_free_range. Qed.
Lemma visible_target : forall c, visible c = true -> goes TR c TR = true.
Proof. class_solve visible_range. Qed.
Lemma colon_free_version : forall c, colon_free c = true -> goes TS c VN = true.
Proof. class_solve colon_free_range. Qed.
Lemma colon_free_version' : forall c, colon_free c = true -> goes VN c VN = true.
Proof. class_solve colon_free_range. Qed.
Lemma tchar_key : forall c, tchar c = true ->
  (goes RN c HK && goes HE c HK && goes HK c HK) = true.
Proof. class_solve tchar_range. Qed.
Lemma visible_value : forall c, visible c = true -> goes HS c HV = true.
Proof. class_solve visible_range. Qed.
Lemma value_value : forall c, value_char c = true -> goes HV c HV = true.
Proof. class_solve value_range. Qed.

(** ** Header keys

    What [case HK] and [case HV] do to the parser, as functions. *)

Definition trig (m : hs_meta_state) (event : nat) : hs_meta_state :=
  default M_ERR (hs_meta_transition m event).

Definition match_char (str : list Z) (mi m : Z) : Z :=
  if mi <? Z.of_nat (length str) then default 0 (str !! Z.to_nat mi) else m.

Definition key_step (mi c : Z) (meta : hs_meta_state) : hs_meta_state :=
  let m1 := match_char transfer_encoding mi 0 in
  let meta1 := if lower c =? m1 then meta else trig meta HS_META_NOT_TRANSFER_ENC in
  let m2 := match_char content_length mi m1 in
  if lower c =? m2 then meta1 else trig meta1 HS_META_NOT_CONTENT_LEN.

Definition key_char (c : Z) (p : http_parser_t) : http_parser_t :=
  next_match (with_meta (key_step (p_match_index p) c (p_meta p)) p).

(** What the characters of a key make of the framing state, as long as
    [match_index] does not wrap around. *)
Definition key_scan (mi : Z) (meta : hs_meta_state) (key : list Z) : hs_meta_state :=
  (foldl (fun '(mi, meta) c => (mi + 1, key_step mi c meta)) (mi, meta) key).2.

(** The keys taken for [Transfer-Encoding] and [Content-Length]: the nonempty
    prefixes of these words, the second one with three more letters, since past
    its end the comparison goes on with the letter of the first word. *)
Definition content_lengthing : list Z := Eval cbv in chars "content-lengthing".

Definition key_meta (key : list Z) : hs_meta_state :=
  if decide ((lower <$> key) `prefix_of` transfer_encoding) then M_MTE
  else if decide ((lower <$> key) `prefix_of` content_lengthing) then M_MCL
  else M_WFK.

Lemma prefix_snoc {A} (l b : list A) x :
  l ++ [x] `prefix_of` b <-> l `prefix_of` b /\ b !! length l = Some x.
Proof.
  split.
  - intros [k ->]. split; [exists (x :: k); by rewrite <- (assoc_L (++))|].
    rewrite <- (assoc_L (++)). cbn. by rewrite list_lookup_middle.
  - intros [[k ->] H]. rewrite lookup_app_r, Nat.sub_diag in H by done.
    destruct k as [|y k]; [done|]. cbn in H. simplify_eq. exists k. by rewrite <- (assoc_L (++)).
Qed.

Lemma key_scan_snoc mi meta key c :
  key_scan mi meta (key ++ [c]) = key_step (mi + Z.of_nat (length key)) c (key_scan mi meta key).
Proof.
  unfold key_scan. rewrite foldl_app. cbn.
  assert (forall mi meta, (foldl (fun '(mi, meta) c => (mi + 1, key_step mi c meta)) (mi, meta) key).1
            = mi + Z.of_nat (length key)) as H.
  { induction key as [|x key IH]; intros mi0 m0; cbn; [lia|]. rewrite IH. lia. }
  specialize (H mi meta). by destruct (foldl _ _ key) as [a b]; cbn in *; subst.
Qed.

Lemma lower_char c : tchar c = true -> lower c <> 0.
Proof.
  intros Hc. pose proof (tchar_range c Hc). unfold lower. case_match; [lia|].
  intros ->. vm_compute in Hc. discriminate.
Qed.

Lemma match_char_nat str k m : match_char str (Z.of_nat k) m = default m (str !! k).
Proof.
  unfold match_char. rewrite Nat2Z.id. case_match eqn:E.
  - apply Z.ltb_lt in E. by destruct (lookup_lt_is_Some_2 str k) as [x ->]; [lia|].
  - apply Z.ltb_ge in E. by rewrite lookup_ge_None_2 by lia.
Qed.

Lemma content_lengthing_lookup k :
  content_lengthing !! k =
    match content_length !! k with Some c => Some c | None => transfer_encoding !! k end.
Proof. do 18 (destruct k as [|k]; [reflexivity|]). by destruct k. Qed.

Lemma framing_words_differ l :
  l <> [] -> l `prefix_of` transfer_encoding -> ~ l `prefix_of` content_lengthing.
Proof. destruct l as [|x l]; [done|]. intros _ [k1 E1] [k2 E2]. injection E1; injection E2; intros; congruence. Qed.

Lemma key_step_meta key c :
  key <> [] -> lower c <> 0 ->
  key_step (Z.of_nat (length key)) c (key_meta key) = key_meta (key ++ [c]).
Proof.
  intros Hk Hc. unfold key_step. rewrite !match_char_nat. unfold key_meta.
  rewrite fmap_app. cbn [fmap list_fmap].
  set (l := lower <$> key). assert (length key = length l) as -> by (unfold l; by rewrite length_fmap).
  assert (l <> []) as Hl by (unfold l; by destruct key).
  assert (forall d, (lower c =? default 0 d) = bool_decide (d = Some (lower c))) as Heq.
  { intros [x|]; cbn; case_bool_decide; try (apply Z.eqb_eq; congruence);
      apply Z.eqb_neq; congruence. }
  assert (default (default 0 (transfer_encoding !! length l)) (content_length !! length l) =
          default 0 (content_lengthing !! length l)) as ->
    by (rewrite content_lengthing_lookup; by destruct (content_length !! length l)).
  rewrite !Heq.
  destruct (decide (l `prefix_of` transfer_encoding)) as [Hte|Hte].
  - pose proof (framing_words_differ l Hl Hte).
    rewrite (decide_False (P := (l ++ [lower c]) `prefix_of` content_lengthing))
      by (rewrite prefix_snoc; tauto).
    repeat case_bool_decide; case_decide as Hd; rewrite prefix_snoc in Hd; try tauto; done.
  - rewrite (decide_False (P := (l ++ [lower c]) `prefix_of` transfer_encoding))
      by (rewrite prefix_snoc; tauto).
    destruct (decide (l `prefix_of` content_lengthing)) as [Hcl|Hcl].
    + repeat case_bool_decide; case_decide as Hd; rewrite prefix_snoc in Hd; try tauto; done.
    + rewrite decide_False by (rewrite prefix_snoc; tauto). by repeat case_bool_decide.
Qed.

Lemma key_step_first c : lower c <> 0 -> key_step 0 c M_ANY = key_meta [c].
Proof.
  intros Hc. unfold key_step, key_meta. cbn [fmap list_fmap].
  change (match_char transfer_encoding 0 0) with 116.
  change (match_char content_length 0 116) with 99.
  assert (forall x l, [lower c] `prefix_of` x :: l <-> lower c = x) as Hpre.
  { intros x l. split; [by intros [k [=]]|]. intros ->. by exists l. }
  unfold transfer_encoding, content_lengthing.
  case_decide as E; rewrite Hpre in E; [by rewrite E|].
  case_decide as E'; rewrite Hpre in E'; [by rewrite E'|].
  by rewrite !(proj2 (Z.eqb_neq _ _)) by done.
Qed.

(** What the parser recognises. *)
Lemma key_scan_meta key :
  key <> [] -> Forall (fun c => tchar c = true) key -> key_scan 0 M_ANY key = key_meta key.
Proof.
  induction key as [|c key IH] using rev_ind; [done|]. intros _ [Hk Hc]%Forall_app.
  apply Forall_cons in Hc as [Hc _]. rewrite key_scan_snoc.
  destruct key as [|c0 key0]; [by apply key_step_first, lower_char|].
  rewrite IH, Z.add_0_l by done. apply key_step_meta; [done|by apply lower_char].
Qed.

(** Once the body's length is known, no other key matters. *)
Lemma key_scan_done mi m key : m = M_SML \/ m = M_CHK -> key_scan mi m key = m.
Proof.
  intros Hm. induction key as [|c key IH] using rev_ind; [done|]. rewrite key_scan_snoc, IH.
  unfold key_step. by destruct Hm as [->| ->]; repeat case_match.
Qed.

(** ** One character *)

Section Steps.
Context (behind : hs_token) (B : list Z) (tb cap : Z).

(** The parser in front of byte [i] of the buffer [B]. *)
Definition cfg (p : http_parser_t) (i a : Z) (t : http_token_t) (k : bool) : hs :=
  HS_ p (Stream (Some B) tb cap (Z.of_nat (length B)) i a t k).

Lemma next_at p i a t k c :
  0 <= i -> B !! Z.to_nat i = Some c ->
  hs_stream_next (cfg p i a t k) = (Done (Some c), cfg p i a t false).
Proof.
  intros Hi Hc. unfold hs_stream_next, on_stream, modify, gets, mbind, M_bind.
  cbn [h_stream h_parser cfg with_consumed s_length s_index s_buf bytes_of default s_total_bytes
       s_capacity s_anchor s_token].
  assert ((Z.of_nat (length B) <=? i) = false) as ->.
  { apply lookup_lt_Some in Hc. apply Z.leb_gt. lia. }
  unfold bytes_of. cbn [default s_buf from_option id]. by rewrite Hc.
Qed.

Lemma parse_char_at p i a t k c to :
  0 <= i -> B !! Z.to_nat i = Some c -> goes (p_state p) c to = true ->
  p_meta p <> M_ZER ->
  hs_parse_char behind (cfg p i a t k) =
    (emitted ← hs_transition_action behind c (p_state p) to;
     hs_stream_consume ;; mret (Some emitted)) (cfg (with_state to p) i a t false).
Proof.
  intros Hi Hc Hgo Hm. unfold goes in Hgo.
  destruct (hs_char_type_of c) as [ty|] eqn:Ety; [|done]. apply bool_decide_eq_true in Hgo.
  unfold hs_parse_char. run_bind (next_at p i a t k c Hi Hc).
  rewrite (bind_done (gets h_parser) _ _ p (cfg p i a t false)) by done.
  rewrite (bind_done _ _ _ ty (cfg p i a t false)) by (by rewrite Ety).
  rewrite (bind_done _ _ _ to (cfg p i a t false)) by (by rewrite Hgo).
  rewrite (decide_False (P := p_meta p = M_ZER /\ _)) by (by intros [? _]). done.
Qed.

(** The bytes [l] stand in the buffer from position [i] on. *)
Definition seg (i : Z) (l : list Z) : Prop :=
  0 <= i /\ forall k c, l !! k = Some c -> B !! (Z.to_nat i + k)%nat = Some c.

Lemma seg_app i l1 l2 : seg i (l1 ++ l2) -> seg i l1 /\ seg (i + Z.of_nat (length l1)) l2.
Proof.
  intros [Hi H]. repeat split; try lia; intros k c Hk.
  - apply H. by apply lookup_app_l_Some.
  - replace (Z.to_nat _ + k)%nat with (Z.to_nat i + (length l1 + k))%nat by lia.
    apply H. by rewrite lookup_app_r, Nat.add_comm, Nat.add_sub by lia.
Qed.

Lemma seg_cons i c l : seg i (c :: l) -> 0 <= i /\ B !! Z.to_nat i = Some c /\ seg (i + 1) l.
Proof.
  intros H. pose proof H as [Hi H']. repeat split; [done| |lia|].
  - specialize (H' 0%nat c eq_refl). by rewrite Nat.add_0_r in H'.
  - intros k d Hk. replace (Z.to_nat (i + 1) + k)%nat with (Z.to_nat i + S k)%nat by lia. by apply H'.
Qed.

Lemma seg_delim i l d r :
  seg i (l ++ [d] ++ r) -> seg i (l ++ [d]) /\ seg (i + Z.of_nat (length l) + 1) r.
Proof.
  rewrite (assoc_L (++)). intros [H1 H2]%seg_app. split; [done|].
  rewrite length_app in H2. cbn in H2. by replace (i + _ + 1) with (i + Z.of_nat (length l + 1)) by lia.
Qed.

(** The loop with as much fuel as [http_parse] gives it. *)
Definition run_loop (h : hs) : outcome (option http_token_t) * hs :=
  hs_parse_loop behind (S (Z.to_nat (s_length (h_stream h) - s_index (h_stream h)))) h.

Lemma loop_skip p i a t k p' a' t' k' :
  0 <= i < Z.of_nat (length B) ->
  hs_parse_char behind (cfg p i a t k) = (Done (Some none_token), cfg p' (i + 1) a' t' k') ->
  run_loop (cfg p i a t k) = run_loop (cfg p' (i + 1) a' t' k').
Proof.
  intros Hi E. unfold run_loop. cbn [cfg h_stream s_length s_index].
  replace (Z.to_nat (Z.of_nat (length B) - i)) with
    (S (Z.to_nat (Z.of_nat (length B) - (i + 1)))) by lia.
  remember (S (Z.to_nat (Z.of_nat (length B) - (i + 1)))) as fuel.
  cbn [hs_parse_loop]. by run_bind E.
Qed.

Lemma loop_emit h t h' :
  hs_parse_char behind h = (Done (Some t), h') -> t_type t <> HS_TOK_NONE ->
  run_loop h = (Done (Some t), h').
Proof.
  intros E Ht. unfold run_loop. cbn [hs_parse_loop]. run_bind E.
  unfold token_type_none. by rewrite bool_decide_eq_false_2.
Qed.

(** A run of characters that stays in one state. *)
Lemma loop_run (st : hs_state) (ok : Z -> Prop) (f : Z -> http_parser_t -> http_parser_t) :
  (forall p, p_state p = st -> forall c, p_state (f c p) = st) ->
  forall (good : http_parser_t -> Prop),
  (forall p c i a t, good p -> p_state p = st -> ok c -> 0 <= i -> B !! Z.to_nat i = Some c ->
     hs_parse_char behind (cfg p i a t true) =
       (Done (Some none_token), cfg (f c p) (i + 1) a (token_extend 1 t) true)) ->
  forall cs p i a t,
  (forall n, (n < length cs)%nat -> good (foldl (fun p c => f c p) p (take n cs))) ->
  p_state p = st -> Forall ok cs -> seg i cs -> t_type t <> HS_TOK_NONE ->
  run_loop (cfg p i a t true) =
    run_loop (cfg (foldl (fun p c => f c p) p cs) (i + Z.of_nat (length cs)) a
                (token_extend (Z.of_nat (length cs)) t) true).
Proof.
  intros Hst good Hstep. induction cs as [|c cs IH]; intros p i a t Hg Hp Hok Hseg Ht.
  - cbn. rewrite Z.add_0_r. destruct t as [ti tl ty]. unfold token_extend, token_type_none.
    cbn in *. rewrite bool_decide_eq_false_2 by done. by rewrite Z.add_0_r.
  - apply Forall_cons in Hok as [Hc Hok]. pose proof (seg_cons _ _ _ Hseg) as (Hi & Hb & Hseg').
    rewrite (loop_skip p i a t true (f c p) a (token_extend 1 t) true).
    2: { apply lookup_lt_Some in Hb. lia. }
    2: { apply Hstep; try done. apply (Hg 0%nat). cbn. lia. }
    rewrite IH; [|intros n Hn; apply (Hg (S n)); cbn; lia|by apply Hst|done|done|].
    2: { by destruct t. }
    cbn [foldl length]. f_equal. f_equal; [lia|].
    destruct t as [ti tl ty]. unfold token_extend, token_type_none. cbn in *.
    rewrite bool_decide_eq_false_2 by done. f_equal. lia.
Qed.

(** ** Steps of the request line and the headers *)

Definition is_begin (from to : hs_state) : Prop :=
  (from = ST /\ to = MT) \/ (from = MS /\ to = TR) \/ (from = TS /\ to = VN).

Lemma step_begin p i a k c from to :
  is_begin from to -> p_state p = from -> p_meta p <> M_ZER ->
  0 <= i -> B !! Z.to_nat i = Some c -> goes from c to = true ->
  hs_parse_char behind (cfg p i a none_token k) =
    (Done (Some none_token),
     cfg (with_match 0 (with_state to p)) (i + 1) a (Token i 1 (token_start behind to)) true).
Proof.
  intros Hft <- Hm Hi Hc Hgo. rewrite (parse_char_at _ _ _ _ _ c to) by done.
  destruct Hft as [[E ->]|[[E ->]|[E ->]]]; rewrite E; reflexivity.
Qed.
Lemma step_inside p i a t c st :
  st = MT \/ st = TR \/ st = VN ->
  p_state p = st -> p_meta p <> M_ZER ->
  0 <= i -> B !! Z.to_nat i = Some c -> goes st c st = true ->
  hs_parse_char behind (cfg p i a t true) =
    (Done (Some none_token), cfg p (i + 1) a (token_extend 1 t) true).
Proof.
  intros Hst Hp Hm Hi Hc Hgo. rewrite (parse_char_at _ _ _ _ _ c st) by (try rewrite Hp; done).
  rewrite Hp. destruct p. cbn in Hp. subst.
  destruct Hst as [->|[->| ->]]; reflexivity.
Qed.

Lemma step_space p i a t k st to :
  (st = MT /\ to = MS) \/ (st = TR /\ to = TS) ->
  p_state p = st -> p_meta p <> M_ZER ->
  0 <= i -> B !! Z.to_nat i = Some 32 ->
  hs_parse_char behind (cfg p i a t k) =
    (Done (Some t), cfg (with_match 0 (with_state to p)) (i + 1) a none_token true).
Proof.
  intros Hst Hp Hm Hi Hc. rewrite (parse_char_at _ _ _ _ _ 32 to Hi Hc);
    [|by rewrite Hp; destruct Hst as [[-> ->]|[-> ->]]|done].
  rewrite Hp. by destruct Hst as [[-> ->]|[-> ->]].
Qed.

Lemma http_parse_emits p i a t k tok h :
  p_meta p <> M_SEN -> p_meta p <> M_END ->
  run_loop (cfg p i a t k) = (Done (Some tok), h) ->
  http_parse behind (cfg p i a t k) = (Done tok, h).
Proof.
  intros H1 H2 E. unfold http_parse, hs_meta_emit.
  rewrite (bind_done _ _ _ none_token (cfg p i a t k)).
  2: { rewrite (bind_done (gets h_parser) _ _ p (cfg p i a t k)) by done. by destruct (p_meta p). }
  change (token_type_none none_token) with true. cbn match.
  set (h0 := cfg p i a t k) in *. rewrite (bind_done (gets h_stream) _ _ (h_stream h0) h0) by done.
  unfold run_loop in E. by run_bind E.
Qed.

Lemma foldl_id {A C} (x : A) (cs : list C) : foldl (fun x _ => x) x cs = x.
Proof. by induction cs. Qed.

(** A token: its first character, the characters inside, the one behind it. *)
Lemma loop_token (T : hs_token) (st : hs_state) (ok : Z -> Prop)
    (f : Z -> http_parser_t -> http_parser_t) (good : http_parser_t -> Prop)
    c cs d p p1 p3 i a k tok :
  (forall p, p_state p = st -> forall c, p_state (f c p) = st) ->
  (forall p c i a t, good p -> p_state p = st -> ok c -> 0 <= i -> B !! Z.to_nat i = Some c ->
     hs_parse_char behind (cfg p i a t true) =
       (Done (Some none_token), cfg (f c p) (i + 1) a (token_extend 1 t) true)) ->
  (forall n, (n < length cs)%nat -> good (foldl (fun p c => f c p) p1 (take n cs))) ->
  T <> HS_TOK_NONE -> p_state p1 = st -> Forall ok cs -> t_type tok <> HS_TOK_NONE ->
  seg i ((c :: cs) ++ [d]) ->
  hs_parse_char behind (cfg p i a none_token k) =
    (Done (Some none_token), cfg p1 (i + 1) a (Token i 1 T) true) ->
  (B !! Z.to_nat (i + Z.of_nat (length (c :: cs))) = Some d ->
   hs_parse_char behind
     (cfg (foldl (fun p c => f c p) p1 cs) (i + Z.of_nat (length (c :: cs))) a
        (Token i (Z.of_nat (length (c :: cs))) T) true) =
     (Done (Some tok), cfg p3 (i + Z.of_nat (length (c :: cs)) + 1) a none_token true)) ->
  run_loop (cfg p i a none_token k) =
    (Done (Some tok), cfg p3 (i + Z.of_nat (length (c :: cs)) + 1) a none_token true).
Proof.
  intros Hf Hstep Hgood HT Hp1 Hcs Htok [Hseg (_ & Hd & _)%seg_cons]%seg_app E1 E3.
  specialize (E3 Hd). pose proof (seg_cons _ _ _ Hseg) as (Hi & Hb & Hseg').
  assert (0 <= i < Z.of_nat (length B)) as Hlt by (apply lookup_lt_Some in Hb; lia).
  rewrite (loop_skip _ _ _ _ _ _ _ _ _ Hlt E1).
  rewrite (loop_run st ok f Hf good Hstep cs) by done.
  unfold token_extend, token_type_none. cbn [t_type t_len t_index].
  rewrite bool_decide_eq_false_2 by done. cbn [length] in *.
  replace (i + 1 + Z.of_nat (length cs)) with (i + Z.of_nat (S (length cs))) by lia.
  replace (1 + Z.of_nat (length cs)) with (Z.of_nat (S (length cs))) by lia.
  by rewrite (loop_emit _ _ _ E3).
Qed.

(** Method and target: a token that a space ends. *)
Lemma parse_token p i a k c cs from st to :
  (from = ST /\ st = MT /\ to = MS) \/ (from = MS /\ st = TR /\ to = TS) ->
  p_state p = from -> p_meta p = M_WFK -> goes from c st = true ->
  Forall (fun c => goes st c st = true) cs ->
  seg i ((c :: cs) ++ [32]) ->
  http_parse behind (cfg p i a none_token k) =
    (Done (Token i (Z.of_nat (length (c :: cs))) (token_start behind st)),
     cfg (with_match 0 (with_state to (with_match 0 (with_state st p))))
       (i + Z.of_nat (length (c :: cs)) + 1) a none_token true).
Proof.
  intros Hst Hp Hm Hc Hcs Hseg.
  pose proof (seg_cons _ _ _ (proj1 (seg_app _ _ _ Hseg))) as (Hi & Hb & _).
  apply http_parse_emits; [congruence..|].
  assert (p_meta p <> M_ZER) as Hz by congruence.
  assert (token_start behind st <> HS_TOK_NONE) as Ht
    by (by destruct Hst as [(_ & -> & _)|(_ & -> & _)]).
  apply (loop_token (token_start behind st) st (fun c => goes st c st = true) (fun _ p => p)
    (fun p => p_meta p <> M_ZER) c cs 32 p (with_match 0 (with_state st p))); try done.
  - intros q d j b t Hq Hqs Hd' Hj Hbj. apply (step_inside q j b t d st); try done.
    destruct Hst as [(_ & -> & _)|(_ & -> & _)]; tauto.
  - intros n _. by rewrite foldl_id.
  - apply (step_begin p i a k c from st); try done.
    unfold is_begin; destruct Hst as [(-> & -> & _)|(-> & -> & _)]; tauto.
  - intros Hd. rewrite foldl_id. apply (step_space _ _ _ _ _ st); try done; [|lia].
    destruct Hst as [(_ & -> & ->)|(_ & -> & ->)]; tauto.
Qed.

Lemma trigger_at ev h m :
  hs_meta_transition (p_meta (h_parser h)) ev = Some m ->
  hs_trigger_meta ev h = (Done tt, HS_ (with_meta m (h_parser h)) (h_stream h)).
Proof. intros E. unfold hs_trigger_meta, mbind, M_bind, gets, of_option. by rewrite E. Qed.

Lemma enter_quiet from to h :
  from <> HN -> from <> CS -> from <> to -> to <> HK -> to <> HS ->
  token_start behind to = HS_TOK_NONE ->
  hs_enter behind from to h = (Done none_token, HS_ (with_match 0 (h_parser h)) (h_stream h)).
Proof.
  intros. unfold hs_enter. rewrite (decide_False (P := from = HN)) by done.
  rewrite (decide_False (P := from = to)) by done.
  rewrite (decide_True (P := token_start behind to = _)) by done.
  rewrite (decide_False (P := from = CS)) by done.
  rewrite (decide_False (P := to = HK)) by done.
  by rewrite (decide_False (P := to = HS)) by done.
Qed.

Ltac enter from to := rewrite (bind_done _ _ _ _ _ (enter_quiet from to _
  ltac:(done) ltac:(done) ltac:(done) ltac:(done) ltac:(done) eq_refl)).

Lemma consume_after (m : M hs http_token_t) h t p i a tok k :
  m h = (Done t, cfg p i a tok k) -> k = false ->
  (emitted ← m; hs_stream_consume ;; mret (Some emitted)) h =
    (Done (Some t), cfg p (i + 1) a (token_extend 1 tok) true).
Proof. intros E ->. by run_bind E. Qed.

(** *** Values and the version, which a carriage return ends *)

Lemma step_value_end p i a t k st to m :
  (st = VN /\ to = RR) \/ (st = HV /\ to = HR) ->
  p_state p = st -> p_meta p <> M_ZER ->
  hs_meta_transition (p_meta p) HS_META_END_VALUE = Some m ->
  0 <= i -> B !! Z.to_nat i = Some 13 ->
  hs_parse_char behind (cfg p i a t k) =
    (Done (Some t), cfg (with_meta m (with_match 0 (with_state to p))) (i + 1) a none_token true).
Proof.
  intros Hst Hp Hm Hev Hi Hc. rewrite (parse_char_at _ _ _ _ _ 13 to Hi Hc);
    [|by rewrite Hp; destruct Hst as [[-> ->]|[-> ->]]|done].
  rewrite Hp. rewrite (consume_after _ _ t (with_meta m (with_match 0 (with_state to p))) i a none_token false);
    [done| |done].
  unfold hs_transition_action.
  destruct Hst as [[-> ->]|[-> ->]]; [enter VN RR | enter HV HR];
    by erewrite bind_done by (apply trigger_at; exact Hev).
Qed.

Lemma parse_version p i a k c cs :
  p_state p = TS -> p_meta p = M_WFK -> colon_free c = true ->
  Forall (fun c => colon_free c = true) cs ->
  seg i ((c :: cs) ++ [13]) ->
  http_parse behind (cfg p i a none_token k) =
    (Done (Token i (Z.of_nat (length (c :: cs))) HS_TOK_VERSION),
     cfg (with_meta M_ANY (with_match 0 (with_state RR (with_match 0 (with_state VN p)))))
       (i + Z.of_nat (length (c :: cs)) + 1) a none_token true).
Proof.
  intros Hp Hm Hc Hcs Hseg.
  pose proof (seg_cons _ _ _ (proj1 (seg_app _ _ _ Hseg))) as (Hi & Hb & _).
  apply http_parse_emits; [congruence..|].
  apply (loop_token HS_TOK_VERSION VN (fun c => colon_free c = true) (fun _ p => p)
    (fun p => p_meta p <> M_ZER) c cs 13 p (with_match 0 (with_state VN p))); try done.
  - intros q d j b t Hq Hqs Hd' Hj Hbj. apply (step_inside q j b t d VN); try done; [tauto|].
    by apply colon_free_version'.
  - intros n _. rewrite foldl_id. cbn. congruence.
  - apply (step_begin p i a k c TS VN); try done; [unfold is_begin; tauto|congruence|].
    by apply colon_free_version.
  - intros Hd. rewrite foldl_id. apply (step_value_end _ _ _ _ _ VN); try done; [tauto| | |lia];
      cbn; by rewrite Hm.
Qed.

(** *** Characters that only change the state *)

Definition is_quiet (from to : hs_state) : Prop :=
  (from = RR /\ to = RN) \/ (from = HR /\ to = HE) \/ (from = HE /\ to = ER).

Lemma step_quiet p i a k c from to :
  is_quiet from to -> p_state p = from -> p_meta p <> M_ZER ->
  0 <= i -> B !! Z.to_nat i = Some c -> goes from c to = true ->
  hs_parse_char behind (cfg p i a none_token k) =
    (Done (Some none_token), cfg (with_match 0 (with_state to p)) (i + 1) a none_token true).
Proof.
  intros Hft <- Hm Hi Hc Hgo. rewrite (parse_char_at _ _ _ _ _ c to) by done.
  destruct Hft as [[E ->]|[[E ->]|[E ->]]]; rewrite E; reflexivity.
Qed.

(** What may stand in front of a value: spaces, tabs and line ends. *)
Definition blank_char (c : Z) : bool := goes HS c HS.

Lemma step_header_space p i a k c :
  p_state p = HS -> p_meta p <> M_ZER ->
  0 <= i -> B !! Z.to_nat i = Some c -> blank_char c = true ->
  hs_parse_char behind (cfg p i a none_token k) =
    (Done (Some none_token), cfg p (i + 1) a none_token true).
Proof.
  intros Hp Hm Hi Hc Hb. rewrite (parse_char_at _ _ _ _ _ c HS Hi Hc); [|by rewrite Hp|done].
  rewrite Hp. destruct p. cbn in Hp. by subst.
Qed.

Lemma loop_spaces p a ws : forall i k,
  p_state p = HS -> p_meta p <> M_ZER -> Forall (fun c => blank_char c = true) ws -> seg i ws ->
  ws <> [] ->
  run_loop (cfg p i a none_token k) =
    run_loop (cfg p (i + Z.of_nat (length ws)) a none_token true).
Proof.
  induction ws as [|c ws IH]; [done|]. intros i k Hp Hm [Hc Hws]%Forall_cons Hseg _.
  pose proof (seg_cons _ _ _ Hseg) as (Hi & Hb & Hseg').
  assert (0 <= i < Z.of_nat (length B)) as Hlt by (apply lookup_lt_Some in Hb; lia).
  rewrite (loop_skip p i a none_token k p a none_token true Hlt)
    by (by apply (step_header_space p i a k c)).
  cbn [length]. replace (i + Z.of_nat (S (length ws))) with (i + 1 + Z.of_nat (length ws)) by lia.
  destruct ws as [|d ws]; [by rewrite Z.add_0_r|]. by apply IH.
Qed.

(** *** Keys *)

Definition key_ok (m : hs_meta_state) : bool :=
  match m with M_WFK | M_ANY | M_MTE | M_MCL | M_SML | M_CHK => true | _ => false end.

Lemma key_ok_step mi c m : key_ok m = true -> key_ok (key_step mi c m) = true.
Proof. unfold key_step. intros H. by repeat case_match; destruct m. Qed.

Lemma trig_eq m ev :
  m <> M_ERR -> (ev < HS_META_TYPE_LEN)%nat -> hs_meta_transition m ev = Some (trig m ev).
Proof.
  unfold HS_META_TYPE_LEN. intros Hm Hev.
  do 6 (destruct ev as [|ev]; [by destruct m|]). lia.
Qed.

Lemma with_meta_id p : with_meta (p_meta p) p = p.
Proof. by destruct p. Qed.

Lemma match_at str ev c m p s :
  0 <= p_match_index p -> p_meta p <> M_ERR -> (ev < HS_META_TYPE_LEN)%nat ->
  hs_match str ev c m (HS_ p s) =
    (Done (match_char str (p_match_index p) m),
     HS_ (with_meta (if lower c =? match_char str (p_match_index p) m then p_meta p
                     else trig (p_meta p) ev) p) s).
Proof.
  intros Hmi Hm Hev. unfold hs_match.
  rewrite (bind_done (gets h_parser) _ _ p (HS_ p s)) by done.
  rewrite (bind_done _ _ _ (match_char str (p_match_index p) m) (HS_ p s)).
  2: { unfold match_char. case_match eqn:E; [|done]. apply Z.ltb_lt in E.
       rewrite (proj2 (Z.ltb_ge _ _)) by done.
       by destruct (lookup_lt_is_Some_2 str (Z.to_nat (p_match_index p))) as [x ->]; [lia|]. }
  case_match.
  - rewrite (bind_done _ _ _ tt (HS_ p s)) by done. by rewrite with_meta_id.
  - by erewrite bind_done by (apply trigger_at; cbn; by apply trig_eq).
Qed.

Lemma enter_key p s from :
  from = RN \/ from = HE -> 0 <= p_header_count p < 127 ->
  hs_enter behind from HK (HS_ p s) =
    (Done none_token,
     HS_ (with_match 0 (with_headers (p_header_count p + 1) p))
       (with_index_token (s_index s) (Token (s_index s) (t_len (s_token s)) HS_TOK_HEADER_KEY)
          (s_consumed s) s)).
Proof.
  intros Hfrom Hhc.
  transitivity (Done (if HTTP_MAX_HEADER_COUNT <? wrap16 (p_header_count p + 1)
                      then Token 0 0 HS_TOK_ERROR else none_token),
     HS_ (with_match 0 (with_headers (wrap16 (p_header_count p + 1)) p))
       (with_index_token (s_index s) (Token (s_index s) (t_len (s_token s)) HS_TOK_HEADER_KEY)
          (s_consumed s) s)); [by destruct Hfrom as [->| ->]|].
  rewrite wrapS_id by (unfold in_signed; lia).
  by rewrite (proj2 (Z.ltb_ge _ _)) by (unfold HTTP_MAX_HEADER_COUNT; lia).
Qed.

Lemma key_switch p s c (emitted : http_token_t) :
  key_ok (p_meta p) = true -> 0 <= p_match_index p ->
  (m ← hs_match transfer_encoding HS_META_NOT_TRANSFER_ENC c 0;
   hs_match content_length HS_META_NOT_CONTENT_LEN c m ;;
   on_parser next_match ;;
   mret emitted) (HS_ p s) = (Done emitted, HS_ (key_char c p) s).
Proof.
  intros Hok Hmi.
  rewrite (bind_done _ _ _ _ _ (match_at transfer_encoding HS_META_NOT_TRANSFER_ENC c 0 p s Hmi
    ltac:(by destruct (p_meta p)) ltac:(unfold HS_META_NOT_TRANSFER_ENC, HS_META_TYPE_LEN; lia))).
  erewrite bind_done.
  2: { apply match_at; [done| |unfold HS_META_NOT_CONTENT_LEN, HS_META_TYPE_LEN; lia].
       cbn [p_meta with_meta]. by case_match; destruct (p_meta p). }
  by destruct p.
Qed.

(** A later character of a key. *)
Lemma step_key p i a t c :
  p_state p = HK -> key_ok (p_meta p) = true -> 0 <= p_match_index p ->
  0 <= i -> B !! Z.to_nat i = Some c -> tchar c = true ->
  hs_parse_char behind (cfg p i a t true) =
    (Done (Some none_token), cfg (key_char c p) (i + 1) a (token_extend 1 t) true).
Proof.
  intros Hp Hok Hmi Hi Hc Ht.
  pose proof (tchar_key c Ht) as [_ Hgo]%andb_true_iff.
  rewrite (parse_char_at _ _ _ _ _ c HK Hi Hc); [|by rewrite Hp|by destruct (p_meta p)].
  rewrite Hp. apply (consume_after _ _ none_token _ i a t false); [|done].
  assert (with_state HK p = p) as -> by (destruct p; cbn in *; by subst).
  unfold hs_transition_action. rewrite (bind_done _ _ _ none_token (cfg p i a t false)) by done.
  by apply key_switch.
Qed.

(** The first one. *)
Lemma step_key_begin p i a k c from :
  from = RN \/ from = HE -> p_state p = from ->
  key_ok (p_meta p) = true -> 0 <= p_header_count p < 127 ->
  0 <= i -> B !! Z.to_nat i = Some c -> tchar c = true ->
  hs_parse_char behind (cfg p i a none_token k) =
    (Done (Some none_token),
     cfg (key_char c (with_match 0 (with_headers (p_header_count p + 1) (with_state HK p))))
       (i + 1) a (Token i 1 HS_TOK_HEADER_KEY) true).
Proof.
  intros Hfrom Hp Hok Hhc Hi Hc Ht.
  pose proof (tchar_key c Ht) as [[HRN HHE]%andb_true_iff _]%andb_true_iff.
  rewrite (parse_char_at _ _ _ _ _ c HK Hi Hc);
    [|by rewrite Hp; destruct Hfrom as [->| ->]|by destruct (p_meta p)].
  rewrite Hp.
  rewrite (consume_after _ _ none_token
    (key_char c (with_match 0 (with_headers (p_header_count p + 1) (with_state HK p)))) i a
    (Token i 0 HS_TOK_HEADER_KEY) false); [done| |done].
  unfold hs_transition_action, cfg.
  rewrite (bind_done _ _ _ _ _ (enter_key (with_state HK p) _ from Hfrom Hhc)).
  by apply key_switch.
Qed.

(** The colon. *)
Lemma step_key_end p i a t k :
  p_state p = HK -> key_ok (p_meta p) = true ->
  0 <= i -> B !! Z.to_nat i = Some 58 ->
  hs_parse_char behind (cfg p i a t k) =
    (Done (Some t),
     cfg (with_match 0 (with_meta (trig (p_meta p) HS_META_END_KEY) (with_state HS p)))
       (i + 1) a none_token true).
Proof.
  intros Hp Hok Hi Hc.
  rewrite (parse_char_at _ _ _ _ _ 58 HS Hi Hc); [|by rewrite Hp|by destruct (p_meta p)].
  rewrite Hp. rewrite (consume_after _ _ t
    (with_match 0 (with_meta (trig (p_meta p) HS_META_END_KEY) (with_state HS p))) i a none_token false);
    [done| |done].
  change (hs_transition_action behind 58 HK HS) with
    (emitted ← (emitted ← (hs_trigger_meta HS_META_END_KEY ;; hs_stream_emit);
                on_parser (with_match 0) ;; mret emitted); mret emitted : M hs http_token_t).
  assert (hs_trigger_meta HS_META_END_KEY (cfg (with_state HS p) i a t false) =
    (Done tt, cfg (with_meta (trig (p_meta p) HS_META_END_KEY) (with_state HS p)) i a t false)) as E.
  { apply (trigger_at _ (cfg (with_state HS p) i a t false)). apply trig_eq;
      [by destruct (p_meta p)|unfold HS_META_END_KEY, HS_META_TYPE_LEN; lia]. }
  unfold mbind, M_bind. by rewrite E.
Qed.

Lemma foldl_key_char cs : forall p,
  0 <= p_match_index p -> p_match_index p + Z.of_nat (length cs) < 32768 ->
  foldl (fun p c => key_char c p) p cs =
    with_match (p_match_index p + Z.of_nat (length cs))
      (with_meta (key_scan (p_match_index p) (p_meta p) cs) p).
Proof.
  induction cs as [|c cs IH] using rev_ind; intros p Hmi Hlen.
  - cbn. rewrite Z.add_0_r. by destruct p.
  - rewrite length_app in *. cbn [length] in *. rewrite foldl_app, IH by lia. cbn [foldl].
    rewrite key_scan_snoc. unfold key_char, next_match. destruct p as [cl bc mi hc ps me].
    cbn [with_match with_meta p_match_index p_meta p_content_length p_body_consumed
      p_header_count p_state]. cbn in Hmi, Hlen. rewrite wrapS_id; [|lia|unfold in_signed; lia].
    unfold with_match, with_meta. cbn. f_equal. lia.
Qed.

Lemma key_ok_scan mi m cs : key_ok m = true -> key_ok (key_scan mi m cs) = true.
Proof.
  intros Hm. induction cs as [|c cs IH] using rev_ind; [done|].
  rewrite key_scan_snoc. by apply key_ok_step.
Qed.

Lemma parse_key cl bc mi hc st meta i a k c cs :
  st = RR \/ st = HR -> key_ok meta = true -> 0 <= hc < 127 ->
  Forall (fun c => tchar c = true) (c :: cs) -> Z.of_nat (length (c :: cs)) < 32768 ->
  seg i (10 :: (c :: cs) ++ [58]) ->
  http_parse behind (cfg (Parser cl bc mi hc st meta) i a none_token k) =
    (Done (Token (i + 1) (Z.of_nat (length (c :: cs))) HS_TOK_HEADER_KEY),
     cfg (Parser cl bc 0 (hc + 1) HS (trig (key_scan 0 meta (c :: cs)) HS_META_END_KEY))
       (i + 1 + Z.of_nat (length (c :: cs)) + 1) a none_token true).
Proof.
  intros Hst Hok Hhc Hcs Hlen Hseg. apply Forall_cons in Hcs as [Hc Hcs].
  pose proof (seg_cons _ _ _ Hseg) as (Hi & Hb & Hseg').
  pose proof (seg_cons _ _ _ (proj1 (seg_app _ _ _ Hseg'))) as (_ & Hb' & _).
  apply http_parse_emits; [by destruct meta..|].
  set (p := Parser cl bc mi hc st meta).
  set (to := match st with RR => RN | _ => HE end).
  assert (0 <= i < Z.of_nat (length B)) as Hlt by (apply lookup_lt_Some in Hb; lia).
  rewrite (loop_skip p i a none_token k (with_match 0 (with_state to p)) a none_token true Hlt).
  2: { apply (step_quiet p i a k 10 st to); try done; [|by destruct meta|by destruct Hst as [->| ->]].
       unfold is_quiet. destruct Hst as [->| ->]; tauto. }
  assert (to = RN \/ to = HE) as Hto by (destruct Hst as [->| ->]; tauto).
  set (p0 := with_match 0 (with_headers (hc + 1) (with_state HK (with_match 0 (with_state to p))))).
  apply (loop_token HS_TOK_HEADER_KEY HK (fun c => tchar c = true) key_char
    (fun p => key_ok (p_meta p) = true /\ 0 <= p_match_index p) c cs 58 _ (key_char c p0)); try done.
  - intros q d j b t [Hq1 Hq2] Hqs Hd Hj Hbj. by apply step_key.
  - intros n Hn. change (foldl _ (key_char c p0) (take n cs)) with
      (foldl (fun p c => key_char c p) p0 (c :: take n cs)).
    rewrite foldl_key_char; [|done|cbn [length]; rewrite length_take; cbn in *; lia].
    cbn. split; [by apply key_ok_scan|lia].
  - apply (step_key_begin (with_match 0 (with_state to p)) (i + 1) a true c to); try done. lia.
  - intros Hd. change (foldl _ (key_char c p0) cs) with
      (foldl (fun p c => key_char c p) p0 (c :: cs)).
    rewrite foldl_key_char by (cbn in *; lia).
    rewrite step_key_end; [done|done| |lia|done]. by apply key_ok_scan.
Qed.

(** *** Values of headers *)

Definition value_ok (m : hs_meta_state) : bool :=
  match m with M_WFK | M_CLV | M_SML | M_CHK => true | _ => false end.

Definition content_char (n c : Z) : Z := wrap64 (wrap64 (n * 10) + (c - 48)).

Definition vchar (c : Z) (p : http_parser_t) : http_parser_t :=
  if decide (p_meta p = M_CLV)
  then with_content (content_char (p_content_length p) c) (p_body_consumed p) p else p.

Lemma value_switch p s c (emitted : http_token_t) :
  value_ok (p_meta p) = true ->
  (hs_value_char c ;; mret emitted) (HS_ p s) = (Done emitted, HS_ (vchar c p) s).
Proof.
  intros Hok. destruct p as [cl bc mi hc ps me]. unfold vchar. cbn [p_meta] in *.
  by destruct me.
Qed.

Lemma step_value p i a t c :
  p_state p = HV -> value_ok (p_meta p) = true ->
  0 <= i -> B !! Z.to_nat i = Some c -> value_char c = true ->
  hs_parse_char behind (cfg p i a t true) =
    (Done (Some none_token), cfg (vchar c p) (i + 1) a (token_extend 1 t) true).
Proof.
  intros Hp Hok Hi Hc Hv.
  rewrite (parse_char_at _ _ _ _ _ c HV Hi Hc);
    [|rewrite Hp; by apply value_value|by destruct (p_meta p)].
  rewrite Hp. apply (consume_after _ _ none_token _ i a t false); [|done].
  assert (with_state HV p = p) as -> by (destruct p; cbn in *; by subst).
  unfold hs_transition_action. rewrite (bind_done _ _ _ none_token (cfg p i a t false)) by done.
  by apply value_switch.
Qed.

Lemma step_value_begin p i a k c :
  p_state p = HS -> value_ok (p_meta p) = true ->
  0 <= i -> B !! Z.to_nat i = Some c -> visible c = true ->
  hs_parse_char behind (cfg p i a none_token k) =
    (Done (Some none_token), cfg (vchar c (with_match 0 (with_state HV p))) (i + 1) a
       (Token i 1 HS_TOK_HEADER_VAL) true).
Proof.
  intros Hp Hok Hi Hc Hv.
  rewrite (parse_char_at _ _ _ _ _ c HV Hi Hc);
    [|rewrite Hp; by apply visible_value|by destruct (p_meta p)].
  rewrite Hp. apply (consume_after _ _ none_token _ i a (Token i 0 HS_TOK_HEADER_VAL) false);
    [|done].
  unfold hs_transition_action.
  rewrite (bind_done _ _ _ none_token
    (cfg (with_match 0 (with_state HV p)) i a (Token i 0 HS_TOK_HEADER_VAL) false)) by done.
  by apply value_switch.
Qed.

Definition content_of (m : hs_meta_state) (n : Z) (v : list Z) : Z :=
  if decide (m = M_CLV) then foldl content_char n v else n.

Lemma foldl_vchar v : forall p,
  foldl (fun p c => vchar c p) p v =
    with_content (content_of (p_meta p) (p_content_length p) v) (p_body_consumed p) p.
Proof.
  unfold content_of. induction v as [|c v IH]; intros p; cbn [foldl].
  - case_decide; by destruct p.
  - rewrite IH. unfold vchar. destruct p as [cl bc mi hc ps me]. cbn [p_meta].
    by destruct (decide (me = M_CLV)); cbn; [rewrite decide_True|rewrite decide_False].
Qed.

Lemma parse_value cl bc mi hc meta i a k ws c cs :
  ws <> [] -> Forall (fun c => blank_char c = true) ws ->
  value_ok meta = true -> visible c = true -> Forall (fun c => value_char c = true) cs ->
  seg i (ws ++ (c :: cs) ++ [13]) ->
  http_parse behind (cfg (Parser cl bc mi hc HS meta) i a none_token k) =
    (Done (Token (i + Z.of_nat (length ws)) (Z.of_nat (length (c :: cs))) HS_TOK_HEADER_VAL),
     cfg (Parser (content_of meta cl (c :: cs)) bc 0 hc HR (trig meta HS_META_END_VALUE))
       (i + Z.of_nat (length ws) + Z.of_nat (length (c :: cs)) + 1) a none_token true).
Proof.
  intros Hne Hws Hok Hc Hcs [Hsp Hseg']%seg_app.
  pose proof (seg_cons _ _ _ (proj1 (seg_app _ _ _ Hseg'))) as (_ & Hb' & _).
  apply http_parse_emits; [by destruct meta..|].
  set (p := Parser cl bc mi hc HS meta).
  rewrite (loop_spaces p a ws i k) by (try done; by destruct meta).
  pose proof (proj1 Hsp) as Hi. set (j := i + Z.of_nat (length ws)) in *.
  set (p0 := with_match 0 (with_state HV p)).
  assert (forall l, foldl (fun p c => vchar c p) (vchar c p0) l =
                    with_content (content_of meta cl (c :: l)) bc p0) as Hfold.
  { intros l. exact (foldl_vchar (c :: l) p0). }
  apply (loop_token HS_TOK_HEADER_VAL HV (fun c => value_char c = true) vchar
    (fun p => value_ok (p_meta p) = true) c cs 13 _ (vchar c p0)); try done.
  - intros q Hq d. unfold vchar. by case_decide.
  - intros q d j0 b t Hq Hqs Hd Hj Hbj. by apply step_value.
  - intros n Hn. by rewrite Hfold.
  - unfold vchar. by case_decide.
  - apply step_value_begin; try done. unfold j; lia.
  - intros Hd. rewrite Hfold.
    rewrite (step_value_end _ _ _ _ _ HV HR (trig meta HS_META_END_VALUE));
      [done|tauto|done| | |unfold j; lia|done].
    + by destruct meta.
    + apply trig_eq; [by destruct meta|unfold HS_META_END_VALUE, HS_META_TYPE_LEN; lia].
Qed.

(** *** The end of the headers and the body *)

Context (Hsmall : Z.of_nat (length B) <= HTTP_MAX_REQUEST_BUF_SIZE).

Definition no_body (m : hs_meta_state) (n : Z) : bool :=
  bool_decide (m = M_ANY) || (n =? 0).

Lemma step_headers_end cl bc mi hc meta i a k :
  meta = M_ANY \/ (meta = M_SML /\ 0 <= cl <= HTTP_MAX_REQUEST_BUF_SIZE - i + 1) ->
  0 <= i -> B !! Z.to_nat i = Some 10 ->
  hs_parse_char behind (cfg (Parser cl bc mi hc ER meta) i a none_token k) =
    (Done (Some (if no_body meta cl then Token 0 0 HS_TOK_BODY else none_token)),
     cfg (Parser cl bc 0 hc HN (if no_body meta cl then M_END else M_BDY)) (i + 1) a none_token true).
Proof.
  intros Hm Hi Hc.
  rewrite (parse_char_at _ _ _ _ _ 10 HN Hi Hc);
    [|done|by destruct Hm as [->|[-> _]]].
  set (tok := if no_body meta cl then _ else _).
  rewrite (consume_after _ _ tok
    (Parser cl bc 0 hc HN (if no_body meta cl then M_END else M_BDY)) i a none_token false);
    [done| |done].
  unfold hs_transition_action. cbn [p_state].
  rewrite (bind_done _ _ _ _ _ (enter_quiet ER HN (cfg (Parser cl bc mi hc HN meta) i a none_token false)
    ltac:(done) ltac:(done) ltac:(done) ltac:(done) ltac:(done) eq_refl)).
  unfold tok, no_body. destruct Hm as [->|[-> Hcl]].
  - destruct (decide (cl = 0)) as [->|Hcl]; [reflexivity|].
    unfold hs_headers_end. destruct cl; done.
  - unfold hs_headers_end. rewrite (bind_done get _ _ _ _ eq_refl).
    rewrite (bind_done _ _ _ tt (cfg (Parser cl bc 0 hc HN M_SML) i a none_token false)).
    2: { cbn. unfold hs_stream_can_contain. cbn. by rewrite (proj2 (Z.leb_le _ _)) by lia. }
    destruct cl as [|n|n]; [reflexivity|reflexivity|lia].
Qed.

Lemma step_body n bc mi hc i a k c :
  0 < n -> bc = 0 -> i + n <= Z.of_nat (length B) ->
  0 <= i -> B !! Z.to_nat i = Some c -> hs_char_type_of c <> None ->
  hs_parse_char behind (cfg (Parser n bc mi hc HN M_BDY) i a none_token k) =
    (Done (Some (Token i n HS_TOK_BODY)),
     cfg (Parser 0 0 0 hc BD M_END) (i + n) i none_token true).
Proof.
  intros Hn -> Hin Hi Hc Hty. unfold HTTP_MAX_REQUEST_BUF_SIZE in Hsmall.
  assert (goes HN c BD = true) as Hgo.
  { unfold goes. destruct (hs_char_type_of c) as [ty|]; [|done]. by destruct ty. }
  rewrite (parse_char_at _ _ _ _ _ c BD Hi Hc); [|done|done].
  assert (hs_transition_action behind c HN BD
            (cfg (Parser n 0 mi hc BD M_BDY) i a none_token false) =
          (Done (Token i n HS_TOK_BODY), cfg (Parser 0 0 0 hc BD M_END) (i + n) i none_token true))
    as E; [|by run_bind E].
  unfold hs_transition_action.
  rewrite (bind_done _ _ _ none_token
    (cfg (Parser n 0 0 hc BD M_BDY) i i (Token i 0 HS_TOK_BODY) false)) by done.
  unfold hs_body. rewrite (bind_done (gets h_parser) _ _ _ _ eq_refl).
  rewrite (bind_done _ _ _ tt (cfg (Parser n 0 0 hc BD M_BDY) i i (Token i 0 HS_TOK_BODY) false)) by done.
  rewrite (bind_done _ _ _ true
    (cfg (Parser n 0 0 hc BD M_BDY) (i + n) i (Token i n HS_TOK_BODY) true)); [done|].
  cbn [p_content_length p_body_consumed cfg h_parser]. rewrite Z.sub_0_r, wrap32_id by lia.
  unfold hs_stream_jump. rewrite (bind_done _ _ _ tt
    (cfg (Parser n 0 0 hc BD M_BDY) i i (Token i 0 HS_TOK_BODY) true)) by done.
  rewrite (bind_done (gets h_stream) _ _ _ _ eq_refl).
  cbn [cfg h_stream s_length s_index]. rewrite wrap32_id by lia.
  rewrite (proj2 (Z.ltb_ge _ _)) by lia.
  rewrite (bind_done _ _ _ tt (cfg (Parser n 0 0 hc BD M_BDY) (i + n) i (Token i n HS_TOK_BODY) true));
    [done|]. unfold on_stream, modify, cfg. cbn. by rewrite wrap32_id by lia.
Qed.

(** The blank line, and the body if there is one. *)
Lemma parse_end cl mi hc meta i a k body :
  (meta = M_ANY /\ body = []) \/ (meta = M_SML /\ cl = Z.of_nat (length body)) ->
  Forall (fun c => hs_char_type_of c <> None) body ->
  seg i (10 :: 13 :: 10 :: body) ->
  exists p a',
  http_parse behind (cfg (Parser cl 0 mi hc HR meta) i a none_token k) =
    (Done (Token (match body with [] => 0 | _ => i + 3 end) (Z.of_nat (length body)) HS_TOK_BODY),
     cfg p (i + 3 + Z.of_nat (length body)) a' none_token true) /\ p_meta p = M_END.
Proof.
  intros Hm Hbody H1.
  pose proof (seg_cons _ _ _ H1) as (Hi & B1 & H2).
  pose proof (seg_cons _ _ _ H2) as (_ & B2 & H3).
  pose proof (seg_cons _ _ _ H3) as (_ & B3 & H4).
  set (p := Parser cl 0 mi hc HR meta).
  assert (p_meta p <> M_ZER /\ p_meta p <> M_SEN /\ p_meta p <> M_END) as (Hz & Hs & He)
    by (cbn; destruct Hm as [[-> _]|[-> _]]; done).
  assert (forall j l, seg j l -> j + Z.of_nat (length l) <= Z.max j (Z.of_nat (length B))) as Hfit.
  { intros j l [Hj Hl]. destruct (decide (l = [])) as [->|Hne]; [cbn; lia|].
    destruct (lookup_lt_is_Some_2 l (pred (length l))) as [c Hc].
    { destruct l; cbn; [done|lia]. }
    specialize (Hl _ _ Hc). apply lookup_lt_Some in Hl, Hc. lia. }
  pose proof (Hfit _ _ H1) as Hfit1. cbn [length] in Hfit1.
  assert (0 <= i < Z.of_nat (length B)) as L1 by (apply lookup_lt_Some in B1; lia).
  assert (0 <= i + 1 < Z.of_nat (length B)) as L2 by (apply lookup_lt_Some in B2; lia).
  assert (0 <= i + 1 + 1 < Z.of_nat (length B)) as L3 by (apply lookup_lt_Some in B3; lia).
  set (p1 := Parser cl 0 0 hc HE meta).
  assert (run_loop (cfg p i a none_token k) =
          run_loop (cfg (Parser cl 0 0 hc ER meta) (i + 1 + 1) a none_token true)) as E.
  { rewrite (loop_skip p i a none_token k p1 a none_token true L1).
    - apply (loop_skip p1 (i + 1) a none_token true (Parser cl 0 0 hc ER meta) a none_token true L2).
      apply (step_quiet p1 (i + 1) a true 13 HE ER); try done; [unfold is_quiet; tauto|lia].
    - apply (step_quiet p i a k 10 HR HE); try done. unfold is_quiet; tauto. }
  assert (meta = M_ANY \/ meta = M_SML /\ 0 <= cl <= HTTP_MAX_REQUEST_BUF_SIZE - (i + 1 + 1) + 1)
    as Hm' by (destruct Hm as [[-> _]|[-> ->]]; [by left|right; split; [done|lia]]).
  pose proof (step_headers_end cl 0 0 hc meta (i + 1 + 1) a true Hm' ltac:(lia) B3) as E3.
  assert (no_body meta cl = bool_decide (body = [])) as Hno.
  { unfold no_body. destruct Hm as [[-> ->]|[-> ->]]; [done|]. by destruct body. }
  rewrite Hno in E3. destruct body as [|c body].
  - eexists _, _. split.
    + apply http_parse_emits; [done..|]. rewrite E. rewrite (loop_emit _ _ _ E3) by done.
      cbn [length]. by replace (i + 3 + Z.of_nat 0) with (i + 1 + 1 + 1) by lia.
    + done.
  - destruct Hm as [[_ [=]]|[-> Hcl]].
    rewrite bool_decide_eq_false_2 in E3 by done. cbn match in E3.
    pose proof (seg_cons _ _ _ H4) as (_ & B4 & _). apply Forall_cons in Hbody as [Hty _].
    assert (0 < cl) as Hpos by (rewrite Hcl; cbn; lia).
    assert (i + 1 + 1 + 1 + cl <= Z.of_nat (length B)) as Hin by (rewrite Hcl; cbn [length] in *; lia).
    pose proof (step_body cl 0 0 hc (i + 1 + 1 + 1) a true c Hpos eq_refl Hin ltac:(lia) B4 Hty) as E4.
    eexists _, _. split.
    + apply http_parse_emits; [done..|]. rewrite E.
      rewrite (loop_skip _ _ _ _ _ _ _ _ _ L3 E3). rewrite (loop_emit _ _ _ E4) by done.
      rewrite <- Hcl. replace (i + 1 + 1 + 1) with (i + 3) by lia. done.
    + done.
Qed.

(** *** All headers *)

(** The text a token stands for. *)
Definition token_text (t : http_token_t) : list Z :=
  take (Z.to_nat (t_len t)) (drop (Z.to_nat (t_index t)) B).

(** The token has the type and the text of [e]. *)
Definition token_is (e : hs_token * list Z) (t : http_token_t) : Prop :=
  t_type t = e.1 /\ token_text t = e.2 /\ 0 <= t_index t /\ t_len t = Z.of_nat (length e.2).

Lemma seg_token i l ty : seg i l -> token_is (ty, l) (Token i (Z.of_nat (length l)) ty).
Proof.
  intros [Hi Hl]. split; [done|]. split; [|by split]. unfold token_text. cbn. rewrite Nat2Z.id.
  apply list_eq. intros k. destruct (decide (k < length l)%nat) as [Hk|Hk].
  - rewrite lookup_take_lt, lookup_drop by done.
    destruct (lookup_lt_is_Some_2 l k Hk) as [c Hc]. rewrite Hc. by apply Hl.
  - by rewrite lookup_take_ge, lookup_ge_None_2 by lia.
Qed.

(** [n] calls of [http_parse]. *)
Fixpoint parse_tokens (n : nat) : M hs (list http_token_t) :=
  match n with
  | O => mret []
  | S n' => t ← http_parse behind; ts ← parse_tokens n'; mret (t :: ts)
  end.

Lemma parse_tokens_cons n h t h1 ts h2 :
  http_parse behind h = (Done t, h1) -> parse_tokens n h1 = (Done ts, h2) ->
  parse_tokens (S n) h = (Done (t :: ts), h2).
Proof. intros E1 E2. cbn [parse_tokens]. run_bind E1. by run_bind E2. Qed.

Definition header_meta (meta : hs_meta_state) (k : list Z) : hs_meta_state :=
  trig (trig (key_scan 0 meta k) HS_META_END_KEY) HS_META_END_VALUE.
Definition header_length (meta : hs_meta_state) (n : Z) (kv : list Z * list Z) : Z :=
  content_of (trig (key_scan 0 meta kv.1) HS_META_END_KEY) n kv.2.

Definition headers_meta (meta : hs_meta_state) (n : Z) (hs : list (list Z * list Z)) :
    hs_meta_state * Z :=
  foldl (fun '(meta, n) kv => (header_meta meta kv.1, header_length meta n kv)) (meta, n) hs.

Definition header_ok (kv : list Z * list Z) : Prop :=
  kv.1 <> [] /\ Forall (fun c => tchar c = true) kv.1 /\ Z.of_nat (length kv.1) < 32768 /\
  key_meta kv.1 <> M_MTE /\
  match kv.2 with [] => False | c :: _ => visible c = true end /\
  Forall (fun c => value_char c = true) kv.2.

Lemma header_meta_any kv :
  header_ok kv ->
  (key_meta kv.1 = M_MCL /\ trig (key_scan 0 M_ANY kv.1) HS_META_END_KEY = M_CLV) \/
  (key_meta kv.1 = M_WFK /\ trig (key_scan 0 M_ANY kv.1) HS_META_END_KEY = M_WFK).
Proof.
  intros (Hne & Hk & _ & Hte & _). rewrite key_scan_meta by done. unfold key_meta in *.
  repeat case_decide; tauto.
Qed.

Lemma header_value_ok meta kv :
  meta = M_ANY \/ meta = M_SML -> header_ok kv ->
  value_ok (trig (key_scan 0 meta kv.1) HS_META_END_KEY) = true.
Proof.
  intros [->| ->] Hkv.
  - by destruct (header_meta_any kv Hkv) as [[_ ->]|[_ ->]].
  - by rewrite key_scan_done by tauto.
Qed.

Lemma header_meta_next meta kv :
  meta = M_ANY \/ meta = M_SML -> header_ok kv ->
  header_meta meta kv.1 = M_ANY \/ header_meta meta kv.1 = M_SML.
Proof.
  intros [->| ->] Hkv; unfold header_meta.
  - destruct (header_meta_any kv Hkv) as [[_ ->]|[_ ->]]; [by right|by left].
  - rewrite key_scan_done by tauto. by right.
Qed.

Definition header_bytes (kv : list Z * list Z) : list Z :=
  10 :: kv.1 ++ 58 :: 32 :: kv.2 ++ [13].

Definition header_tokens (hs : list (list Z * list Z)) : list (hs_token * list Z) :=
  concat ((fun kv => [(HS_TOK_HEADER_KEY, kv.1); (HS_TOK_HEADER_VAL, kv.2)]) <$> hs).

Lemma parse_header cl mi hc st meta i a k kv :
  st = RR \/ st = HR -> meta = M_ANY \/ meta = M_SML -> 0 <= hc < 127 -> header_ok kv ->
  seg i (header_bytes kv) ->
  exists t1 h1 t2,
    http_parse behind (cfg (Parser cl 0 mi hc st meta) i a none_token k) = (Done t1, h1) /\
    http_parse behind h1 =
      (Done t2, cfg (Parser (header_length meta cl kv) 0 0 (hc + 1) HR (header_meta meta kv.1))
                  (i + Z.of_nat (length (header_bytes kv))) a none_token true) /\
    token_is (HS_TOK_HEADER_KEY, kv.1) t1 /\ token_is (HS_TOK_HEADER_VAL, kv.2) t2.
Proof.
  intros Hst Hm Hhc Hkv Hseg. pose proof (header_value_ok meta kv Hm Hkv) as Hvok.
  unfold header_meta, header_length.
  destruct Hkv as (Hne & Hk & Hlen & _ & Hv & Hvs). destruct kv as [[|kc kcs] [|vc vcs]]; try done.
  cbn [fst snd] in *. unfold header_bytes in Hseg. cbn [fst snd] in Hseg.
  change (10 :: (kc :: kcs) ++ 58 :: 32 :: (vc :: vcs) ++ [13]) with
    ((10 :: kc :: kcs) ++ [58] ++ 32 :: (vc :: vcs) ++ [13]) in Hseg.
  rewrite (assoc_L (++)) in Hseg. apply seg_app in Hseg as [Hs1 Hs2].
  assert (key_ok meta = true) as Hkok by (by destruct Hm as [->| ->]).
  pose proof (parse_key cl 0 mi hc st meta i a k kc kcs Hst Hkok Hhc Hk Hlen Hs1) as E1.
  set (j := i + 1 + Z.of_nat (length (kc :: kcs)) + 1) in *.
  replace (i + _) with j in Hs2 by (unfold j; rewrite length_app; cbn [length]; lia).
  apply Forall_cons in Hvs as [_ Hvs].
  pose proof (parse_value cl 0 0 (hc + 1) _ j a true [32] vc vcs ltac:(done)
    ltac:(by repeat constructor) Hvok Hv Hvs Hs2) as E2.
  eexists _, _, _. split; [exact E1|]. split.
  { assert (i + Z.of_nat (length (header_bytes (kc :: kcs, vc :: vcs))) =
            j + 1 + Z.of_nat (length (vc :: vcs)) + 1) as ->; [|exact E2].
    unfold j, header_bytes. cbn [fst snd]. repeat (cbn [length] || rewrite length_app). lia. }
  split; apply seg_token.
  - exact (proj1 (seg_app _ (kc :: kcs) [58] (proj2 (proj2 (seg_cons _ _ _ Hs1))))).
  - exact (proj1 (seg_app _ (vc :: vcs) [13] (proj2 (proj2 (seg_cons _ _ _ Hs2))))).
Qed.

Lemma parse_headers n h2 ts : forall hs cl mi hc st meta i a k,
  hs <> [] -> st = RR \/ st = HR -> meta = M_ANY \/ meta = M_SML ->
  0 <= hc -> hc + Z.of_nat (length hs) <= 127 -> Forall header_ok hs ->
  seg i (concat (header_bytes <$> hs)) ->
  parse_tokens n (cfg (Parser (headers_meta meta cl hs).2 0 0 (hc + Z.of_nat (length hs)) HR
                         (headers_meta meta cl hs).1)
                    (i + Z.of_nat (length (concat (header_bytes <$> hs)))) a none_token true) =
    (Done ts, h2) ->
  exists ts0,
    parse_tokens (2 * length hs + n) (cfg (Parser cl 0 mi hc st meta) i a none_token k) =
      (Done (ts0 ++ ts), h2) /\ Forall2 token_is (header_tokens hs) ts0.
Proof.
  induction hs as [|kv hs IH]; [done|].
  intros cl mi hc st meta i a k _ Hst Hm Hhc Hlen Hok Hseg Erest.
  apply Forall_cons in Hok as [Hkv Hok]. cbn [fmap list_fmap concat length] in *.
  apply seg_app in Hseg as [Hs1 Hs2].
  destruct (parse_header cl mi hc st meta i a k kv Hst Hm ltac:(lia) Hkv Hs1)
    as (t1 & h1 & t2 & E1 & E2 & T1 & T2).
  pose proof (header_meta_next meta kv Hm Hkv) as Hm'.
  rewrite length_app, Nat2Z.inj_add, Z.add_assoc in Erest.
  assert (exists ts0, parse_tokens (2 * length hs + n)
     (cfg (Parser (header_length meta cl kv) 0 0 (hc + 1) HR (header_meta meta kv.1))
        (i + Z.of_nat (length (header_bytes kv))) a none_token true) = (Done (ts0 ++ ts), h2) /\
     Forall2 token_is (header_tokens hs) ts0) as (ts0 & E & Ty).
  { destruct hs as [|kv' hs'].
    - exists []. split; [|constructor]. cbn in *. rewrite Z.add_0_r in Erest. exact Erest.
    - apply IH; try done; [by right|lia|lia|].
      rewrite <- Erest. do 3 f_equal. lia. }
  exists (t1 :: t2 :: ts0). split.
  - replace (2 * S (length hs) + n)%nat with (S (S (2 * length hs + n))) by lia.
    cbn [app]. eapply parse_tokens_cons; [exact E1|]. by eapply parse_tokens_cons.
  - constructor; [exact T1|]. constructor; [exact T2|exact Ty].
Qed.
End Steps.

(** ** Requests *)

Record message := Msg {
  m_method : list Z;
  m_target : list Z;
  m_version : list Z;
  m_headers : list (list Z * list Z);
  m_body : list Z;
}.

Definition crlf : list Z := [13; 10].

(** The text of a request. *)
Definition print_header (kv : list Z * list Z) : list Z := kv.1 ++ chars ": " ++ kv.2 ++ crlf.
Definition print (m : message) : list Z :=
  m_method m ++ [32] ++ m_target m ++ [32] ++ m_version m ++ crlf ++
  concat (print_header <$> m_headers m) ++ crlf ++ m_body m.

(** Digits as a number. *)
Definition decimal_from (n : Z) (v : list Z) : Z := foldl (fun n c => n * 10 + (c - 48)) n v.
Definition decimal (v : list Z) : Z := decimal_from 0 v.

(** The length the first header says that the parser takes for
    [Content-Length]. *)
Fixpoint announced (hs : list (list Z * list Z)) : option (list Z) :=
  match hs with
  | [] => None
  | kv :: hs => if decide (key_meta kv.1 = M_MCL) then Some kv.2 else announced hs
  end.

Definition starts_with (P : Z -> bool) (l : list Z) : Prop :=
  match l with [] => False | c :: _ => P c = true end.

(** A request the parser is made for: it has a header, no [Transfer-Encoding],
    and a body only as long as [Content-Length] says. *)
Record well_formed (m : message) : Prop := {
  wf_method : starts_with letter (m_method m) /\ Forall (fun c => tchar c = true) (m_method m);
  wf_target : starts_with colon_free (m_target m) /\ Forall (fun c => visible c = true) (m_target m);
  wf_version : m_version m <> [] /\ Forall (fun c => colon_free c = true) (m_version m);
  wf_headers : m_headers m <> [] /\ Z.of_nat (length (m_headers m)) <= HTTP_MAX_HEADER_COUNT /\
               Forall header_ok (m_headers m);
  wf_body : Forall (fun c => -128 <= c < 128) (m_body m);
  wf_length : match announced (m_headers m) with
              | None => m_body m = []
              | Some v => Forall (fun c => digit c = true) v /\
                          decimal v = Z.of_nat (length (m_body m))
              end;
  wf_size : Z.of_nat (length (print m)) <= HTTP_MAX_REQUEST_BUF_SIZE;
}.

Lemma decimal_from_le v : forall n,
  0 <= n -> Forall (fun c => digit c = true) v -> n <= decimal_from n v.
Proof.
  induction v as [|c v IH]; intros n Hn Hv; [reflexivity|].
  apply Forall_cons in Hv as [Hc Hv]. unfold digit in Hc.
  rewrite andb_true_iff, !Z.leb_le in Hc. unfold decimal_from in *. cbn [foldl].
  specialize (IH (n * 10 + (c - 48)) ltac:(lia) Hv). lia.
Qed.

Lemma content_chars v : forall n,
  0 <= n -> Forall (fun c => digit c = true) v -> decimal_from n v < 2 ^ 63 ->
  foldl content_char n v = decimal_from n v.
Proof.
  induction v as [|c v IH]; intros n Hn Hv Hlt; [reflexivity|].
  apply Forall_cons in Hv as [Hc Hv]. unfold digit in Hc.
  rewrite andb_true_iff, !Z.leb_le in Hc.
  pose proof (decimal_from_le v (n * 10 + (c - 48)) ltac:(lia) Hv) as Hle.
  unfold decimal_from in *. cbn [foldl] in *.
  assert (content_char n c = n * 10 + (c - 48)) as ->.
  { unfold content_char. rewrite (wrapS_id 64 (n * 10)) by (unfold in_signed; lia).
    apply wrapS_id; unfold in_signed; lia. }
  apply IH; [lia|done|done].
Qed.

Lemma headers_framing hs :
  Forall header_ok hs ->
  headers_meta M_ANY 0 hs =
    match announced hs with
    | None => (M_ANY, 0)
    | Some v => (M_SML, foldl content_char 0 v)
    end.
Proof.
  assert (forall n hs, headers_meta M_SML n hs = (M_SML, n)) as Hsml.
  { intros n l. unfold headers_meta. induction l as [|kv l IH]; [done|]. cbn [foldl].
    unfold header_meta, header_length, content_of. by rewrite key_scan_done by tauto. }
  induction hs as [|kv hs IH]; [done|]. intros [Hkv Hok]%Forall_cons.
  unfold headers_meta in *. cbn [foldl announced].
  unfold header_meta, header_length, content_of at 2.
  destruct (header_meta_any kv Hkv) as [[-> ->]|[-> ->]].
  - rewrite !decide_True by done. apply Hsml.
  - rewrite !decide_False by done. by apply IH.
Qed.

(** The bytes as the parser groups them: each header after the line end before it. *)
Lemma print_units hs rest :
  crlf ++ concat (print_header <$> hs) ++ crlf ++ rest =
    [13] ++ concat (header_bytes <$> hs) ++ 10 :: 13 :: 10 :: rest.
Proof.
  induction hs as [|kv hs IH]; [done|]. cbn [fmap list_fmap concat].
  unfold print_header at 1, header_bytes at 1. rewrite <- !(assoc_L (++)), IH.
  change (chars ": ") with [58; 32]. unfold crlf.
  repeat (cbn [app] || rewrite <- (assoc_L (++))). done.
Qed.

Lemma char_type_total c : -128 <= c < 128 -> hs_char_type_of c <> None.
Proof.
  intros Hc. unfold hs_char_type_of. case_match; [done|].
  assert (Z.to_nat c < length hs_ctype)%nat as Hlt
    by (change (length hs_ctype) with 128%nat; apply Z.ltb_ge in H; lia).
  by destruct (lookup_lt_is_Some_2 hs_ctype (Z.to_nat c) Hlt) as [ty ->].
Qed.

(** The tokens of a request. *)
Definition message_tokens (m : message) : list (hs_token * list Z) :=
  [(HS_TOK_METHOD, m_method m); (HS_TOK_TARGET, m_target m); (HS_TOK_VERSION, m_version m)] ++
  header_tokens (m_headers m) ++ [(HS_TOK_BODY, m_body m)].

(** A connection that has read the bytes [B]. *)
Definition received (B : list Z) (tb cap : Z) : hs :=
  HS_ http_parser_zero (Stream (Some B) tb cap (Z.of_nat (length B)) 0 0 none_token false).

(** The request line. *)
Lemma parse_request_line behind B tb cap mc mcs tc tcs vc vcs rest n ts h :
  letter mc = true -> Forall (fun c => tchar c = true) mcs ->
  colon_free tc = true -> Forall (fun c => visible c = true) tcs ->
  colon_free vc = true -> Forall (fun c => colon_free c = true) vcs ->
  seg B 0 ((mc :: mcs) ++ [32] ++ (tc :: tcs) ++ [32] ++ (vc :: vcs) ++ [13] ++ rest) ->
  let i := Z.of_nat (length ((mc :: mcs) ++ [32] ++ (tc :: tcs) ++ [32] ++ (vc :: vcs) ++ [13])) in
  seg B i rest /\
  (parse_tokens behind n (cfg B tb cap (Parser 0 0 0 0 RR M_ANY) i 0 none_token true) =
     (Done ts, h) ->
   exists ts0,
   parse_tokens behind (3 + n) (cfg B tb cap http_parser_zero 0 0 none_token false) =
     (Done (ts0 ++ ts), h) /\
   Forall2 (token_is B) [(HS_TOK_METHOD, mc :: mcs); (HS_TOK_TARGET, tc :: tcs);
                         (HS_TOK_VERSION, vc :: vcs)] ts0).
Proof.
  intros Wm1 Wm Wt1 Wt Wv1 Wv Hseg i.
  apply seg_delim in Hseg as [S1 Hseg]. apply seg_delim in Hseg as [S2 Hseg].
  apply seg_delim in Hseg as [S3 S4].
  assert (0 + Z.of_nat (length (mc :: mcs)) + 1 + Z.of_nat (length (tc :: tcs)) + 1 +
            Z.of_nat (length (vc :: vcs)) + 1 = i) as Ei
    by (unfold i; repeat (cbn [length] || rewrite length_app); lia).
  rewrite Ei in S4. split; [done|]. intros E.
  pose proof (parse_token behind B tb cap http_parser_zero 0 0 false mc mcs ST MT MS
    ltac:(tauto) eq_refl eq_refl (letter_method _ Wm1) (Forall_impl _ _ _ Wm tchar_method) S1) as E1.
  pose proof (parse_token behind B tb cap (Parser 0 0 0 0 MS M_WFK) _ 0 true tc tcs MS TR TS
    ltac:(tauto) eq_refl eq_refl (colon_free_target _ Wt1) (Forall_impl _ _ _ Wt visible_target) S2)
    as E2.
  pose proof (parse_version behind B tb cap (Parser 0 0 0 0 TS M_WFK) _ 0 true vc vcs
    eq_refl eq_refl Wv1 Wv S3) as E3.
  rewrite Ei in E3. eexists [_; _; _]. split.
  - cbn [app Nat.add]. eapply parse_tokens_cons; [exact E1|].
    eapply parse_tokens_cons; [exact E2|]. eapply parse_tokens_cons; [exact E3|exact E].
  - apply seg_app in S1 as [S1 _], S2 as [S2 _], S3 as [S3 _].
    repeat (constructor; [by apply (seg_token B)|]). constructor.
Qed.

(** All calls up to the body. *)
Lemma parse_message behind m tb cap :
  well_formed m ->
  exists ts p i a,
    parse_tokens behind (4 + 2 * length (m_headers m)) (received (print m) tb cap) =
      (Done ts, cfg (print m) tb cap p i a none_token true) /\
    Forall2 (token_is (print m)) (message_tokens m) ts /\ p_meta p = M_END.
Proof.
  intros [[Wm1 Wm] [Wt1 Wt] [Wv1 Wv] (Wh1 & Wh2 & Wh) Wb Wl Ws].
  set (B := print m) in *.
  assert (B = m_method m ++ [32] ++ m_target m ++ [32] ++ m_version m ++ [13] ++
            concat (header_bytes <$> m_headers m) ++ 10 :: 13 :: 10 :: m_body m) as EB
    by (unfold B, print; by rewrite print_units).
  assert (length (m_body m) <= length B)%nat as Hbl
    by (rewrite EB, !length_app; cbn [length]; lia).
  assert (seg B 0 B) as Hseg by (by split). rewrite EB in Hseg at 2.
  unfold message_tokens. clear EB.
  destruct (m_method m) as [|mc mcs], (m_target m) as [|tc tcs], (m_version m) as [|vc vcs]; try done.
  apply Forall_cons in Wm as [_ Wm], Wt as [_ Wt], Wv as [Wv2 Wv].
  pose proof (fun n ts h => parse_request_line behind B tb cap mc mcs tc tcs vc vcs _ n ts h
    Wm1 Wm Wt1 Wt Wv2 Wv Hseg) as Hline. cbv zeta in Hline.
  set (i := Z.of_nat (length _)) in Hline. clearbody i.
  destruct (Hline 0%nat [] (received [] 0 0)) as [Hrest _]. apply seg_app in Hrest as [S4 S5].
  set (hs := m_headers m) in *. set (hd := headers_meta M_ANY 0 hs).
  set (j := i + Z.of_nat (length (concat (header_bytes <$> hs)))) in *.
  assert ((hd.1 = M_ANY /\ m_body m = []) \/ (hd.1 = M_SML /\ hd.2 = Z.of_nat (length (m_body m))))
    as Hbody.
  { unfold hd. rewrite headers_framing by done.
    destruct (announced hs) as [v|]; [|by left]. right. split; [done|].
    destruct Wl as [Hv Hlen]. rewrite <- Hlen. cbn [snd]. apply content_chars; [done|done|].
    fold (decimal v). rewrite Hlen. unfold HTTP_MAX_REQUEST_BUF_SIZE in Ws. lia. }
  destruct (parse_end behind B tb cap Ws hd.2 0 (0 + Z.of_nat (length hs)) hd.1 j 0 true (m_body m)
    Hbody (Forall_impl _ _ _ Wb char_type_total) S5) as (p & a' & E5 & Hend).
  pose proof (parse_tokens_cons behind 0 _ _ _ [] _ E5 eq_refl) as E5'.
  destruct (parse_headers behind B tb cap 1 _ _ hs 0 0 0 RR M_ANY i 0 true Wh1 ltac:(tauto)
    ltac:(tauto) ltac:(lia) Wh2 Wh S4 E5') as (ts1 & E4 & Ty1).
  destruct (proj2 (Hline _ _ _) E4) as (ts0 & E & Ty0).
  eexists (ts0 ++ ts1 ++ [_]), p, _, a'. split; [|split; [|done]].
  - replace (4 + 2 * length hs)%nat with (3 + (2 * length hs + 1))%nat by lia. exact E.
  - apply Forall2_app; [exact Ty0|]. apply Forall2_app; [exact Ty1|].
    constructor; [|constructor]. destruct (m_body m) as [|bc bcs]; [by split|]. apply seg_token.
    do 3 apply seg_cons in S5 as (_ & _ & S5).
    by replace (j + 3) with (j + 1 + 1 + 1) by lia.
Qed.

(** C4: the parser on the text of a well-formed request, whatever the word
    behind its table is: it finds the method, the target, the version, every
    header's key and value and the body, in this order and with exactly these
    texts, and then ends the request. *)
Theorem parse_printed_request behind m tb cap :
  well_formed m ->
  exists ts h,
    parse_tokens behind (4 + 2 * length (m_headers m)) (received (print m) tb cap) = (Done ts, h) /\
    Forall2 (token_is (print m)) (message_tokens m) ts /\
    http_parse behind h = (Done (Token 0 0 HS_TOK_REQ_END), HS_ http_parser_zero (h_stream h)).
Proof.
  intros Hm. destruct (parse_message behind m tb cap Hm) as (ts & p & i & a & E & Hts & Hend).
  eexists ts, _. split; [exact E|]. split; [exact Hts|].
  destruct p as [cl bc mi hc ps me]. cbn in Hend. by subst me.
Qed.

(** ** An example *)

Definition demo_message : message :=
  Msg (chars "POST") (chars "/run?x=1") (chars "HTTP/1.1")
    [(chars "Host", chars "localhost:9090"); (chars "taskID", chars "17");
     (chars "Content-Length", chars "5")] (chars "hello").

(** A check of all characters of a list. *)
Lemma Forall_check (P : Z -> bool) (l : list Z) :
  forallb P l = true -> Forall (fun c => P c = true) l.
Proof. rewrite forallb_forall, Forall_forall. intros H c Hc. by apply H, list_elem_of_In. Qed.

Lemma header_check k v :
  k <> [] -> forallb tchar k = true -> bool_decide (Z.of_nat (length k) < 32768) = true ->
  bool_decide (key_meta k = M_MTE) = false ->
  match v with [] => false | c :: _ => visible c end = true -> forallb value_char v = true ->
  header_ok (k, v).
Proof.
  intros H1 H2 H3%bool_decide_eq_true H4%bool_decide_eq_false H5 H6. unfold header_ok.
  repeat split; try done; [by apply Forall_check|by destruct v|by apply Forall_check].
Qed.

Lemma demo_well_formed : well_formed demo_message.
Proof.
  split.
  - split; [done|by apply Forall_check].
  - split; [done|by apply Forall_check].
  - split; [done|by apply Forall_check].
  - split; [done|]. split; [done|]. repeat (apply Forall_cons; split); [by apply header_check..|].
    constructor.
  - apply (Forall_impl (fun c => digit c || letter c = true)); [by apply Forall_check|].
    intros c. unfold digit, letter. rewrite !orb_true_iff, !andb_true_iff, !Z.leb_le. lia.
  - split; [by apply Forall_check|done].
  - vm_compute. discriminate.
Qed.

Lemma parse_printed_request_witness :
  exists ts h,
    parse_tokens HS_TOK_ERROR 10 (received (print demo_message) 0 1024) = (Done ts, h) /\
    Forall2 (token_is (print demo_message)) (message_tokens demo_message) ts /\
    http_parse HS_TOK_ERROR h = (Done (Token 0 0 HS_TOK_REQ_END), HS_ http_parser_zero (h_stream h)).
Proof. exact (parse_printed_request HS_TOK_ERROR demo_message 0 1024 demo_well_formed). Defined.
