(* ===== verification/HttpSafety.v ===== *)
(** * HTTP server: the parser on arbitrary input

    Whatever bytes a client sends, up to the end of the headers the parser
    stays inside its tables and its buffer, ends, and reports tokens that lie
    in the bytes it was given. *)

From S2P Require Import Prelude HttpTables HttpParser HttpGrammar.
#[local] Open Scope Z_scope.

(** ** The invariant *)

(** Which framing states go with which parser states before the body ends. *)
Definition phase (st : hs_state) (m : hs_meta_state) : bool :=
  match st, m with
  | (ST | MT | MS | TR | TS | VN), M_WFK => true
  | (RR | RN), M_ANY => true
  | HK, (M_WFK | M_ANY | M_MTE | M_MCL | M_SML | M_CHK) => true
  | (HS | HV), (M_WFK | M_CLV | M_MCK | M_SML | M_CHK) => true
  | (HR | HE | ER), (M_ANY | M_SML | M_CHK) => true
  | (HN | BD), M_BDY => true
  | _, _ => false
  end.

(** The states inside a token. *)
Definition active (st : hs_state) : bool :=
  match st with MT | TR | VN | HK | HV | BD => true | _ => false end.

Definition token_at (st : hs_state) (t : http_token_t) (i : Z) : Prop :=
  if active st
  then t_type t = token_start HS_TOK_NONE st /\ 0 <= t_index t <= i /\ t_index t + t_len t = i
  else t = none_token.

(** The bytes of one connection the invariant speaks of: fewer than a 16-bit
    counter can count. *)
Definition MAX_SAFE : Z := 32767.

Record stream_ok (s : hs_stream_t) : Prop := {
  ok_index : 0 <= s_index s <= s_length s;
  ok_length : s_length s <= MAX_SAFE;
  ok_bytes : s_length s <= Z.of_nat (length (bytes_of s));
  ok_chars : Forall (fun c => -128 <= c < 128) (bytes_of s);
}.

Record head_inv (h : hs) : Prop := {
  inv_phase : phase (p_state (h_parser h)) (p_meta (h_parser h)) = true;
  inv_match : 0 <= p_match_index (h_parser h) <= s_index (h_stream h);
  inv_stream : stream_ok (h_stream h);
  inv_token : token_at (p_state (h_parser h)) (s_token (h_stream h)) (s_index (h_stream h));
}.

(** The tokens that end the headers. *)
Definition ends_head (t : http_token_t) : bool :=
  match t_type t with HS_TOK_ERROR | HS_TOK_BODY | HS_TOK_BODY_STREAM => true | _ => false end.

Definition token_inside (t : http_token_t) (n : Z) : Prop :=
  0 <= t_index t /\ 0 <= t_len t /\ t_index t + t_len t <= n.

(** What a call that read a byte leaves. *)
Definition continues (h : hs) (t : http_token_t) (h' : hs) : Prop :=
  ends_head t = true \/
  (head_inv h' /\ s_buf (h_stream h') = s_buf (h_stream h) /\
   s_length (h_stream h') = s_length (h_stream h) /\
   s_index (h_stream h) < s_index (h_stream h') /\
   (token_type_none t = true \/ token_inside t (s_index (h_stream h')))).

(** ** The transitions *)

Lemma stream_eta s : s_consumed s = false -> s = with_index_token (s_index s) (s_token s) false s.
Proof. destruct s. cbn. by intros ->. Qed.

Section Actions.
Context (behind : hs_token).

(** The state between the action and [hs_stream_consume]. *)
Record acted (s : hs_stream_t) (t : http_token_t) (h : hs) : Prop := {
  act_phase : phase (p_state (h_parser h)) (p_meta (h_parser h)) = true;
  act_match : 0 <= p_match_index (h_parser h) <= s_index s + 1;
  act_stream : exists tok, h_stream h = with_index_token (s_index s) tok false s /\
               token_at (p_state (h_parser h)) tok (s_index s);
  act_token : token_type_none t = true \/ token_inside t (s_index s);
}.

Definition acts (from to : hs_state) (c : Z) (p : http_parser_t) (s : hs_stream_t) : Prop :=
  exists t h,
    hs_transition_action behind c from to (HS_ (with_state to p) s) = (Done t, h) /\
    (ends_head t = true \/ acted s t h).

Context (p : http_parser_t) (s : hs_stream_t) (c : Z).
Context (Hmatch : 0 <= p_match_index p <= s_index s) (Hsmall : s_index s < MAX_SAFE).
Context (Hi : 0 <= s_index s) (Hs : s = with_index_token (s_index s) (s_token s) false s).

Lemma token_off st t i : active st = false -> token_at st t i -> t = none_token.
Proof. unfold token_at. by intros ->. Qed.

Lemma token_on_inside st t i : active st = true -> token_at st t i -> token_inside t i.
Proof. unfold token_at, token_inside. intros ->. lia. Qed.

(** States that are entered without an action. *)
Lemma act_quiet from to :
  match from, to with RR, RN | HR, HE | HE, ER | HS, HS => True | _, _ => False end ->
  phase to (p_meta p) = true -> token_at from (s_token s) (s_index s) -> acts from to c p s.
Proof.
  intros Hft Hph Htok. exists none_token.
  exists (HS_ (if decide (from = to) then with_state to p else with_match 0 (with_state to p)) s).
  split; [destruct from, to; by try destruct Hft|]. right.
  assert (token_at to (s_token s) (s_index s)) by (destruct from, to; by try destruct Hft).
  split; [by case_decide|case_decide; cbn; lia| |by left].
  exists (s_token s). split; [exact Hs|]. by case_decide.
Qed.

(** Inside the tokens of the request line. *)
Lemma act_inside st :
  match st with MT | TR | VN => True | _ => False end ->
  phase st (p_meta p) = true -> token_at st (s_token s) (s_index s) -> acts st st c p s.
Proof.
  intros Hst Hph Htok. exists none_token, (HS_ (with_state st p) s).
  split; [by destruct st|]. right. split; cbn; [done|lia| |by left].
  exists (s_token s). by split; [exact Hs|].
Qed.

Lemma act_begin from to :
  match from, to with ST, MT | MS, TR | TS, VN => True | _, _ => False end ->
  phase to (p_meta p) = true -> token_at from (s_token s) (s_index s) -> acts from to c p s.
Proof.
  intros Hft Hph Htok. exists none_token.
  exists (HS_ (with_match 0 (with_state to p))
    (with_index_token (s_index s) (Token (s_index s) 0 (token_start behind to)) false s)).
  assert (s_token s = none_token) as E by (apply (token_off from) in Htok; [done|by destruct from]).
  split.
  { rewrite Hs at 1. rewrite E. destruct s. destruct from, to; by try destruct Hft. }
  right. split; cbn; [done|lia| |by left]. eexists. split; [reflexivity|].
  unfold token_at. destruct from, to; try by destruct Hft; cbn; (split; [done|lia]).
Qed.

(** A token ends: a space, or the carriage return of a line. *)
Lemma act_emit from to :
  match from, to with MT, MS | TR, TS | VN, RR | HV, HR => True | _, _ => False end ->
  phase from (p_meta p) = true -> token_at from (s_token s) (s_index s) -> acts from to c p s.
Proof.
  intros Hft Hph Htok. exists (s_token s).
  exists (HS_ (match to with
               | RR | HR => with_meta (trig (p_meta p) HS_META_END_VALUE)
                              (with_match 0 (with_state to p))
               | _ => with_match 0 (with_state to p) end)
            (with_index_token (s_index s) none_token false s)).
  assert (token_inside (s_token s) (s_index s)) as Hin.
  { apply (token_on_inside from); [by destruct from, to|done]. }
  split.
  { rewrite Hs at 1. destruct p as [cl bc mi hc ps me]. cbn [p_meta] in *.
    destruct s. destruct from, to; try by destruct Hft; by destruct me. }
  right. destruct p as [cl bc mi hc ps me]. cbn [p_meta p_match_index] in *. split.
  - destruct from, to; try by destruct Hft; by destruct me.
  - destruct to; cbn; lia.
  - eexists. split; [reflexivity|]. destruct from, to; by try destruct Hft.
  - by right.
Qed.

Lemma enter_key_any from :
  from = RN \/ from = HE -> s_token s = none_token ->
  hs_enter behind from HK (HS_ (with_state HK p) s) =
    (Done (if HTTP_MAX_HEADER_COUNT <? wrap16 (p_header_count p + 1)
           then Token 0 0 HS_TOK_ERROR else none_token),
     HS_ (with_match 0 (with_headers (wrap16 (p_header_count p + 1)) (with_state HK p)))
       (with_index_token (s_index s) (Token (s_index s) 0 HS_TOK_HEADER_KEY) false s)).
Proof.
  intros Hfrom E. rewrite Hs at 1. rewrite E. by destruct Hfrom as [->| ->].
Qed.

Lemma key_char_state q :
  0 <= p_match_index q < MAX_SAFE -> p_state q = HK -> key_ok (p_meta q) = true ->
  p_state (key_char c q) = HK /\ key_ok (p_meta (key_char c q)) = true /\
  p_match_index (key_char c q) = p_match_index q + 1.
Proof.
  intros Hm Hq Hok. split; [done|]. split; [by apply key_ok_step|].
  cbn. apply wrapS_id; [lia|]. unfold in_signed, MAX_SAFE in *. lia.
Qed.

Lemma act_key from :
  from = HK \/ from = RN \/ from = HE ->
  phase from (p_meta p) = true -> token_at from (s_token s) (s_index s) -> acts from HK c p s.
Proof.
  intros Hfrom Hph Htok.
  assert (key_ok (p_meta p) = true) as Hok
    by (destruct Hfrom as [->|[->| ->]]; by destruct (p_meta p)).
  set (e := if decide (from = HK) then none_token
            else if HTTP_MAX_HEADER_COUNT <? wrap16 (p_header_count p + 1)
                 then Token 0 0 HS_TOK_ERROR else none_token).
  set (q := if decide (from = HK) then with_state HK p
            else with_match 0 (with_headers (wrap16 (p_header_count p + 1)) (with_state HK p))).
  set (t := if decide (from = HK) then s_token s else Token (s_index s) 0 HS_TOK_HEADER_KEY).
  exists e, (HS_ (key_char c q) (with_index_token (s_index s) t false s)).
  assert (0 <= p_match_index q <= s_index s /\ p_state q = HK /\ p_meta q = p_meta p)
    as (Hq1 & Hq2 & Hq3) by (unfold q; case_decide; cbn; split; try done; lia).
  assert (from = RN \/ from = HE -> hs_enter behind from HK (HS_ (with_state HK p) s) =
    (Done (if HTTP_MAX_HEADER_COUNT <? wrap16 (p_header_count p + 1)
           then Token 0 0 HS_TOK_ERROR else none_token),
     HS_ (with_match 0 (with_headers (wrap16 (p_header_count p + 1)) (with_state HK p)))
       (with_index_token (s_index s) (Token (s_index s) 0 HS_TOK_HEADER_KEY) false s))) as Hkey.
  { intros Hf. apply enter_key_any; [done|]. by destruct Hf as [->| ->]. }
  split.
  - unfold hs_transition_action.
    rewrite (bind_done _ _ _ e (HS_ q (with_index_token (s_index s) t false s))).
    + apply key_switch; [by rewrite Hq3|lia].
    + unfold e, q, t. destruct Hfrom as [->|[->| ->]]; [|apply Hkey; tauto|apply Hkey; tauto].
      rewrite !decide_True by done. by rewrite <- Hs.
  - destruct (key_char_state q) as (H1 & H2 & H3); [lia|done|by rewrite Hq3|].
    destruct (ends_head e) eqn:Ee; [by left|right]. split; cbn [h_parser h_stream].
    + rewrite H1. by destruct (p_meta (key_char c q)).
    + rewrite H3. lia.
    + exists t. split; [done|]. rewrite H1. unfold t.
      destruct Hfrom as [->|[->| ->]]; [done| |];
        (rewrite decide_False by done; split; [done|cbn; lia]).
    + left. unfold e in *. case_decide; [done|]. by case_match.
Qed.

Lemma act_colon :
  phase HK (p_meta p) = true -> token_at HK (s_token s) (s_index s) -> acts HK HS c p s.
Proof.
  intros Hph Htok. exists (s_token s).
  exists (HS_ (with_match 0 (with_meta (trig (p_meta p) HS_META_END_KEY) (with_state HS p)))
            (with_index_token (s_index s) none_token false s)).
  split.
  { rewrite Hs at 1. destruct p as [cl bc mi hc ps me]. cbn [p_meta] in *. by destruct s, me. }
  right. destruct p as [cl bc mi hc ps me]. cbn [p_meta] in *. split; cbn.
  - by destruct me.
  - lia.
  - by exists none_token.
  - right. by apply (token_on_inside HK).
Qed.

(** The value of [Transfer-Encoding] is compared with "chunked". *)
Definition value_after (q : http_parser_t) : http_parser_t :=
  if decide (p_meta q = M_MCK) then
    next_match (with_meta (if lower c =? match_char chunked (p_match_index q) 0 then M_MCK
                           else trig M_MCK HS_META_NOT_CHUNKED) q)
  else vchar c q.

Lemma value_action q s' (emitted : http_token_t) :
  phase HV (p_meta q) = true -> 0 <= p_match_index q ->
  (hs_value_char c ;; mret emitted) (HS_ q s') = (Done emitted, HS_ (value_after q) s').
Proof.
  intros Hph Hq. unfold value_after. case_decide as Hm.
  - destruct q as [cl bc mi hc ps me]. cbn in Hm. subst me. unfold hs_value_char.
    rewrite (bind_done _ _ _ tt
      (HS_ (next_match (with_meta (if lower c =? match_char chunked mi 0 then M_MCK
             else trig M_MCK HS_META_NOT_CHUNKED) (Parser cl bc mi hc ps M_MCK))) s')); [done|].
    rewrite (bind_done (gets h_parser) _ _ _ _ eq_refl). cbn [p_meta h_parser].
    erewrite bind_done by (apply match_at; [done|done|unfold HS_META_NOT_CHUNKED, HS_META_TYPE_LEN; lia]).
    done.
  - apply value_switch. by destruct (p_meta q).
Qed.

Lemma value_after_state q :
  0 <= p_match_index q < MAX_SAFE -> p_state q = HV -> phase HV (p_meta q) = true ->
  p_state (value_after q) = HV /\ phase HV (p_meta (value_after q)) = true /\
  0 <= p_match_index (value_after q) <= p_match_index q + 1.
Proof.
  intros Hm Hq Hok. unfold value_after, vchar. destruct q as [cl bc mi hc ps me].
  cbn [p_match_index p_state p_meta] in *.
  repeat (case_decide || case_match); cbn; repeat split; try done; try lia;
    rewrite wrapS_id; unfold in_signed, MAX_SAFE in *; lia.
Qed.

Lemma act_value from :
  from = HS \/ from = HV ->
  phase from (p_meta p) = true -> token_at from (s_token s) (s_index s) -> acts from HV c p s.
Proof.
  intros Hfrom Hph Htok.
  assert (phase HV (p_meta p) = true) as Hok by (by destruct Hfrom as [->| ->]).
  set (q := if decide (from = HV) then with_state HV p else with_match 0 (with_state HV p)).
  set (t := if decide (from = HV) then s_token s else Token (s_index s) 0 HS_TOK_HEADER_VAL).
  exists none_token, (HS_ (value_after q) (with_index_token (s_index s) t false s)).
  assert (0 <= p_match_index q <= s_index s /\ p_state q = HV /\ p_meta q = p_meta p)
    as (Hq1 & Hq2 & Hq3) by (unfold q; case_decide; cbn; split; try done; lia).
  split.
  - unfold hs_transition_action.
    rewrite (bind_done _ _ _ none_token (HS_ q (with_index_token (s_index s) t false s))).
    + apply value_action; [by rewrite Hq3|lia].
    + unfold q, t. destruct Hfrom as [->| ->]; [|rewrite !decide_True by done; by rewrite <- Hs].
      pose proof (token_off HS _ _ eq_refl Htok) as E. rewrite !decide_False by done.
      rewrite Hs at 1. by rewrite E.
  - destruct (value_after_state q) as (H1 & H2 & H3); [lia|done|by rewrite Hq3|].
    right. split; cbn [h_parser h_stream]; [by rewrite H1|lia| |by left].
    exists t. split; [done|]. rewrite H1. unfold t.
    destruct Hfrom as [->| ->]; [|done]. rewrite decide_False by done. split; [done|cbn; lia].
Qed.

Lemma act_headers_end :
  phase ER (p_meta p) = true -> token_at ER (s_token s) (s_index s) -> acts ER HN c p s.
Proof.
  intros Hph Htok.
  destruct p as [cl bc mi hc ps me]. cbn [p_meta p_match_index] in *.
  destruct (decide (me = M_SML /\ hs_stream_can_contain s cl = true /\ cl <> 0)) as [(-> & Hc & Hne)|Hd].
  - exists none_token, (HS_ (Parser cl bc 0 hc HN M_BDY) s). split.
    + unfold hs_transition_action.
      rewrite (bind_done _ _ _ none_token (HS_ (Parser cl bc 0 hc HN M_SML) s)) by done.
      unfold hs_headers_end. rewrite (bind_done get _ _ _ _ eq_refl).
      rewrite (bind_done _ _ _ tt (HS_ (Parser cl bc 0 hc HN M_SML) s)).
      2: { cbn. by rewrite Hc. }
      by destruct cl.
    + right. split; cbn; [done|lia| |by left]. by exists (s_token s).
  - assert (exists t h, hs_transition_action behind c ER HN
              (HS_ (with_state HN (Parser cl bc mi hc ps me)) s) = (Done t, h) /\ ends_head t = true)
      as (t & h & E & Ht); [|exists t, h; split; [exact E|by left]].
    unfold hs_transition_action.
    rewrite (bind_done _ _ _ none_token (HS_ (Parser cl bc 0 hc HN me) s)) by done.
    unfold hs_headers_end. rewrite (bind_done get _ _ _ _ eq_refl). cbn [h_parser h_stream p_meta
      p_content_length].
    destruct me; try done; [destruct cl; eexists _, _; by split| |destruct cl; eexists _, _; by split].
    destruct (hs_stream_can_contain s cl).
    + destruct cl as [|n|n]; [eexists _, _; by split|exfalso; apply Hd; by repeat split..].
    + destruct cl; eexists _, _; by split.
Qed.

Lemma act_bad from :
  from <> HN -> from <> CS -> from <> BR -> acts from BR c p s.
Proof.
  intros H1 H2 H3.
  assert (exists h, hs_enter behind from BR (HS_ (with_state BR p) s) = (Done none_token, h))
    as [h E].
  { unfold hs_enter. rewrite (decide_False (P := from = HN)), (decide_False (P := from = BR)),
      (decide_False (P := from = CS)) by done.
    destruct (decide (token_start behind BR = HS_TOK_NONE)); by eexists. }
  exists (Token 0 0 HS_TOK_ERROR), h. split; [|by left].
  unfold hs_transition_action. by rewrite (bind_done _ _ _ _ _ E).
Qed.

(** Every transition of the tables up to the body. *)
Lemma act_any from to ty :
  from <> HN -> from <> BD -> phase from (p_meta p) = true ->
  token_at from (s_token s) (s_index s) ->
  hs_transition from ty = Some to -> acts from to c p s.
Proof.
  intros H1 H2 Hph Htok Ht.
  destruct (decide (to = BR)) as [->|Hbr].
  { apply act_bad; [done|by intros ->|intros ->; by destruct (p_meta p)]. }
  destruct (p_meta p) eqn:Em; destruct from; try done; destruct ty; cbv in Ht; simplify_eq;
    first [ apply act_inside; [done|by rewrite Em|done]
          | apply act_begin with (1 := I); [by rewrite Em|done]
          | apply act_quiet with (1 := I); [by rewrite Em|done]
          | apply act_emit with (1 := I); [by rewrite Em|done]
          | apply act_key; [tauto|by rewrite Em|done]
          | apply act_colon; [by rewrite Em|done]
          | apply act_value; [tauto|by rewrite Em|done]
          | apply act_headers_end; [by rewrite Em|done] ].
Qed.
End Actions.

(** ** The body *)

Lemma jump_cases off p s :
  let i' := wrap32 (s_index s + off) in
  hs_stream_jump off (HS_ p s) =
    if s_length s <? i' then (Done false, HS_ p (with_consumed true s))
    else (Done true, HS_ p (with_index_token i' (token_extend off (s_token s)) true s)).
Proof.
  cbv zeta. unfold hs_stream_jump. rewrite (bind_done _ _ _ tt (HS_ p (with_consumed true s))) by done.
  rewrite (bind_done (gets h_stream) _ _ _ _ eq_refl). cbn [h_stream s_length s_index with_consumed].
  by case_match.
Qed.

(** A byte of the body: all of it is there, or all there is of it is taken. *)
Lemma act_body behind p s c from :
  from = HN \/ from = BD -> p_meta p = M_BDY -> 0 <= s_index s <= s_length s ->
  token_at from (s_token s) (s_index s) ->
  exists t h,
    hs_transition_action behind c from BD (HS_ (with_state BD p) s) = (Done t, h) /\
    (ends_head t = true \/
     (t = none_token /\ p_state (h_parser h) = BD /\ p_meta (h_parser h) = M_BDY /\
      (p_match_index (h_parser h) = 0 \/ p_match_index (h_parser h) = p_match_index p) /\
      s_buf (h_stream h) = s_buf s /\ s_length (h_stream h) = s_length s /\
      s_index (h_stream h) = s_length s /\ s_consumed (h_stream h) = true /\
      token_at BD (s_token (h_stream h)) (s_length s))).
Proof.
  intros Hfrom Hm Hi Htok.
  assert (exists p1 s1, hs_enter behind from BD (HS_ (with_state BD p) s) = (Done none_token, HS_ p1 s1) /\
    p_state p1 = BD /\ p_meta p1 = M_BDY /\
    (p_match_index p1 = 0 \/ p_match_index p1 = p_match_index p) /\
    s_buf s1 = s_buf s /\ s_length s1 = s_length s /\ s_index s1 = s_index s /\
    token_at BD (s_token s1) (s_index s)) as (p1 & s1 & E & P1 & P2 & P3 & S1 & S2 & S3 & S4).
  { destruct p as [cl bc mi hc ps me]. cbn in Hm. subst me. destruct Hfrom as [->| ->].
    - eexists _, _. split; [reflexivity|]. cbn. repeat split; try done; try lia; try (by left).
      unfold token_at in Htok. cbn in Htok. rewrite Htok. cbn. lia.
    - eexists _, _. split; [reflexivity|]. cbn. repeat split; try done; try (by apply Htok); by right. }
  unfold hs_transition_action. rewrite (bind_done _ _ _ _ _ E).
  unfold hs_body. rewrite (bind_done (gets h_parser) _ _ _ _ eq_refl). cbn [h_parser].
  rewrite P2. rewrite (bind_done _ _ _ tt (HS_ p1 s1)) by done.
  set (off := wrap32 _). destruct S4 as (T1 & T2 & T3).
  pose proof (jump_cases off p1 s1) as J. cbv zeta in J.
  destruct (s_length s1 <? wrap32 (s_index s1 + off)) eqn:Ej.
  - rewrite (bind_done _ _ _ _ _ J). cbn match.
    set (n := s_length s1 - s_index s1). set (t1 := token_extend n (s_token s1)).
    rewrite (bind_done _ _ _ n (HS_ p1 (with_index_token (s_index s1 + n) t1 true s1))) by done.
    eexists none_token, _. split.
    { rewrite (bind_done (on_parser _) _ _ tt _ eq_refl).
      rewrite (bind_done (gets h_parser) _ _ _ _ eq_refl). cbn [h_parser p_meta with_content].
      rewrite P2. reflexivity. }
    right. cbn. rewrite P1, P2, S1, S2. unfold n. repeat split; try done; [lia|..];
      unfold t1, token_extend, token_type_none; rewrite ?T1, ?bool_decide_eq_false_2 by done;
      cbn; unfold n; lia.
  - rewrite (bind_done _ _ _ _ _ J). cbn match.
    eexists (token_extend off (s_token s1)), _. split.
    { rewrite (bind_done hs_stream_emit _ _ _ _ eq_refl).
      rewrite (bind_done _ _ _ tt (HS_ (with_meta M_END p1)
        (with_index_token (wrap32 (s_index s1 + off)) none_token true s1))); [reflexivity|].
      apply (trigger_at HS_META_NEXT (HS_ p1 _)). cbn. by rewrite P2. }
    left. unfold ends_head, token_extend. cbn [t_type]. by rewrite T1.
Qed.

(** ** One byte, one call *)

Section Call.
Context (behind : hs_token).

Lemma token_extend_at st t i : token_at st t i -> token_at st (token_extend 1 t) (i + 1).
Proof.
  unfold token_at, token_extend, token_type_none. destruct (active st) eqn:Ea.
  - cbn. intros (T1 & T2 & T3). rewrite T1.
    rewrite bool_decide_eq_false_2 by (by destruct st). split; [done|lia].
  - by intros ->.
Qed.

Lemma parse_char_eq h c ty to :
  s_index (h_stream h) < s_length (h_stream h) ->
  bytes_of (h_stream h) !! Z.to_nat (s_index (h_stream h)) = Some c ->
  hs_char_type_of c = Some ty -> hs_transition (p_state (h_parser h)) ty = Some to ->
  p_meta (h_parser h) <> M_ZER ->
  hs_parse_char behind h =
    (emitted ← hs_transition_action behind c (p_state (h_parser h)) to;
     hs_stream_consume ;; mret (Some emitted))
      (HS_ (with_state to (h_parser h)) (with_consumed false (h_stream h))).
Proof.
  destruct h as [p s]. cbn [h_parser h_stream]. intros Hlt Hc Hty Hto Hm.
  unfold hs_parse_char.
  rewrite (bind_done _ _ _ (Some c) (HS_ p (with_consumed false s))).
  2: { unfold hs_stream_next. rewrite (bind_done _ _ _ tt (HS_ p (with_consumed false s))) by done.
       rewrite (bind_done (gets h_stream) _ _ _ _ eq_refl). cbn [h_stream s_length s_index with_consumed].
       rewrite (proj2 (Z.leb_gt _ _)) by done.
       change (bytes_of (with_consumed false s)) with (bytes_of s). by rewrite Hc. }
  rewrite (bind_done (gets h_parser) _ _ _ _ eq_refl). cbn [h_parser].
  rewrite (bind_done _ _ _ ty (HS_ p (with_consumed false s))) by (by rewrite Hty).
  rewrite (bind_done _ _ _ to (HS_ p (with_consumed false s))) by (by rewrite Hto).
  rewrite (decide_False (P := p_meta p = M_ZER /\ _)) by (by intros [? _]). done.
Qed.

Lemma parse_char_end h :
  s_length (h_stream h) <= s_index (h_stream h) ->
  hs_parse_char behind h = (Done None, HS_ (h_parser h) (with_consumed false (h_stream h))).
Proof.
  destruct h as [p s]. cbn [h_parser h_stream]. intros Hle. unfold hs_parse_char.
  rewrite (bind_done _ _ _ None (HS_ p (with_consumed false s))); [done|].
  unfold hs_stream_next. rewrite (bind_done _ _ _ tt (HS_ p (with_consumed false s))) by done.
  rewrite (bind_done (gets h_stream) _ _ _ _ eq_refl). cbn [h_stream s_length s_index with_consumed].
  by rewrite (proj2 (Z.leb_le _ _)).
Qed.

Lemma transition_total from ty : from <> BR -> exists to, hs_transition from ty = Some to.
Proof. intros H. destruct from, ty; try done; by eexists. Qed.

Lemma body_total from ty : from = HN \/ from = BD -> hs_transition from ty = Some BD.
Proof. by intros [->| ->]; destruct ty. Qed.

Lemma parse_char_safe h :
  head_inv h -> s_index (h_stream h) < s_length (h_stream h) ->
  exists t h', hs_parse_char behind h = (Done (Some t), h') /\ continues h t h'.
Proof.
  intros [Hph Hmi [Hi Hlen Hby Hch] Htok] Hlt. unfold continues.
  destruct (lookup_lt_is_Some_2 (bytes_of (h_stream h)) (Z.to_nat (s_index (h_stream h))))
    as [c Hc]; [lia|].
  pose proof (Forall_lookup_1 _ _ _ _ Hch Hc) as Hrange.
  destruct (hs_char_type_of c) as [ty|] eqn:Ety; [|by apply char_type_total in Hrange].
  destruct h as [p s]. cbn [h_parser h_stream] in *.
  assert (p_meta p <> M_ZER) as Hz by (intros E; rewrite E in Hph; by destruct (p_state p)).
  set (s0 := with_consumed false s).
  destruct (decide (p_state p = HN \/ p_state p = BD)) as [Hb|Hb].
  - assert (p_meta p = M_BDY) as Hm by (destruct Hb as [E|E]; rewrite E in Hph; by destruct (p_meta p)).
    rewrite (parse_char_eq (HS_ p s) c ty BD Hlt Hc Ety (body_total _ ty Hb) Hz). cbn [h_parser h_stream].
    destruct (act_body behind p s0 c _ Hb Hm Hi Htok) as (t & h & E & [Ht|(-> & P1 & P2 & P3 & S1 & S2 & S3 & S4 & S5)]).
    + eexists t, _. split; [|by left]. unfold s0 in E. rewrite (bind_done _ _ _ _ _ E). reflexivity.
    + exists none_token, h. split.
      { unfold s0 in E. rewrite (bind_done _ _ _ _ _ E). destruct h as [p1 s1]. cbn in S4.
        unfold hs_stream_consume, on_stream, modify, mbind, M_bind. cbn [h_stream h_parser].
        by rewrite S4. }
      right. unfold s0 in *. cbn in S1, S2, S3, S5. split; [|by rewrite S1, S2, S3; eauto].
      split; [by rewrite P1, P2|rewrite S3; destruct P3 as [->| ->]; lia| |by rewrite P1, S3].
      split; [rewrite S2, S3; lia|by rewrite S2|unfold bytes_of in *; by rewrite S1, S2|].
      unfold bytes_of in *. by rewrite S1.
  - destruct (transition_total (p_state p) ty) as [to Hto].
    { intros E. rewrite E in Hph. by destruct (p_meta p). }
    rewrite (parse_char_eq (HS_ p s) c ty to Hlt Hc Ety Hto Hz). cbn [h_parser h_stream].
    destruct (act_any behind p s0 c ltac:(done) ltac:(cbn; lia) ltac:(cbn; lia)
      (stream_eta s0 eq_refl) (p_state p) to ty ltac:(tauto) ltac:(tauto) Hph Htok Hto)
      as (t & h & E & Ht).
    unfold s0 in E. rewrite (bind_done _ _ _ _ _ E).
    destruct Ht as [Ht|[A1 A2 (tok & A3 & A4) A5]]; [by eexists t, _; split; [|by left]|].
    destruct h as [p1 s1]. cbn [h_parser h_stream] in *. subst s1.
    cbn in A2, A5. eexists t, _. split; [reflexivity|]. right. cbn.
    split; [split; cbn; [done|lia|split; cbn; try done; lia|by apply token_extend_at]|].
    split; [done|]. split; [done|]. split; [lia|].
    destruct A5 as [A5|(B1 & B2 & B3)]; [by left|right]. split; [done|]. split; [done|lia].
Qed.

(** The loop takes one byte after the other until it has a token or no bytes. *)
Lemma parse_loop_safe fuel : forall h,
  head_inv h -> (Z.to_nat (s_length (h_stream h) - s_index (h_stream h)) < fuel)%nat ->
  exists o h', hs_parse_loop behind fuel h = (Done o, h') /\
    match o with
    | None => head_inv h' /\ s_length (h_stream h') = s_length (h_stream h) /\
              s_index (h_stream h') = s_length (h_stream h)
    | Some t => token_type_none t = false /\
                (ends_head t = true \/
                 head_inv h' /\ token_inside t (s_index (h_stream h')) /\
                 s_length (h_stream h') = s_length (h_stream h) /\
                 s_index (h_stream h) < s_index (h_stream h'))
    end.
Proof.
  induction fuel as [|fuel IH]; intros h Hinv Hfuel; [lia|]. cbn [hs_parse_loop].
  destruct (decide (s_index (h_stream h) < s_length (h_stream h))) as [Hlt|Hge].
  - destruct (parse_char_safe h Hinv Hlt) as (t & h1 & E & Ht). run_bind E. cbn match.
    destruct (token_type_none t) eqn:En.
    + destruct Ht as [Ht|(Hinv1 & Hb1 & Hl1 & Hi1 & _)].
      { unfold token_type_none in En. apply bool_decide_eq_true in En.
        unfold ends_head in Ht. by rewrite En in Ht. }
      destruct (IH h1 Hinv1) as (o & h' & E' & Ho); [rewrite Hl1; lia|].
      exists o, h'. split; [done|]. rewrite Hl1 in Ho. destruct o as [t'|]; [|done].
      destruct Ho as [Hn [Ho|(H1 & H2 & H3 & H4)]]; (split; [done|]); [by left|right].
      repeat (split; [done|]). lia.
    + exists (Some t), h1. split; [done|]. split; [done|].
      destruct Ht as [Ht|(Hinv1 & _ & Hl1 & Hi1 & Hin)]; [by left|right].
      split; [done|]. split; [|done]. destruct Hin as [Hin|Hin]; [congruence|done].
  - pose proof (parse_char_end h ltac:(lia)) as E. run_bind E.
    eexists None, _. split; [reflexivity|]. destruct Hinv as [H1 H2 [H3 H4 H5 H6] H7].
    destruct h as [p s]. cbn in *. split; [|split; [done|lia]]. split; cbn; [done|done|by split|done].
Qed.

Lemma meta_emit_head h :
  head_inv h -> hs_meta_emit h = (Done none_token, h).
Proof.
  intros [Hph _ _ _]. unfold hs_meta_emit. rewrite (bind_done (gets h_parser) _ _ _ _ eq_refl).
  by destruct (p_state (h_parser h)), (p_meta (h_parser h)).
Qed.

Lemma parse_rest_head h :
  head_inv h -> exists t, hs_parse_rest h = (Done t, h) /\
    (t = none_token \/ t = Token 0 0 HS_TOK_ERROR).
Proof.
  intros Hinv. pose proof (meta_emit_head h Hinv) as E. destruct Hinv as [Hph _ _ _].
  unfold hs_parse_rest. rewrite (bind_done (gets h_parser) _ _ _ _ eq_refl).
  rewrite decide_False by (intros Ecb; rewrite Ecb in Hph; by destruct (p_meta (h_parser h))).
  rewrite (bind_done _ _ _ tt h) by done. run_bind E.
  rewrite (bind_done (gets h_stream) _ _ _ _ eq_refl). eexists. split; [reflexivity|].
  case_decide; [by right|by left].
Qed.
End Call.

(** A call of [http_parse] before the end of the headers: it returns, its token
    lies inside the bytes it consumed, and the invariant holds again unless the
    token ends the headers; without a token all bytes are consumed. *)
Lemma http_parse_safe behind h :
  head_inv h ->
  exists t h', http_parse behind h = (Done t, h') /\
    (ends_head t = true \/
     (head_inv h' /\ s_length (h_stream h') = s_length (h_stream h) /\
      if token_type_none t then s_index (h_stream h') = s_length (h_stream h)
      else token_inside t (s_index (h_stream h')) /\
           s_index (h_stream h) < s_index (h_stream h'))).
Proof.
  intros Hinv. unfold http_parse. run_bind (meta_emit_head h Hinv).
  change (token_type_none none_token) with true. cbn match.
  rewrite (bind_done (gets h_stream) _ _ _ _ eq_refl).
  destruct (parse_loop_safe behind (S (Z.to_nat (s_length (h_stream h) - s_index (h_stream h)))) h Hinv)
    as (o & h1 & E & Ho); [lia|].
  run_bind E. destruct o as [t|].
  - destruct Ho as [Hn Ho]. exists t, h1. split; [done|]. rewrite Hn. tauto.
  - destruct Ho as (Hinv1 & Hl & Hi). destruct (parse_rest_head h1 Hinv1) as (t & Et & Ht).
    exists t, h1. split; [done|]. destruct Ht as [->| ->]; [right|by left]. done.
Qed.

(** ** Input that arrives in pieces *)

(** A piece arrives. *)
Definition receive (data : list Z) : M hs unit :=
  on_stream (fun s => hs_stream_received s (Z.of_nat (length data)) data).

(** Calls of [http_parse] until it has no token or the headers end. *)
Fixpoint parse_available (behind : hs_token) (fuel : nat) : M hs (list http_token_t) :=
  match fuel with
  | O => out_of_fuel
  | S fuel' =>
      t ← http_parse behind;
      if token_type_none t then mret []
      else if ends_head t then mret [t]
      else ts ← parse_available behind fuel'; mret (t :: ts)
  end.

Fixpoint feed (behind : hs_token) (pieces : list (list Z)) : M hs (list http_token_t) :=
  match pieces with
  | [] => mret []
  | data :: pieces' =>
      receive data ;;
      s ← gets h_stream;
      ts ← parse_available behind (S (Z.to_nat (s_length s - s_index s)));
      if existsb ends_head ts then mret ts
      else ts' ← feed behind pieces'; mret (ts ++ ts')
  end.

Definition report_ok (n : Z) (t : http_token_t) : Prop := ends_head t = true \/ token_inside t n.

Lemma parse_available_safe behind fuel : forall h,
  head_inv h -> (Z.to_nat (s_length (h_stream h) - s_index (h_stream h)) < fuel)%nat ->
  exists ts h', parse_available behind fuel h = (Done ts, h') /\
    Forall (report_ok (s_length (h_stream h))) ts /\
    (existsb ends_head ts = true \/
     head_inv h' /\ s_length (h_stream h') = s_length (h_stream h)).
Proof.
  induction fuel as [|fuel IH]; intros h Hinv Hfuel; [lia|]. cbn [parse_available].
  destruct (http_parse_safe behind h Hinv) as (t & h1 & E & Ht). run_bind E.
  destruct (token_type_none t) eqn:En.
  { exists [], h1. split; [done|]. split; [done|]. destruct Ht as [Ht|(H1 & H2 & _)]; [|by right].
    apply bool_decide_eq_true in En. unfold ends_head in Ht. by rewrite En in Ht. }
  destruct (ends_head t) eqn:Ee.
  { exists [t], h1. split; [done|]. split; [by repeat constructor|]. left. cbn. by rewrite Ee. }
  destruct Ht as [Ht|(H1 & H2 & H3 & H4)]; [done|].
  pose proof (ok_index _ (inv_stream _ H1)) as Hi1.
  destruct (IH h1 H1) as (ts & h2 & E2 & Hts & Hend); [lia|]. run_bind E2.
  exists (t :: ts), h2. split; [done|]. rewrite H2 in *. split.
  - constructor; [|done]. right. unfold token_inside in *. lia.
  - destruct Hend as [Hend|Hend]; [|by right]. left. cbn. by rewrite Ee, Hend.
Qed.

Lemma receive_inv h data :
  head_inv h -> Forall (fun c => -128 <= c < 128) data ->
  s_length (h_stream h) + Z.of_nat (length data) <= MAX_SAFE ->
  exists h', receive data h = (Done tt, h') /\ head_inv h' /\
    s_length (h_stream h') = s_length (h_stream h) + Z.of_nat (length data).
Proof.
  intros [Hph Hmi [Hi Hl Hb Hc] Htok] Hd Hsum. destruct h as [p s]. cbn [h_parser h_stream] in *.
  eexists. split; [reflexivity|]. unfold hs_stream_received. case_match eqn:E; cbn [h_parser h_stream].
  - split; [|done]. split; cbn; [done|done| |done]. split; cbn; [lia|lia| |].
    + unfold bytes_of. cbn. unfold overwrite. rewrite !length_app, length_take, length_drop.
      unfold bytes_of in *. lia.
    + unfold bytes_of. cbn. unfold overwrite. unfold bytes_of in Hc.
      rewrite !Forall_app. split; [by apply Forall_take|]. split; [done|by apply Forall_drop].
  - apply Z.ltb_ge in E. split; [by split|lia].
Qed.

(** C5: whatever bytes a client sends, up to 32,767 of them, and however they
    are cut into pieces, parsing them up to the end of the headers returns: the
    parser never reads outside of its transition tables or behind the bytes it
    was given, and every token it reports before the end of the headers lies
    inside the input. *)
Theorem any_input_is_parsed behind pieces tb cap :
  Forall (Forall (fun c => -128 <= c < 128)) pieces ->
  Z.of_nat (length (concat pieces)) <= MAX_SAFE ->
  exists ts h, feed behind pieces (received [] tb cap) = (Done ts, h) /\
    Forall (report_ok (Z.of_nat (length (concat pieces)))) ts.
Proof.
  intros Hch Hlen.
  assert (forall pieces h, head_inv h -> Forall (Forall (fun c => -128 <= c < 128)) pieces ->
    s_length (h_stream h) + Z.of_nat (length (concat pieces)) <= MAX_SAFE ->
    exists ts h', feed behind pieces h = (Done ts, h') /\
      Forall (report_ok (s_length (h_stream h) + Z.of_nat (length (concat pieces)))) ts) as Hall.
  { clear. induction pieces as [|data pieces IH]; intros h Hinv Hch Hlen; [by exists [], h|].
    apply Forall_cons in Hch as [Hd Hch]. cbn [concat feed] in *. rewrite length_app in *.
    destruct (receive_inv h data Hinv Hd ltac:(lia)) as (h1 & E1 & Hinv1 & Hl1). run_bind E1.
    rewrite (bind_done (gets h_stream) _ _ _ _ eq_refl).
    destruct (parse_available_safe behind _ h1 Hinv1 (Nat.lt_succ_diag_r _)) as (ts & h2 & E2 & Hts & Hend).
    run_bind E2.
    assert (Forall (report_ok (s_length (h_stream h) + Z.of_nat (length data + length (concat pieces)))) ts).
    { eapply Forall_impl; [exact Hts|]. intros t [Ht|Ht]; [by left|right].
      unfold token_inside in *. lia. }
    destruct (existsb ends_head ts) eqn:Ee; [by exists ts, h2|].
    destruct Hend as [Hend|[Hinv2 Hl2]]; [done|].
    destruct (IH h2 Hinv2 Hch ltac:(lia)) as (ts' & h3 & E3 & Hts'). run_bind E3.
    exists (ts ++ ts'), h3. split; [done|]. apply Forall_app. split; [done|].
    replace (s_length (h_stream h) + _) with
      (s_length (h_stream h2) + Z.of_nat (length (concat pieces))) by lia. done. }
  apply (Hall pieces (received [] tb cap)); [|done|done].
  split; cbn; [done|lia| |done]. split; cbn; unfold MAX_SAFE; try done; lia.
Qed.

Lemma range_check l :
  forallb (fun c => (-128 <=? c) && (c <? 128)) l = true ->
  Forall (fun c => -128 <= c < 128) l.
Proof.
  intros H%Forall_check. eapply Forall_impl; [exact H|]. intros c Hc. cbn in Hc. lia.
Qed.

Lemma any_input_is_parsed_witness :
  let pieces := [chars "GET /run HT"; chars "TP/1.1" ++ crlf ++ chars "Host"; chars ": a" ++ crlf ++ crlf] in
  exists ts h, feed HS_TOK_ERROR pieces (received [] 0 0) = (Done ts, h) /\
    Forall (report_ok (Z.of_nat (length (concat pieces)))) ts.
Proof.
  cbv zeta. apply any_input_is_parsed.
  - constructor; [by apply range_check|]. constructor; [by apply range_check|].
    constructor; [by apply range_check|constructor].
  - vm_compute. discriminate.
Defined.
