(* ===== verification/HttpFindings.v ===== *)
(** * HTTP server: where the parser departs from HTTP

    Which header keys are taken for the framing headers, what an empty value, a
    request without headers, a length that is no number and a very long key do,
    and what follows the last chunk of a chunked body. *)

From S2P Require Import Prelude HttpTables HttpParser HttpGrammar HttpSafety.
#[local] Open Scope Z_scope.

(** ** Keys *)

(** A header's key is taken for [Content-Length] exactly when, in lower
    case, it is a nonempty prefix of "content-lengthing", and for
    [Transfer-Encoding] exactly when it is a nonempty prefix of
    "transfer-encoding": the parser compares letter by letter and never looks
    whether the word is complete, and the three letters more come from the
    variable it compares with. *)
Theorem framing_keys behind B tb cap i key :
  key <> [] -> Forall (fun c => tchar c = true) key -> Z.of_nat (length key) < 32768 ->
  seg B i (10 :: key ++ [58]) ->
  exists t h,
    http_parse behind (cfg B tb cap (Parser 0 0 0 0 RR M_ANY) i 0 none_token true) = (Done t, h) /\
    token_is B (HS_TOK_HEADER_KEY, key) t /\
    (p_meta (h_parser h) = M_CLV <-> (lower <$> key) `prefix_of` chars "content-lengthing") /\
    (p_meta (h_parser h) = M_MCK <-> (lower <$> key) `prefix_of` chars "transfer-encoding").
Proof.
  intros Hne Hk Hlen Hseg. destruct key as [|c cs]; [done|].
  pose proof (parse_key behind B tb cap 0 0 0 0 RR M_ANY i 0 true c cs (or_introl eq_refl)
    eq_refl ltac:(lia) Hk Hlen Hseg) as E.
  eexists _, _. split; [exact E|]. split.
  { apply (seg_token B). exact (proj1 (seg_app B _ _ _ (proj2 (proj2 (seg_cons B _ _ _ Hseg))))). }
  cbn [cfg h_parser p_meta]. rewrite key_scan_meta by done.
  change (chars "content-lengthing") with content_lengthing.
  change (chars "transfer-encoding") with transfer_encoding.
  set (l := lower <$> c :: cs). assert (l <> []) as Hl by done.
  pose proof (framing_words_differ l Hl). unfold key_meta. fold l.
  repeat case_decide; cbn; split; split; intros; try done; tauto.
Qed.

Lemma framing_keys_witness :
  let key := chars "Content" in
  let B := 10 :: key ++ [58] in
  key <> [] /\ exists t h,
    http_parse HS_TOK_NONE (cfg B 0 0 (Parser 0 0 0 0 RR M_ANY) 0 0 none_token true) = (Done t, h) /\
    token_is B (HS_TOK_HEADER_KEY, key) t /\
    (p_meta (h_parser h) = M_CLV <-> (lower <$> key) `prefix_of` chars "content-lengthing") /\
    (p_meta (h_parser h) = M_MCK <-> (lower <$> key) `prefix_of` chars "transfer-encoding").
Proof.
  split; [done|].
  apply (framing_keys HS_TOK_NONE (10 :: chars "Content" ++ [58]) 0 0 0 (chars "Content"));
    [done|by apply Forall_check|done|by split].
Defined.

(** ** Values *)

Definition request_line (m t v : list Z) : list Z := m ++ [32] ++ t ++ [32] ++ v.

Definition line_ok (m t v : list Z) : Prop :=
  (starts_with letter m /\ Forall (fun c => tchar c = true) m) /\
  (starts_with colon_free t /\ Forall (fun c => visible c = true) t) /\
  (v <> [] /\ Forall (fun c => colon_free c = true) v).

(** After a request line. *)
Lemma after_request_line behind tb cap m t v rest n ts h :
  line_ok m t v ->
  let B := request_line m t v ++ [13] ++ rest in
  let i := Z.of_nat (length (request_line m t v ++ [13])) in
  seg B i rest /\
  (parse_tokens behind n (cfg B tb cap (Parser 0 0 0 0 RR M_ANY) i 0 none_token true) =
     (Done ts, h) ->
   exists ts0,
   parse_tokens behind (3 + n) (received B tb cap) = (Done (ts0 ++ ts), h) /\
   Forall2 (token_is B) [(HS_TOK_METHOD, m); (HS_TOK_TARGET, t); (HS_TOK_VERSION, v)] ts0).
Proof.
  intros ([H1 H2] & [H3 H4] & [H5 H6]). cbv zeta.
  destruct m as [|mc mcs], t as [|tc tcs], v as [|vc vcs]; try done.
  apply Forall_cons in H2 as [_ H2], H4 as [_ H4], H6 as [H6 H7].
  set (B := request_line _ _ _ ++ [13] ++ rest).
  assert (B = (mc :: mcs) ++ [32] ++ (tc :: tcs) ++ [32] ++ (vc :: vcs) ++ [13] ++ rest) as EB
    by (unfold B, request_line; by rewrite <- !(assoc_L (++))).
  assert (request_line (mc :: mcs) (tc :: tcs) (vc :: vcs) ++ [13] =
    (mc :: mcs) ++ [32] ++ (tc :: tcs) ++ [32] ++ (vc :: vcs) ++ [13]) as Ei
    by (unfold request_line; by rewrite <- !(assoc_L (++))).
  rewrite Ei. apply (parse_request_line behind B tb cap mc mcs tc tcs vc vcs rest n ts h); try done.
  rewrite <- EB. by split.
Qed.

(** A header without a value takes the whole next line, whatever it says,
    for its value: line ends count as blanks in front of a value. *)
Theorem empty_value_takes_next_line behind m t v key line rest tb cap :
  line_ok m t v ->
  key <> [] -> Forall (fun c => tchar c = true) key -> Z.of_nat (length key) < 32768 ->
  key_meta key <> M_MTE ->
  starts_with visible line -> Forall (fun c => value_char c = true) line ->
  let B := request_line m t v ++ crlf ++ (key ++ [58] ++ crlf) ++ (line ++ crlf) ++ rest in
  exists ts h,
    parse_tokens behind 5 (received B tb cap) = (Done ts, h) /\
    Forall2 (token_is B)
      [(HS_TOK_METHOD, m); (HS_TOK_TARGET, t); (HS_TOK_VERSION, v);
       (HS_TOK_HEADER_KEY, key); (HS_TOK_HEADER_VAL, line)] ts.
Proof.
  intros Hline Hne Hk Hlen Hte Hl1 Hl2. cbv zeta.
  destruct key as [|kc kcs], line as [|lc lcs]; try done. apply Forall_cons in Hl2 as [_ Hl2].
  set (B := _ ++ crlf ++ _).
  set (r := 10 :: (kc :: kcs) ++ 58 :: [13; 10] ++ (lc :: lcs) ++ 13 :: 10 :: rest).
  assert (B = request_line m t v ++ [13] ++ r) as EB.
  { unfold B, r, crlf. repeat (cbn [app] || rewrite <- (assoc_L (++))). done. }
  clearbody B. subst B.
  pose proof (fun ts h => after_request_line behind tb cap m t v r 2 ts h Hline) as Hreq.
  cbv zeta in Hreq. set (B := request_line m t v ++ [13] ++ r) in *.
  set (i := Z.of_nat (length _)) in Hreq. destruct (Hreq [] (received [] 0 0)) as [Hseg _].
  unfold r in Hseg. change (10 :: (kc :: kcs) ++ 58 :: [13; 10] ++ (lc :: lcs) ++ 13 :: 10 :: rest) with
    ((10 :: kc :: kcs) ++ [58] ++ [13; 10] ++ (lc :: lcs) ++ [13] ++ 10 :: rest) in Hseg.
  apply seg_delim in Hseg as [S1 Hseg].
  assert (seg B (i + Z.of_nat (length (10 :: kc :: kcs)) + 1) ([13; 10] ++ (lc :: lcs) ++ [13])) as S2.
  { rewrite !(assoc_L (++)) in Hseg. apply seg_app in Hseg as [Hseg _]. by rewrite (assoc_L (++)). }
  pose proof (parse_key behind B tb cap 0 0 0 0 RR M_ANY i 0 true kc kcs (or_introl eq_refl)
    eq_refl ltac:(lia) Hk Hlen S1) as E1.
  set (j := i + Z.of_nat (length (10 :: kc :: kcs)) + 1) in *.
  replace (i + 1 + Z.of_nat (length (kc :: kcs)) + 1) with j in E1 by (unfold j; cbn [length]; lia).
  rewrite key_scan_meta in E1 by done.
  assert (value_ok (trig (key_meta (kc :: kcs)) HS_META_END_KEY) = true) as Hvok
    by (unfold key_meta in *; by repeat case_decide).
  pose proof (parse_value behind B tb cap 0 0 0 1 _ j 0 true [13; 10] lc lcs ltac:(done)
    ltac:(by repeat constructor) Hvok Hl1 Hl2 S2) as E2.
  pose proof (parse_tokens_cons _ _ _ _ _ _ _ E1 (parse_tokens_cons _ 0 _ _ _ [] _ E2 eq_refl)) as E.
  destruct (proj2 (Hreq _ _) E) as (ts0 & E0 & Ty).
  eexists _, _. split; [exact E0|]. refine (Forall2_app (l1 := [_; _; _]) Ty _).
  constructor; [|constructor; [|constructor]]; apply (seg_token B).
  - exact (proj1 (seg_app B _ (kc :: kcs) [58] (proj2 (proj2 (seg_cons B _ _ _ S1))))).
  - exact (proj1 (seg_app B _ (lc :: lcs) [13] (proj2 (seg_app B _ [13; 10] _ S2)))).
Qed.

Lemma check_line m t v :
  match m with [] => false | c :: _ => letter c end = true -> forallb tchar m = true ->
  match t with [] => false | c :: _ => colon_free c end = true -> forallb visible t = true ->
  v <> [] -> forallb colon_free v = true -> line_ok m t v.
Proof.
  intros. unfold line_ok. split; [|split]; (split; [|by apply Forall_check]); [by destruct m|by destruct t|done].
Qed.

Lemma empty_value_takes_next_line_witness :
  let B := request_line (chars "GET") (chars "/") (chars "HTTP/1.1") ++ crlf ++
           (chars "Accept" ++ [58] ++ crlf) ++ (chars "taskID: 17" ++ crlf) ++ crlf in
  exists ts h,
    parse_tokens HS_TOK_NONE 5 (received B 0 0) = (Done ts, h) /\
    Forall2 (token_is B)
      [(HS_TOK_METHOD, chars "GET"); (HS_TOK_TARGET, chars "/"); (HS_TOK_VERSION, chars "HTTP/1.1");
       (HS_TOK_HEADER_KEY, chars "Accept"); (HS_TOK_HEADER_VAL, chars "taskID: 17")] ts.
Proof.
  apply (empty_value_takes_next_line HS_TOK_NONE (chars "GET") (chars "/") (chars "HTTP/1.1")
    (chars "Accept") (chars "taskID: 17") crlf 0 0);
    [by apply check_line|done|by apply Forall_check|done|done|done|by apply Forall_check].
Defined.

(** ** Rejected and misread requests *)

Lemma act_reject behind p s c ty :
  s_index s < s_length s -> bytes_of s !! Z.to_nat (s_index s) = Some c ->
  hs_char_type_of c = Some ty -> hs_transition (p_state p) ty = Some BR ->
  p_state p <> HN -> p_state p <> CS -> p_state p <> BR -> p_meta p <> M_ZER ->
  exists h, hs_parse_char behind (HS_ p s) = (Done (Some (Token 0 0 HS_TOK_ERROR)), h).
Proof.
  intros Hlt Hc Hty Hto H1 H2 H3 Hz.
  rewrite (parse_char_eq behind (HS_ p s) c ty BR Hlt Hc Hty Hto Hz). cbn [h_parser h_stream].
  assert (exists h, hs_transition_action behind c (p_state p) BR (HS_ (with_state BR p) (with_consumed false s))
            = (Done (Token 0 0 HS_TOK_ERROR), h)) as [h E].
  { unfold hs_transition_action, hs_enter.
    rewrite (decide_False (P := p_state p = HN)), (decide_False (P := p_state p = BR)),
      (decide_False (P := p_state p = CS)) by done.
    destruct (decide (token_start behind BR = HS_TOK_NONE)); by eexists. }
  run_bind E. by eexists.
Qed.

(** A request without any header is answered with an error, although
    HTTP/1.0 requires none. *)
Theorem no_headers_rejected behind m t v tb cap :
  line_ok m t v ->
  let B := request_line m t v ++ crlf ++ crlf in
  exists ts h,
    parse_tokens behind 4 (received B tb cap) = (Done ts, h) /\
    t_type <$> ts = [HS_TOK_METHOD; HS_TOK_TARGET; HS_TOK_VERSION; HS_TOK_ERROR].
Proof.
  intros Hline. cbv zeta.
  pose proof (fun ts h => after_request_line behind tb cap m t v [10; 13; 10] 1 ts h Hline) as Hreq.
  cbv zeta in Hreq. change (crlf ++ crlf) with ([13] ++ [10; 13; 10]).
  set (B := request_line m t v ++ _) in *. set (i := Z.of_nat (length _)) in Hreq.
  destruct (Hreq [] (received [] 0 0)) as [S1 _].
  pose proof (seg_cons B _ _ _ S1) as (Hi & B1 & S2). pose proof (seg_cons B _ _ _ S2) as (_ & B2 & _).
  assert (0 <= i < Z.of_nat (length B)) as L1 by (apply lookup_lt_Some in B1; lia).
  assert (0 <= i + 1 < Z.of_nat (length B)) as L2 by (apply lookup_lt_Some in B2; lia).
  set (p := Parser 0 0 0 0 RR M_ANY).
  destruct (act_reject behind (with_match 0 (with_state RN p))
    (h_stream (cfg B tb cap p (i + 1) 0 none_token true)) 13 HS_CR) as [h E]; [cbn; lia|done..|].
  assert (http_parse behind (cfg B tb cap p i 0 none_token true) = (Done (Token 0 0 HS_TOK_ERROR), h)) as Ep.
  { apply http_parse_emits; [done|done|].
    rewrite (loop_skip behind B tb cap p i 0 none_token true (with_match 0 (with_state RN p)) 0 none_token true L1).
    - apply (loop_emit behind _ _ _ E). done.
    - apply (step_quiet behind B tb cap p i 0 true 10 RR RN); try done. unfold is_quiet; tauto. }
  destruct (proj2 (Hreq _ _) (parse_tokens_cons _ 0 _ _ _ [] _ Ep eq_refl)) as (ts0 & E0 & Ty).
  eexists _, _. split; [exact E0|]. rewrite fmap_app.
  do 3 (apply Forall2_cons_inv_l in Ty as (? & ? & [? _] & Ty & ->)). apply Forall2_nil_inv_l in Ty as ->.
  cbn in *. by repeat f_equal.
Qed.

Lemma no_headers_rejected_witness :
  let B := request_line (chars "GET") (chars "/") (chars "HTTP/1.0") ++ crlf ++ crlf in
  exists ts h,
    parse_tokens HS_TOK_NONE 4 (received B 0 0) = (Done ts, h) /\
    t_type <$> ts = [HS_TOK_METHOD; HS_TOK_TARGET; HS_TOK_VERSION; HS_TOK_ERROR].
Proof. apply no_headers_rejected. by apply check_line. Defined.

(** A request line and headers, as a client writes them. *)
Definition head (lines : list string) : list Z := concat ((fun l => chars l ++ crlf) <$> lines) ++ crlf.

(** The characters of [Content-Length] are not checked: with the value "-"
    the announced length is -3, and the body the handler is given starts at the
    right place and has length -3. *)
Theorem negative_body_length behind tb cap :
  exists ts h,
    parse_tokens behind 6 (received (head ["POST / HTTP/1.1"; "Content-Length: -"] ++ chars "body") tb cap)
      = (Done ts, h) /\
    last ts = Some (Token 38 (-3) HS_TOK_BODY).
Proof. eexists _, _. split; [vm_compute; reflexivity|reflexivity]. Qed.

(** Bytes behind the last chunk are read as a further chunk: if they look
    like one of length 0, the parser reads behind the end of its table of
    framing transitions. *)
Theorem pipelined_chunk_reads_past_table behind tb cap :
  exists h,
    parse_tokens behind 12
      (received (head ["POST / HTTP/1.1"; "Transfer-Encoding: chunked"] ++
                 head ["0"] ++ head ["0"] ++ chars "x") tb cap) = (Trap OutOfBounds, h).
Proof. eexists. vm_compute. reflexivity. Qed.

(** ** Long keys *)

Lemma loop_trap behind h tr h' :
  hs_parse_char behind h = (Trap tr, h') -> run_loop behind h = (Trap tr, h').
Proof. intros E. unfold run_loop. cbn [hs_parse_loop]. by rewrite (bind_trap _ _ _ _ _ E). Qed.

Lemma key_char_traps behind B tb cap p i a t k c :
  p_state p = HK -> p_match_index p < 0 -> p_meta p <> M_ZER ->
  0 <= i -> B !! Z.to_nat i = Some c -> tchar c = true ->
  exists h, hs_parse_char behind (cfg B tb cap p i a t k) = (Trap OutOfBounds, h).
Proof.
  intros Hp Hmi Hz Hi Hc Ht. pose proof (tchar_key c Ht) as [_ Hgo]%andb_true_iff.
  rewrite (parse_char_at behind B tb cap p i a t k c HK Hi Hc); [|by rewrite Hp|done].
  rewrite Hp. eexists. apply bind_trap. unfold hs_transition_action.
  rewrite (bind_done _ _ _ none_token (cfg B tb cap (with_state HK p) i a t false)) by done.
  apply bind_trap. unfold hs_match. rewrite (bind_done (gets h_parser) _ _ _ _ eq_refl).
  apply bind_trap. cbn [h_parser cfg with_state p_match_index].
  rewrite (proj2 (Z.ltb_lt _ _)) by (unfold transfer_encoding; cbn; lia).
  by rewrite (proj2 (Z.ltb_lt _ _)).
Qed.

(** The characters of a key up to the one at which the 16-bit counter wraps. *)
Lemma foldl_key_wrap cl bc hc st m key :
  key_ok m = true -> length key = Z.to_nat 32768 ->
  exists m', foldl (fun p c => key_char c p) (Parser cl bc 0 hc st m) key =
               Parser cl bc (- 32768) hc st m' /\ key_ok m' = true.
Proof.
  intros Hm Hlen. induction key as [|c key _] using rev_ind; [done|].
  rewrite length_app in Hlen. cbn [length] in Hlen. rewrite foldl_app. cbn [foldl].
  rewrite foldl_key_char by (cbn; lia). cbn [p_match_index p_meta].
  assert (Z.of_nat (length key) = 32767) as -> by lia.
  exists (key_step 32767 c (key_scan 0 m key)). split; [reflexivity|].
  by apply key_ok_step, key_ok_scan.
Qed.

(** The loop over the first part of a key, short of the wrap. *)
Lemma loop_key behind B tb cap cl bc hc m i a t c cs :
  key_ok m = true -> Forall (fun c => tchar c = true) (c :: cs) ->
  Z.of_nat (length cs) <= 32767 -> seg B i cs -> t_type t <> HS_TOK_NONE ->
  run_loop behind (cfg B tb cap (key_char c (Parser cl bc 0 hc HK m)) i a t true) =
    run_loop behind (cfg B tb cap
      (foldl (fun p c => key_char c p) (Parser cl bc 0 hc HK m) (c :: cs))
      (i + Z.of_nat (length cs)) a (token_extend (Z.of_nat (length cs)) t) true).
Proof.
  intros Hok [Hc Hcs]%Forall_cons Hlen Hseg Ht. cbn [foldl].
  apply (loop_run behind B tb cap HK (fun c => tchar c = true) key_char) with
    (good := fun p => key_ok (p_meta p) = true /\ 0 <= p_match_index p); try done.
  - intros q d j b u [Hq1 Hq2] Hqs Hd Hj Hbj. by apply step_key.
  - intros n Hn. change (foldl _ (key_char c _) (take n cs)) with
      (foldl (fun p c => key_char c p) (Parser cl bc 0 hc HK m) (c :: take n cs)).
    rewrite foldl_key_char; [|done|cbn; rewrite length_take_le; lia]. cbn.
    split; [by apply key_ok_scan|lia].
Qed.

(** [match_index] has 16 bits and counts the characters of a key: at the
    32,769th one it is negative, the comparison takes it for an index within
    the word it compares with, and reads in front of that word. *)
Theorem long_key_reads_out_of_bounds behind B tb cap i key rest :
  Forall (fun c => tchar c = true) key -> 32768 < Z.of_nat (length key) ->
  seg B i (10 :: key ++ rest) ->
  exists h, http_parse behind (cfg B tb cap (Parser 0 0 0 0 RR M_ANY) i 0 none_token true) =
    (Trap OutOfBounds, h).
Proof.
  intros Hk Hlen Hseg. set (n := Z.to_nat 32768).
  rewrite <- (take_drop n key) in Hk, Hseg. apply Forall_app in Hk as [Hk1 Hk2].
  assert (length (take n key) = n) as Hn by (rewrite length_take; unfold n in *; lia).
  destruct (drop n key) as [|d ds] eqn:Ed.
  { apply (f_equal length) in Ed. rewrite length_drop in Ed. cbn in Ed. unfold n in Ed. lia. }
  destruct (take n key) as [|c cs]; [done|]. rewrite <- (assoc_L (++)) in Hseg.
  pose proof (seg_cons B _ _ _ Hseg) as (Hi & B1 & [S1 S2]%seg_app).
  pose proof (seg_cons B _ _ _ S1) as (_ & B2 & S1'). pose proof (seg_cons B _ _ _ S2) as (_ & B3 & _).
  assert (0 <= i < Z.of_nat (length B)) as L1 by (apply lookup_lt_Some in B1; lia).
  assert (0 <= i + 1 < Z.of_nat (length B)) as L2 by (apply lookup_lt_Some in B2; lia).
  pose proof (Forall_inv Hk1) as Hc. pose proof (Forall_inv Hk2) as Hd.
  set (p := Parser 0 0 0 0 RR M_ANY). set (p1 := Parser 0 0 0 0 RN M_ANY).
  set (t := Token (i + 1) 1 HS_TOK_HEADER_KEY).
  destruct (foldl_key_wrap 0 0 1 HK M_ANY (c :: cs) eq_refl Hn) as (m & Hm & Hok).
  assert (length cs = Z.to_nat 32767) as Hcs by (cbn [length] in Hn; unfold n in Hn; lia).
  assert (run_loop behind (cfg B tb cap p i 0 none_token true) =
          run_loop behind (cfg B tb cap (Parser 0 0 (-32768) 1 HK m) (i + 1 + 1 + Z.of_nat (length cs)) 0
            (token_extend (Z.of_nat (length cs)) t) true)) as E1.
  { rewrite (loop_skip behind B tb cap p i 0 none_token true p1 0 none_token true L1)
      by (apply (step_quiet behind B tb cap p i 0 true 10 RR RN); try done; unfold is_quiet; tauto).
    rewrite (loop_skip behind B tb cap p1 (i + 1) 0 none_token true
               (key_char c (Parser 0 0 0 1 HK M_ANY)) 0 t true L2)
      by (apply (step_key_begin behind B tb cap p1 (i + 1) 0 true c RN); try done; [tauto|lia]).
    rewrite (loop_key behind B tb cap 0 0 1 M_ANY _ 0 t c cs); try done; [by rewrite Hm|lia]. }
  destruct (key_char_traps behind B tb cap (Parser 0 0 (-32768) 1 HK m)
    (i + 1 + 1 + Z.of_nat (length cs)) 0 (token_extend (Z.of_nat (length cs)) t) true d)
    as [h Eh]; try done; [by destruct m|lia| |].
  { replace (i + 1 + 1 + Z.of_nat (length cs)) with (i + 1 + Z.of_nat (length (c :: cs)))
      by (cbn [length]; lia). done. }
  exists h. apply loop_trap in Eh. rewrite <- E1 in Eh. unfold http_parse.
  rewrite (bind_done _ _ _ none_token (cfg B tb cap p i 0 none_token true)) by done.
  change (token_type_none none_token) with true. cbn match.
  rewrite (bind_done (gets h_stream) _ _ _ _ eq_refl). unfold run_loop in Eh.
  by rewrite (bind_trap _ _ _ _ _ Eh).
Qed.

Lemma long_key_reads_out_of_bounds_witness :
  let key := replicate (Z.to_nat 32769) 97 in
  exists h, http_parse HS_TOK_NONE
    (cfg (10 :: key ++ []) 0 0 (Parser 0 0 0 0 RR M_ANY) 0 0 none_token true) = (Trap OutOfBounds, h).
Proof.
  intros key. apply (long_key_reads_out_of_bounds HS_TOK_NONE (10 :: key ++ []) 0 0 0 key []).
  - apply Forall_replicate. reflexivity.
  - unfold key. rewrite length_replicate. lia.
  - split; [lia|]. intros k c H. exact H.
Defined.
