(* ===== verification/HttpServer.v ===== *)
(** * HTTP server: requests, responses, sessions

    [http_request_s], [http_response_s] and the operations on them
    ([src/libs/lib_worker/httpserver.h]): looking up what was parsed, writing a
    response, the state machine of a connection.  The socket is a list of
    arrivals to read and a list of answers to [write]. *)

From S2P Require Import Prelude HttpTables HttpParser.
From stdpp Require Import pretty.
#[local] Open Scope Z_scope.

(** ** Data *)

Inductive session_state :=
  | HTTP_SESSION_INIT | HTTP_SESSION_READ | HTTP_SESSION_WRITE | HTTP_SESSION_NOP.

#[export] Instance session_state_eq_dec : EqDecision session_state.
Proof. solve_decision. Defined.

(** [http_token_dyn_t]; the size is the length of the list, [None] is [NULL]. *)
Record http_token_dyn_t := TokenDyn { d_buf : option (list http_token_t); d_capacity : Z }.

(** A pointer into the request's buffer (or [NULL]) and a length. *)
Record http_string_t := Str { str_buf : option Z; str_len : Z }.
Definition null_string : http_string_t := Str None 0.

Record http_response_t := Response {
  r_headers : list (list Z * list Z);      (* the linked list, head first *)
  r_body : option (list Z);
  r_content_length : Z;
  r_status : Z;
}.

(** What [write] does: it takes up to [n] bytes, or fails with [EAGAIN], or
    fails with [EPIPE]. *)
Inductive write_answer := Takes (n : Z) | WouldBlock | BrokenPipe.

(** [q_app]: what the application's handler acts on besides the request. *)
Record http_request_t (A : Type) := Rq {
  q_stream : hs_stream_t;
  q_parser : http_parser_t;
  q_state : session_state;
  q_timeout : Z;
  q_tokens : http_token_dyn_t;
  q_flags : Z;
  q_memused : Z;                           (* server->memused *)
  q_in : socket_in;
  q_answers : list write_answer;           (* when there are none left, [write] takes all *)
  q_out : list Z;                          (* what was written *)
  q_epipe : bool;                          (* errno = EPIPE *)
  q_watch_write : bool;                    (* registered for writability *)
  q_ended : bool;                          (* closed and freed *)
  q_app : A;
}.
Arguments q_stream {A} _.
Arguments q_parser {A} _.
Arguments q_state {A} _.
Arguments q_timeout {A} _.
Arguments q_tokens {A} _.
Arguments q_flags {A} _.
Arguments q_memused {A} _.
Arguments q_in {A} _.
Arguments q_answers {A} _.
Arguments q_out {A} _.
Arguments q_epipe {A} _.
Arguments q_watch_write {A} _.
Arguments q_ended {A} _.
Arguments q_app {A} _.
Arguments Rq {A} _ _ _ _ _ _ _ _ _ _ _ _ _ _.

Section Setters.
Context {A : Type}.
Abbreviation rq := (http_request_t A).

Definition set_stream (f : hs_stream_t -> hs_stream_t) (q : rq) : rq :=
  Rq (f (q_stream q)) (q_parser q) (q_state q) (q_timeout q) (q_tokens q) (q_flags q) (q_memused q)
    (q_in q) (q_answers q) (q_out q) (q_epipe q) (q_watch_write q) (q_ended q) (q_app q).
Definition set_parser (p : http_parser_t) (q : rq) : rq :=
  Rq (q_stream q) p (q_state q) (q_timeout q) (q_tokens q) (q_flags q) (q_memused q)
    (q_in q) (q_answers q) (q_out q) (q_epipe q) (q_watch_write q) (q_ended q) (q_app q).
Definition set_state (st : session_state) (q : rq) : rq :=
  Rq (q_stream q) (q_parser q) st (q_timeout q) (q_tokens q) (q_flags q) (q_memused q)
    (q_in q) (q_answers q) (q_out q) (q_epipe q) (q_watch_write q) (q_ended q) (q_app q).
Definition set_tokens (d : http_token_dyn_t) (q : rq) : rq :=
  Rq (q_stream q) (q_parser q) (q_state q) (q_timeout q) d (q_flags q) (q_memused q)
    (q_in q) (q_answers q) (q_out q) (q_epipe q) (q_watch_write q) (q_ended q) (q_app q).
Definition set_flags (f : Z -> Z) (q : rq) : rq :=
  Rq (q_stream q) (q_parser q) (q_state q) (q_timeout q) (q_tokens q) (f (q_flags q)) (q_memused q)
    (q_in q) (q_answers q) (q_out q) (q_epipe q) (q_watch_write q) (q_ended q) (q_app q).
Definition add_memused (n : Z) (q : rq) : rq :=
  Rq (q_stream q) (q_parser q) (q_state q) (q_timeout q) (q_tokens q) (q_flags q) (q_memused q + n)
    (q_in q) (q_answers q) (q_out q) (q_epipe q) (q_watch_write q) (q_ended q) (q_app q).
Definition set_timeout (n : Z) (q : rq) : rq :=
  Rq (q_stream q) (q_parser q) (q_state q) n (q_tokens q) (q_flags q) (q_memused q)
    (q_in q) (q_answers q) (q_out q) (q_epipe q) (q_watch_write q) (q_ended q) (q_app q).

End Setters.

Section Server.
Context {A : Type}.
Abbreviation rq := (http_request_t A).
(** The text of [server->date], which a timer keeps up to date, and the bytes
    [malloc] and [realloc] leave in the buffer of a response. *)
Context (date : list Z) (junk : Z -> Z).

(** An action of the application. *)
Definition on_app {B} (m : M A B) : M rq B := fun q =>
  match m (q_app q) with
  | (o, a) => (o, Rq (q_stream q) (q_parser q) (q_state q) (q_timeout q) (q_tokens q) (q_flags q)
                    (q_memused q) (q_in q) (q_answers q) (q_out q) (q_epipe q) (q_watch_write q)
                    (q_ended q) a)
  end.

(** ** Tokens *)

Definition http_token_dyn_push (a : http_token_t) : M rq unit :=
  d ← gets q_tokens;
  match d_buf d with
  | None => throw OutOfBounds
  | Some ts =>
      let c := if Z.of_nat (length ts) =? d_capacity d then d_capacity d * 2 else d_capacity d in
      modify (set_tokens (TokenDyn (Some (ts ++ [a])) c))
  end.

Definition http_token_dyn_init (capacity : Z) : M rq unit :=
  modify (set_tokens (TokenDyn (Some []) capacity)).

Definition token_list (q : rq) : list http_token_t := default [] (d_buf (q_tokens q)).

Definition token_string (t : http_token_t) : http_string_t := Str (Some (t_index t)) (t_len t).

(** [http_get_token_string]: the first token of the type. *)
Definition http_get_token_string (type : hs_token) (q : rq) : http_string_t :=
  match list_find (fun t => t_type t = type) (token_list q) with
  | Some (_, t) => token_string t
  | None => null_string
  end.

Definition http_request_has_flag (flag : Z) (q : rq) : bool := flag_check (q_flags q) flag.
Definition http_request_method : rq -> http_string_t := http_get_token_string HS_TOK_METHOD.
Definition http_request_target : rq -> http_string_t := http_get_token_string HS_TOK_TARGET.
Definition http_request_body : rq -> http_string_t := http_get_token_string HS_TOK_BODY.

(** [str.buf[i]]. *)
Definition string_char (s : http_string_t) (i : Z) : M rq Z :=
  q ← get;
  match str_buf s with
  | None => throw OutOfBounds
  | Some b =>
      if b + i <? 0 then throw OutOfBounds
      else of_option (bytes_of (q_stream q) !! Z.to_nat (b + i))
  end.

(** [hs_case_insensitive_cmp(s.buf, b, len)], from position [i] on. *)
Fixpoint cmp_from (s : http_string_t) (b : list Z) (i : Z) (n : nat) : M rq bool :=
  match n with
  | O => mret true
  | S n' =>
      c1 ← string_char s i;
      c2 ← of_option (b !! Z.to_nat i);
      if lower c1 =? lower c2 then cmp_from s b (i + 1) n' else mret false
  end.

Definition hs_case_insensitive_cmp (s : http_string_t) (b : list Z) (len : Z) : M rq bool :=
  cmp_from s b 0 (Z.to_nat len).

(** [http_request_header]: the token behind the first key that equals [key]. *)
Fixpoint header_from (key : list Z) (ts : list http_token_t) : M rq http_string_t :=
  match ts with
  | [] => mret null_string
  | t :: ts' =>
      if decide (t_type t = HS_TOK_HEADER_KEY /\ t_len t = Z.of_nat (length key)) then
        eq ← hs_case_insensitive_cmp (token_string t) key (Z.of_nat (length key));
        if eq : bool then
          match ts' with
          | [] => throw OutOfBounds
          | t' :: _ => mret (token_string t')
          end
        else header_from key ts'
      else header_from key ts'
  end.

Definition http_request_header (key : list Z) : M rq http_string_t :=
  q ← get; header_from key (token_list q).

(** [hs_assign_iteration_headers]: the key, the value and the new [iter], or the
    end of the iteration. *)
Definition hs_assign_iteration_headers (iter : Z) :
    M rq (option (http_string_t * http_string_t * Z)) :=
  q ← get;
  t ← of_option (token_list q !! Z.to_nat iter);
  if decide (t_type t = HS_TOK_BODY) then mret None
  else
    t' ← of_option (token_list q !! Z.to_nat (iter + 1));
    mret (Some (token_string t, token_string t', iter + 1)).

Definition http_request_iterate_headers (iter : Z) :
    M rq (option (http_string_t * http_string_t * Z)) :=
  q ← get;
  if iter =? 0 then
    match list_find (fun t => t_type t = HS_TOK_HEADER_KEY) (token_list q) with
    | Some (i, _) => hs_assign_iteration_headers (Z.of_nat i)
    | None => mret None
    end
  else hs_assign_iteration_headers (iter + 1).

(** The last token. *)
Definition http_request_chunk : M rq http_string_t :=
  q ← get;
  t ← of_option (last (token_list q));
  mret (token_string t).

(** ** Keep-alive *)

Definition hs_auto_detect_keep_alive : M rq unit :=
  q ← get;
  let str := http_get_token_string HS_TOK_VERSION q in
  match str_buf str with
  | None => mret tt
  | Some _ =>
      c ← string_char str (str_len str - 1);
      let version := c =? 49 in
      str ← http_request_header (chars "Connection");
      close ← (if str_len str =? 5 then hs_case_insensitive_cmp str (chars "close") 5 else mret false);
      if (close : bool) || ((str_len str =? 0) && negb version)
      then modify (set_flags (fun f => flag_clear f HTTP_KEEP_ALIVE))
      else modify (set_flags (fun f => flag_set f HTTP_KEEP_ALIVE))
  end.

Definition http_request_connection (directive : Z) : M rq unit :=
  if directive =? HTTP_KEEP_ALIVE then
    modify (set_flags (fun f => flag_set (flag_clear f HTTP_AUTOMATIC) HTTP_KEEP_ALIVE))
  else if directive =? HTTP_CLOSE then
    modify (set_flags (fun f => flag_clear (flag_clear f HTTP_AUTOMATIC) HTTP_KEEP_ALIVE))
  else mret tt.

(** ** Building a response *)

Definition http_response_init : http_response_t := Response [] None 0 200.

Definition http_response_header (key value : list Z) (r : http_response_t) : http_response_t :=
  Response ((key, value) :: r_headers r) (r_body r) (r_content_length r) (r_status r).

Definition http_response_status (status : Z) (r : http_response_t) : http_response_t :=
  Response (r_headers r) (r_body r) (r_content_length r)
    (if (599 <? status) || (status <? 100) then 500 else status).

Definition http_response_body (body : list Z) (length : Z) (r : http_response_t) : http_response_t :=
  Response (r_headers r) (Some body) length (r_status r).

(** [grwprintf_t]: [g_buf] are the [g_capacity] bytes of the buffer. *)
Record grwprintf_t := Grw { g_buf : list Z; g_capacity : Z; g_size : Z }.

Definition malloced (lo hi : Z) : list Z := junk <$> seqZ lo (hi - lo).

Definition grwprintf_init (capacity : Z) : M rq grwprintf_t :=
  modify (add_memused capacity) ;; mret (Grw (malloced 0 capacity) capacity 0).

(** [memused] follows [realloc]. *)
Definition grw_realloc (ctx : grwprintf_t) (capacity : Z) : M rq grwprintf_t :=
  modify (add_memused (capacity - g_capacity ctx)) ;;
  mret (Grw (g_buf ctx ++ malloced (g_capacity ctx) capacity) capacity (g_size ctx)).

(** A write of [data] at position [at_]. *)
Definition write_at (at_ : Z) (data b : list Z) : M rq (list Z) :=
  if (at_ <? 0) || (Z.of_nat (length b) <? at_ + Z.of_nat (length data)) then throw OutOfBounds
  else mret (overwrite (Z.to_nat at_) data b).

Definition grwmemcpy (ctx : grwprintf_t) (src : list Z) (size : Z) : M rq grwprintf_t :=
  (if (size <? 0) || (Z.of_nat (length src) <? size) then throw OutOfBounds else mret tt) ;;
  ctx ← (if g_capacity ctx <? g_size ctx + size then grw_realloc ctx (g_size ctx + size) else mret ctx);
  b ← write_at (g_size ctx) (take (Z.to_nat size) src) (g_buf ctx);
  mret (Grw b (g_capacity ctx) (g_size ctx + size)).

(** [vsnprintf(buf + size, capacity - size, text)]: as much as there is room for
    and a terminating zero; the room is a [size_t], so that a negative one is
    huge.  The result of the call is the length of the text. *)
Definition vsnprintf (ctx : grwprintf_t) (text : list Z) : M rq (list Z) :=
  let room := g_capacity ctx - g_size ctx in
  if room =? 0 then mret (g_buf ctx)
  else if room <? 0 then throw OutOfBounds
  else write_at (g_size ctx) (take (Z.to_nat (room - 1)) text ++ [0]) (g_buf ctx).

(** [while (need > capacity) capacity *= 2]. *)
Fixpoint double_until (fuel : nat) (need capacity : Z) : option Z :=
  match fuel with
  | O => None
  | S fuel' => if capacity <? need then double_until fuel' need (capacity * 2) else Some capacity
  end.

(** The bytes are added to the size twice when the buffer grows. *)
Definition grwprintf (ctx : grwprintf_t) (text : list Z) : M rq grwprintf_t :=
  b ← vsnprintf ctx text;
  let bytes := Z.of_nat (length text) in
  if g_capacity ctx <? bytes + g_size ctx then
    match double_until (Z.to_nat (bytes + g_size ctx)) (bytes + g_size ctx) (g_capacity ctx) with
    | None => out_of_fuel
    | Some capacity =>
        ctx ← grw_realloc (Grw b (g_capacity ctx) (g_size ctx)) capacity;
        b ← vsnprintf ctx text;
        mret (Grw b capacity (g_size ctx + (bytes + bytes)))
    end
  else mret (Grw b (g_capacity ctx) (g_size ctx + bytes)).

Definition decimal_text (z : Z) : list Z := chars (pretty z).

(** The texts that are printed. *)
Definition header_line (kv : list Z * list Z) : list Z :=
  kv.1 ++ chars ": " ++ kv.2 ++ [13; 10].
Definition status_line (status : Z) (text : string) : list Z :=
  chars "HTTP/1.1 " ++ decimal_text status ++ [32] ++ chars text ++ [13; 10] ++
  chars "Date: " ++ date ++ [13; 10].
Definition content_length_line (n : Z) : list Z :=
  chars "Content-Length: " ++ decimal_text n ++ [13; 10].

Fixpoint print_headers (hs : list (list Z * list Z)) (ctx : grwprintf_t) : M rq grwprintf_t :=
  match hs with
  | [] => mret ctx
  | kv :: hs' => ctx ← grwprintf ctx (header_line kv); print_headers hs' ctx
  end.

Definition http_buffer_headers (r : http_response_t) (ctx : grwprintf_t) : M rq grwprintf_t :=
  ctx ← print_headers (r_headers r) ctx;
  q ← get;
  ctx ← (if flag_check (q_flags q) HTTP_CHUNKED_RESPONSE then mret ctx
         else grwprintf ctx (content_length_line (r_content_length r)));
  grwprintf ctx [13; 10].

Definition http_respond_headers (r : http_response_t) (ctx : grwprintf_t) : M rq grwprintf_t :=
  q ← get;
  (if flag_check (q_flags q) HTTP_AUTOMATIC then hs_auto_detect_keep_alive else mret tt) ;;
  q ← get;
  let r := http_response_header (chars "Connection")
             (if flag_check (q_flags q) HTTP_KEEP_ALIVE then chars "keep-alive" else chars "close") r in
  text ← of_option (hs_status_text !! Z.to_nat (r_status r));
  ctx ← grwprintf ctx (status_line (r_status r) text);
  http_buffer_headers r ctx.

(** ** Writing *)

Definition hs_free_buffer : M rq unit :=
  q ← get;
  match s_buf (q_stream q) with
  | None => mret tt
  | Some _ =>
      modify (add_memused (- s_capacity (q_stream q))) ;;
      modify (set_stream (fun s => Stream None (s_total_bytes s) (s_capacity s) (s_length s) (s_index s)
                                     (s_anchor s) (s_token s) (s_consumed s)))
  end.

(** Bytes [total_bytes .. length) of the buffer; [None] when they reach past it. *)
Definition pending (q : rq) : option (list Z) :=
  let s := q_stream q in
  if (s_length s <=? Z.of_nat (length (bytes_of s))) && (0 <=? s_total_bytes s) then
    Some (drop (Z.to_nat (s_total_bytes s)) (take (Z.to_nat (s_length s)) (bytes_of s)))
  else if s_total_bytes s =? s_length s then Some []
  else None.

Definition write_done (n : Z) (data : list Z) (answers : list write_answer) (epipe : bool)
    (q : rq) : rq :=
  Rq (Stream (s_buf (q_stream q))
        (if 0 <? n then s_total_bytes (q_stream q) + n else s_total_bytes (q_stream q))
        (s_capacity (q_stream q)) (s_length (q_stream q)) (s_index (q_stream q))
        (s_anchor (q_stream q)) (s_token (q_stream q)) (s_consumed (q_stream q)))
    (q_parser q) (q_state q) (q_timeout q) (q_tokens q) (q_flags q) (q_memused q) (q_in q)
    answers (q_out q ++ data) epipe (q_watch_write q) (q_ended q) (q_app q).

(** The result is [errno == EPIPE ? 0 : 1]; a successful [write] leaves [errno]
    as it was. *)
Definition hs_write_client_socket : M rq bool :=
  q ← get;
  match pending q with
  | None => throw OutOfBounds
  | Some data =>
      let '(n, answers, epipe) :=
        match q_answers q with
        | [] => (Z.of_nat (length data), [], q_epipe q)
        | Takes n :: a => (Z.min (Z.max n 0) (Z.of_nat (length data)), a, q_epipe q)
        | WouldBlock :: a => (-1, a, false)
        | BrokenPipe :: a => (-1, a, true)
        end in
      modify (write_done n (take (Z.to_nat n) data) answers epipe) ;;
      mret (negb epipe)
  end.

Definition hs_add_write_event : M rq unit :=
  modify (fun q => Rq (q_stream q) (q_parser q) (q_state q) (q_timeout q) (q_tokens q) (q_flags q)
                     (q_memused q) (q_in q) (q_answers q) (q_out q) (q_epipe q) true (q_ended q) (q_app q)).

Definition hs_reset_timeout (time : Z) : M rq unit := modify (set_timeout time).

(** [hs_write_response]; [chunk_cb] is the callback the application gave. *)
Definition hs_write_response (chunk_cb : M rq unit) : M rq unit :=
  ok ← hs_write_client_socket;
  if negb ok then modify (set_flags (fun f => flag_set f HTTP_END_SESSION)) else
  q ← get;
  if negb (s_total_bytes (q_stream q) =? s_length (q_stream q)) then
    hs_add_write_event ;;
    modify (set_state HTTP_SESSION_WRITE) ;;
    hs_reset_timeout HTTP_REQUEST_TIMEOUT
  else if flag_check (q_flags q) HTTP_CHUNKED_RESPONSE then
    modify (set_state HTTP_SESSION_WRITE) ;;
    hs_reset_timeout HTTP_REQUEST_TIMEOUT ;;
    hs_free_buffer ;;
    chunk_cb
  else if flag_check (q_flags q) HTTP_KEEP_ALIVE then
    modify (set_state HTTP_SESSION_INIT) ;;
    hs_free_buffer ;;
    hs_reset_timeout HTTP_KEEP_ALIVE_TIMEOUT
  else modify (set_flags (fun f => flag_set f HTTP_END_SESSION)).

(** The buffer of the request is replaced by that of the response. *)
Definition http_end_response (chunk_cb : M rq unit) (ctx : grwprintf_t) :
    M rq unit :=
  hs_free_buffer ;;
  modify (set_stream (fun s => Stream (Some (g_buf ctx)) 0 (g_capacity ctx) (g_size ctx) (s_index s)
                                 (s_anchor s) (s_token s) (s_consumed s))) ;;
  modify (set_state HTTP_SESSION_WRITE) ;;
  hs_write_response chunk_cb.

Definition http_respond (chunk_cb : M rq unit) (r : http_response_t) : M rq unit :=
  ctx ← grwprintf_init HTTP_RESPONSE_BUF_SIZE;
  ctx ← http_respond_headers r ctx;
  ctx ← match r_body r with
        | Some body => grwmemcpy ctx body (r_content_length r)
        | None => mret ctx
        end;
  http_end_response chunk_cb ctx.

(** ["%X"]. *)
Definition hex_digit (d : Z) : Z := if d <? 10 then 48 + d else 55 + d.
Fixpoint hex_from (fuel : nat) (n : Z) (acc : list Z) : list Z :=
  match fuel with
  | O => acc
  | S fuel' =>
      let acc := hex_digit (n mod 16) :: acc in
      if n / 16 =? 0 then acc else hex_from fuel' (n / 16) acc
  end.
Definition hex_text (n : Z) : list Z := hex_from 8 (wrapU32 n) [].

Definition http_respond_chunk (cb : M rq unit) (r : http_response_t) : M rq unit :=
  ctx ← grwprintf_init HTTP_RESPONSE_BUF_SIZE;
  q ← get;
  ctx ← (if flag_check (q_flags q) HTTP_CHUNKED_RESPONSE then mret ctx
         else
           modify (set_flags (fun f => flag_set f HTTP_CHUNKED_RESPONSE)) ;;
           http_respond_headers (http_response_header (chars "Transfer-Encoding") (chars "chunked") r) ctx);
  ctx ← grwprintf ctx (hex_text (r_content_length r) ++ [13; 10]);
  ctx ← match r_body r with
        | Some body => grwmemcpy ctx body (r_content_length r)
        | None => if r_content_length r =? 0 then mret ctx else throw OutOfBounds
        end;
  ctx ← grwprintf ctx [13; 10];
  http_end_response cb ctx.

Definition http_respond_chunk_end (chunk_cb : M rq unit) (r : http_response_t) :
    M rq unit :=
  ctx ← grwprintf_init HTTP_RESPONSE_BUF_SIZE;
  ctx ← grwprintf ctx (chars "0" ++ [13; 10]);
  ctx ← http_buffer_headers r ctx;
  ctx ← grwprintf ctx [13; 10];
  modify (set_flags (fun f => flag_clear f HTTP_CHUNKED_RESPONSE)) ;;
  http_end_response chunk_cb ctx.

(** After the response, [hs_write_response] is called once more. *)
Definition hs_error_response (chunk_cb : M rq unit) (code : Z) (message : list Z) :
    M rq unit :=
  http_respond chunk_cb
    (http_response_body message (Z.of_nat (length message))
       (http_response_header (chars "Content-Type") (chars "text/plain")
          (http_response_status code http_response_init))) ;;
  hs_write_response chunk_cb.

(** ** Sessions *)

Section Session.
Context (behind : hs_token).
(** The application: the handler of requests, and the callback for chunks. *)
Context (request_handler chunk_cb : M rq unit).

Definition hs_init_session : M rq unit :=
  modify (set_flags (fun _ => HTTP_AUTOMATIC)) ;;
  modify (set_parser http_parser_zero) ;;
  modify (set_stream (fun _ => hs_stream_zero)) ;;
  http_token_dyn_init 32.

Definition hs_end_session : M rq unit :=
  hs_free_buffer ;;
  modify (fun q => Rq (q_stream q) (q_parser q) (q_state q) (q_timeout q)
                     (TokenDyn None (d_capacity (q_tokens q))) (q_flags q) (q_memused q) (q_in q)
                     (q_answers q) (q_out q) (q_epipe q) false true (q_app q)).

(** [hs_stream_read_socket] on the session's stream. *)
Definition read_session : M rq Z :=
  q ← get;
  let pieces := concat ((fun a => match a with Arrived d => d | EndOfStream => [] end) <$> q_in q) in
  match hs_stream_read_socket (S (length pieces)) (q_stream q) (q_memused q) (q_in q) with
  | None => out_of_fuel
  | Some (rc, s, memused, sock) =>
      modify (fun q => Rq s (q_parser q) (q_state q) (q_timeout q) (q_tokens q) (q_flags q) memused
                         sock (q_answers q) (q_out q) (q_epipe q) (q_watch_write q) (q_ended q) (q_app q)) ;;
      mret rc
  end.

(** [http_parse] on the session's parser and stream. *)
Definition parse_session : M rq http_token_t := fun q =>
  match http_parse behind (HS_ (q_parser q) (q_stream q)) with
  | (o, h) => (o, set_parser (h_parser h) (set_stream (fun _ => h_stream h) q))
  end.

(** The [do ... while] loop of [hs_read_and_process_request]. *)
Fixpoint process_tokens (fuel : nat) : M rq unit :=
  match fuel with
  | O => out_of_fuel
  | S fuel' =>
      token ← parse_session;
      (if token_type_none token then mret tt else http_token_dyn_push token) ;;
      match t_type token with
      | HS_TOK_ERROR => hs_error_response chunk_cb 400 (chars "Bad Request")
      | HS_TOK_BODY =>
          modify (set_state HTTP_SESSION_NOP) ;;
          request_handler
      | HS_TOK_BODY_STREAM =>
          modify (set_flags (fun f => flag_set f HTTP_FLG_STREAMED)) ;;
          modify (set_state HTTP_SESSION_NOP) ;;
          request_handler
      | HS_TOK_CHUNK_BODY =>
          modify (set_state HTTP_SESSION_NOP) ;;
          chunk_cb
      | _ => mret tt
      end ;;
      q ← get;
      if negb (token_type_none token) && bool_decide (q_state q = HTTP_SESSION_READ)
      then process_tokens fuel' else mret tt
  end.

Definition hs_read_and_process_request (fuel : nat) : M rq unit :=
  modify (set_state HTTP_SESSION_READ) ;;
  hs_reset_timeout HTTP_REQUEST_TIMEOUT ;;
  rc ← read_session;
  if rc =? 0 then modify (set_flags (fun f => flag_set f HTTP_END_SESSION))
  else process_tokens fuel.

(** [http_session]: what an event on the socket does. *)
Definition http_session (fuel : nat) : M rq unit :=
  q ← get;
  overload ← (if decide (q_state q = HTTP_SESSION_INIT) then
                hs_init_session ;;
                modify (set_state HTTP_SESSION_READ) ;;
                q ← get;
                mret (HTTP_MAX_TOTAL_EST_MEM_USAGE <? q_memused q)
              else mret false);
  if overload : bool then hs_error_response chunk_cb 503 (chars "Service Unavailable")
  else
    q ← get;
    match q_state q with
    | HTTP_SESSION_READ => hs_read_and_process_request fuel
    | HTTP_SESSION_WRITE => hs_write_response chunk_cb
    | _ => mret tt
    end ;;
    q ← get;
    if flag_check (q_flags q) HTTP_END_SESSION then hs_end_session else mret tt.

(** [hs_request_timer_cb]: a second passed. *)
Definition hs_request_timer_cb : M rq unit :=
  q ← get;
  modify (set_timeout (q_timeout q - 1)) ;;
  if q_timeout q - 1 =? 0 then hs_end_session else mret tt.

(** [hs_accept_connections]: the session of a new connection. *)
Definition new_session (memused : Z) (sock : socket_in) (answers : list write_answer) (epipe : bool)
    (app : A) : rq :=
  Rq hs_stream_zero http_parser_zero HTTP_SESSION_INIT HTTP_REQUEST_TIMEOUT (TokenDyn None 0) 0
    memused sock answers [] epipe false false app.

(** [http_request_read_chunk]: the application asks for the next chunk. *)
Definition http_request_read_chunk (fuel : nat) : M rq unit :=
  hs_read_and_process_request fuel.
End Session.
End Server.
