(* ===== verification/HttpDate.v ===== *)
(** * The date of the HTTP server

    [hs_generate_date_time] of [src/libs/lib_worker/httpserver.h], whose text goes
    into the header [Date] of every response: [gmtime] (Gregorian calendar, UTC)
    and the format of its [strftime] in the C locale.  A reader of such a date
    gets back the time of the server. *)

From S2P Require Import Prelude HttpTables HttpServer.

(** ** The calendar *)

(** [struct tm], the fields that are printed; the year counts from 1900. *)
Record tm := Tm {
  tm_sec : Z;
  tm_min : Z;
  tm_hour : Z;
  tm_mday : Z;
  tm_mon : Z;
  tm_year : Z;
  tm_wday : Z;
}.

Definition leap (y : Z) : bool :=
  (y mod 4 =? 0) && (negb (y mod 100 =? 0) || (y mod 400 =? 0)).
Definition month_lengths (y : Z) : list Z :=
  [31; if leap y then 29 else 28; 31; 30; 31; 30; 31; 31; 30; 31; 30; 31].

(** The days from the first of January 1970 to that of another year. *)
Definition jan_1 (y : Z) : Z := 365 * (y - 1970) + (y - 1) / 4 - (y - 1) / 100 + (y - 1) / 400 - 477.

Definition year_of (days : Z) : Z :=
  let y := 1970 + days * 400 / 146097 in
  if days <? jan_1 y then y - 1 else if jan_1 (y + 1) <=? days then y + 1 else y.

(** The month and the day in it. *)
Fixpoint month_of (lengths : list Z) (mon days : Z) : Z * Z :=
  match lengths with
  | [] => (mon, days)
  | n :: lengths' => if days <? n then (mon, days) else month_of lengths' (mon + 1) (days - n)
  end.

Definition gmtime (rawtime : Z) : tm :=
  let days := rawtime / 86400 in
  let secs := rawtime mod 86400 in
  let year := year_of days in
  let '(mon, mday) := month_of (month_lengths year) 0 (days - jan_1 year) in
  Tm (secs mod 60) (secs / 60 mod 60) (secs / 3600) (mday + 1) mon (year - 1900) ((days + 4) mod 7).

(** ** The text *)

Definition day_names : list (list Z) := chars <$> ["Sun"; "Mon"; "Tue"; "Wed"; "Thu"; "Fri"; "Sat"]%string.
Definition month_names : list (list Z) :=
  chars <$> ["Jan"; "Feb"; "Mar"; "Apr"; "May"; "Jun"; "Jul"; "Aug"; "Sep"; "Oct"; "Nov"; "Dec"]%string.
Definition name (names : list (list Z)) (i : Z) : list Z := default [] (names !! Z.to_nat i).

Definition two_digits (n : Z) : list Z := [48 + n / 10; 48 + n mod 10].

(** [strftime] with ["%a, %d %b %Y %T GMT"]. *)
Definition strftime (timeinfo : tm) : list Z :=
  name day_names (tm_wday timeinfo) ++ chars ", " ++ two_digits (tm_mday timeinfo) ++ chars " " ++
  name month_names (tm_mon timeinfo) ++ chars " " ++ decimal_text (tm_year timeinfo + 1900) ++
  chars " " ++ two_digits (tm_hour timeinfo) ++ chars ":" ++ two_digits (tm_min timeinfo) ++
  chars ":" ++ two_digits (tm_sec timeinfo) ++ chars " GMT".

(** The text in the 32 bytes of [datetime], with its zero; [None]: it does not
    fit, and what the buffer holds is not defined. *)
Definition hs_generate_date_time (rawtime : Z) : option (list Z) :=
  let text := strftime (gmtime rawtime) in
  if (length text <? 32)%nat then Some text else None.

(** ** Reading a date

    The reader of the grammar [IMF-fixdate] of RFC 7231: names and digits at fixed
    places, and the weekday must be right. *)

Definition timegm (timeinfo : tm) : Z :=
  let year := tm_year timeinfo + 1900 in
  (jan_1 year + foldr Z.add 0 (take (Z.to_nat (tm_mon timeinfo)) (month_lengths year)) +
   tm_mday timeinfo - 1) * 86400 +
  tm_hour timeinfo * 3600 + tm_min timeinfo * 60 + tm_sec timeinfo.

Definition number (digits : list Z) : option Z :=
  if forallb (fun c => (48 <=? c) && (c <=? 57)) digits
  then Some (foldl (fun n c => n * 10 + (c - 48)) 0 digits) else None.
Definition index_of (names : list (list Z)) (n : list Z) : option Z :=
  p ← list_find (fun x => x = n) names; Some (Z.of_nat p.1).

Definition parse_date (text : list Z) : option Z :=
  match text with
  | [a1; a2; a3; c; s1; d1; d2; s2; b1; b2; b3; s3; y1; y2; y3; y4; s4;
     h1; h2; p1; m1; m2; p2; t1; t2; s5; g1; g2; g3] =>
      if bool_decide ([c; s1; s2; s3; s4; p1; p2; s5; g1; g2; g3] = chars ",    :: GMT") then
        wday ← index_of day_names [a1; a2; a3];
        mday ← number [d1; d2];
        mon ← index_of month_names [b1; b2; b3];
        year ← number [y1; y2; y3; y4];
        hour ← number [h1; h2];
        min ← number [m1; m2];
        sec ← number [t1; t2];
        let time := timegm (Tm sec min hour mday mon (year - 1900) wday) in
        if (time / 86400 + 4) mod 7 =? wday then Some time else None
      else None
  | _ => None
  end.

(** ** The calendar is right *)

Ltac euclid := Z.to_euclidean_division_equations; lia.

Lemma leap_days y : jan_1 (y + 1) = jan_1 y + 365 + Z.b2z (leap y).
Proof.
  unfold jan_1, leap. replace (y + 1 - 1) with y by lia.
  destruct (Z.eqb_spec (y mod 4) 0), (Z.eqb_spec (y mod 100) 0), (Z.eqb_spec (y mod 400) 0); cbn [andb orb negb Z.b2z]; euclid.
Qed.

(** The year of a day: its first of January is not after the day, that of the next year is. *)
Lemma year_of_spec n : jan_1 (year_of n) <= n < jan_1 (year_of n + 1).
Proof.
  unfold year_of. set (y := 1970 + n * 400 / 146097).
  assert (jan_1 (y - 1) <= n < jan_1 (y + 2)) as [H1 H2] by (unfold jan_1, y; euclid).
  destruct (Z.ltb_spec n (jan_1 y)).
  - replace (y - 1 + 1) with y by lia. lia.
  - destruct (Z.leb_spec (jan_1 (y + 1)) n); [|lia]. by replace (y + 1 + 1) with (y + 2) by lia.
Qed.

Lemma month_lengths_sum y : foldr Z.add 0 (month_lengths y) = 365 + Z.b2z (leap y).
Proof. unfold month_lengths. by destruct (leap y). Qed.

Lemma month_of_spec ls : forall m d, 0 <= d < foldr Z.add 0 ls ->
  exists i n d', month_of ls m d = (m + Z.of_nat i, d') /\ ls !! i = Some n /\ 0 <= d' < n /\
    d = foldr Z.add 0 (take i ls) + d'.
Proof.
  induction ls as [|n ls IH]; intros m d Hd; cbn in Hd; [lia|]. cbn [month_of].
  destruct (Z.ltb_spec d n).
  - exists 0%nat, n, d. split_and!; [f_equal; lia|done|lia|lia|cbn; lia].
  - destruct (IH (m + 1) (d - n)) as (i & k & d' & E & Hi & Hd' & Ed); [lia|].
    exists (S i), k, d'. split_and!; [rewrite E; f_equal; lia|done|lia|lia|cbn; lia].
Qed.

(** The fields of [gmtime]: in their ranges, and of the right time. *)
Lemma gmtime_spec t : exists timeinfo, gmtime t = timeinfo /\ timegm timeinfo = t /\
  0 <= tm_sec timeinfo < 60 /\ 0 <= tm_min timeinfo < 60 /\ 0 <= tm_hour timeinfo < 24 /\
  1 <= tm_mday timeinfo <= 31 /\ 0 <= tm_mon timeinfo < 12 /\
  tm_year timeinfo + 1900 = year_of (t / 86400) /\ tm_wday timeinfo = (t / 86400 + 4) mod 7.
Proof.
  eexists. split; [reflexivity|]. unfold gmtime. set (n := t / 86400). set (y := year_of n).
  pose proof (year_of_spec n) as Hy. fold y in Hy. rewrite leap_days in Hy.
  destruct (month_of_spec (month_lengths y) 0 (n - jan_1 y)) as (i & k & d & E & Hi & Hd & Ed).
  { rewrite month_lengths_sum. lia. }
  rewrite E. assert (i < 12)%nat as Hi12 by (apply lookup_lt_Some in Hi; exact Hi).
  assert (k <= 31) as Hk.
  { apply list_elem_of_lookup_2 in Hi. unfold month_lengths in Hi. destruct (leap y);
      repeat (apply elem_of_cons in Hi as [->|Hi]; [lia|]); by apply elem_of_nil in Hi. }
  cbn [tm_sec tm_min tm_hour tm_mday tm_mon tm_year tm_wday]. split_and!; try euclid.
  unfold timegm. cbn [tm_sec tm_min tm_hour tm_mday tm_mon tm_year].
  replace (y - 1900 + 1900) with y by lia. replace (Z.to_nat (0 + Z.of_nat i)) with i by lia.
  set (D := foldr Z.add 0 (take i (month_lengths y))) in *.
  replace (jan_1 y + D + (d + 1) - 1) with n by lia. unfold n. euclid.
Qed.

(** ** Writing and reading *)

Definition nice (c : Z) : Prop := 32 <= c < 127.

Lemma two_digits_ok n : 0 <= n < 100 -> exists a b,
  two_digits n = [a; b] /\ number [a; b] = Some n /\ nice a /\ nice b.
Proof.
  intros Hn. exists (48 + n / 10), (48 + n mod 10). split; [done|]. unfold nice.
  assert (0 <= n / 10 <= 9 /\ 0 <= n mod 10 <= 9 /\ n = 10 * (n / 10) + n mod 10) as (Ha & Hb & E) by euclid.
  split; [|lia]. unfold number. cbn [forallb foldl].
  repeat match goal with |- context [?a <=? ?b] => destruct (Z.leb_spec a b); [|lia] end.
  cbn [andb]. f_equal. lia.
Qed.

Definition year_text (y : Z) : bool :=
  match decimal_text y with
  | [a; b; c; d] =>
      bool_decide (number [a; b; c; d] = Some y) &&
      forallb (fun c => (32 <=? c) && (c <? 127)) [a; b; c; d]
  | _ => false
  end.

Lemma years_ok : forallb year_text (seqZ 1970 8030) = true.
Proof. vm_compute. reflexivity. Qed.

Lemma year_ok y : 1970 <= y < 10000 -> exists a b c d,
  decimal_text y = [a; b; c; d] /\ number [a; b; c; d] = Some y /\
  nice a /\ nice b /\ nice c /\ nice d.
Proof.
  intros Hy. pose proof (proj1 (forallb_forall _ _) years_ok y) as H.
  assert (In y (seqZ 1970 8030)) as Hin by (apply list_elem_of_In, elem_of_seqZ; lia).
  specialize (H Hin). unfold year_text in H.
  destruct (decimal_text y) as [|a [|b [|c [|d [|]]]]]; try done.
  apply andb_true_iff in H as [H1 H2]. apply bool_decide_eq_true in H1. exists a, b, c, d.
  cbn [forallb] in H2. rewrite !andb_true_iff, !Z.leb_le, !Z.ltb_lt in H2. unfold nice. tauto.
Qed.

Lemma name_ok names n i :
  forallb (fun x => (length x =? 3)%nat && forallb (fun c => (32 <=? c) && (c <? 127)) x) names = true ->
  NoDup names -> length names = n -> 0 <= i < Z.of_nat n -> exists a b c,
  name names i = [a; b; c] /\ index_of names [a; b; c] = Some i /\ nice a /\ nice b /\ nice c.
Proof.
  intros Hall Hnd Hlen Hi. destruct (lookup_lt_is_Some_2 names (Z.to_nat i)) as [x Hx]; [lia|].
  unfold name. rewrite Hx. cbn [default from_option id].
  pose proof (proj1 (forallb_forall _ _) Hall x) as H.
  specialize (H (proj1 (list_elem_of_In _ _) (list_elem_of_lookup_2 _ _ _ Hx))).
  apply andb_true_iff in H as [H1 H2]. apply Nat.eqb_eq in H1.
  destruct x as [|a [|b [|c [|]]]]; try done. exists a, b, c. split; [done|]. split.
  - unfold index_of. assert (list_find (fun x => x = [a; b; c]) names = Some (Z.to_nat i, [a; b; c])) as ->.
    { apply list_find_Some. split; [done|]. split; [done|]. intros j y Hj Hlt ->.
      assert (j = Z.to_nat i) by (by eapply NoDup_lookup). lia. }
    cbn. f_equal. lia.
  - cbn [forallb] in H2. rewrite !andb_true_iff, !Z.leb_le, !Z.ltb_lt in H2. unfold nice. tauto.
Qed.

Lemma day_names_nodup : NoDup day_names.
Proof. apply (bool_decide_unpack _). vm_compute. exact Logic.I. Qed.
Lemma month_names_nodup : NoDup month_names.
Proof. apply (bool_decide_unpack _). vm_compute. exact Logic.I. Qed.

Lemma year_in_range t : 0 <= t < 253402300800 -> 1970 <= year_of (t / 86400) < 10000.
Proof.
  intros Ht. pose proof (year_of_spec (t / 86400)) as [H1 H2]. unfold jan_1 in *. euclid.
Qed.

(** C40: the date in the responses is right.  For every time from 1970 to the end
    of the year 9999 the text fits into the 32 bytes of the buffer; it has 29
    printable characters, so that it cannot end the header line, and a reader of
    the format gets back the very second the server has read. *)
Theorem date_roundtrip t :
  0 <= t < 253402300800 ->
  exists text, hs_generate_date_time t = Some text /\ length text = 29%nat /\
    Forall nice text /\ parse_date text = Some t.
Proof.
  intros Ht. destruct (gmtime_spec t) as (tm & E & Etime & Hs & Hm & Hh & Hd & Hmon & Hy & Hw).
  pose proof (year_in_range t Ht) as Hyear. rewrite <- Hy in Hyear.
  pose proof (Z.mod_pos_bound (t / 86400 + 4) 7 ltac:(lia)) as Hwr. rewrite <- Hw in Hwr.
  unfold hs_generate_date_time. rewrite E. unfold strftime.
  destruct (name_ok day_names 7 (tm_wday tm) eq_refl day_names_nodup eq_refl Hwr)
    as (a1 & a2 & a3 & -> & Ea & ? & ? & ?).
  destruct (name_ok month_names 12 (tm_mon tm) eq_refl month_names_nodup eq_refl Hmon)
    as (b1 & b2 & b3 & -> & Eb & ? & ? & ?).
  destruct (two_digits_ok (tm_mday tm)) as (d1 & d2 & -> & Ed & ? & ?); [lia|].
  destruct (year_ok _ Hyear) as (y1 & y2 & y3 & y4 & -> & Ey & ? & ? & ? & ?).
  destruct (two_digits_ok (tm_hour tm)) as (h1 & h2 & -> & Eh & ? & ?); [lia|].
  destruct (two_digits_ok (tm_min tm)) as (m1 & m2 & -> & Em & ? & ?); [lia|].
  destruct (two_digits_ok (tm_sec tm)) as (t1 & t2 & -> & Et & ? & ?); [lia|].
  eexists. split; [reflexivity|]. split; [reflexivity|]. split.
  - change (Forall nice ([a1; a2; a3] ++ [44; 32; d1; d2; 32; b1; b2; b3; 32; y1; y2; y3; y4; 32;
      h1; h2; 58; m1; m2; 58; t1; t2; 32; 71; 77; 84])).
    repeat (constructor; [first [done | unfold nice; lia]|]). constructor.
  - change (parse_date [a1; a2; a3; 44; 32; d1; d2; 32; b1; b2; b3; 32; y1; y2; y3; y4; 32;
      h1; h2; 58; m1; m2; 58; t1; t2; 32; 71; 77; 84] = Some t).
    unfold parse_date. rewrite bool_decide_eq_true_2 by (vm_compute; reflexivity).
    rewrite Ea, Ed, Eb, Ey, Eh, Em, Et. cbn [mbind option_bind].
    rewrite Z.add_simpl_r. destruct tm; cbn in *.
    match type of Etime with timegm ?x = _ => change (timegm x = t) in Etime end.
    rewrite Etime, <- Hw, Z.eqb_refl. reflexivity.
Qed.

(** The first of January 2021, the 29th of February 2000. *)
Lemma date_roundtrip_witness :
  (exists text, hs_generate_date_time 1609459200 = Some text /\ parse_date text = Some 1609459200) /\
  hs_generate_date_time 951782400 = Some (chars "Tue, 29 Feb 2000 00:00:00 GMT").
Proof.
  split; [|vm_compute; reflexivity].
  destruct (date_roundtrip 1609459200) as (text & E & _ & _ & Hp); [lia|]. by exists text.
Defined.
