(* ===== verification/HttpResponse.v ===== *)
(** * HTTP server: responses

    What [http_respond] writes, how the growing buffer counts, and the table of
    status texts. *)

From S2P Require Import Prelude HttpTables HttpParser HttpReading HttpServer.
From stdpp Require Import pretty.
#[local] Open Scope Z_scope.

Lemma bind_modify {S B} (f : S -> S) (k : unit -> M S B) s : (modify f ≫= k) s = k tt (f s).
Proof. done. Qed.

(** ** Status codes *)

(** [http_response_status] only lets numbers through that the table of
    status texts should have, but the table lacks its last entry: exactly
    status 599 is accepted and makes [http_respond] read behind the table. *)
Theorem status_text_bounds status r :
  let s := r_status (http_response_status status r) in
  100 <= s <= 599 /\ (hs_status_text !! Z.to_nat s = None <-> status = 599).
Proof.
  cbv zeta. cbn [http_response_status r_status].
  assert (length hs_status_text = 599%nat) as Hlen by reflexivity.
  destruct ((599 <? status) || (status <? 100)) eqn:E.
  - apply orb_true_iff in E as [E%Z.ltb_lt|E%Z.ltb_lt]; (split; [lia|]);
      (split; [intros H; vm_compute in H; discriminate|lia]).
  - apply orb_false_iff in E as [E1%Z.ltb_ge E2%Z.ltb_ge]. split; [lia|].
    rewrite lookup_ge_None, Hlen. split; [lia|]. intros ->. vm_compute. lia.
Qed.

(** ** The growing buffer *)

Section Buffer.
Context {A : Type} (junk : Z -> Z).
Abbreviation rq := (http_request_t A).
Implicit Types (q : rq) (ctx : grwprintf_t).

(** The buffer holds [out]. *)
Record holds ctx (out : list Z) : Prop := {
  holds_size : g_size ctx = Z.of_nat (length out);
  holds_cap : Z.of_nat (length (g_buf ctx)) = g_capacity ctx;
  holds_out : take (length out) (g_buf ctx) = out;
  holds_room : g_size ctx <= g_capacity ctx;
}.

Lemma length_malloced lo hi : lo <= hi -> Z.of_nat (length (malloced junk lo hi)) = hi - lo.
Proof. intros H. unfold malloced. rewrite length_fmap, length_seqZ. lia. Qed.

Lemma overwrite_take n data b :
  (n + length data <= length b)%nat ->
  length (overwrite n data b) = length b /\
  take (n + length data) (overwrite n data b) = take n b ++ data.
Proof.
  intros Hn. split; [|apply take_overwrite; lia].
  unfold overwrite. rewrite !length_app, length_take, length_drop. lia.
Qed.

Lemma overwrite_take_less n data b k :
  (n + length data <= length b)%nat -> (n <= k <= n + length data)%nat ->
  take k (overwrite n data b) = take n b ++ take (k - n) data.
Proof.
  intros Hn Hk. pose proof (proj2 (overwrite_take n data b Hn)) as E.
  apply (f_equal (take k)) in E. rewrite take_take, Nat.min_l in E by lia. rewrite E, take_app.
  rewrite length_take, Nat.min_l by lia. f_equal. rewrite take_ge; [done|rewrite length_take; lia].
Qed.

Lemma vsnprintf_run ctx out text q :
  holds ctx out -> g_size ctx < g_capacity ctx ->
  exists b, vsnprintf ctx text q = (Done b, q) /\ Z.of_nat (length b) = g_capacity ctx /\
    forall k, (k <= length text)%nat -> Z.of_nat k < g_capacity ctx - g_size ctx ->
      take (length out + k) b = out ++ take k text.
Proof.
  intros [H1 H2 H3 H4] Hlt. unfold vsnprintf.
  rewrite (proj2 (Z.eqb_neq _ _)), (proj2 (Z.ltb_ge _ _)) by lia.
  set (data := take (Z.to_nat (g_capacity ctx - g_size ctx - 1)) text ++ [0]).
  assert (Z.of_nat (length data) <= g_capacity ctx - g_size ctx) as Hd
    by (unfold data; rewrite length_app, length_take; cbn; lia).
  unfold write_at. rewrite (proj2 (orb_false_iff _ _)) by (split; apply Z.ltb_ge; lia).
  assert (length out + length data <= length (g_buf ctx))%nat as Hfit by lia.
  replace (Z.to_nat (g_size ctx)) with (length out) by lia.
  destruct (overwrite_take (length out) data (g_buf ctx) Hfit) as [L _].
  eexists. split; [reflexivity|]. split; [lia|]. intros k Hk Hroom.
  rewrite overwrite_take_less; [|done|unfold data; rewrite length_app, length_take; cbn; lia].
  rewrite H3. f_equal. replace (length out + k - length out)%nat with k by lia.
  unfold data. rewrite take_app_le by (rewrite length_take; lia).
  by rewrite take_take, Nat.min_l by lia.
Qed.

(** What fits below the last byte of the buffer is printed as it is. *)
Lemma grwprintf_fits ctx out text q :
  holds ctx out -> g_size ctx + Z.of_nat (length text) < g_capacity ctx ->
  exists ctx', grwprintf junk ctx text q = (Done ctx', q) /\ holds ctx' (out ++ text) /\
    g_capacity ctx' = g_capacity ctx.
Proof.
  intros Hh Hfit. pose proof Hh as [H1 H2 H3 H4].
  destruct (vsnprintf_run ctx out text q Hh) as (b & E & Hb & Hout); [lia|].
  unfold grwprintf. run_bind E. rewrite (proj2 (Z.ltb_ge _ _)) by lia.
  eexists. split; [reflexivity|]. split; [|done]. split; cbn.
  - rewrite length_app. lia.
  - lia.
  - rewrite length_app, Hout by lia. by rewrite take_ge by lia.
  - lia.
Qed.

(** The memory counted follows. *)
Lemma grw_realloc_run ctx out capacity q :
  holds ctx out -> g_capacity ctx <= capacity ->
  exists ctx', grw_realloc junk ctx capacity q =
      (Done ctx', add_memused (capacity - g_capacity ctx) q) /\
    holds ctx' out /\ g_capacity ctx' = capacity /\ g_size ctx' = g_size ctx.
Proof.
  intros [H1 H2 H3 H4] Hle. eexists. split; [reflexivity|]. split; [|done]. split; cbn; try lia.
  - rewrite length_app. pose proof (length_malloced (g_capacity ctx) capacity Hle). lia.
  - rewrite take_app_le by lia. done.
Qed.

Lemma double_until_spec fuel : forall need capacity,
  0 < capacity -> need <= capacity + Z.of_nat fuel -> 
  exists c, double_until (S fuel) need capacity = Some c /\ need <= c /\ capacity <= c.
Proof.
  induction fuel as [|fuel IH]; intros need capacity Hc Hn.
  - exists capacity. cbn. rewrite (proj2 (Z.ltb_ge _ _)) by lia. repeat split; lia.
  - change (double_until (S (S fuel)) need capacity) with
      (if capacity <? need then double_until (S fuel) need (capacity * 2) else Some capacity).
    case_match eqn:E.
    + destruct (IH need (capacity * 2)) as (c & E' & H1 & H2); [lia|lia|]. exists c. repeat split; [done|lia|lia].
    + apply Z.ltb_ge in E. exists capacity. repeat split; lia.
Qed.

(** When the buffer has to grow for a text, the text's length is added to
    the size twice: the response that is sent has, behind the text, as many
    bytes more as the text is long, which nobody wrote. *)
Theorem growing_counts_twice ctx out text q :
  holds ctx out -> 0 < g_capacity ctx -> g_size ctx < g_capacity ctx ->
  g_capacity ctx < g_size ctx + Z.of_nat (length text) ->
  exists ctx' m, grwprintf junk ctx text q = (Done ctx', add_memused m q) /\
    g_size ctx' = g_size ctx + 2 * Z.of_nat (length text) /\
    g_capacity ctx' >= g_size ctx + Z.of_nat (length text) /\
    take (length out + (length text - 1)) (g_buf ctx') = out ++ take (length text - 1) text.
Proof.
  intros Hh Hpos Hlt Hgrow. pose proof Hh as [H1 H2 H3 H4].
  destruct (vsnprintf_run ctx out text q Hh Hlt) as (b & E & Hb & Hout).
  unfold grwprintf. run_bind E. rewrite (proj2 (Z.ltb_lt _ _)) by lia.
  set (need := Z.of_nat (length text) + g_size ctx).
  destruct (double_until_spec (Z.to_nat need - 1) need (g_capacity ctx) Hpos) as (c & Ec & Hc1 & Hc2);
    [lia|].
  replace (S (Z.to_nat need - 1)) with (Z.to_nat need) in Ec by lia. rewrite Ec.
  assert (holds (Grw b (g_capacity ctx) (g_size ctx)) out) as Hh1.
  { split; cbn; try done. specialize (Hout 0%nat ltac:(lia) ltac:(lia)).
    by rewrite Nat.add_0_r, take_0, app_nil_r in Hout. }
  destruct (grw_realloc_run _ out c q Hh1 Hc2) as (ctx1 & E1 & Hh2 & Hcap & Hsz). cbn in Hsz, Hcap.
  cbn [g_capacity] in E1. run_bind E1.
  destruct (vsnprintf_run ctx1 out text (add_memused (c - g_capacity ctx) q) Hh2) as (b' & E2 & Hb' & Hout').
  { rewrite Hcap, Hsz. unfold need in *. lia. }
  run_bind E2. eexists _, _. split; [reflexivity|]. cbn. split; [lia|]. split; [unfold need in *; lia|].
  apply Hout'; [lia|]. rewrite Hcap, Hsz. unfold need in *. lia.
Qed.

Lemma grwmemcpy_run ctx out src q :
  holds ctx out ->
  exists ctx' m, grwmemcpy junk ctx src (Z.of_nat (length src)) q = (Done ctx', add_memused m q) /\
    holds ctx' (out ++ src) /\ g_capacity ctx' = g_capacity ctx + m.
Proof.
  intros Hh. unfold grwmemcpy.
  rewrite (bind_done _ _ _ tt q).
  2: { by rewrite (proj2 (orb_false_iff _ _)) by (split; apply Z.ltb_ge; lia). }
  assert (exists ctx1 m, (if g_capacity ctx <? g_size ctx + Z.of_nat (length src)
      then grw_realloc junk ctx (g_size ctx + Z.of_nat (length src)) else mret ctx) q =
      (Done ctx1, add_memused m q) /\ holds ctx1 out /\
      g_capacity ctx1 = g_capacity ctx + m /\ g_size ctx1 = g_size ctx /\
      g_size ctx + Z.of_nat (length src) <= g_capacity ctx1) as (ctx1 & m & E & Hh1 & Hc & Hs & Hr).
  { case_match eqn:E.
    - apply Z.ltb_lt in E.
      destruct (grw_realloc_run ctx out (g_size ctx + Z.of_nat (length src)) q Hh) as (c1 & E1 & K1 & K2 & K3);
        [lia|]. exists c1, (g_size ctx + Z.of_nat (length src) - g_capacity ctx).
      split; [exact E1|]. repeat split; try apply K1; try done; lia.
    - apply Z.ltb_ge in E. exists ctx, 0. split; [|repeat split; try apply Hh; try done; lia].
      unfold add_memused. destruct q. cbn. by rewrite Z.add_0_r. }
  run_bind E. destruct Hh1 as [K1 K2 K3 K4].
  assert (length out + length src <= length (g_buf ctx1))%nat as Hfit by lia.
  destruct (overwrite_take (length out) src (g_buf ctx1) Hfit) as [L1 L2].
  unfold write_at. rewrite Nat2Z.id, take_ge by lia.
  rewrite (proj2 (orb_false_iff _ _)) by (split; apply Z.ltb_ge; lia).
  replace (Z.to_nat (g_size ctx1)) with (length out) by lia.
  eexists _, m. split; [reflexivity|]. split; [|cbn; lia]. split; cbn.
  - rewrite length_app. lia.
  - lia.
  - by rewrite length_app, L2, K3.
  - lia.
Qed.
End Buffer.

(** ** The whole response *)

Section Respond.
Context {A : Type} (date : list Z) (junk : Z -> Z).
Abbreviation rq := (http_request_t A).
Implicit Types (q : rq) (ctx : grwprintf_t) (r : http_response_t).

Definition keeps_alive q : bool := flag_check (q_flags q) HTTP_KEEP_ALIVE.

Definition connection_header (keep : bool) : list Z * list Z :=
  (chars "Connection", if keep then chars "keep-alive" else chars "close").

(** The text in front of the body. *)
Definition response_head (keep : bool) (text : string) r : list Z :=
  status_line date (r_status r) text ++
  concat (header_line <$> connection_header keep :: r_headers r) ++
  content_length_line (r_content_length r) ++ [13; 10].

Lemma print_headers_fits hs : forall ctx out q,
  holds ctx out ->
  g_size ctx + Z.of_nat (length (concat (header_line <$> hs))) < g_capacity ctx ->
  exists ctx', print_headers junk hs ctx q = (Done ctx', q) /\
    holds ctx' (out ++ concat (header_line <$> hs)) /\ g_capacity ctx' = g_capacity ctx.
Proof.
  induction hs as [|kv hs IH]; intros ctx out q Hh Hfit.
  - exists ctx. cbn. by rewrite app_nil_r.
  - cbn [fmap list_fmap concat print_headers] in *. rewrite length_app in Hfit.
    destruct (grwprintf_fits junk ctx out (header_line kv) q Hh ltac:(lia)) as (c1 & E1 & H1 & K1).
    run_bind E1. destruct (IH c1 _ q H1) as (c2 & E2 & H2 & K2).
    { destruct H1 as [S1 _ _ _], Hh as [S0 _ _ _]. rewrite length_app in S1. lia. }
    exists c2. rewrite (assoc_L (++)). split; [done|]. split; [done|congruence].
Qed.

Lemma buffer_headers_fits r ctx out q :
  holds ctx out -> flag_check (q_flags q) HTTP_CHUNKED_RESPONSE = false ->
  let text := concat (header_line <$> r_headers r) ++ content_length_line (r_content_length r) ++ [13; 10] in
  g_size ctx + Z.of_nat (length text) < g_capacity ctx ->
  exists ctx', http_buffer_headers junk r ctx q = (Done ctx', q) /\
    holds ctx' (out ++ text) /\ g_capacity ctx' = g_capacity ctx.
Proof.
  intros Hh Hck text Hfit. unfold text in *. rewrite !length_app in Hfit. unfold http_buffer_headers.
  destruct (print_headers_fits (r_headers r) ctx out q Hh ltac:(lia)) as (c1 & E1 & H1 & K1).
  run_bind E1. rewrite (bind_done get _ _ _ _ eq_refl). rewrite Hck.
  pose proof (holds_size _ _ Hh) as S0. pose proof (holds_size _ _ H1) as S1. rewrite length_app in S1.
  destruct (grwprintf_fits junk c1 _ (content_length_line (r_content_length r)) q H1 ltac:(lia))
    as (c2 & E2 & H2 & K2).
  run_bind E2. pose proof (holds_size _ _ H2) as S2. rewrite !length_app in S2.
  destruct (grwprintf_fits junk c2 _ [13; 10] q H2 ltac:(lia)) as (c3 & E3 & H3 & K3).
  exists c3. split; [done|]. split; [by rewrite !(assoc_L (++))|congruence].
Qed.

(** What is decided about the connection before the headers are printed. *)
Definition decide_connection : M rq unit :=
  q ← get; if flag_check (q_flags q) HTTP_AUTOMATIC then hs_auto_detect_keep_alive else mret tt.

(** It does not depend on the memory counted and leaves it as it is. *)
Definition memory_blind {B} (m : M rq B) : Prop :=
  forall n q, m (add_memused n q) = let '(o, q') := m q in (o, add_memused n q').

Lemma blind_ret {B} (b : B) : memory_blind (mret b).
Proof. done. Qed.

Lemma blind_throw {B} t : memory_blind (throw t : M rq B).
Proof. done. Qed.

Lemma blind_of_option {B} (o : option B) : memory_blind (of_option o).
Proof. by destruct o. Qed.

Lemma blind_bind {B C} (m : M rq B) (k : B -> M rq C) :
  memory_blind m -> (forall b, memory_blind (k b)) -> memory_blind (m ≫= k).
Proof.
  intros Hm Hk n q. unfold mbind, M_bind. rewrite Hm. destruct (m q) as [[b|t|] q']; try done.
  apply Hk.
Qed.

(** Reading the state is blind when what follows is, and looks elsewhere. *)
Lemma blind_get {C} (k : rq -> M rq C) :
  (forall n q, k (add_memused n q) = k q) -> (forall q, memory_blind (k q)) ->
  memory_blind (get ≫= k).
Proof. intros Hk Hb n q. unfold mbind, M_bind, get. rewrite Hk. apply Hb. Qed.

Create HintDb blind.
#[local] Hint Resolve blind_ret blind_throw blind_of_option : blind.

Lemma blind_string_char s i : memory_blind (string_char s i).
Proof. apply blind_get; [done|]. intros q. repeat case_match; auto with blind. Qed.

Lemma blind_cmp s b n : forall i, memory_blind (cmp_from s b i n).
Proof.
  induction n as [|n IH]; intros i; cbn [cmp_from]; [auto with blind|].
  apply blind_bind; [apply blind_string_char|]. intros c1.
  apply blind_bind; [auto with blind|]. intros c2. case_match; [apply IH|auto with blind].
Qed.

Lemma blind_header key ts : memory_blind (header_from key ts).
Proof.
  induction ts as [|t ts IH]; cbn [header_from]; [auto with blind|]. case_match; [|done].
  apply blind_bind; [apply blind_cmp|]. intros []; [|done]. case_match; auto with blind.
Qed.

Lemma decide_connection_blind : memory_blind decide_connection.
Proof.
  apply blind_get; [done|]. intros q. case_match; [|auto with blind].
  apply blind_get; [done|]. intros q'. cbv beta zeta. case_match; [|auto with blind].
  apply blind_bind; [apply blind_string_char|]. intros c.
  apply blind_bind; [apply blind_get; [done|intros; apply blind_header]|]. intros str.
  apply blind_bind; [case_match; [apply blind_cmp|auto with blind]|]. intros close.
  by case_match.
Qed.

Lemma respond_headers_fits r ctx out text q q1 :
  decide_connection q = (Done tt, q1) ->
  flag_check (q_flags q1) HTTP_CHUNKED_RESPONSE = false ->
  hs_status_text !! Z.to_nat (r_status r) = Some text ->
  holds ctx out ->
  g_size ctx + Z.of_nat (length (response_head (keeps_alive q1) text r)) < g_capacity ctx ->
  exists ctx', http_respond_headers date junk r ctx q = (Done ctx', q1) /\
    holds ctx' (out ++ response_head (keeps_alive q1) text r) /\ g_capacity ctx' = g_capacity ctx.
Proof.
  intros Ed Hck Htext Hh Hfit. unfold response_head in *. rewrite length_app in Hfit.
  unfold http_respond_headers.
  rewrite (bind_done get _ _ _ _ eq_refl). unfold decide_connection in Ed.
  rewrite (bind_done get _ _ _ _ eq_refl) in Ed. run_bind Ed.
  rewrite (bind_done get _ _ _ _ eq_refl).
  rewrite (bind_done _ _ _ text q1) by (cbn [r_status http_response_header]; by rewrite Htext).
  destruct (grwprintf_fits junk ctx out (status_line date (r_status r) text) q1 Hh ltac:(lia))
    as (c1 & E1 & H1 & K1).
  run_bind E1. pose proof (holds_size _ _ Hh) as S0. pose proof (holds_size _ _ H1) as S1.
  rewrite length_app in S1.
  set (r' := http_response_header _ _ r).
  destruct (buffer_headers_fits r' c1 _ q1 H1 Hck) as (c2 & E2 & H2 & K2).
  { unfold r'. cbn [r_headers http_response_header r_content_length]. unfold keeps_alive, connection_header in Hfit. lia. }
  exists c2. split; [exact E2|]. split; [|congruence]. rewrite (assoc_L (++)). exact H2.
Qed.

(** All of what is in the buffer is written. *)
Lemma write_all q ctx out :
  q_answers q = [] -> q_epipe q = false ->
  s_buf (q_stream q) = Some (g_buf ctx) -> s_total_bytes (q_stream q) = 0 ->
  s_length (q_stream q) = g_size ctx -> holds ctx out ->
  exists q', hs_write_client_socket q = (Done true, q') /\
    q' = write_done (Z.of_nat (length out)) out [] false q /\
    s_total_bytes (q_stream q') = s_length (q_stream q').
Proof.
  intros Ha He Hb Ht Hl [H1 H2 H3 H4]. eexists. split; [|split; [reflexivity|]].
  - unfold hs_write_client_socket. rewrite (bind_done get _ _ _ _ eq_refl).
    assert (pending q = Some out) as ->.
    { unfold pending. rewrite Ht. unfold bytes_of. rewrite Hb. cbn [default].
      rewrite (proj2 (andb_true_iff _ _)) by (split; apply Z.leb_le; cbn; lia).
      cbn. rewrite drop_0. f_equal. rewrite Hl, H1, Nat2Z.id. exact H3. }
    rewrite Ha, He. cbv beta iota. rewrite Nat2Z.id, take_ge by lia. reflexivity.
  - cbn. rewrite Ht, Hl, H1. case_match eqn:E; [lia|]. apply Z.ltb_ge in E. lia.
Qed.

(** What a connection looks like after its response went out. *)
Record responded q (out : list Z) (keep : bool) q' : Prop := {
  resp_out : q_out q' = q_out q ++ out;
  resp_app : q_app q' = q_app q;
  resp_in : q_in q' = q_in q;
  resp_ended : q_ended q' = q_ended q;
  resp_tokens : q_tokens q' = q_tokens q;
  resp_memory : q_memused q' - held (q_stream q') = q_memused q - held (q_stream q);
  resp_next : if keep
              then q_state q' = HTTP_SESSION_INIT /\ s_buf (q_stream q') = None /\
                   q_flags q' = q_flags q /\ q_timeout q' = HTTP_KEEP_ALIVE_TIMEOUT
              else q_state q' = HTTP_SESSION_WRITE /\
                   q_flags q' = flag_set (q_flags q) HTTP_END_SESSION;
}.

Lemma end_response_run cb ctx out q :
  holds ctx out -> q_answers q = [] -> q_epipe q = false ->
  flag_check (q_flags q) HTTP_CHUNKED_RESPONSE = false ->
  exists q', http_end_response cb ctx q = (Done tt, q') /\
    responded (add_memused (- g_capacity ctx) q) out (keeps_alive q) q'.
Proof.
  intros Hh Ha He Hck. unfold http_end_response.
  set (q1 := match s_buf (q_stream q) with
             | None => q
             | Some _ => set_stream (fun s => Stream None (s_total_bytes s) (s_capacity s) (s_length s)
                 (s_index s) (s_anchor s) (s_token s) (s_consumed s)) (add_memused (- s_capacity (q_stream q)) q)
             end).
  assert (hs_free_buffer q = (Done tt, q1)) as E1.
  { unfold hs_free_buffer, q1. rewrite (bind_done get _ _ _ _ eq_refl). by case_match. }
  run_bind E1.
  set (q2 := set_state HTTP_SESSION_WRITE (set_stream (fun s => Stream (Some (g_buf ctx)) 0 (g_capacity ctx)
    (g_size ctx) (s_index s) (s_anchor s) (s_token s) (s_consumed s)) q1)).
  rewrite !bind_modify. fold q2.
  assert (q_memused q1 = q_memused q - held (q_stream q) /\ q_out q1 = q_out q /\ q_app q1 = q_app q /\
    q_in q1 = q_in q /\ q_ended q1 = q_ended q /\ q_flags q1 = q_flags q /\ q_answers q1 = [] /\
    q_epipe q1 = false /\ q_tokens q1 = q_tokens q) as (F1 & F2 & F3 & F4 & F5 & F6 & F7 & F8 & F9)
    by (unfold q1, held; destruct (s_buf (q_stream q)); cbn; repeat split; try done; lia).
  destruct (write_all q2 ctx out) as (q3 & E3 & -> & Htot); try done.
  unfold hs_write_response. run_bind E3. cbn [negb]. rewrite (bind_done get _ _ _ _ eq_refl).
  rewrite Htot, Z.eqb_refl. cbn [negb].
  cbn [write_done q_flags q2 set_state set_stream]. rewrite F6, Hck.
  unfold keeps_alive. destruct (flag_check (q_flags q) HTTP_KEEP_ALIVE) eqn:Hk.
  - eexists. split; [reflexivity|]. split; cbn; try (by rewrite ?F2, ?F3, ?F4, ?F5, ?F6, ?F9).
    rewrite F1. unfold held. cbn. lia.
  - eexists. split; [reflexivity|]. split; cbn; try (by rewrite ?F2, ?F3, ?F4, ?F5, ?F6, ?F9).
    rewrite F1. unfold held at 1. cbn. unfold held. lia.
Qed.

(** [http_respond] on a connection that takes all it is given writes the
    status line, the connection header, the other headers, the length and the
    body, nothing else and nothing less, as long as the part in front of the
    body is shorter than the first buffer; then the connection waits for the
    next request, its buffer freed, or is marked to be ended, and the memory
    counted is that of the buffers held. *)
Lemma respond_writes_response cb r body text q q1 :
  decide_connection q = (Done tt, q1) ->
  q_answers q1 = [] -> q_epipe q1 = false ->
  flag_check (q_flags q1) HTTP_CHUNKED_RESPONSE = false ->
  hs_status_text !! Z.to_nat (r_status r) = Some text ->
  r_body r = Some body -> r_content_length r = Z.of_nat (length body) ->
  Z.of_nat (length (response_head (keeps_alive q1) text r)) < HTTP_RESPONSE_BUF_SIZE ->
  exists q', http_respond date junk cb r q = (Done tt, q') /\
    responded q1 (response_head (keeps_alive q1) text r ++ body) (keeps_alive q1) q'.
Proof.
  intros Ed Ha He Hck Htext Hbody Hlen Hfit. unfold http_respond.
  set (q0 := add_memused HTTP_RESPONSE_BUF_SIZE q). set (ctx := Grw (malloced junk 0 1024) 1024 0).
  assert (decide_connection q0 = (Done tt, add_memused HTTP_RESPONSE_BUF_SIZE q1)) as Ed'
    by (unfold q0; by rewrite decide_connection_blind, Ed).
  rewrite (bind_done _ _ _ ctx q0) by done.
  assert (holds ctx []) as Hh by (split; cbn; try done; lia).
  destruct (respond_headers_fits r ctx [] text q0 _ Ed' Hck Htext Hh) as (c1 & E1 & H1 & K1); [exact Hfit|].
  run_bind E1. rewrite Hbody, Hlen.
  destruct (grwmemcpy_run junk c1 _ body (add_memused HTTP_RESPONSE_BUF_SIZE q1) H1)
    as (c2 & m & E2 & H2 & K2).
  run_bind E2.
  destruct (end_response_run cb c2 _ (add_memused m (add_memused HTTP_RESPONSE_BUF_SIZE q1)) H2)
    as (q' & E3 & [R1 R2 R3 R4 R5 R6 R7]); try done.
  exists q'. split; [exact E3|]. split; try done.
  rewrite R6. cbn. rewrite K2, K1. cbn. unfold HTTP_RESPONSE_BUF_SIZE. lia.
Qed.
End Respond.

(** ** Witnesses *)

Definition demo_session : http_request_t unit := new_session 0 [] [] false tt.

Definition demo_response : http_response_t :=
  http_response_body (chars "Hello, World!") 13
    (http_response_header (chars "Content-Type") (chars "text/plain")
       (http_response_status 200 http_response_init)).

Lemma growing_counts_twice_witness :
  exists ctx' m,
    grwprintf (fun _ => 0) (Grw [0; 0; 0; 0] 4 0) (chars "hello") demo_session =
      (Done ctx', add_memused m demo_session) /\ g_size ctx' = 10.
Proof.
  destruct (growing_counts_twice (A := unit) (fun _ => 0) (Grw [0; 0; 0; 0] 4 0) [] (chars "hello") demo_session)
    as (ctx' & m & E & H1 & _); [by split|done..|].
  exists ctx', m. split; [exact E|]. rewrite H1. reflexivity.
Defined.

Lemma respond_writes_response_witness :
  exists q', http_respond (chars "Thu, 01 Jan 1970 00:00:00 GMT") (fun _ => 0) (mret tt)
      demo_response demo_session = (Done tt, q') /\
    q_out q' = response_head (chars "Thu, 01 Jan 1970 00:00:00 GMT") false "OK" demo_response ++
      chars "Hello, World!".
Proof.
  destruct (respond_writes_response (A := unit) (chars "Thu, 01 Jan 1970 00:00:00 GMT") (fun _ => 0) (mret tt)
    demo_response (chars "Hello, World!") "OK" demo_session demo_session) as (q' & E & [H _ _ _ _ _ _]);
    [done..|vm_compute; reflexivity|].
  exists q'. split; [exact E|exact H].
Defined.
