(* ===== verification/HttpSession.v ===== *)
(** * HTTP server: a request through a connection

    Looking up what was parsed, and the whole way of a well-formed request:
    reading it, parsing it, handing it to the application's handler. *)

From S2P Require Import Prelude HttpTables HttpParser HttpReading HttpGrammar HttpServer HttpResponse.
#[local] Open Scope Z_scope.

(** ** Looking up headers *)

(** Keys are compared without regard to case. *)
Definition same_key (k k' : list Z) : Prop := lower <$> k = lower <$> k'.

#[export] Instance same_key_dec k k' : Decision (same_key k k').
Proof. unfold same_key. apply _. Defined.

(** The value of the first header with the key. *)
Fixpoint header_value (key : list Z) (hs : list (list Z * list Z)) : option (list Z) :=
  match hs with
  | [] => None
  | kv :: hs => if decide (same_key kv.1 key) then Some kv.2 else header_value key hs
  end.

Lemma same_key_length k k' : same_key k k' -> length k = length k'.
Proof. intros H. apply (f_equal length) in H. by rewrite !length_fmap in H. Qed.

Section Lookup.
Context {A : Type}.
Abbreviation rq := (http_request_t A).
Implicit Types (q : rq).

(** The text a string of the request stands for. *)
Definition string_text q (s : http_string_t) : list Z :=
  match str_buf s with
  | None => []
  | Some b => take (Z.to_nat (str_len s)) (drop (Z.to_nat b) (bytes_of (q_stream q)))
  end.

(** The string points to the text. *)
Definition points_to q (s : http_string_t) (text : list Z) : Prop :=
  str_buf s <> None /\ str_len s = Z.of_nat (length text) /\ string_text q s = text /\
  match str_buf s with Some b => 0 <= b | None => True end.

Lemma token_points_to B q e t :
  bytes_of (q_stream q) = B -> token_is B e t -> points_to q (token_string t) e.2.
Proof.
  intros HB (Hty & Ht & Hi & Hl). split; [done|]. split; [done|]. split; [|done].
  unfold string_text, token_string. cbn. rewrite HB. exact Ht.
Qed.

Lemma string_char_at q s text i c :
  points_to q s text -> text !! i = Some c ->
  string_char s (Z.of_nat i) q = (Done c, q).
Proof.
  intros (Hb & Hl & Ht & Hpos) Hc. unfold string_char, string_text in *.
  rewrite (bind_done get _ _ _ _ eq_refl). destruct (str_buf s) as [b|]; [|done].
  rewrite (proj2 (Z.ltb_ge _ _)) by lia.
  rewrite <- Ht in Hc. apply lookup_take_Some in Hc as [Hc _]. rewrite lookup_drop in Hc.
  replace (Z.to_nat (b + Z.of_nat i)) with (Z.to_nat b + i)%nat by lia. by rewrite Hc.
Qed.

Lemma cmp_run q s text b n : forall i,
  points_to q s text -> (i + n = length text)%nat -> length text = length b ->
  cmp_from s b (Z.of_nat i) n q =
    (Done (bool_decide (lower <$> drop i text = lower <$> drop i b)), q).
Proof.
  induction n as [|n IH]; intros i Hs Hn Hlen; cbn [cmp_from].
  - rewrite !drop_ge by lia. done.
  - destruct (lookup_lt_is_Some_2 text i) as [c1 E1]; [lia|].
    destruct (lookup_lt_is_Some_2 b i) as [c2 E2]; [lia|].
    rewrite (bind_done _ _ _ c1 q) by (by apply (string_char_at q s text)).
    rewrite (bind_done _ _ _ c2 q) by (by rewrite Nat2Z.id, E2).
    rewrite (drop_S text c1 i E1), (drop_S b c2 i E2). cbn [fmap list_fmap].
    replace (Z.of_nat i + 1) with (Z.of_nat (S i)) by lia.
    destruct (lower c1 =? lower c2) eqn:E.
    + apply Z.eqb_eq in E. rewrite IH by (done || lia). do 2 f_equal.
      apply bool_decide_ext. split; [congruence|by intros [=]].
    + apply Z.eqb_neq in E. rewrite bool_decide_eq_false_2 by (by intros [=]). done.
Qed.

Lemma case_insensitive_cmp_run q s text b :
  points_to q s text -> length text = length b ->
  hs_case_insensitive_cmp s b (Z.of_nat (length b)) q = (Done (bool_decide (same_key text b)), q).
Proof.
  intros Hs Hlen. unfold hs_case_insensitive_cmp. rewrite Nat2Z.id.
  exact (cmp_run q s text b (length b) 0 Hs ltac:(lia) Hlen).
Qed.

(** What [http_request_header] finds among the tokens of headers. *)
Definition found q (v : option (list Z)) (s : http_string_t) : Prop :=
  match v with Some text => points_to q s text | None => s = null_string end.

Lemma header_from_skip key e ts q B t :
  token_is B e t -> e.1 <> HS_TOK_HEADER_KEY -> header_from key (t :: ts) q = header_from key ts q.
Proof.
  intros (Hty & _) Hne. cbn [header_from]. by rewrite decide_False by (rewrite Hty; tauto).
Qed.

Lemma header_from_found key hs : forall body ts q,
  Forall2 (token_is (bytes_of (q_stream q))) (header_tokens hs ++ [(HS_TOK_BODY, body)]) ts ->
  exists s, header_from key ts q = (Done s, q) /\ found q (header_value key hs) s.
Proof.
  induction hs as [|kv hs IH]; intros body ts q Hts.
  - apply Forall2_cons_inv_l in Hts as (t & ts' & Ht & Hnil & ->). apply Forall2_nil_inv_l in Hnil as ->.
    exists null_string. by rewrite (header_from_skip _ _ _ _ _ _ Ht).
  - apply Forall2_cons_inv_l in Hts as (t1 & ts1 & H1 & Hts & ->).
    apply Forall2_cons_inv_l in Hts as (t2 & ts2 & H2 & Hts & ->).
    destruct (IH body ts2 q Hts) as (s & E & Hs).
    assert (header_from key (t2 :: ts2) q = (Done s, q)) as E2
      by (by rewrite (header_from_skip _ _ _ _ _ _ H2)).
    pose proof (token_points_to _ q _ _ eq_refl H1) as P1.
    pose proof (token_points_to _ q _ _ eq_refl H2) as P2.
    destruct H1 as (Ty1 & _ & _ & L1). cbn [fst snd] in *.
    cbn [header_from header_value]. rewrite Ty1, L1.
    destruct (decide (length kv.1 = length key)) as [El|El].
    + rewrite decide_True by (split; [done|lia]).
      run_bind (case_insensitive_cmp_run q _ _ key P1 El). case_bool_decide as Hk.
      * rewrite decide_True by exact Hk. exists (token_string t2). by split.
      * rewrite (decide_False (P := same_key kv.1 key)) by exact Hk. exists s. by split.
    + rewrite (decide_False (P := same_key kv.1 key)) by (by intros ?%same_key_length).
      rewrite decide_False by lia. exists s. by split.
Qed.

(** The tokens of the request are those of the message, its bytes are its
    text. *)
Record parsed (m : message) q : Prop := {
  parsed_bytes : bytes_of (q_stream q) = print m;
  parsed_tokens : Forall2 (token_is (print m)) (message_tokens m) (token_list q);
}.

(** [http_request_header] on a parsed request returns the value of the first
    header whose key is the given one up to case, or the null string when the
    request has none, and changes nothing. *)
Lemma request_header_correct m q key :
  parsed m q ->
  exists s, http_request_header key q = (Done s, q) /\ found q (header_value key (m_headers m)) s.
Proof.
  intros [HB Hts]. unfold http_request_header. rewrite (bind_done get _ _ _ _ eq_refl).
  unfold message_tokens in Hts. rewrite <- HB in Hts. cbn [app] in Hts.
  do 3 (apply Forall2_cons_inv_l in Hts as (? & ? & ? & Hts & ->);
        erewrite header_from_skip by (done || eassumption)).
  by eapply header_from_found.
Qed.

Lemma find_token B type es ts :
  Forall2 (token_is B) es ts -> forall i e,
  list_find (fun e => e.1 = type) es = Some (i, e) ->
  exists t, list_find (fun t => t_type t = type) ts = Some (i, t) /\ token_is B e t.
Proof.
  induction 1 as [|e t es ts He Hts IH]; intros i e' Hf; [done|]. cbn [list_find] in *.
  pose proof He as [Hty _]. destruct (decide (e.1 = type)) as [E|E].
  - rewrite decide_True by congruence. injection Hf as <- <-. eauto.
  - rewrite decide_False by congruence.
    destruct (list_find _ es) as [[j e0]|] eqn:Ef; [|done]. injection Hf as <- <-.
    destruct (IH j e0 eq_refl) as (t' & -> & Ht'). eauto.
Qed.

Lemma find_body hs body :
  exists i, list_find (fun e => e.1 = HS_TOK_BODY) (header_tokens hs ++ [(HS_TOK_BODY, body)])
    = Some (i, (HS_TOK_BODY, body)).
Proof.
  induction hs as [|kv hs [i IH]]; [by exists 0%nat|]. exists (S (S i)).
  unfold header_tokens in *. cbn [fmap list_fmap concat app list_find]. rewrite !decide_False by done.
  by rewrite IH.
Qed.

(** The accessors of a parsed request return the method, the target, the
    version and the body of the message. *)
Lemma request_strings_correct m q :
  parsed m q ->
  points_to q (http_request_method q) (m_method m) /\
  points_to q (http_request_target q) (m_target m) /\
  points_to q (http_get_token_string HS_TOK_VERSION q) (m_version m) /\
  points_to q (http_request_body q) (m_body m).
Proof.
  intros [HB Hts].
  assert (forall type i text, list_find (fun e => e.1 = type) (message_tokens m) = Some (i, (type, text)) ->
    points_to q (http_get_token_string type q) text) as Hget.
  { intros type i text Hf. destruct (find_token _ _ _ _ Hts i _ Hf) as (t & Ht & Hti).
    unfold http_get_token_string. rewrite Ht. by apply (token_points_to (print m) q (type, text) t). }
  unfold message_tokens in Hget. cbn [app] in Hget.
  split; [by apply (Hget _ 0%nat)|]. split; [by apply (Hget _ 1%nat)|]. split; [by apply (Hget _ 2%nat)|].
  destruct (find_body (m_headers m) (m_body m)) as [i Hi]. apply (Hget _ (S (S (S i)))).
  cbn [list_find]. rewrite !decide_False by done. by rewrite Hi.
Qed.
End Lookup.

(** ** The connection's keep-alive mode *)

(** HTTP/1.1 (a version that ends in 1) keeps the connection unless told
    otherwise, other versions only when told to. *)
Definition keeps_connection (m : message) : bool :=
  let v11 := bool_decide (last (m_version m) = Some 49) in
  match header_value (chars "Connection") (m_headers m) with
  | None => v11
  | Some v => negb (bool_decide (same_key v (chars "close"))) && (v11 || negb (Z.of_nat (length v) =? 0))
  end.

Section Connection.
Context {A : Type}.
Abbreviation rq := (http_request_t A).
Implicit Types (q : rq).

Definition choose_keep_alive (keep : bool) (f : Z) : Z :=
  if keep then flag_set f HTTP_KEEP_ALIVE else flag_clear f HTTP_KEEP_ALIVE.

(** The comparison with [close], on a string of any length. *)
Lemma close_run q v s :
  found q v s ->
  (if str_len s =? 5 then hs_case_insensitive_cmp s (chars "close") 5 else mret false) q =
    (Done (match v with Some v => bool_decide (same_key v (chars "close")) | None => false end), q).
Proof.
  destruct v as [v|]; cbn [found]; [|by intros ->]. intros Hs. pose proof Hs as (_ & Hl & _). rewrite Hl.
  destruct (Z.of_nat (length v) =? 5) eqn:E.
  - apply Z.eqb_eq in E. apply (case_insensitive_cmp_run q s v (chars "close") Hs).
    change (length (chars "close")) with 5%nat. lia.
  - apply Z.eqb_neq in E. rewrite bool_decide_eq_false_2; [done|]. intros H%same_key_length.
    change (length (chars "close")) with 5%nat in H. lia.
Qed.

Lemma auto_detect_run m q :
  parsed m q -> m_version m <> [] ->
  hs_auto_detect_keep_alive q = (Done tt, set_flags (choose_keep_alive (keeps_connection m)) q).
Proof.
  intros Hp Hne. destruct (request_strings_correct m q Hp) as (_ & _ & Hv & _).
  destruct (request_header_correct m q (chars "Connection") Hp) as (s & Es & Hs).
  unfold hs_auto_detect_keep_alive. rewrite (bind_done get _ _ _ _ eq_refl). cbv zeta.
  set (str := http_get_token_string HS_TOK_VERSION q) in *. pose proof Hv as (Hb & Hl & _).
  destruct (str_buf str); [|done].
  destruct (exists_last Hne) as (vs & c & Ev).
  assert (m_version m !! length vs = Some c) as Ec by (rewrite Ev; by apply list_lookup_middle).
  pose proof (string_char_at q str _ _ c Hv Ec) as E.
  replace (Z.of_nat (length vs)) with (str_len str - 1) in E
    by (rewrite Hl, Ev, length_app; cbn [length]; lia).
  run_bind E. run_bind Es. run_bind (close_run q _ s Hs).
  unfold keeps_connection. rewrite Ev, last_snoc.
  assert (bool_decide (Some c = Some 49) = (c =? 49)) as ->.
  { destruct (c =? 49) eqn:E49; [apply Z.eqb_eq in E49 as ->; done|].
    apply Z.eqb_neq in E49. apply bool_decide_eq_false_2. by intros [=]. }
  destruct (header_value (chars "Connection") (m_headers m)) as [v|]; cbn [found] in Hs.
  - destruct Hs as (_ & -> & _). destruct (bool_decide (same_key v _)), (c =? 49), (Z.of_nat (length v) =? 0); done.
  - subst s. cbn. by destruct (c =? 49).
Qed.

(** What is decided about the connection, when the application left it to
    the server, is [keeps_connection] of the message; nothing else changes. *)
Lemma connection_decided m q :
  parsed m q -> m_version m <> [] -> flag_check (q_flags q) HTTP_AUTOMATIC = true ->
  decide_connection q = (Done tt, set_flags (choose_keep_alive (keeps_connection m)) q).
Proof.
  intros Hp Hne Ha. unfold decide_connection. rewrite (bind_done get _ _ _ _ eq_refl), Ha.
  by apply auto_detect_run.
Qed.

(** ** Reading *)

(** A buffer of [cap] bytes that holds [c], none of them looked at. *)
Definition buffered (c : list Z) (tb cap : Z) : hs_stream_t :=
  Stream (Some c) tb cap (Z.of_nat (length c)) 0 0 none_token false.

Lemma overwrite_end (c d : list Z) : overwrite (length c) d c = c ++ d.
Proof. unfold overwrite. rewrite take_ge, drop_ge by lia. by rewrite app_nil_r. Qed.

(** What has arrived in pieces, less than half of the largest buffer, is read at
    once. *)
Lemma read_pieces fuel : forall ds c tb cap mem,
  Forall (fun d => d <> []) ds -> (length (concat ds) < fuel)%nat ->
  0 < cap < HTTP_MAX_REQUEST_BUF_SIZE -> Z.of_nat (length c) < cap ->
  2 * Z.of_nat (length (c ++ concat ds)) < HTTP_MAX_REQUEST_BUF_SIZE ->
  exists cap', hs_read_loop fuel (buffered c tb cap) mem (Arrived <$> ds) =
    Some (-1, buffered (c ++ concat ds) (tb + Z.of_nat (length (concat ds))) cap',
          mem - cap + cap', []).
Proof.
  induction fuel as [|fuel IH]; intros ds c tb cap mem Hds Hfuel Hcap Hc Hsz; [lia|].
  cbn [hs_read_loop]. destruct ds as [|d ds].
  - exists cap. cbn [fmap list_fmap]. unfold sock_read. cbn [buffered s_capacity s_length].
    rewrite (proj2 (Z.leb_gt _ _)) by lia. unfold hs_stream_received. cbn [Z.ltb Z.compare].
    unfold hs_stream_grow. cbn [buffered s_length s_capacity].
    rewrite (proj2 (Z.eqb_neq _ _)) by lia. cbn [andb concat length].
    rewrite app_nil_r, Z.add_0_r. by replace (mem - cap + cap) with mem by lia.
  - apply Forall_cons in Hds as [Hd Hds].
    set (room := cap - Z.of_nat (length c)).
    set (got := take (Z.to_nat room) d). set (rest := drop (Z.to_nat room) d).
    set (ds' := match rest with [] => ds | _ => rest :: ds end).
    assert (sock_read room (Arrived <$> d :: ds) = (Z.of_nat (length got), got, Arrived <$> ds')) as E.
    { unfold sock_read. rewrite (proj2 (Z.leb_gt _ _)) by lia. cbn [fmap list_fmap].
      destruct d as [|x d]; [done|]. fold got rest. unfold ds'. by destruct rest. }
    assert (0 < Z.of_nat (length got) <= room) as Hgot.
    { unfold got. rewrite length_take. destruct d; [done|]. cbn [length]. lia. }
    assert (concat (d :: ds) = got ++ concat ds') as Ecat.
    { cbn [concat]. rewrite <- (take_drop (Z.to_nat room) d) at 1. fold got rest.
      rewrite <- (assoc_L (++)). unfold ds'. by destruct rest. }
    cbn [buffered s_capacity s_length]. fold room. rewrite E. unfold hs_stream_received.
    rewrite (proj2 (Z.ltb_lt _ _)) by lia.
    change (bytes_of (buffered c tb cap)) with c.
    cbn [buffered s_capacity s_length s_total_bytes s_index s_anchor s_token s_consumed].
    rewrite Nat2Z.id, overwrite_end.
    rewrite Ecat in *. rewrite (length_app c), (length_app got) in Hsz. rewrite (length_app got) in Hfuel.
    set (cap1 := if Z.of_nat (length c) + Z.of_nat (length got) =? cap then cap * 2 else cap).
    assert (hs_stream_grow (Stream (Some (c ++ got)) (tb + Z.of_nat (length got)) cap
        (Z.of_nat (length c) + Z.of_nat (length got)) 0 0 none_token false) mem =
      (buffered (c ++ got) (tb + Z.of_nat (length got)) cap1, mem - cap + cap1)) as ->.
    { unfold hs_stream_grow, buffered, cap1. cbn [s_length s_capacity s_buf s_total_bytes s_index
        s_anchor s_token s_consumed]. rewrite length_app, Nat2Z.inj_add.
      rewrite (proj2 (Z.eqb_neq cap _)) by lia. destruct (_ =? cap) eqn:Ecap; cbn [andb negb].
      - apply Z.eqb_eq in Ecap. rewrite (proj2 (Z.ltb_ge _ _)) by lia. done.
      - by replace (mem - cap + cap) with mem by lia. }
    assert (Z.of_nat (length (c ++ got)) < cap1 /\ 0 < cap1 < HTTP_MAX_REQUEST_BUF_SIZE) as [H1 H2].
    { unfold cap1. rewrite length_app. case_match eqn:Ecap; [apply Z.eqb_eq in Ecap|apply Z.eqb_neq in Ecap]; lia. }
    cbn [buffered s_capacity]. rewrite (proj2 (Z.ltb_lt cap1 _)) by lia. cbn [andb].
    destruct (IH ds' (c ++ got) (tb + Z.of_nat (length got)) cap1 (mem - cap + cap1)) as (cap' & ->);
      [|lia|lia|lia| |].
    + unfold ds'. destruct rest eqn:Er; [done|]. by constructor.
    + rewrite !length_app. lia.
    + exists cap'. rewrite <- (assoc_L (++)), length_app.
      do 3 f_equal; [|lia]. do 2 f_equal. lia.
Qed.
End Connection.

(** ** Parsing and handing over *)

Section Session.
Context {A : Type} (date : list Z) (junk : Z -> Z) (behind : hs_token)
  (request_handler chunk_cb : M (http_request_t A) unit).
Abbreviation rq := (http_request_t A).
Implicit Types (q : rq).

(** Tokens after which [hs_read_and_process_request] goes on parsing. *)
Definition goes_on (type : hs_token) : Prop :=
  type <> HS_TOK_NONE /\ type <> HS_TOK_ERROR /\ type <> HS_TOK_BODY /\
  type <> HS_TOK_BODY_STREAM /\ type <> HS_TOK_CHUNK_BODY.

Definition parser_at q : hs := HS_ (q_parser q) (q_stream q).
Definition with_parser (h : hs) q : rq := set_parser (h_parser h) (set_stream (fun _ => h_stream h) q).

Lemma parse_session_run q t h :
  http_parse behind (parser_at q) = (Done t, h) ->
  parse_session behind q = (Done t, with_parser h q).
Proof. intros E. unfold parse_session, parser_at in *. by rewrite E. Qed.

Lemma push_run t ts cap q :
  q_tokens q = TokenDyn (Some ts) cap ->
  exists cap', http_token_dyn_push t q = (Done tt, set_tokens (TokenDyn (Some (ts ++ [t])) cap') q).
Proof.
  intros E. unfold http_token_dyn_push. rewrite (bind_done _ _ _ (q_tokens q) q) by done.
  rewrite E. cbn. eauto.
Qed.

(** After the handler. *)
Definition next_round (fuel : nat) (t : http_token_t) : M rq unit :=
  q ← get;
  if negb (token_type_none t) && bool_decide (q_state q = HTTP_SESSION_READ)
  then process_tokens date junk behind request_handler chunk_cb fuel else mret tt.

Lemma process_tokens_run ts : forall t h ts0 cap fuel q,
  parse_tokens behind (length ts + 1) (parser_at q) = (Done (ts ++ [t]), h) ->
  Forall (fun t => goes_on (t_type t)) ts -> t_type t = HS_TOK_BODY ->
  q_state q = HTTP_SESSION_READ -> q_tokens q = TokenDyn (Some ts0) cap -> (length ts < fuel)%nat ->
  exists cap' fuel', process_tokens date junk behind request_handler chunk_cb fuel q =
    (request_handler ;; next_round fuel' t)
      (set_state HTTP_SESSION_NOP
        (set_tokens (TokenDyn (Some (ts0 ++ ts ++ [t])) cap') (with_parser h q))).
Proof.
  induction ts as [|t1 ts IH]; intros t h ts0 cap fuel q E Hts Ht Hst Htok Hfuel;
    (destruct fuel as [|fuel]; [cbn in Hfuel; lia|]); cbn [length Nat.add parse_tokens app] in E;
    apply bind_inv in E as (t' & h' & E1 & E).
  - apply bind_inv in E as (? & ? & [= <- <-] & [= -> <-]).
    cbn [process_tokens]. run_bind (parse_session_run q t h' E1).
    assert (token_type_none t = false) as Hn
      by (unfold token_type_none; rewrite Ht; by apply bool_decide_eq_false_2). rewrite Hn.
    destruct (push_run t ts0 cap (with_parser h' q) Htok) as (cap' & Ep). run_bind Ep.
    exists cap', fuel. rewrite Ht. unfold next_round. by rewrite Hn.
  - apply bind_inv in E as (ts' & h2 & E2 & [= -> -> <-]).
    apply Forall_cons in Hts as [(N1 & N2 & N3 & N4 & N5) Hts].
    cbn [process_tokens]. run_bind (parse_session_run q t1 h' E1).
    assert (token_type_none t1 = false) as Hn by (by apply bool_decide_eq_false_2). rewrite Hn.
    destruct (push_run t1 ts0 cap (with_parser h' q) Htok) as (cap1 & Ep). run_bind Ep.
    rewrite (bind_done _ _ _ tt (set_tokens (TokenDyn (Some (ts0 ++ [t1])) cap1) (with_parser h' q)))
      by (by destruct (t_type t1)).
    rewrite (bind_done get _ _ _ _ eq_refl).
    rewrite bool_decide_eq_true_2 by exact Hst. cbn [negb andb].
    destruct (IH t h2 (ts0 ++ [t1]) cap1 fuel
      (set_tokens (TokenDyn (Some (ts0 ++ [t1])) cap1) (with_parser h' q))) as (cap' & fuel' & E); try done.
    { destruct h'. exact E2. }
    { cbn in Hfuel. lia. }
    exists cap', fuel'. rewrite E, <- (assoc_L (++)). done.
Qed.

Lemma header_tokens_length hs : length (header_tokens hs) = (2 * length hs)%nat.
Proof.
  induction hs as [|kv hs IH]; [done|]. unfold header_tokens in *.
  cbn [fmap list_fmap concat length app]. lia.
Qed.

Lemma message_tokens_types m ts :
  Forall2 (token_is (print m)) (message_tokens m) ts ->
  exists ts1 t, ts = ts1 ++ [t] /\ length ts1 = (3 + 2 * length (m_headers m))%nat /\
    Forall (fun t => goes_on (t_type t)) ts1 /\ t_type t = HS_TOK_BODY.
Proof.
  intros Hts. unfold message_tokens in Hts. rewrite (assoc_L (++)) in Hts.
  apply Forall2_app_inv_l in Hts as (ts1 & ts2 & H1 & H2 & ->).
  apply Forall2_cons_inv_l in H2 as (t & ts' & [Ht _] & Hnil & ->).
  apply Forall2_nil_inv_l in Hnil as ->. exists ts1, t. split; [done|].
  split; [|split; [|exact Ht]].
  - rewrite <- (Forall2_length _ _ _ H1), length_app, header_tokens_length. done.
  - assert (Forall (fun e : hs_token * list Z => goes_on e.1)
      ([(HS_TOK_METHOD, m_method m); (HS_TOK_TARGET, m_target m); (HS_TOK_VERSION, m_version m)] ++
       header_tokens (m_headers m))) as Hgo.
    { apply Forall_app. split; [by repeat constructor|].
      clear H1; induction (m_headers m) as [|kv hs IH]; [done|]. unfold header_tokens in *.
      cbn [fmap list_fmap concat app]. by do 2 (constructor; [done|]). }
    clear -H1 Hgo. induction H1 as [|e t es ts [Hty _] _ IH]; [constructor|].
    apply Forall_cons in Hgo as [He Hes]. constructor; [by rewrite Hty|by apply IH].
Qed.

(** The connection as the handler finds it. *)
Record handed m (mem : Z) (answers : list write_answer) (epipe : bool) (app : A) q : Prop := {
  handed_parsed : parsed m q;
  handed_state : q_state q = HTTP_SESSION_NOP;
  handed_flags : q_flags q = HTTP_AUTOMATIC;
  handed_in : q_in q = [];
  handed_answers : q_answers q = answers;
  handed_epipe : q_epipe q = epipe;
  handed_out : q_out q = [];
  handed_ended : q_ended q = false;
  handed_memory : q_memused q = mem + held (q_stream q);
  handed_app : q_app q = app;
}.

(** The session's stream after all pieces were read. *)
Lemma read_session_run ds B q :
  Forall (fun d => d <> []) ds -> concat ds = B -> B <> [] ->
  2 * Z.of_nat (length B) < HTTP_MAX_REQUEST_BUF_SIZE ->
  q_stream q = hs_stream_zero -> q_in q = Arrived <$> ds ->
  exists cap tb, read_session q =
    (Done 1, Rq (buffered B tb cap) (q_parser q) (q_state q) (q_timeout q) (q_tokens q) (q_flags q)
               (q_memused q + cap) [] (q_answers q) (q_out q) (q_epipe q) (q_watch_write q)
               (q_ended q) (q_app q)).
Proof.
  intros Hds Hcat Hne Hsz Hs Hin. unfold read_session. rewrite (bind_done get _ _ _ _ eq_refl).
  rewrite Hin, Hs.
  assert (concat ((fun a => match a with Arrived d => d | EndOfStream => [] end) <$> (Arrived <$> ds)) = B)
    as -> by (rewrite <- list_fmap_compose, list_fmap_id; done).
  cbv zeta. unfold hs_stream_read_socket. cbn [hs_stream_zero s_index s_length Z.ltb Z.compare hs_stream_alloc s_buf].
  change (Stream (Some []) _ _ _ _ _ _ _) with (buffered [] 0 HTTP_REQUEST_BUF_SIZE).
  destruct (read_pieces (S (length B)) ds [] 0 HTTP_REQUEST_BUF_SIZE (q_memused q + HTTP_REQUEST_BUF_SIZE))
    as (cap & ->); try done; try (rewrite ?app_nil_l, ?Hcat; lia).
  rewrite app_nil_l, Hcat. exists cap, (0 + Z.of_nat (length B)). unfold HTTP_REQUEST_BUF_SIZE.
  by replace (q_memused q + 1024 - 1024 + cap) with (q_memused q + cap) by lia.
Qed.

(** A well-formed request that arrived, in whatever pieces, reaches the handler
    with all its tokens; what the handler leaves is what the event ends with,
    except that a connection marked to be ended is closed. *)
Lemma session_hands_over m ds mem answers epipe app fuel :
  well_formed m -> Forall (fun d => d <> []) ds -> concat ds = print m ->
  2 * Z.of_nat (length (print m)) < HTTP_MAX_REQUEST_BUF_SIZE ->
  mem <= HTTP_MAX_TOTAL_EST_MEM_USAGE -> (3 + 2 * length (m_headers m) < fuel)%nat ->
  exists q, handed m mem answers epipe app q /\
    forall o q', request_handler q = (o, q') -> (o = Done tt -> q_state q' <> HTTP_SESSION_READ) ->
    http_session date junk behind request_handler chunk_cb fuel
      (new_session mem (Arrived <$> ds) answers epipe app) =
    match o with
    | Done _ => (if flag_check (q_flags q') HTTP_END_SESSION then hs_end_session else mret tt) q'
    | Trap t => (Trap t, q')
    | OutOfFuel => (OutOfFuel, q')
    end.
Proof.
  intros Hm Hds Hcat Hsz Hmem Hfuel.
  set (q1 := Rq hs_stream_zero http_parser_zero HTTP_SESSION_READ HTTP_REQUEST_TIMEOUT
    (TokenDyn (Some []) 32) HTTP_AUTOMATIC mem (Arrived <$> ds) answers [] epipe false false app).
  assert (print m <> []) as Hne
    by (unfold print; destruct (wf_method m Hm) as [Hl _]; by destruct (m_method m)).
  destruct (read_session_run ds (print m) q1 Hds Hcat Hne Hsz eq_refl eq_refl) as (cap & tb & Er).
  destruct (parse_message behind m tb cap Hm) as (ts & p & i & a & Ep & Hts & _).
  destruct (message_tokens_types m ts Hts) as (ts1 & t & -> & Hlen & Hgo & Hty).
  set (q2 := Rq (buffered (print m) tb cap) http_parser_zero HTTP_SESSION_READ HTTP_REQUEST_TIMEOUT
    (TokenDyn (Some []) 32) HTTP_AUTOMATIC (mem + cap) [] answers [] epipe false false app) in *.
  change (read_session q1 = (Done 1, q2)) in Er.
  replace (4 + 2 * length (m_headers m))%nat with (length ts1 + 1)%nat in Ep by lia.
  destruct (process_tokens_run ts1 t _ [] 32 fuel q2 Ep) as (cap' & fuel' & E); try done; [lia|].
  set (q3 := set_state _ _) in E.
  exists q3. split; [by split|]. intros o q' Eh Hst. unfold http_session.
  rewrite (bind_done get _ _ _ _ eq_refl). cbn [new_session q_state].
  rewrite (bind_done _ _ _ (HTTP_MAX_TOTAL_EST_MEM_USAGE <? mem) q1) by done.
  rewrite (proj2 (Z.ltb_ge _ _)) by done. rewrite (bind_done get _ _ _ _ eq_refl). cbn [q1 q_state].
  assert (hs_read_and_process_request date junk behind request_handler chunk_cb fuel q1 =
    (o, q')) as Eo.
  { unfold hs_read_and_process_request, hs_reset_timeout. rewrite !bind_modify.
    change (set_timeout _ _) with q1. run_bind Er. cbn [Z.eqb]. rewrite E.
    destruct o as [[]|t'|]; [|by rewrite (bind_trap _ _ _ _ _ Eh)|by unfold mbind, M_bind; rewrite Eh].
    run_bind Eh. unfold next_round. rewrite (bind_done get _ _ _ _ eq_refl).
    rewrite bool_decide_eq_false_2 by (by apply Hst). by rewrite andb_false_r. }
  unfold mbind, M_bind. rewrite Eo. by destruct o.
Qed.
End Session.

(** ** Writing in pieces *)

Section Writing.
Context {A : Type} (date : list Z) (junk : Z -> Z) (behind : hs_token)
  (request_handler chunk_cb : M (http_request_t A) unit) (fuel : nat).
Abbreviation rq := (http_request_t A).
Implicit Types (q : rq).

(** A buffer of the stream is freed. *)
Definition without_buffer (s : hs_stream_t) : hs_stream_t :=
  match s_buf s with
  | None => s
  | Some _ => Stream None (s_total_bytes s) (s_capacity s) (s_length s) (s_index s) (s_anchor s)
                (s_token s) (s_consumed s)
  end.

Definition freed q : rq := set_stream without_buffer (add_memused (- held (q_stream q)) q).

Lemma free_buffer_run q : hs_free_buffer q = (Done tt, freed q).
Proof.
  unfold hs_free_buffer, freed, held, without_buffer. rewrite (bind_done get _ _ _ _ eq_refl).
  destruct q as [s p st to tk fl me i an o ep w e a]. destruct s as [b]. cbn.
  destruct b; [done|]. unfold set_stream, add_memused. cbn. by rewrite Z.add_0_r.
Qed.

Lemma end_session_run q :
  hs_end_session q = (Done tt,
    Rq (without_buffer (q_stream q)) (q_parser q) (q_state q) (q_timeout q)
      (TokenDyn None (d_capacity (q_tokens q))) (q_flags q) (q_memused q - held (q_stream q)) (q_in q)
      (q_answers q) (q_out q) (q_epipe q) false true (q_app q)).
Proof. unfold hs_end_session. by run_bind (free_buffer_run q). Qed.

(** Events on a connection that has something to write. *)
Fixpoint write_events (n : nat) : M rq unit :=
  match n with
  | O => mret tt
  | S n' =>
      q ← get;
      if bool_decide (q_state q = HTTP_SESSION_WRITE) && negb (q_ended q) then
        http_session date junk behind request_handler chunk_cb fuel ;; write_events n'
      else mret tt
  end.

(** The connection is about to write the rest of [out], from position [k]. *)
Record writing (out : list Z) (k : nat) q : Prop := {
  wr_state : q_state q = HTTP_SESSION_WRITE;
  wr_ended : q_ended q = false;
  wr_epipe : q_epipe q = false;
  wr_flags : flag_check (q_flags q) HTTP_CHUNKED_RESPONSE = false /\
             flag_check (q_flags q) HTTP_END_SESSION = false;
  wr_buf : exists b, s_buf (q_stream q) = Some b /\ take (length out) b = out /\ (length out <= length b)%nat;
  wr_length : s_length (q_stream q) = Z.of_nat (length out);
  wr_total : s_total_bytes (q_stream q) = Z.of_nat k /\ (k <= length out)%nat;
}.

Lemma pending_writing out k q : writing out k q -> pending q = Some (drop k out).
Proof.
  intros [_ _ _ _ (b & Hb & Hout & Hlen) Hl [Ht Hk]]. unfold pending. rewrite Hl, Ht.
  unfold bytes_of. rewrite Hb. cbn [default].
  change (length (id b)) with (length b).
  rewrite (proj2 (Z.leb_le (Z.of_nat (length out)) _)), (proj2 (Z.leb_le 0 _)) by lia. cbn [andb].
  rewrite !Nat2Z.id. change (id b) with b. by rewrite Hout.
Qed.

(** One call of [write] that does not fail for good. *)
Lemma write_some out k q :
  writing out k q -> Forall (fun a => a <> BrokenPipe) (q_answers q) ->
  exists k' n q', (k <= k')%nat /\ hs_write_client_socket q = (Done true, q') /\ writing out k' q' /\
    q' = write_done n (take (k' - k) (drop k out)) (tail (q_answers q)) false q /\
    (q_answers q = [] -> k' = length out).
Proof.
  intros Hw Ha. pose proof (pending_writing _ _ _ Hw) as Hp.
  destruct Hw as [W1 W2 W3 W4 W5 W6 [W7 W8]].
  assert (forall n, n <= Z.of_nat (length (drop k out)) ->
    writing out (k + Z.to_nat n) (write_done n (take (Z.to_nat n) (drop k out)) (tail (q_answers q)) false q)) as Hwr.
  { intros n Hn. rewrite length_drop in Hn. split; cbn; try done.
    rewrite W7. split; [case_match eqn:E; [apply Z.ltb_lt in E|apply Z.ltb_ge in E]; lia|lia]. }
  unfold hs_write_client_socket. rewrite (bind_done get _ _ _ _ eq_refl), Hp, W3.
  set (n := match q_answers q with
            | [] => Z.of_nat (length (drop k out))
            | Takes n :: _ => Z.min (Z.max n 0) (Z.of_nat (length (drop k out)))
            | _ => -1
            end).
  assert (n <= Z.of_nat (length (drop k out))) as Hn by (unfold n; repeat case_match; lia).
  exists (k + Z.to_nat n)%nat, n, (write_done n (take (Z.to_nat n) (drop k out)) (tail (q_answers q)) false q).
  replace (k + Z.to_nat n - k)%nat with (Z.to_nat n) by lia.
  split; [lia|]. split; [|split; [by apply Hwr|split; [done|]]].
  - unfold n. destruct (q_answers q) as [|[] a]; try done. by apply Forall_cons in Ha as [? _].
  - intros E. unfold n. rewrite E, length_drop. lia.
Qed.

Lemma take_drop_app (l : list Z) (k k' : nat) :
  (k <= k')%nat -> take (k' - k) (drop k l) ++ drop k' l = drop k l.
Proof.
  intros Hk. rewrite <- (take_drop (k' - k) (drop k l)) at 2. rewrite drop_drop.
  do 3 f_equal. lia.
Qed.

(** What the connection is like when the last byte was written. *)
Definition finished q (out : list Z) q' : Prop :=
  q_out q' = q_out q ++ out /\ q_memused q' = q_memused q - held (q_stream q) /\
  s_buf (q_stream q') = None /\ q_app q' = q_app q /\
  if flag_check (q_flags q) HTTP_KEEP_ALIVE
  then q_state q' = HTTP_SESSION_INIT /\ q_ended q' = false
  else q_ended q' = true.

Lemma session_writes q q1 :
  q_state q = HTTP_SESSION_WRITE -> hs_write_response chunk_cb q = (Done tt, q1) ->
  http_session date junk behind request_handler chunk_cb fuel q =
    (if flag_check (q_flags q1) HTTP_END_SESSION then hs_end_session else mret tt) q1.
Proof.
  intros Hst E. unfold http_session. rewrite (bind_done get _ _ _ _ eq_refl), Hst.
  rewrite (bind_done _ _ _ false q) by done.
  rewrite (bind_done get _ _ _ _ eq_refl), Hst. run_bind E. by rewrite (bind_done get _ _ _ _ eq_refl).
Qed.

Lemma flag_set_end f : flag_check (flag_set f HTTP_END_SESSION) HTTP_END_SESSION = true.
Proof.
  unfold flag_check, flag_set, HTTP_END_SESSION. rewrite Z.land_lor_distr_l.
  apply negb_true_iff, Z.eqb_neq. intros H%Z.lor_eq_0_iff. by destruct H.
Qed.

(** One event: some bytes more, or all that were left. *)
Lemma write_event out k q :
  writing out k q -> Forall (fun a => a <> BrokenPipe) (q_answers q) ->
  exists k' q1, (k <= k')%nat /\ (q_answers q = [] -> k' = length out) /\
    http_session date junk behind request_handler chunk_cb fuel q = (Done tt, q1) /\
    if decide (k' = length out) then finished q (drop k out) q1
    else writing out k' q1 /\ q_answers q1 = tail (q_answers q) /\
         q_out q1 = q_out q ++ take (k' - k) (drop k out) /\ q_memused q1 = q_memused q /\
         held (q_stream q1) = held (q_stream q) /\ q_flags q1 = q_flags q /\ q_app q1 = q_app q.
Proof.
  intros Hw Ha. destruct (write_some out k q Hw Ha) as (k' & n & q' & Hk & E & Hw' & -> & Hlast).
  exists k'. set (q' := write_done _ _ _ _ _) in *. pose proof Hw' as [V1 V2 V3 [V4 V4'] V5 V6 [V7 V8]].
  set (q1 := if decide (k' = length out) then
       if flag_check (q_flags q) HTTP_KEEP_ALIVE
       then set_timeout HTTP_KEEP_ALIVE_TIMEOUT (freed (set_state HTTP_SESSION_INIT q'))
       else set_flags (fun f => flag_set f HTTP_END_SESSION) q'
     else set_timeout HTTP_REQUEST_TIMEOUT (set_state HTTP_SESSION_WRITE (snd (hs_add_write_event q')))).
  assert (hs_write_response chunk_cb q = (Done tt, q1)) as Er.
  { unfold hs_write_response. run_bind E. cbn [negb].
    rewrite (bind_done get _ _ _ _ eq_refl), V6, V7, V4. unfold q1. case_decide as Hd.
    - rewrite Hd, Z.eqb_refl. cbn [negb]. change (q_flags q') with (q_flags q). case_match; [|done].
      rewrite bind_modify. by run_bind (free_buffer_run (set_state HTTP_SESSION_INIT q')).
    - rewrite (proj2 (Z.eqb_neq _ _)) by lia. done. }
  pose proof (session_writes q q1 (wr_state _ _ _ Hw) Er) as Hs. unfold q1 in Hs. clear Er q1.
  change (q_flags q') with (q_flags q) in *.
  case_decide as Hd.
  - assert (q_out q' = q_out q ++ drop k out) as Hout
      by (cbn; rewrite Hd, take_ge by (rewrite length_drop; lia); done).
    assert (exists b, s_buf (q_stream q) = Some b) as [b Hb] by (destruct V5 as (b & Hb & _); by exists b).
    unfold finished. destruct (flag_check (q_flags q) HTTP_KEEP_ALIVE) eqn:Ek.
    + cbn [set_timeout freed set_stream add_memused set_state q_flags] in Hs.
      change (q_flags q') with (q_flags q) in Hs. rewrite V4' in Hs.
      eexists. split; [done|]. split; [done|]. split; [exact Hs|]. split; [exact Hout|].
      cbn. unfold held, without_buffer. cbn. rewrite Hb. by repeat split.
    + cbn [q_flags set_flags] in Hs. rewrite flag_set_end, end_session_run in Hs.
      eexists. split; [done|]. split; [done|]. split; [exact Hs|]. split; [exact Hout|].
      cbn. unfold held, without_buffer. cbn. rewrite Hb. by repeat split.
  - cbn [set_timeout set_state snd hs_add_write_event modify q_flags] in Hs.
    change (q_flags q') with (q_flags q) in Hs. rewrite V4' in Hs.
    eexists. split; [done|]. split; [done|]. split; [exact Hs|].
    split; [by split|]. by repeat split.
Qed.

End Writing.

(** A response of which the peer takes three bytes, then none, then all. *)
Definition write_demo : http_request_t unit :=
  Rq (Stream (Some (chars "Hello, World!" ++ [0; 0; 0])) 0 16 13 0 0 none_token false) http_parser_zero
    HTTP_SESSION_WRITE HTTP_REQUEST_TIMEOUT (TokenDyn (Some []) 32) HTTP_KEEP_ALIVE 16 []
    [Takes 3; WouldBlock; Takes 100] [] false false false tt.

