(* ===== verification/MockHTTPWorker.v ===== *)
(** * MockHTTPWorker

    The worker that takes its tasks from HTTP requests
    ([src/libs/lib_worker/MockHTTPWorker.{h,cc}]): [handle_request] is the
    handler of the server's requests; it answers, then reports the task that
    the header [taskID] names as complete. *)

From S2P Require Import Prelude Tables World Procs Pool Client Frame Ledger SchedulerUtil WorkerManager.
From S2P Require Import HttpTables HttpParser HttpReading HttpGrammar HttpServer HttpResponse HttpSession.
From stdpp Require Import pretty.
#[local] Open Scope Z_scope.

(** ** [std::stoi] *)

Definition is_space (c : Z) : bool := (c =? 32) || ((9 <=? c) && (c <=? 13)).

Fixpoint skip_spaces (l : list Z) : list Z :=
  match l with
  | c :: l' => if is_space c then skip_spaces l' else l
  | [] => []
  end.

(** The digits in front. *)
Fixpoint digits (l : list Z) : list Z :=
  match l with
  | c :: l' => if digit c then c :: digits l' else []
  | [] => []
  end.

(** White space, a sign, digits; what follows is ignored.  [None]:
    [std::invalid_argument] or [std::out_of_range]. *)
Definition stoi (l : list Z) : option Z :=
  let l := skip_spaces l in
  let '(sign, l) := match l with
                    | 45 :: l' => (-1, l')
                    | 43 :: l' => (1, l')
                    | _ => (1, l)
                    end in
  match digits l with
  | [] => None
  | ds =>
      let n := sign * decimal ds in
      if (-2147483648 <=? n) && (n <=? 2147483647) then Some n else None
  end.

(** ** The worker *)

Record MockHTTPWorker := {
  h_manager : WorkerManager.WorkerManager;
  pkey_ : Z;
  stopDispatch_ : bool;
}.

Definition MockHTTPWorker_new (workerId pkey : Z) (dbAddr : string) : MockHTTPWorker :=
  {| h_manager := WorkerManager_new workerId dbAddr; pkey_ := pkey; stopDispatch_ := false |}.

Definition workerId (this : MockHTTPWorker) : Z := workerId_ (h_manager this).

(** What the handler acts on: the database and [WorkerManager::totalTasks_]. *)
Record http_app := App { app_world : world; totalTasks_ : Z }.

Definition on_world {B} (m : M world B) : M http_app B := fun a =>
  match m (app_world a) with (o, w) => (o, App w (totalTasks_ a)) end.

Definition endServing (this : MockHTTPWorker) : bool * MockHTTPWorker :=
  (true, {| h_manager := h_manager this; pkey_ := pkey_ this; stopDispatch_ := true |}).

Section Worker.
Context `{Env} (this : MockHTTPWorker) (date : list Z) (junk : Z -> Z).
Abbreviation rq := (http_request_t http_app).

(** [9090 + workerId_], the port of the server as well. *)
Definition http_port : Z := wrap32 (9090 + workerId this).

(** [startServing]: [false] is a failure; otherwise the thread that runs
    [dispatch] is started. *)
Definition startServing : M world bool :=
  r ← invoke (Procedure_new "InsertWorker"
                [scalar WIRE_TYPE_INTEGER; scalar WIRE_TYPE_INTEGER; scalar WIRE_TYPE_INTEGER;
                 scalar WIRE_TYPE_STRING])
        [VInt (workerId this); VInt 999999999; VInt (pkey_ this);
         VStr ("http://localhost:" +:+ pretty http_port)];
  mret (succeeded r).

(** [std::string(str.buf, str.len)]. *)
Definition std_string (s : http_string_t) : M rq (list Z) :=
  q ← get;
  if str_len s <? 0 then throw UncaughtException
  else match str_buf s with
  | None => if str_len s =? 0 then mret [] else throw UncaughtException
  | Some b =>
      if (0 <=? b) && (b + str_len s <=? Z.of_nat (length (bytes_of (q_stream q))))
      then mret (take (Z.to_nat (str_len s)) (drop (Z.to_nat b) (bytes_of (q_stream q))))
      else throw OutOfBounds
  end.

Definition RESPONSE : list Z := chars "Hello, World!".

Definition hello : http_response_t :=
  http_response_body RESPONSE 13
    (http_response_header (chars "Content-Type") (chars "text/plain")
       (http_response_status 200 http_response_init)).

(** The completion of a task, [handle_request] after the response. *)
Definition signal_completion (taskId : Z) : M world response :=
  invoke (Procedure_new "WorkerUpdateTask"
            [scalar WIRE_TYPE_INTEGER; scalar WIRE_TYPE_INTEGER; scalar WIRE_TYPE_INTEGER;
             scalar WIRE_TYPE_INTEGER])
    [VInt (pkey_ this); VInt (workerId this); VInt taskId; VInt COMPLETE].

(** No chunked response is ever started, so that the callback for chunks is
    never set. *)
Definition no_callback : M rq unit := throw OutOfBounds.

(** A failure of the last call is only printed. *)
Definition handle_request : M rq unit :=
  taskIdRaw ← http_request_header (chars "taskID");
  taskIdStr ← std_string taskIdRaw;
  taskId ← match stoi taskIdStr with Some n => mret n | None => throw UncaughtException end;
  http_respond date junk no_callback hello ;;
  on_app (modify (fun a => App (app_world a) (wrapU64 (totalTasks_ a + 1)))) ;;
  r ← on_app (on_world (signal_completion taskId));
  mret tt.

(** An event on the socket of a connection. *)
Definition worker_session (behind : hs_token) (fuel : nat) : M rq unit :=
  http_session date junk behind handle_request no_callback fuel.
End Worker.

(** ** The answer *)

Lemma status_line_length date status text :
  length (status_line date status text) = (length date + length (status_line [] status text))%nat.
Proof. unfold status_line. rewrite !length_app. cbn [length]. lia. Qed.

Lemma hello_fits date keep :
  (length date <= 31)%nat ->
  Z.of_nat (length (response_head date keep "OK" hello)) < HTTP_RESPONSE_BUF_SIZE.
Proof.
  intros Hd. unfold response_head. rewrite length_app, status_line_length.
  assert (length (status_line [] (r_status hello) "OK") +
    length (concat (header_line <$> connection_header keep :: r_headers hello) ++
            content_length_line (r_content_length hello) ++ [13; 10]%Z) <= 200)%nat as H
    by (apply Nat.leb_le; destruct keep; by vm_compute).
  unfold HTTP_RESPONSE_BUF_SIZE. lia.
Qed.

Section Runs.
Context {A : Type}.
Implicit Types (q : http_request_t A).

Lemma std_string_run q s text :
  points_to q s text -> text <> [] ->
  (q ← get; if str_len s <? 0 then throw UncaughtException
   else match str_buf s with
   | None => if str_len s =? 0 then mret [] else throw UncaughtException
   | Some b =>
       if (0 <=? b) && (b + str_len s <=? Z.of_nat (length (bytes_of (q_stream q))))
       then mret (take (Z.to_nat (str_len s)) (drop (Z.to_nat b) (bytes_of (q_stream q))))
       else throw OutOfBounds
   end) q = (Done text, q).
Proof.
  intros (Hb & Hl & Ht & Hpos) Hne. rewrite (bind_done get _ _ _ _ eq_refl).
  rewrite (proj2 (Z.ltb_ge _ _)) by lia. unfold string_text in Ht.
  destruct (str_buf s) as [b|]; [|done]. rewrite Ht.
  apply (f_equal length) in Ht. rewrite length_take, length_drop in Ht.
  assert (0 < length text)%nat by (destruct text; cbn; [done|lia]).
  by rewrite (proj2 (Z.leb_le 0 b)), (proj2 (Z.leb_le _ _)) by lia.
Qed.
End Runs.

Section Correct.
Context `{Env} (this : MockHTTPWorker) (date : list Z) (junk : Z -> Z).
Abbreviation rq := (http_request_t http_app).
Implicit Types (q : rq).

(** Only the database and the counter. *)
Definition with_app (a : http_app) q : rq :=
  Rq (q_stream q) (q_parser q) (q_state q) (q_timeout q) (q_tokens q) (q_flags q) (q_memused q)
    (q_in q) (q_answers q) (q_out q) (q_epipe q) (q_watch_write q) (q_ended q) a.

(** The report is a call of [WorkerUpdateTask]; it is always answered. *)
Lemma signal_is_transaction t w :
  signal_completion this t w =
  transaction (long_proc (WorkerUpdateTask_run (pkey_ this) (workerId this) t COMPLETE)) w.
Proof. done. Qed.

Lemma signal_total t w : exists r w', signal_completion this t w = (Done r, w').
Proof. rewrite signal_is_transaction. apply transaction_answers. Qed.

(** A value of a header is not empty. *)
Lemma header_value_nonempty key hs v :
  Forall header_ok hs -> header_value key hs = Some v -> v <> [].
Proof.
  induction 1 as [|kv hs (_ & _ & _ & _ & Hv & _) _ IH]; [done|]. cbn [header_value].
  case_decide; [|done]. intros [= <-]. by destruct kv.2.
Qed.

(** The handler up to the conversion of the header. *)
Lemma handler_start m mem answers epipe app q :
  well_formed m -> handed m mem answers epipe app q ->
  exists s, http_request_header (chars "taskID") q = (Done s, q) /\
    std_string s q = (Done (default [] (header_value (chars "taskID") (m_headers m))), q).
Proof.
  intros Hm Hq. destruct (request_header_correct m q (chars "taskID")) as (s & E & Hs);
    [apply (handed_parsed _ _ _ _ _ _ Hq)|].
  exists s. split; [done|]. destruct (header_value _ _) as [v|] eqn:Ev; cbn [found] in Hs.
  - apply (std_string_run q s v Hs). apply (header_value_nonempty _ _ _ (proj2 (proj2 (wf_headers m Hm))) Ev).
  - by subst s.
Qed.

(** What the handler leaves of a request for task [t]. *)
Record answered m (mem : Z) (a : http_app) (t : Z) q' : Prop := {
  ans_out : q_out q' = response_head date (keeps_connection m) "OK" hello ++ RESPONSE;
  ans_ended : q_ended q' = false;
  ans_memory : q_memused q' - held (q_stream q') = mem;
  ans_state : q_state q' <> HTTP_SESSION_READ;
  ans_close : flag_check (q_flags q') HTTP_END_SESSION = negb (keeps_connection m);
  ans_buffer : if keeps_connection m then s_buf (q_stream q') = None else True;
  ans_total : totalTasks_ (q_app q') = wrapU64 (totalTasks_ a + 1);
  ans_world : exists r, signal_completion this t (app_world a) = (Done r, app_world (q_app q'));
}.

Lemma handler_run m mem a t q :
  well_formed m -> handed m mem [] false a q -> (length date <= 31)%nat ->
  stoi (default [] (header_value (chars "taskID") (m_headers m))) = Some t ->
  exists q', handle_request this date junk q = (Done tt, q') /\ answered m mem a t q'.
Proof.
  intros Hm Hq Hd Ht. destruct (handler_start m mem [] false a q Hm Hq) as (s & Es & Et).
  unfold handle_request. run_bind Es. run_bind Et. rewrite Ht.
  rewrite (bind_done _ _ _ t q) by done.
  destruct Hq as [Hp Hst Hfl Hin Hans Hep Hout Hend Hmem Happ].
  pose proof (connection_decided m q Hp (proj1 (wf_version m Hm)) ltac:(by rewrite Hfl)) as Ed.
  set (q1 := set_flags _ q) in Ed.
  assert (q_flags q1 = choose_keep_alive (keeps_connection m) HTTP_AUTOMATIC) as Hf1 by (cbn; by rewrite Hfl).
  assert (keeps_alive q1 = keeps_connection m) as Hk
    by (unfold keeps_alive; rewrite Hf1; by destruct (keeps_connection m)).
  destruct (respond_writes_response date junk no_callback hello RESPONSE "OK" q q1 Ed)
    as (q' & E & [R1 R2 R3 R4 R5 R6 R7]);
    try done; [by rewrite Hf1; destruct (keeps_connection m)|by apply hello_fits|].
  run_bind E. rewrite Hk in *.
  rewrite (bind_done _ _ _ tt (with_app (App (app_world (q_app q')) (wrapU64 (totalTasks_ (q_app q') + 1))) q'))
    by done.
  destruct (signal_total t (app_world (q_app q'))) as (r & w' & Ew).
  rewrite (bind_done _ _ _ r (with_app (App w' (wrapU64 (totalTasks_ (q_app q') + 1))) q'))
    by (unfold on_app, on_world; cbn; by rewrite Ew).
  eexists. split; [reflexivity|].
  rewrite R2 in *. change (q_app q1) with (q_app q) in *. rewrite Happ in *.
  split; cbn [with_app q_out q_ended q_memused q_stream q_state q_flags q_app totalTasks_ app_world].
  - rewrite R1. change (q_out q1) with (q_out q). by rewrite Hout.
  - rewrite R4. exact Hend.
  - rewrite R6. change (q_memused q1) with (q_memused q). change (q_stream q1) with (q_stream q). lia.
  - destruct (keeps_connection m), R7 as [-> _]; discriminate.
  - destruct (keeps_connection m).
    + destruct R7 as (_ & _ & -> & _). by rewrite Hf1.
    + destruct R7 as (_ & ->). by rewrite Hf1.
  - destruct (keeps_connection m); [apply R7|exact I].
  - reflexivity.
  - exists r. exact Ew.
Qed.
(** The request [m], which arrived in the pieces [ds] at a new connection. *)
Definition answer_request (behind : hs_token) m (ds : list (list Z)) (mem : Z) (w : world) (n : Z) :
    outcome unit * rq :=
  worker_session this date junk behind (4 + 2 * length (m_headers m))
    (new_session mem (Arrived <$> ds) [] false (App w n)).

Definition arrives m (ds : list (list Z)) : Prop :=
  Forall (fun d => d <> []) ds /\ concat ds = print m /\
  2 * Z.of_nat (length (print m)) < HTTP_MAX_REQUEST_BUF_SIZE.


(** C39: [handle_request] trusts the header [taskID]: when the request has none,
    or its value does not start with an [int], [std::stoi] throws, nothing
    catches it, and the process ends without an answer to the request. *)
Theorem bad_task_id_ends_worker behind m ds mem w n :
  well_formed m -> arrives m ds -> mem <= HTTP_MAX_TOTAL_EST_MEM_USAGE ->
  stoi (default [] (header_value (chars "taskID") (m_headers m))) = None ->
  exists q, answer_request behind m ds mem w n = (Trap UncaughtException, q) /\
    q_out q = [] /\ q_app q = App w n.
Proof.
  intros Hm (Hds & Hcat & Hsz) Hmem Ht. unfold answer_request, worker_session.
  destruct (session_hands_over date junk behind (handle_request this date junk) no_callback
    m ds mem [] false (App w n) (4 + 2 * length (m_headers m))) as (q & Hq & Hrun); [done..|lia|].
  destruct (handler_start m mem [] false (App w n) q Hm Hq) as (s & Es & Et).
  exists q. split; [|split; apply Hq]. apply (Hrun (Trap UncaughtException) q); [|done].
  unfold handle_request. run_bind Es. run_bind Et. by rewrite Ht.
Qed.
End Correct.

(** ** Examples *)

Definition http_demo : MockHTTPWorker := MockHTTPWorker_new 4 0 "localhost".

Definition http_demo_world : world :=
  init_world (Db [WorkerRow 4 1 0 0 ""] [TaskRow 17 4 2 0] [] [] [] []).

(** The text of [demo_message] in two pieces. *)
Definition http_demo_pieces : list (list Z) :=
  [take 30 (print demo_message); drop 30 (print demo_message)].

Definition http_demo_date : list Z := chars "Thu, 01 Jan 1970 00:00:00 GMT".

Lemma http_demo_arrives : arrives demo_message http_demo_pieces.
Proof.
  split; [|split].
  - repeat constructor; by vm_compute.
  - unfold http_demo_pieces. cbn [concat]. rewrite app_nil_r. apply take_drop.
  - by vm_compute.
Qed.


(** The same request with a header that names no task. *)
Definition http_demo_bad : message :=
  Msg (chars "GET") (chars "/") (chars "HTTP/1.1") [(chars "Host", chars "localhost")] [].

Lemma http_demo_bad_ok : well_formed http_demo_bad.
Proof.
  split.
  - split; [done|by apply Forall_check].
  - split; [done|by apply Forall_check].
  - split; [done|by apply Forall_check].
  - split; [done|]. split; [done|]. repeat (apply Forall_cons; split); [by apply header_check..|].
    constructor.
  - constructor.
  - done.
  - vm_compute. discriminate.
Qed.

Lemma bad_task_id_ends_worker_witness :
  exists q, answer_request (H := steady Z.of_nat) http_demo http_demo_date (fun _ => 0) HS_TOK_ERROR
      http_demo_bad [print http_demo_bad] 0 http_demo_world 0 = (Trap UncaughtException, q) /\
    q_out q = [].
Proof.
  destruct (bad_task_id_ends_worker (H := steady Z.of_nat) http_demo http_demo_date (fun _ => 0)
    HS_TOK_ERROR http_demo_bad [print http_demo_bad] 0 http_demo_world 0) as (q & E & H1 & _);
    [exact http_demo_bad_ok| |discriminate|reflexivity|].
  - split; [by repeat constructor|]. split; [apply app_nil_r|by vm_compute].
  - exists q. exact (conj E H1).
Defined.
