(* ===== verification/HttpLoop.v ===== *)
(** * HTTP server: the event loop

    The server around the connections ([src/libs/lib_worker/httpserver.h], the
    part for epoll): initialization, accepting connections, the events a poll
    hands out, timers; [MockHTTPWorker::dispatch] runs it.  All connections share
    the estimate of the memory used, the thread's [errno] and the application.
    What the kernel does is the environment: connections and bytes arrive,
    writes are cut short, a second passes. *)

From S2P Require Import Prelude Tables World WorkerManager.
From S2P Require Import HttpTables HttpParser HttpReading HttpGrammar HttpServer HttpResponse HttpSession MockHTTPWorker.
#[local] Open Scope Z_scope.

(** ** The server *)

Record http_server_t (A : Type) := Server {
  sv_port : Z;
  sv_memused : Z;
  sv_date : list Z;
  sv_epipe : bool;                                (* errno = EPIPE *)
  sv_app : A;
  sv_clients : gmap Z (http_request_t A);         (* by socket: registered with the loop *)
  sv_backlog : list (Z * socket_in);              (* to be accepted, with what was sent already *)
  sv_edges : gset Z;                              (* sockets with arrivals that were not reported yet *)
}.
Arguments Server {A} _ _ _ _ _ _ _ _.
Arguments sv_port {A} _.
Arguments sv_memused {A} _.
Arguments sv_date {A} _.
Arguments sv_epipe {A} _.
Arguments sv_app {A} _.
Arguments sv_clients {A} _.
Arguments sv_backlog {A} _.
Arguments sv_edges {A} _.

(** The events that [epoll_wait] can report: the listening socket, the timer of
    the server, a connection, the timer of a connection. *)
Inductive epoll_event :=
  | EListen
  | EServerTimer
  | ESession (fd : Z)
  | ERequestTimer (fd : Z).

Section Loop.
Context {A : Type}.
Abbreviation rq := (http_request_t A).
Abbreviation server := (http_server_t A).

Definition set_clients (f : gmap Z rq -> gmap Z rq) (s : server) : server :=
  Server (sv_port s) (sv_memused s) (sv_date s) (sv_epipe s) (sv_app s) (f (sv_clients s))
    (sv_backlog s) (sv_edges s).
Definition set_backlog (l : list (Z * socket_in)) (s : server) : server :=
  Server (sv_port s) (sv_memused s) (sv_date s) (sv_epipe s) (sv_app s) (sv_clients s) l (sv_edges s).
Definition set_edges (f : gset Z -> gset Z) (s : server) : server :=
  Server (sv_port s) (sv_memused s) (sv_date s) (sv_epipe s) (sv_app s) (sv_clients s)
    (sv_backlog s) (f (sv_edges s)).
Definition set_date (date : list Z) (s : server) : server :=
  Server (sv_port s) (sv_memused s) date (sv_epipe s) (sv_app s) (sv_clients s)
    (sv_backlog s) (sv_edges s).

(** A connection sees the shared parts of the server; what it did to them is
    there for the next one.  A session that ended is gone. *)
Definition load (s : server) (q : rq) : rq :=
  Rq (q_stream q) (q_parser q) (q_state q) (q_timeout q) (q_tokens q) (q_flags q) (sv_memused s)
    (q_in q) (q_answers q) (q_out q) (sv_epipe s) (q_watch_write q) (q_ended q) (sv_app s).
Definition save (fd : Z) (q : rq) (s : server) : server :=
  Server (sv_port s) (q_memused q) (sv_date s) (q_epipe q) (q_app q)
    (if q_ended q then delete fd (sv_clients s) else <[fd := q]> (sv_clients s))
    (sv_backlog s) (sv_edges s).

(** Run [m] as the handler of an event of connection [q] on socket [fd]. *)
Definition as_session {B} (fd : Z) (q : rq) (m : list Z -> M rq B) : M server B := fun s =>
  match m (sv_date s) (load s q) with (o, q') => (o, save fd q' s) end.

(** [http_server_init] and [http_server_listen_poll]: the text of the date, no
    connections; binding and listening is up to the system. *)
Definition http_server_init (port : Z) (date : list Z) (app : A) : server :=
  Server port 0 date false app ∅ [] ∅.

Section Handlers.
(** The handlers of a connection: they read the date of the server. *)
Context (http_session : list Z -> M rq unit) (hs_request_timer_cb : M rq unit).
(** The text of [hs_generate_date_time] (HttpDate.v) at the time of the call. *)
Context (hs_generate_date_time : list Z).

(** [hs_accept_connections]: until there is none; the new session is registered
    for reading and for its timer, and runs once. *)
Fixpoint accept_all (l : list (Z * socket_in)) : M server unit :=
  match l with
  | [] => mret tt
  | (fd, sock) :: l' =>
      modify (set_backlog l') ;;
      s ← get;
      as_session fd (new_session (sv_memused s) sock [] (sv_epipe s) (sv_app s)) http_session ;;
      accept_all l'
  end.
Definition hs_accept_connections : M server unit :=
  s ← get; accept_all (sv_backlog s).

(** The handlers that the user data of an event points to; there are no events
    of sockets that were closed. *)
Definition handler (e : epoll_event) : M server unit :=
  match e with
  | EListen => hs_accept_connections
  | EServerTimer => modify (set_date hs_generate_date_time)
  | ESession fd =>
      s ← get;
      match sv_clients s !! fd with
      | Some q => modify (set_edges (fun E => E ∖ {[fd]})) ;; as_session fd q http_session
      | None => mret tt
      end
  | ERequestTimer fd =>
      s ← get;
      match sv_clients s !! fd with
      | Some q => as_session fd q (fun _ => hs_request_timer_cb)
      | None => mret tt
      end
  end.

(** [http_server_poll] with what [epoll_wait] reports: one event or none.  The
    result is the number of events. *)
Definition http_server_poll (ev : option epoll_event) : M server Z :=
  match ev with
  | None => mret 0
  | Some e => handler e ;; mret 1
  end.

(** [http_server_listen_addr]: the loop without an end, cut off with the list of
    what [epoll_wait] reports. *)
Fixpoint http_server_listen_addr (evs : list epoll_event) : M server unit :=
  match evs with
  | [] => mret tt
  | e :: evs' => handler e ;; http_server_listen_addr evs'
  end.
End Handlers.
End Loop.

(** ** The worker's server *)

Section Dispatch.
Context `{Env} (this : MockHTTPWorker) (junk : Z -> Z) (behind : hs_token).
Abbreviation rq := (http_request_t http_app).
Abbreviation server := (http_server_t http_app).

Definition session_handler (fuel : nat) (date : list Z) : M rq unit :=
  worker_session this date junk behind fuel.

(** [dispatch]: one call of [http_server_poll] per turn, until [stopDispatch_] is
    seen; [polls] is what [epoll_wait] reports in each turn. *)
Fixpoint dispatch_loop (fuel : nat) (date : nat -> list Z) (stop : nat -> bool)
    (polls : list (option epoll_event)) (k : nat) : M server unit :=
  match polls with
  | [] => out_of_fuel
  | ev :: polls' =>
      http_server_poll (session_handler fuel) hs_request_timer_cb (date k) ev ;;
      if stop k then mret tt else dispatch_loop fuel date stop polls' (S k)
  end.

Definition dispatch (fuel : nat) (date : nat -> list Z) (stop : nat -> bool)
    (polls : list (option epoll_event)) (a : http_app) : outcome unit * server :=
  dispatch_loop fuel date stop polls 0 (http_server_init (http_port this) (date 0%nat) a).
End Dispatch.

(** ** Runs of the server *)

Section Runs.
Context `{Env} (this : MockHTTPWorker) (junk : Z -> Z) (behind : hs_token) (fuel : nat).
Abbreviation server := (http_server_t http_app).
Implicit Types (s : server).

(** What the kernel has accepted and not handed out: sockets that are not open. *)
Definition waiting s : list Z := (sv_backlog s).*1.

(** More has arrived on a socket; the next writes are answered otherwise. *)
Definition socket_changes (sock : socket_in) (answers : list write_answer) (q : http_request_t http_app) :
    http_request_t http_app :=
  Rq (q_stream q) (q_parser q) (q_state q) (q_timeout q) (q_tokens q) (q_flags q) (q_memused q)
    (q_in q ++ sock) answers (q_out q) (q_epipe q) (q_watch_write q) (q_ended q) (q_app q).

Definition set_app (a : http_app) s : server :=
  Server (sv_port s) (sv_memused s) (sv_date s) (sv_epipe s) a (sv_clients s) (sv_backlog s) (sv_edges s).

(** [epoll_wait] with [EPOLLET]: a connection that is registered for reading is
    reported when something arrived since the last report, one that is registered
    for writing while it has bytes that a write did not take. *)
Definition reported s (ev : option epoll_event) : Prop :=
  match ev with
  | Some (ESession fd) =>
      exists q, sv_clients s !! fd = Some q /\
        if q_watch_write q then pending q <> Some [] else fd ∈ sv_edges s
  | _ => True
  end.

(** What happens to the server: somebody connects, bytes arrive or are taken,
    other programs work on the database, a poll. *)
Inductive loop_step : server -> server -> Prop :=
  | loop_connect s fd sock :
      sv_clients s !! fd = None -> fd ∉ waiting s ->
      loop_step s (set_backlog (sv_backlog s ++ [(fd, sock)]) s)
  | loop_socket s fd q sock answers :
      sv_clients s !! fd = Some q ->
      loop_step s (set_edges (fun E => E ∪ {[fd]}) (set_clients <[fd := socket_changes sock answers q]> s))
  | loop_others s a : loop_step s (set_app a s)
  | loop_poll s date ev n s' :
      reported s ev ->
      http_server_poll (session_handler this junk behind fuel) hs_request_timer_cb date ev s = (Done n, s') ->
      loop_step s s'.
End Runs.

(** ** Runs that can be executed *)

Inductive loop_action :=
  | DoConnect (fd : Z) (sock : socket_in)
  | DoSocket (fd : Z) (sock : socket_in) (answers : list write_answer)
  | DoPoll (date : list Z) (e : epoll_event).

Section Execute.
Context `{Env} (this : MockHTTPWorker) (junk : Z -> Z) (behind : hs_token) (fuel : nat).
Abbreviation server := (http_server_t http_app).
Abbreviation step := (loop_step this junk behind fuel).
Implicit Types (s : server).

#[local] Instance reported_dec s ev : Decision (reported s ev).
Proof.
  destruct ev as [[| |fd|fd]|]; cbn; try (left; exact Logic.I).
  destruct (sv_clients s !! fd) as [q|].
  - assert (Decision (if q_watch_write q then pending q <> Some [] else fd ∈ sv_edges s)) as [Hd|Hd]
      by (destruct (q_watch_write q); apply _).
    + left. by exists q.
    + right. by intros (q' & [= <-] & Hr).
  - right. by intros (q' & Hq & _).
Defined.

Definition loop_do (a : loop_action) s : option server :=
  match a with
  | DoConnect fd sock =>
      if decide (sv_clients s !! fd = None /\ fd ∉ waiting s)
      then Some (set_backlog (sv_backlog s ++ [(fd, sock)]) s) else None
  | DoSocket fd sock answers =>
      q ← sv_clients s !! fd;
      Some (set_edges (fun E => E ∪ {[fd]}) (set_clients <[fd := socket_changes sock answers q]> s))
  | DoPoll date e =>
      if decide (reported s (Some e)) then
        match http_server_poll (session_handler this junk behind fuel) hs_request_timer_cb date (Some e) s with
        | (Done _, s') => Some s'
        | _ => None
        end
      else None
  end.

Definition loop_run (acts : list loop_action) s : option server :=
  foldl (fun o a => s ← o; loop_do a s) (Some s) acts.

Lemma loop_do_step a s s' : loop_do a s = Some s' -> step s s'.
Proof.
  destruct a as [fd sock|fd sock answers|date e]; cbn [loop_do].
  - case_decide as Hd; [|done]. intros [= <-]. destruct Hd. by apply loop_connect.
  - destruct (sv_clients s !! fd) as [q|] eqn:Hq; [|done]. intros [= <-]. by apply loop_socket.
  - case_decide as Hd; [|done].
    destruct (http_server_poll _ _ date (Some e) s) as [[n| |] s1] eqn:E; [|done|done]. intros [= <-].
    by eapply loop_poll.
Qed.

Lemma loop_run_steps acts : forall s s', loop_run acts s = Some s' -> rtc step s s'.
Proof.
  unfold loop_run. induction acts as [|a acts IH] using rev_ind; intros s s'.
  - intros [= <-]. done.
  - rewrite foldl_app. cbn. destruct (foldl _ (Some s) acts) as [s1|] eqn:E; [|done]. cbn. intros Hs.
    eapply rtc_r; [by apply IH|by eapply loop_do_step].
Qed.

(** A check of the server after a run. *)
Definition run_check (acts : list loop_action) s (P : server -> bool) : bool :=
  match loop_run acts s with Some s' => P s' | None => false end.

Lemma run_check_sound acts s P : run_check acts s P = true -> exists s', rtc step s s' /\ P s' = true.
Proof.
  unfold run_check. destruct (loop_run acts s) as [s'|] eqn:E; [|done].
  intros HP. exists s'. by split; [apply loop_run_steps in E|].
Qed.
End Execute.

(** ** Examples *)

Definition stall_init : http_server_t http_app :=
  http_server_init (http_port http_demo) http_demo_date (App http_demo_world 0).

(** A client connects and sends [demo_message]; the first write takes ten bytes. *)
Definition stall_actions : list loop_action := [
  DoConnect 5 [];
  DoPoll http_demo_date EListen;
  DoSocket 5 [Arrived (print demo_message)] [Takes 10];
  DoPoll http_demo_date (ESession 5)].

Definition stall_more : list loop_action := stall_actions ++ [DoPoll http_demo_date (ESession 5)].
