(* ===== verification/HttpMemory.v ===== *)
(** * HTTP server: the memory in use

    The server refuses requests when its estimate of the memory in use is above a
    limit ([http_session] in [src/libs/lib_worker/httpserver.h]).  Each operation
    is followed with what it adds to the estimate and to the buffer of its
    connection; a connection between two events is in one of three states, and
    the estimate of the server is the sum of its connections. *)

From S2P Require Import Frame Prelude Tables World WorkerManager.
From S2P Require Import HttpTables HttpParser HttpReading HttpGrammar HttpServer HttpResponse HttpSession MockHTTPWorker HttpLoop.
#[local] Open Scope Z_scope.

(** ** What the parser does to the buffer *)

(** A buffer stays, with its capacity. *)
Definition keeps_buffer (h h' : hs) : Prop :=
  s_buf (h_stream h) <> None ->
  s_buf (h_stream h') <> None /\ s_capacity (h_stream h') = s_capacity (h_stream h).

#[export] Instance keeps_buffer_preorder : PreOrder keeps_buffer.
Proof.
  split; [by intros h|]. intros h1 h2 h3 H1 H2 H. destruct (H1 H) as [Hb <-]. by apply H2.
Qed.

Section Parser.
Context (behind : hs_token).

Lemma frame_on_stream f :
  (forall s, s_buf s <> None -> s_buf (f s) <> None /\ s_capacity (f s) = s_capacity s) ->
  preserves keeps_buffer (on_stream f).
Proof. intros Hf h. unfold keeps_buffer. cbn. apply Hf. Qed.

Lemma frame_on_parser f : preserves keeps_buffer (on_parser f).
Proof. by intros h. Qed.

Lemma frame_of_option {B} (o : option B) : preserves keeps_buffer (of_option o).
Proof. destruct o; by intros h. Qed.

Lemma frame_get : preserves keeps_buffer get.
Proof. by intros h. Qed.

Lemma frame_shift : preserves keeps_buffer hs_stream_shift.
Proof. apply frame_on_stream. intros s Hs. cbv zeta. by case_match. Qed.

Lemma frame_consume : preserves keeps_buffer hs_stream_consume.
Proof. apply frame_on_stream. intros s Hs. by case_match. Qed.

Hint Resolve frame_on_parser frame_of_option frame_get frame_shift frame_consume : frame.
Hint Extern 2 (preserves keeps_buffer (on_stream _)) => by apply frame_on_stream : frame.

Lemma frame_emit_token : preserves keeps_buffer hs_stream_emit.
Proof. unfold hs_stream_emit. frame_solve. Qed.
Lemma frame_jump n : preserves keeps_buffer (hs_stream_jump n).
Proof. unfold hs_stream_jump. frame_solve. Qed.
Lemma frame_jumpall : preserves keeps_buffer hs_stream_jumpall.
Proof. unfold hs_stream_jumpall. frame_solve. Qed.
Lemma frame_next : preserves keeps_buffer hs_stream_next.
Proof. unfold hs_stream_next. frame_solve. Qed.
Lemma frame_begin_token t : preserves keeps_buffer (hs_stream_begin_token t).
Proof. unfold hs_stream_begin_token. frame_solve. Qed.
Lemma frame_anchor : preserves keeps_buffer hs_stream_anchor.
Proof. unfold hs_stream_anchor. frame_solve. Qed.
Lemma frame_trigger e : preserves keeps_buffer (hs_trigger_meta e).
Proof. unfold hs_trigger_meta. frame_solve. Qed.

Hint Resolve frame_emit_token frame_jump frame_jumpall frame_next frame_begin_token frame_anchor
  frame_trigger : frame.

Lemma frame_match str meta c m : preserves keeps_buffer (hs_match str meta c m).
Proof. unfold hs_match. frame_solve. Qed.
Lemma frame_enter from to : preserves keeps_buffer (hs_enter behind from to).
Proof. unfold hs_enter. frame_solve. Qed.
Lemma frame_headers_end t : preserves keeps_buffer (hs_headers_end t).
Proof. unfold hs_headers_end. frame_solve. Qed.
Lemma frame_body to t : preserves keeps_buffer (hs_body to t).
Proof. unfold hs_body. frame_solve. Qed.
Lemma frame_chunk_size c : preserves keeps_buffer (hs_chunk_size_char c).
Proof. unfold hs_chunk_size_char. frame_solve. Qed.
Hint Resolve frame_match frame_enter frame_headers_end frame_body frame_chunk_size : frame.
Lemma frame_value_char c : preserves keeps_buffer (hs_value_char c).
Proof. unfold hs_value_char. frame_solve. Qed.
Lemma frame_meta_emit : preserves keeps_buffer hs_meta_emit.
Proof. unfold hs_meta_emit. frame_solve. Qed.
Hint Resolve frame_value_char frame_meta_emit : frame.
Lemma frame_action c from to : preserves keeps_buffer (hs_transition_action behind c from to).
Proof. unfold hs_transition_action. frame_solve. Qed.
Hint Resolve frame_action : frame.
Lemma frame_parse_char : preserves keeps_buffer (hs_parse_char behind).
Proof. unfold hs_parse_char. frame_solve. Qed.
Hint Resolve frame_parse_char : frame.
Lemma frame_parse_loop fuel : preserves keeps_buffer (hs_parse_loop behind fuel).
Proof. induction fuel as [|fuel IH]; cbn [hs_parse_loop]; frame_solve. Qed.
Hint Resolve frame_parse_loop : frame.
Lemma frame_http_parse : preserves keeps_buffer (http_parse behind).
Proof. unfold http_parse, hs_parse_rest. frame_solve. Qed.
End Parser.

(** ** The memory a connection accounts for *)

Section Accounts.
Context {A : Type} (date : list Z) (junk : Z -> Z).
Abbreviation rq := (http_request_t A).
Implicit Types (q : rq).

(** What is counted besides the buffer of this connection. *)
Definition others q : Z := q_memused q - held (q_stream q).

(** [m] returns with what the others hold [c] less, or [d] more for its result,
    and the session goes on. *)
Definition accounts {B} (c : Z) (d : B -> Z) (m : M rq B) : Prop := forall q b q',
  m q = (Done b, q') -> others q' - d b = others q - c /\ q_ended q' = q_ended q.

(** Nothing is taken and nothing given back. *)
Abbreviation neutral := (accounts 0 (fun _ => 0)).

Lemma accounts_ret {B} (d : B -> Z) b : accounts (d b) d (mret b).
Proof. intros q b' q' E. injection E as <- <-. split; [lia|done]. Qed.

Lemma accounts_throw {B} c (d : B -> Z) t : accounts c d (throw t).
Proof. by intros q b q' E. Qed.

Lemma accounts_fuel {B} c (d : B -> Z) : accounts c d out_of_fuel.
Proof. by intros q b q' E. Qed.

Lemma accounts_bind {B C} c (d : B -> Z) (e : C -> Z) (m : M rq B) (k : B -> M rq C) :
  accounts c d m -> (forall b, accounts (d b) e (k b)) -> accounts c e (m ≫= k).
Proof.
  intros Hm Hk q r q' (b & q1 & E1 & E2)%bind_inv.
  destruct (Hm _ _ _ E1) as [H1 H2], (Hk b _ _ _ E2) as [H3 H4]. split; [cbv beta in *; lia|congruence].
Qed.

(** A part that takes nothing, in front of one that may. *)
Lemma accounts_first {B C} c (e : C -> Z) (m : M rq B) (k : B -> M rq C) :
  neutral m -> (forall b, accounts c e (k b)) -> accounts c e (m ≫= k).
Proof.
  intros Hm Hk q r q' (b & q1 & E1 & E2)%bind_inv.
  destruct (Hm _ _ _ E1) as [H1 H2], (Hk b _ _ _ E2) as [H3 H4]. split; [cbv beta in *; lia|congruence].
Qed.

Lemma accounts_gets {B} (f : rq -> B) : neutral (gets f).
Proof. intros q b q' E. injection E as <- <-. split; [lia|done]. Qed.

Lemma accounts_get : neutral get.
Proof. apply accounts_gets. Qed.

Lemma accounts_of_option {B} (o : option B) : neutral (of_option o).
Proof. destruct o; [apply (accounts_ret (fun _ => 0))|apply accounts_throw]. Qed.

Lemma accounts_modify f : (forall q, others (f q) = others q /\ q_ended (f q) = q_ended q) -> neutral (modify f).
Proof. intros Hf q b q' E. injection E as <- <-. destruct (Hf q) as [-> ->]. split; [lia|done]. Qed.

Lemma accounts_flags f : neutral (modify (set_flags f)).
Proof. by apply accounts_modify. Qed.
Lemma accounts_state st : neutral (modify (set_state st)).
Proof. by apply accounts_modify. Qed.
Lemma accounts_timeout n : neutral (modify (set_timeout n)).
Proof. by apply accounts_modify. Qed.
Lemma accounts_tokens d : neutral (modify (set_tokens d)).
Proof. by apply accounts_modify. Qed.

Create HintDb accounts.
Hint Resolve accounts_gets accounts_get accounts_of_option accounts_flags accounts_state accounts_timeout
  accounts_tokens accounts_fuel accounts_throw : accounts.

(** Follow a neutral action. *)
Ltac accounts_go :=
  repeat first
    [ progress intros
    | solve [eauto 2 with accounts nocore]
    | simple apply (accounts_ret (fun _ => 0))
    | simple apply accounts_first
    | case_match ].

Lemma accounts_string_char s i : neutral (string_char s i).
Proof. unfold string_char. accounts_go. Qed.
Hint Resolve accounts_string_char : accounts.

Lemma accounts_cmp s b n : forall i, neutral (cmp_from s b i n).
Proof. induction n as [|n IH]; intros i; cbn [cmp_from]; accounts_go. Qed.
Hint Resolve accounts_cmp : accounts.

Lemma accounts_header_from key ts : neutral (header_from key ts).
Proof. induction ts as [|t ts IH]; cbn [header_from]; unfold hs_case_insensitive_cmp; accounts_go. Qed.
Hint Resolve accounts_header_from : accounts.

Lemma accounts_header key : neutral (http_request_header key).
Proof. unfold http_request_header. accounts_go. Qed.
Hint Resolve accounts_header : accounts.

Lemma accounts_keep_alive : neutral hs_auto_detect_keep_alive.
Proof. unfold hs_auto_detect_keep_alive, hs_case_insensitive_cmp. accounts_go. Qed.
Hint Resolve accounts_keep_alive : accounts.

(** *** Responses *)

Lemma accounts_init capacity : accounts 0 g_capacity (grwprintf_init junk capacity).
Proof.
  intros q ctx q' E. injection E as <- <-. unfold others. cbn. split; [lia|done].
Qed.

Lemma accounts_write_at n data b : neutral (write_at n data b).
Proof. unfold write_at. accounts_go. Qed.
Hint Resolve accounts_write_at : accounts.

Lemma accounts_vsnprintf ctx text : neutral (vsnprintf ctx text).
Proof. unfold vsnprintf. accounts_go. Qed.

Lemma accounts_realloc ctx capacity : accounts (g_capacity ctx) g_capacity (grw_realloc junk ctx capacity).
Proof. intros q ctx' q' E. injection E as <- <-. unfold others. cbn. split; [lia|done]. Qed.

(** The bytes of a buffer do not count, its capacity does. *)
Lemma accounts_grown {B} (m : M rq B) (k : B -> grwprintf_t) c :
  neutral m -> (forall b, g_capacity (k b) = c) -> accounts c g_capacity (b ← m; mret (k b)).
Proof.
  intros Hm Hk. apply accounts_first; [done|]. intros b. rewrite <- (Hk b). apply (accounts_ret g_capacity).
Qed.

Lemma accounts_grwprintf ctx text : accounts (g_capacity ctx) g_capacity (grwprintf junk ctx text).
Proof.
  unfold grwprintf. apply accounts_first; [apply accounts_vsnprintf|]. intros b. cbv zeta.
  case_match; [|by apply (accounts_ret g_capacity (Grw b (g_capacity ctx) _))].
  case_match; [|apply accounts_fuel].
  intros q ctx' q' (ctx1 & q1 & E1 & E2)%bind_inv.
  destruct (accounts_realloc _ _ _ _ _ E1) as [H1 H2]. injection E1 as <- _. cbn [g_capacity] in H1.
  apply bind_inv in E2 as (b1 & q2 & E2 & E3). injection E3 as <- <-.
  destruct (accounts_vsnprintf _ _ _ _ _ E2) as [H3 H4]. cbv beta in *. cbn [g_capacity]. split; [lia|congruence].
Qed.

Lemma accounts_grwmemcpy ctx src size : accounts (g_capacity ctx) g_capacity (grwmemcpy junk ctx src size).
Proof.
  unfold grwmemcpy. apply accounts_first; [accounts_go|]. intros _.
  apply (accounts_bind _ g_capacity).
  - case_match; [apply accounts_realloc|apply (accounts_ret g_capacity)].
  - intros ctx'. apply accounts_grown; [apply accounts_write_at|done].
Qed.

Lemma accounts_print_headers hs : forall ctx, accounts (g_capacity ctx) g_capacity (print_headers junk hs ctx).
Proof.
  induction hs as [|kv hs IH]; intros ctx; cbn [print_headers]; [apply (accounts_ret g_capacity)|].
  apply (accounts_bind _ g_capacity); [apply accounts_grwprintf|apply IH].
Qed.

Lemma accounts_buffer_headers r ctx : accounts (g_capacity ctx) g_capacity (http_buffer_headers junk r ctx).
Proof.
  unfold http_buffer_headers. apply (accounts_bind _ g_capacity); [apply accounts_print_headers|]. intros ctx1.
  apply accounts_first; [apply accounts_get|]. intros q.
  apply (accounts_bind _ g_capacity); [|intros; apply accounts_grwprintf].
  case_match; [apply (accounts_ret g_capacity)|apply accounts_grwprintf].
Qed.

Lemma accounts_respond_headers r ctx :
  accounts (g_capacity ctx) g_capacity (http_respond_headers date junk r ctx).
Proof.
  unfold http_respond_headers. apply accounts_first; [apply accounts_get|]. intros q.
  apply accounts_first; [case_match; [apply accounts_keep_alive|apply (accounts_ret (fun _ => 0))]|].
  intros _. apply accounts_first; [apply accounts_get|]. intros q1. cbv zeta.
  apply accounts_first; [apply accounts_of_option|]. intros text.
  apply (accounts_bind _ g_capacity); [apply accounts_grwprintf|]. intros; apply accounts_buffer_headers.
Qed.

(** *** Writing *)

Lemma freed_accounts q :
  q_memused (freed q) = others q /\ held (q_stream (freed q)) = 0 /\ s_buf (q_stream (freed q)) = None.
Proof.
  unfold freed, others, held, without_buffer. cbn. destruct (s_buf (q_stream q)) eqn:Eb; cbn; rewrite ?Eb.
  - split; [lia|done].
  - split; [lia|done].
Qed.

Lemma accounts_free : neutral hs_free_buffer.
Proof.
  intros q b q' E. rewrite free_buffer_run in E. injection E as <- <-.
  destruct (freed_accounts q) as (H1 & H2 & _). unfold others at 1. rewrite H1, H2. split; [lia|done].
Qed.
Hint Resolve accounts_free : accounts.

Lemma accounts_write_socket : neutral hs_write_client_socket.
Proof.
  unfold hs_write_client_socket. apply accounts_first; [apply accounts_get|]. intros q.
  case_match; [|apply accounts_throw]. repeat case_match;
    (apply accounts_first; [apply accounts_modify; intros q1; unfold others, held; by cbn|
      intros _; apply (accounts_ret (fun _ => 0))]).
Qed.
Hint Resolve accounts_write_socket : accounts.

Lemma accounts_add_write : neutral hs_add_write_event.
Proof. by apply accounts_modify. Qed.
Hint Resolve accounts_add_write : accounts.

(** No callback for chunks was ever set. *)
Abbreviation no_cb := (throw OutOfBounds : M rq unit).

Lemma accounts_write_response : neutral (hs_write_response no_cb).
Proof. unfold hs_write_response, hs_reset_timeout. accounts_go. Qed.
Hint Resolve accounts_write_response : accounts.

Lemma accounts_end_response ctx : accounts (g_capacity ctx) (fun _ => 0) (http_end_response no_cb ctx).
Proof.
  unfold http_end_response. intros q b q' ([] & q1 & E1 & E2)%bind_inv.
  rewrite free_buffer_run in E1. injection E1 as <-.
  apply bind_inv in E2 as ([] & q2 & E2 & E3). injection E2 as <-.
  assert (neutral (modify (set_state HTTP_SESSION_WRITE) ;; hs_write_response no_cb)) as Hn.
  { apply accounts_first; [apply accounts_state|]. intros; apply accounts_write_response. }
  destruct (Hn _ _ _ E3) as [H1 H2]. rewrite H2. destruct (freed_accounts q) as (H3 & _ & _).
  unfold others at 2 in H1. cbn -[others freed] in H1. rewrite H3 in H1. unfold held in H1. cbn in H1.
  split; [cbv beta in *; lia|done].
Qed.

Lemma accounts_respond r : neutral (http_respond date junk no_cb r).
Proof.
  unfold http_respond. apply (accounts_bind _ g_capacity); [apply accounts_init|]. intros ctx.
  apply (accounts_bind _ g_capacity); [apply accounts_respond_headers|]. intros ctx1.
  apply (accounts_bind _ g_capacity).
  - case_match; [apply accounts_grwmemcpy|apply (accounts_ret g_capacity)].
  - intros ctx2. apply accounts_end_response.
Qed.
Hint Resolve accounts_respond : accounts.

Lemma accounts_error code message : neutral (hs_error_response date junk no_cb code message).
Proof. unfold hs_error_response. accounts_go. Qed.
Hint Resolve accounts_error : accounts.

(** *** Reading *)

Lemma received_buffer s bytes data :
  s_buf s <> None ->
  s_buf (hs_stream_received s bytes data) <> None /\
  s_capacity (hs_stream_received s bytes data) = s_capacity s.
Proof. unfold hs_stream_received. by case_match. Qed.

Lemma grow_accounts s memused :
  let '(s', memused') := hs_stream_grow s memused in
  s_buf s' = s_buf s /\ memused' - s_capacity s' = memused - s_capacity s.
Proof. unfold hs_stream_grow. destruct (_ && _); cbn; (split; [done|lia]). Qed.

Lemma read_loop_accounts fuel : forall s memused sock bytes s' memused' sock',
  s_buf s <> None -> hs_read_loop fuel s memused sock = Some (bytes, s', memused', sock') ->
  s_buf s' <> None /\ memused' - s_capacity s' = memused - s_capacity s.
Proof.
  induction fuel as [|fuel IH]; intros s memused sock bytes s' memused' sock' Hs; [done|].
  cbn [hs_read_loop]. destruct (sock_read _ sock) as [[b data] sock1].
  destruct (received_buffer s b data Hs) as [H1 H2].
  pose proof (grow_accounts (hs_stream_received s b data) memused) as Hg.
  destruct (hs_stream_grow _ memused) as [s1 m1]. destruct Hg as [H3 H4].
  case_match.
  - intros E%IH; [|by rewrite H3]. destruct E as [H5 H6]. split; [done|lia].
  - intros [= <- <- <- <-]. rewrite H3. split; [done|lia].
Qed.

Lemma read_session_accounts q rc q' :
  (s_buf (q_stream q) <> None \/ q_stream q = hs_stream_zero) -> read_session q = (Done rc, q') ->
  s_buf (q_stream q') <> None /\ others q' = others q /\ q_ended q' = q_ended q /\ q_state q' = q_state q.
Proof.
  intros Hq. unfold read_session. rewrite (bind_done get _ _ _ _ eq_refl). cbv zeta.
  destruct (hs_stream_read_socket _ _ _ _) as [[[[rc1 s1] m1] sock1]|] eqn:E; [|done].
  intros E1. injection E1 as _ <-. unfold others. cbn.
  assert (s_buf s1 <> None /\ m1 - held s1 = q_memused q - held (q_stream q)) as [H1 H2];
    [|split; [done|]; split; [done|by split]].
  unfold hs_stream_read_socket in E. case_match eqn:Ei.
  { injection E as _ <- <- _. destruct Hq as [Hq|Hq]; [by split|by rewrite Hq in Ei]. }
  assert (exists s0 m0, hs_stream_alloc (q_stream q) (q_memused q) = (s0, m0) /\ s_buf s0 <> None /\
    m0 - s_capacity s0 = q_memused q - held (q_stream q)) as (s0 & m0 & Ea & H1 & H2).
  { unfold hs_stream_alloc, held. destruct (s_buf (q_stream q)) eqn:Eb.
    - eexists _, _. split; [reflexivity|]. by rewrite Eb.
    - eexists _, _. split; [reflexivity|]. cbn. split; [done|lia]. }
  rewrite Ea in E. destruct (hs_read_loop _ s0 m0 _) as [[[[b s2] m2] k2]|] eqn:El; [|done].
  injection E as _ <- <- _. destruct (read_loop_accounts _ _ _ _ _ _ _ _ H1 El) as [H3 H4].
  split; [done|]. unfold held at 1. destruct (s_buf s2); [lia|done].
Qed.

Lemma parse_session_accounts behind q t q' :
  s_buf (q_stream q) <> None -> parse_session behind q = (Done t, q') ->
  s_buf (q_stream q') <> None /\ others q' = others q /\ q_ended q' = q_ended q /\ q_state q' = q_state q.
Proof.
  intros Hq. unfold parse_session. pose proof (frame_http_parse behind (HS_ (q_parser q) (q_stream q))) as Hf.
  destruct (http_parse behind _) as [o h]. intros E. injection E as -> <-.
  destruct (Hf Hq) as [H1 H2]. cbn in *. split; [done|]. unfold others, held. cbn.
  destruct (s_buf (h_stream h)), (s_buf (q_stream q)); try done. by rewrite H2.
Qed.

(** *** Answered requests *)

(** The response is being written, or it was and the buffer was freed. *)
Definition answered q : Prop :=
  q_state q = HTTP_SESSION_WRITE \/ (q_state q = HTTP_SESSION_INIT /\ s_buf (q_stream q) = None).

(** What holds between two events on a connection. *)
Definition resting q : Prop :=
  answered q \/ (q_state q = HTTP_SESSION_READ /\ s_buf (q_stream q) <> None).

Lemma write_socket_keeps q ok q' :
  hs_write_client_socket q = (Done ok, q') ->
  q_state q' = q_state q /\ s_buf (q_stream q') = s_buf (q_stream q).
Proof.
  unfold hs_write_client_socket. rewrite (bind_done get _ _ _ _ eq_refl).
  destruct (pending q); [|done]. destruct (q_answers q) as [|[]]; intros E; by injection E as _ <-.
Qed.

Lemma write_response_answered q q' :
  answered q -> hs_write_response no_cb q = (Done tt, q') -> answered q'.
Proof.
  intros Hq (ok & q1 & E1 & E2)%bind_inv. destruct (write_socket_keeps _ _ _ E1) as [H1 H2].
  assert (answered q1) as Hq1 by (unfold answered; by rewrite H1, H2).
  destruct ok; cbn [negb] in E2; [|by injection E2 as <-].
  apply bind_inv in E2 as (q2 & ? & E2 & E3). injection E2 as <- <-.
  case_match; [injection E3 as <-; by left|].
  case_match.
  { apply bind_inv in E3 as ([] & q2 & _ & E3). apply bind_inv in E3 as ([] & q3 & _ & E3).
    by apply bind_inv in E3 as ([] & q4 & _ & E3). }
  case_match; [|by injection E3 as <-].
  apply bind_inv in E3 as ([] & q2 & E2 & E3). injection E2 as <-.
  apply bind_inv in E3 as ([] & q3 & E2 & E3). rewrite free_buffer_run in E2. injection E2 as <-.
  injection E3 as <-. right. split; [done|]. apply freed_accounts.
Qed.

Lemma respond_answered r q q' : http_respond date junk no_cb r q = (Done tt, q') -> answered q'.
Proof.
  intros (c1 & q1 & _ & E)%bind_inv. apply bind_inv in E as (c2 & q2 & _ & E).
  apply bind_inv in E as (c3 & q3 & _ & E). apply bind_inv in E as ([] & q4 & _ & E).
  apply bind_inv in E as ([] & q5 & _ & E). apply bind_inv in E as ([] & q6 & E6 & E).
  injection E6 as <-. apply write_response_answered in E; [done|by left].
Qed.

Lemma error_answered code message q q' :
  hs_error_response date junk no_cb code message q = (Done tt, q') -> answered q'.
Proof.
  intros ([] & q1 & E1 & E2)%bind_inv. apply write_response_answered in E2; [done|].
  by apply respond_answered in E1.
Qed.
End Accounts.

(** ** A connection of the worker *)

Section Connection.
Context `{Env} (this : MockHTTPWorker) (date : list Z) (junk : Z -> Z) (behind : hs_token).
Abbreviation rq := (http_request_t http_app).
Implicit Types (q : rq).

(** The connection goes on and holds what it held. *)
Definition keeps_account q q' : Prop := others q' = others q /\ q_ended q' = q_ended q.

#[local] Instance keeps_account_preorder : PreOrder keeps_account.
Proof. split; [by intros q|]. intros q1 q2 q3 [H1 H2] [H3 H4]. split; congruence. Qed.

Lemma neutral_keeps {B} (m : M rq B) q b q' :
  accounts 0 (fun _ => 0) m -> m q = (Done b, q') -> keeps_account q q'.
Proof. intros Hm [H1 H2]%Hm. split; [lia|done]. Qed.

Lemma accounts_on_app {B} (m : M http_app B) : accounts 0 (fun _ => 0) (on_app m : M rq B).
Proof. intros q b q'. unfold on_app. destruct (m (q_app q)) as [o a]. intros E. by injection E as -> <-. Qed.

Lemma on_app_answered {B} (m : M http_app B) q b q' :
  answered q -> (on_app m : M rq B) q = (Done b, q') -> answered q'.
Proof. intros Hq. unfold on_app. destruct (m (q_app q)) as [o a]. intros E. by injection E as -> <-. Qed.

Lemma accounts_std_string s : accounts 0 (fun _ => 0) (std_string s : M rq (list Z)).
Proof.
  unfold std_string. apply accounts_first; [apply accounts_get|]. intros q.
  repeat case_match; first [apply accounts_throw|apply (accounts_ret (fun _ => 0))].
Qed.

Lemma handle_request_answers q q' :
  handle_request this date junk q = (Done tt, q') -> answered q' /\ keeps_account q q'.
Proof.
  intros (raw & q1 & E1 & E)%bind_inv. apply bind_inv in E as (str & q2 & E2 & E).
  apply bind_inv in E as (n & q3 & E3 & E). apply bind_inv in E as ([] & q4 & E4 & E).
  apply bind_inv in E as ([] & q5 & E5 & E). apply bind_inv in E as (r & q6 & E6 & E).
  injection E as <-. split.
  - apply respond_answered in E4. eapply on_app_answered, E6. by eapply on_app_answered, E5.
  - transitivity q1; [eapply neutral_keeps, E1; apply accounts_header|].
    transitivity q2; [eapply neutral_keeps, E2; apply accounts_std_string|].
    transitivity q3; [eapply neutral_keeps, E3; case_match; [apply (accounts_ret (fun _ => 0))|apply accounts_throw]|].
    transitivity q4; [eapply neutral_keeps, E4; apply accounts_respond|].
    transitivity q5; [eapply neutral_keeps, E5; apply accounts_on_app|].
    eapply neutral_keeps, E6. apply accounts_on_app.
Qed.

(** What the loop over the tokens needs and leaves behind. *)
Definition reading q : Prop := q_state q = HTTP_SESSION_READ /\ s_buf (q_stream q) <> None.

Lemma process_tokens_settles fuel : forall q q',
  reading q -> process_tokens date junk behind (handle_request this date junk) no_callback fuel q = (Done tt, q') ->
  resting q' /\ keeps_account q q'.
Proof.
  induction fuel as [|fuel IH]; intros q q' [Hst Hb]; [done|].
  cbn [process_tokens]. intros (t & q1 & E1 & E)%bind_inv.
  destruct (parse_session_accounts _ _ _ _ Hb E1) as (Hb1 & Ho1 & He1 & Hs1).
  apply bind_inv in E as ([] & q2 & E2 & E).
  assert (reading q2 /\ keeps_account q q2) as [Hr2 Hk2].
  { revert E2. destruct (token_type_none t); [intros E2; injection E2 as <-; split; split; congruence|].
    unfold http_token_dyn_push. intros (d & q3 & E3 & E2)%bind_inv. injection E3 as <- <-.
    case_match; [|done]. injection E2 as <-. unfold others in Ho1.
    split; split; unfold others; cbn; congruence. }
  apply bind_inv in E as ([] & q3 & E3 & E).
  assert (resting q3 /\ keeps_account q2 q3) as [Hr3 Hk3].
  { revert E3. destruct (t_type t);
      try (intros E3; injection E3 as <-; split; [by right|done]).
    - by intros ([] & q4 & E4 & E3)%bind_inv.
    - intros ([] & q4 & E4 & E3)%bind_inv. injection E4 as <-.
      apply handle_request_answers in E3 as [E3 E4]. split; [by left|done].
    - intros ([] & q4 & E4 & E3)%bind_inv. injection E4 as <-.
      apply bind_inv in E3 as ([] & q5 & E4 & E3). injection E4 as <-.
      apply handle_request_answers in E3 as [E3 E4]. split; [by left|done].
    - intros E3. split; [left; by eapply error_answered|]. eapply neutral_keeps, E3. apply accounts_error. }
  rewrite (bind_done get _ _ _ _ eq_refl) in E. case_match eqn:Ec.
  - apply andb_true_iff in Ec as [_ Ec%bool_decide_eq_true].
    apply IH in E as [H1 H2]; [split; [done|by etrans; [|etrans; [exact Hk3|]]]|].
    destruct Hr3 as [[Hr3|[Hr3 _]]|Hr3]; [congruence|congruence|done].
  - injection E as <-. split; [done|]. by etrans.
Qed.

Lemma read_and_process_settles fuel q q' :
  s_buf (q_stream q) <> None \/ q_stream q = hs_stream_zero ->
  hs_read_and_process_request date junk behind (handle_request this date junk) no_callback fuel q = (Done tt, q') ->
  (resting q' \/ flag_check (q_flags q') HTTP_END_SESSION = true) /\ keeps_account q q'.
Proof.
  intros Hq ([] & q1 & E1 & E)%bind_inv. injection E1 as <-.
  apply bind_inv in E as ([] & q2 & E2 & E). injection E2 as <-.
  apply bind_inv in E as (rc & q3 & E3 & E).
  apply read_session_accounts in E3 as (H1 & H2 & H3 & H4); [|done].
  case_match.
  - injection E as <-. split; [right; cbn; apply flag_set_end|]. by split.
  - apply process_tokens_settles in E as [H5 H6]; [|done]. split; [by left|]. etrans; [|exact H6]. by split.
Qed.

(** After an event a connection is at rest or gone, and in both cases the
    estimate has changed by what the connection holds. *)
Definition settled q : Prop := if q_ended q then s_buf (q_stream q) = None else resting q.

Lemma end_session_settles q q' :
  hs_end_session q = (Done tt, q') -> settled q' /\ others q' = others q.
Proof.
  rewrite end_session_run. intros E. injection E as <-.
  destruct (freed_accounts q) as (H1 & H2 & H3). unfold freed in *. cbn in *.
  split; [done|]. unfold others at 1. cbn. rewrite H2. cbn in H1. lia.
Qed.

Lemma maybe_end_settles q q' :
  resting q \/ flag_check (q_flags q) HTTP_END_SESSION = true -> q_ended q = false ->
  (q ← get; if flag_check (q_flags q) HTTP_END_SESSION then hs_end_session else mret tt) q = (Done tt, q') ->
  settled q' /\ others q' = others q.
Proof.
  intros Hq He. rewrite (bind_done get _ _ _ _ eq_refl). case_match; [apply end_session_settles|].
  intros E. injection E as <-. split; [|done]. unfold settled. rewrite He. by destruct Hq.
Qed.

Lemma session_settles fuel q q' :
  resting q -> q_ended q = false -> worker_session this date junk behind fuel q = (Done tt, q') ->
  settled q' /\ others q' = others q.
Proof.
  unfold worker_session, http_session. intros Hq He. rewrite (bind_done get _ _ _ _ eq_refl).
  intros (overload & q1 & E1 & E)%bind_inv.
  assert (keeps_account q q1 /\
    (q1 = q /\ overload = false /\ q_state q <> HTTP_SESSION_INIT \/
     q_stream q1 = hs_stream_zero /\ q_state q1 = HTTP_SESSION_READ)) as [Hk H1].
  { case_decide as Hi; [|injection E1 as <- <-; split; [done|by left]].
    destruct Hq as [[Hq|[_ Hq]]|[Hq _]]; [congruence| |congruence].
    injection E1 as _ <-. split; [|by right]. split; [|done].
    unfold others, held. cbn. by rewrite Hq. }
  clear E1. assert (q_ended q1 = false) as He1 by (by destruct Hk as [_ ->]).
  assert (others q1 = others q) as <- by apply Hk.
  destruct overload.
  { assert (resting q' /\ keeps_account q1 q') as [Hr [Ho He']].
    { split; [left; by eapply error_answered|]. eapply neutral_keeps, E. apply accounts_error. }
    split; [|done]. unfold settled. by rewrite He', He1. }
  rewrite (bind_done get _ _ _ _ eq_refl) in E. apply bind_inv in E as ([] & q2 & E2 & E).
  assert ((resting q2 \/ flag_check (q_flags q2) HTTP_END_SESSION = true) /\ keeps_account q1 q2)
    as [Hr [<- He2]].
  { destruct (q_state q1) eqn:Es.
    - exfalso. destruct H1 as [(-> & _ & H1)|[_ H1]]; congruence.
    - eapply read_and_process_settles, E2. destruct H1 as [(-> & _ & _)|[H1 _]]; [left|by right].
      destruct Hq as [[Hq|[Hq _]]|[_ Hq]]; [congruence|congruence|done].
    - split; [|eapply neutral_keeps, E2; apply accounts_write_response].
      left. left. eapply write_response_answered, E2. by left.
    - exfalso. destruct H1 as [(-> & _ & _)|[_ H1]]; [|congruence].
      destruct Hq as [[Hq|[Hq _]]|[Hq _]]; congruence. }
  eapply maybe_end_settles, E; [done|congruence].
Qed.

Lemma timer_settles q q' :
  resting q -> q_ended q = false -> hs_request_timer_cb q = (Done tt, q') ->
  settled q' /\ others q' = others q.
Proof.
  intros Hq He. unfold hs_request_timer_cb. rewrite (bind_done get _ _ _ _ eq_refl).
  intros ([] & q1 & E1 & E)%bind_inv. injection E1 as <-. case_match.
  - by apply end_session_settles in E.
  - injection E as <-. split; [|done]. unfold settled. cbn. by rewrite He.
Qed.
End Connection.

(** ** The account of the server *)

Definition total {A} (clients : gmap Z (http_request_t A)) : Z :=
  map_fold (fun _ q n => held (q_stream q) + n) 0 clients.

Section Total.
Context {A : Type}.
Implicit Types (C : gmap Z (http_request_t A)).

Lemma total_held_insert fd q C : C !! fd = None -> total (<[fd := q]> C) = held (q_stream q) + total C.
Proof. intros Hfd. unfold total. rewrite map_fold_insert_L; [done| |done]. intros; lia. Qed.

Lemma total_held_delete fd q C : C !! fd = Some q -> total C = held (q_stream q) + total (delete fd C).
Proof.
  intros Hfd. rewrite <- (insert_delete_id C fd q Hfd) at 1. by rewrite total_held_insert by apply lookup_delete_eq.
Qed.

(** Without it: what the others hold. *)
Lemma total_held_save fd q C : total (<[fd := q]> C) = held (q_stream q) + total (delete fd C).
Proof. by rewrite <- insert_delete_eq, total_held_insert by apply lookup_delete_eq. Qed.
End Total.

Section Server.
Context `{Env} (this : MockHTTPWorker) (junk : Z -> Z) (behind : hs_token) (fuel : nat).
Abbreviation server := (http_server_t http_app).
Implicit Types (s : server).

Abbreviation loop_step := (loop_step this junk behind fuel).

(** The invariant of the server. *)
Record accounted s : Prop := {
  acc_memused : sv_memused s = total (sv_clients s);
  acc_clients fd q : sv_clients s !! fd = Some q -> resting q /\ q_ended q = false;
  acc_waiting : NoDup (waiting s);
  acc_fresh fd : fd ∈ waiting s -> sv_clients s !! fd = None;
}.

(** The handler of one connection keeps the account of all. *)
Lemma as_session_accounted m fd q s s' :
  (forall date q q', resting q -> q_ended q = false -> m date q = (Done tt, q') -> settled q' /\ others q' = others q) ->
  accounted s -> resting q -> q_ended q = false ->
  (sv_clients s !! fd = Some q \/ sv_clients s !! fd = None /\ held (q_stream q) = 0 /\ fd ∉ waiting s) ->
  as_session fd q m s = (Done tt, s') ->
  accounted s' /\ sv_backlog s' = sv_backlog s.
Proof.
  intros Hm [Hmem Hcl Hnd Hfresh] Hq He Hfd. unfold as_session.
  destruct (m (sv_date s) (load s q)) as [o q'] eqn:E. intros E1. injection E1 as -> <-.
  apply Hm in E as [Hs Ho]; [|done|done].
  assert (sv_memused s - held (q_stream q) = total (delete fd (sv_clients s))) as Htot.
  { rewrite Hmem. destruct Hfd as [Hfd|(Hfd & -> & _)]; [rewrite (total_held_delete fd q _ Hfd); lia|].
    rewrite delete_id; [lia|done]. }
  assert (fd ∉ waiting s) as Hnw.
  { destruct Hfd as [Hfd|(_ & _ & Hfd)]; [|done]. intros Hin%Hfresh. congruence. }
  unfold others in Ho. change (q_memused (load s q)) with (sv_memused s) in Ho.
  change (q_stream (load s q)) with (q_stream q) in Ho. rewrite Htot in Ho.
  split; [|done]. unfold settled in Hs. split; cbn [sv_memused sv_clients save].
  - destruct (q_ended q'); [unfold held in Ho; rewrite Hs in Ho; lia|]. rewrite total_held_save. lia.
  - intros fd' q1. destruct (q_ended q') eqn:He'.
    + intros [_ H1]%lookup_delete_Some. by eapply Hcl.
    + intros [[<- <-]|[_ H1]]%lookup_insert_Some; [done|by eapply Hcl].
  - done.
  - intros fd' Hin. assert (fd <> fd') by (intros ->; done). specialize (Hfresh _ Hin).
    destruct (q_ended q'); [by rewrite lookup_delete_ne|by rewrite lookup_insert_ne].
Qed.

Lemma accounted_same s s' :
  sv_memused s' = sv_memused s -> sv_clients s' = sv_clients s -> sv_backlog s' = sv_backlog s ->
  accounted s -> accounted s'.
Proof. intros H1 H2 H3 []. split; unfold waiting in *; rewrite ?H1, ?H2, ?H3; done. Qed.

(** The two handlers of a connection. *)
Lemma session_handler_settles date q q' :
  resting q -> q_ended q = false -> session_handler this junk behind fuel date q = (Done tt, q') ->
  settled q' /\ others q' = others q.
Proof. apply session_settles. Qed.

Lemma accept_accounted l : forall s s',
  sv_backlog s = l -> accounted s ->
  accept_all (session_handler this junk behind fuel) l s = (Done tt, s') -> accounted s'.
Proof.
  induction l as [|[fd sock] l IH]; intros s s' Hl Hacc; cbn [accept_all].
  { intros E. by injection E as <-. }
  intros ([] & s1 & E1 & E)%bind_inv. injection E1 as <-.
  rewrite (bind_done get _ _ _ _ eq_refl) in E. apply bind_inv in E as ([] & s2 & E2 & E).
  destruct Hacc as [Hmem Hcl Hnd Hfresh]. unfold waiting in *. rewrite Hl in Hnd, Hfresh.
  apply NoDup_cons in Hnd as [Hfd Hnd].
  apply as_session_accounted in E2 as [Hacc Hw].
  - by eapply IH, E.
  - intros. by eapply session_handler_settles.
  - split; [done|done|done|]. intros fd' Hin. apply Hfresh. by apply elem_of_cons; right.
  - by left; right.
  - done.
  - right. split; [apply Hfresh, elem_of_cons; by left|done].
Qed.

Lemma handler_accounted date e s s' :
  accounted s ->
  handler (session_handler this junk behind fuel) hs_request_timer_cb date e s = (Done tt, s') ->
  accounted s'.
Proof.
  intros Hacc. destruct e as [| |fd|fd]; cbn [handler].
  - intros (s1 & s2 & E1 & E)%bind_inv. injection E1 as <- <-. by eapply accept_accounted, E.
  - intros E. injection E as <-. by eapply accounted_same, Hacc.
  - intros (s1 & s2 & E1 & E)%bind_inv. injection E1 as <- <-.
    destruct (sv_clients s !! fd) as [q|] eqn:Hfd; [|by injection E as <-].
    apply bind_inv in E as ([] & s1 & E1 & E). injection E1 as <-.
    destruct (acc_clients _ Hacc _ _ Hfd) as [Hq He].
    eapply as_session_accounted in E as [Hacc' _]; [done| | |done|done|by left].
    + intros. by eapply session_handler_settles.
    + by eapply accounted_same, Hacc.
  - intros (s1 & s2 & E1 & E)%bind_inv. injection E1 as <- <-.
    destruct (sv_clients s !! fd) as [q|] eqn:Hfd; [|by injection E as <-].
    destruct (acc_clients _ Hacc _ _ Hfd) as [Hq He].
    eapply as_session_accounted in E as [Hacc' _]; [done| |done|done|done|by left].
    intros. by eapply timer_settles.
Qed.

Lemma loop_step_accounted s s' :
  loop_step s s' -> accounted s -> accounted s'.
Proof.
  destruct 1 as [s fd sock Hfd Hw|s fd q sock answers Hfd|s a|s date [e|] n s' _ E]; intros Hacc.
  - destruct Hacc as [Hmem Hcl Hnd Hfresh]. split; [done|done| |]; unfold waiting in *; cbn; rewrite fmap_app; cbn.
    + apply NoDup_app. split; [done|]. split; [|apply NoDup_singleton].
      intros x Hx ->%list_elem_of_singleton. done.
    + intros x [Hx| ->%list_elem_of_singleton]%elem_of_app; [by apply Hfresh|done].
  - destruct (acc_clients _ Hacc _ _ Hfd) as [Hq He]. destruct Hacc as [Hmem Hcl Hnd Hfresh].
    split; cbn.
    + rewrite Hmem, total_held_save, (total_held_delete fd q _ Hfd). done.
    + intros fd' q' [[<- <-]|[_ H1]]%lookup_insert_Some; [done|by eapply Hcl].
    + done.
    + intros fd' Hin. specialize (Hfresh _ Hin). rewrite lookup_insert_ne; [done|congruence].
  - by eapply accounted_same, Hacc.
  - apply bind_inv in E as ([] & s1 & E1 & E). injection E as _ <-. by eapply handler_accounted, E1.
  - by injection E as _ <-.
Qed.

Lemma run_accounted port date app s :
  rtc loop_step (http_server_init port date app) s -> accounted s.
Proof.
  intros Hrun. remember (http_server_init port date app) as s0 eqn:Es0.
  assert (accounted s0) as H0.
  { subst s0. split; [done|intros fd q; cbn; by rewrite lookup_empty|constructor|by intros fd Hfd%elem_of_nil]. }
  clear Es0. induction Hrun as [|s1 s2 s3 Hstep _ IH]; [done|]. by eapply IH, loop_step_accounted, H0.
Qed.

(** C6: the estimate [memused], by which the server refuses requests when it is
    overloaded, is exact between two polls: whatever clients connect, however their
    bytes are cut into pieces, whichever responses are written only partly, however
    polls, timers and other programs interleave, it is the sum of the buffers that the open
    connections hold; when none is open it is 0 again, nothing is leaked and
    nothing is counted twice. *)
Theorem memory_is_accounted port date app s :
  rtc loop_step (http_server_init port date app) s ->
  sv_memused s = total (sv_clients s) /\
  (forall fd q, sv_clients s !! fd = Some q -> resting q /\ q_ended q = false) /\
  (sv_clients s = ∅ -> sv_memused s = 0).
Proof.
  intros [H1 H2 _ _]%run_accounted.
  split; [done|]. split; [done|]. intros Hcl. rewrite H1, Hcl. done.
Qed.
End Server.

(** In the middle of a response 1024 bytes are in use. *)
Lemma memory_is_accounted_witness :
  exists s, rtc (loop_step (H := steady Z.of_nat) http_demo (fun _ => 0) HS_TOK_ERROR 20) stall_init s /\
    sv_memused s = 1024 /\ sv_memused s = total (sv_clients s).
Proof.
  destruct (run_check_sound (H := steady Z.of_nat) http_demo (fun _ => 0) HS_TOK_ERROR 20 stall_actions
    stall_init (fun s => sv_memused s =? 1024)) as (s & Hrun & Hs); [by vm_compute|].
  exists s. split; [exact Hrun|]. split; [by apply Z.eqb_eq|].
  destruct (memory_is_accounted (H := steady Z.of_nat) http_demo (fun _ => 0) HS_TOK_ERROR 20 (http_port http_demo)
    http_demo_date (App http_demo_world 0) s Hrun) as [H1 _]. exact H1.
Defined.
