(* ===== verification/HttpStall.v ===== *)
(** * HTTP server: connections that are no longer read

    [hs_add_write_event] of [src/libs/lib_worker/httpserver.h] replaces the
    registration of a connection by one for writability only, and nothing
    registers it for reading again: after a response that was not written at once,
    the next request on the connection stays unread. *)

From S2P Require Import Prelude Tables World WorkerManager.
From S2P Require Import HttpTables HttpParser HttpReading HttpGrammar HttpServer HttpResponse HttpSession MockHTTPWorker HttpLoop HttpMemory.
#[local] Open Scope Z_scope.

(** Waiting for the next request, registered for writability, nothing to write. *)
Definition deaf (q : http_request_t http_app) : Prop :=
  q_state q = HTTP_SESSION_INIT /\ q_watch_write q = true /\ pending q = Some [].

Section Stall.
Context `{Env} (this : MockHTTPWorker) (junk : Z -> Z) (behind : hs_token) (fuel : nat).
Abbreviation server := (http_server_t http_app).
Abbreviation step := (loop_step this junk behind fuel).
Implicit Types (s : server).

(** The same connection, with what arrived behind what was there. *)
Definition unheard (q q' : http_request_t http_app) : Prop :=
  deaf q' /\ q_out q' = q_out q /\ exists sock, q_in q' = q_in q ++ sock.

#[local] Instance unheard_trans : Transitive unheard.
Proof.
  intros q1 q2 q3 (_ & H1 & k1 & H2) (H3 & H4 & k2 & H5). split; [done|]. split; [congruence|].
  exists (k1 ++ k2). by rewrite H5, H2, (assoc_L (++)).
Qed.

Lemma unheard_refl q : deaf q -> unheard q q.
Proof. intros Hq. split; [done|]. split; [done|]. exists []. by rewrite app_nil_r. Qed.

(** A handler of another connection. *)
Lemma as_session_other {B} (m : list Z -> M (http_request_t http_app) B) fd fd' q s o s' :
  fd <> fd' -> as_session fd' q m s = (o, s') ->
  sv_clients s' !! fd = sv_clients s !! fd /\ sv_backlog s' = sv_backlog s.
Proof.
  intros Hne. unfold as_session. destruct (m _ _) as [o' q']. intros E. injection E as _ <-. cbn.
  split; [|done]. destruct (q_ended q'); [by rewrite lookup_delete_ne|by rewrite lookup_insert_ne].
Qed.

Lemma accept_other h fd l : forall s s',
  fd ∉ l.*1 -> accept_all h l s = (Done tt, s') -> sv_clients s' !! fd = sv_clients s !! fd.
Proof.
  induction l as [|[fd' sock] l IH]; intros s s' Hfd; cbn [accept_all].
  { intros E. by injection E as <-. }
  cbn in Hfd. apply not_elem_of_cons in Hfd as [Hne Hfd].
  intros ([] & s1 & E1 & E)%bind_inv. injection E1 as <-.
  rewrite (bind_done get _ _ _ _ eq_refl) in E. apply bind_inv in E as ([] & s2 & E2 & E).
  apply as_session_other with (fd := fd) in E2 as [H2 _]; [|done]. by rewrite (IH _ _ Hfd E), H2.
Qed.

Lemma request_timer_run (q q' : http_request_t http_app) :
  hs_request_timer_cb q = (Done tt, q') -> q_ended q' = true \/ q' = set_timeout (q_timeout q - 1) q.
Proof.
  unfold hs_request_timer_cb. rewrite (bind_done get _ _ _ _ eq_refl).
  rewrite (bind_done (modify _) _ _ _ _ eq_refl). case_match.
  - rewrite end_session_run. intros E. injection E as <-. by left.
  - intros E. injection E as <-. by right.
Qed.

(** Nothing but its timer runs for a deaf connection. *)
Lemma deaf_step s s' fd q q' :
  accounted s -> step s s' -> sv_clients s !! fd = Some q -> deaf q -> sv_clients s' !! fd = Some q' ->
  unheard q q'.
Proof.
  intros Hacc Hstep Hq Hd Hq'.
  destruct Hstep as [s fd' sock Hfd Hw|s fd' q1 sock answers Hfd|s a|s date [e|] n s' Hr E].
  - replace q' with q by (cbn in Hq'; congruence). by apply unheard_refl.
  - cbn in Hq'. apply lookup_insert_Some in Hq' as [[-> <-]|[_ Hq']].
    + replace q1 with q by congruence. split; [done|]. split; [done|by exists sock].
    + replace q' with q by congruence. by apply unheard_refl.
  - replace q' with q by (cbn in Hq'; congruence). by apply unheard_refl.
  - apply bind_inv in E as ([] & s1 & E & E1). injection E1 as _ <-.
    assert (sv_clients s1 !! fd = sv_clients s !! fd -> unheard q q') as Hsame.
    { intros Hs. replace q' with q by congruence. by apply unheard_refl. }
    destruct e as [| |fd'|fd']; cbn [handler] in E.
    + apply Hsame. apply bind_inv in E as (s2 & s3 & E1 & E). injection E1 as <- <-.
      eapply accept_other, E. intros Hin%(acc_fresh _ Hacc). congruence.
    + apply Hsame. by injection E as <-.
    + apply Hsame. destruct Hr as (q1 & Hq1 & Hr). apply bind_inv in E as (s2 & s3 & E1 & E).
      injection E1 as <- <-. rewrite Hq1 in E. apply bind_inv in E as ([] & s2 & E1 & E). injection E1 as <-.
      destruct (decide (fd = fd')) as [<-|Hne].
      * exfalso. replace q1 with q in * by congruence. destruct Hd as (_ & Hw & Hp). by rewrite Hw in Hr.
      * by apply as_session_other with (fd := fd) in E as [-> _].
    + apply bind_inv in E as (s2 & s3 & E1 & E). injection E1 as <- <-.
      destruct (decide (fd = fd')) as [<-|Hne].
      * rewrite Hq in E. unfold as_session in E.
        destruct (hs_request_timer_cb (load s q)) as [o q1] eqn:Et. injection E as -> <-. cbn in Hq'.
        apply request_timer_run in Et as [Et|Et].
        -- rewrite Et, lookup_delete_eq in Hq'. done.
        -- subst q1. cbn in Hq'. destruct (q_ended q); [by rewrite lookup_delete_eq in Hq'|].
           rewrite lookup_insert_eq in Hq'. injection Hq' as <-.
           split; [done|]. split; [done|]. exists []. by rewrite app_nil_r.
      * apply Hsame. destruct (sv_clients s !! fd'); [|by injection E as <-].
        by apply as_session_other with (fd := fd) in E as [-> _].
  - injection E as _ <-. replace q' with q by congruence. by apply unheard_refl.
Qed.

(** Steps in which a connection stays open. *)
Definition step_with (fd : Z) s s' : Prop := step s s' /\ is_Some (sv_clients s' !! fd).

Lemma deaf_run q0 fd s s' :
  rtc (step_with fd) s s' -> forall q, accounted s -> sv_clients s !! fd = Some q -> unheard q0 q ->
  exists q', sv_clients s' !! fd = Some q' /\ unheard q0 q'.
Proof.
  induction 1 as [s|s1 s2 s3 [Hstep [q2 Hq2]] _ IH]; intros q1 Hacc Hq1 Hu; [by exists q1|].
  apply (IH q2); [by eapply loop_step_accounted, Hacc|done|]. etrans; [exact Hu|].
  eapply deaf_step; [exact Hacc|exact Hstep|exact Hq1|apply Hu|exact Hq2].
Qed.

End Stall.

Definition is_deaf (fd : Z) (s : http_server_t http_app) : bool :=
  match sv_clients s !! fd with
  | Some q => bool_decide (q_state q = HTTP_SESSION_INIT) && q_watch_write q && bool_decide (pending q = Some [])
              && bool_decide (length (q_out q) = 139%nat)
  | None => false
  end.

Lemma is_deaf_sound fd s :
  is_deaf fd s = true -> exists q, sv_clients s !! fd = Some q /\ deaf q /\ length (q_out q) = 139%nat.
Proof.
  unfold is_deaf. destruct (sv_clients s !! fd) as [q|]; [|done].
  rewrite !andb_true_iff, !bool_decide_eq_true. intros [[[H1 H2] H3] H4]. by exists q.
Qed.

