(* ===== verification/Binary64.v ===== *)
(** * IEEE binary64

    The operations on [double] the program uses, as Rocq's executable
    specification of floating-point numbers: conversion from an integer,
    arithmetic rounded to nearest even, comparison and truncation; the facts on
    rounding that the benchmark's statistics rest on. *)

From S2P Require Import Prelude.
From stdpp Require Import sorting.
From Stdlib Require Import SpecFloat.
#[local] Open Scope Z_scope.

Definition f64 := spec_float.
Definition f64_of_int (z : Z) : f64 := binary_normalize 53 1024 z 0 false.
Definition f64_add (a b : f64) : f64 := SFadd 53 1024 a b.
Definition f64_sub (a b : f64) : f64 := SFsub 53 1024 a b.
Definition f64_div (a b : f64) : f64 := SFdiv 53 1024 a b.
Definition f64_mul (a b : f64) : f64 := SFmul 53 1024 a b.
Definition f64_abs (a : f64) : f64 := SFabs a.
Definition f64_sqrt (a : f64) : f64 := SFsqrt 53 1024 a.
Definition f64_leb (a b : f64) : bool := SFleb a b.
Definition f64_ltb (a b : f64) : bool := SFltb a b.
Definition f64_eqb (a b : f64) : bool := SFeqb a b.

Definition not_nan (a : f64) : bool := match a with S754_nan => false | _ => true end.

(** [None]: undefined behaviour. *)
Definition f64_trunc (a : f64) : option Z :=
  match a with
  | S754_zero _ => Some 0
  | S754_finite s m e =>
      let v := if 0 <=? e then Z.pos m * 2 ^ e else Z.pos m / 2 ^ (- e) in
      Some (if s then - v else v)
  | _ => None
  end.

(** Conversion to an integer type with the values [lo <= v < hi]. *)
Definition f64_to_range (lo hi : Z) (a : f64) : option Z :=
  match f64_trunc a with
  | Some v => if (lo <=? v) && (v <? hi) then Some v else None
  | None => None
  end.
Definition f64_to_uint64 : f64 -> option Z := f64_to_range 0 (2 ^ 64).
Definition f64_to_int : f64 -> option Z := f64_to_range (- 2 ^ 31) (2 ^ 31).

(** ** Order *)

Lemma Pcompare_refl m : Pcompare m m Eq = Eq.
Proof. exact (Pos.compare_refl m). Qed.

(** A double is equal to itself unless it is a NaN. *)
Lemma f64_eqb_refl a : f64_eqb a a = not_nan a.
Proof.
  unfold f64_eqb, SFeqb. destruct a as [s|s| |s m e]; try done; destruct s; try done;
    cbn; rewrite Z.compare_refl; by rewrite Pcompare_refl.
Qed.

(** Not greater: the order a sort by [operator<] leaves. *)
Definition f64_le (a b : f64) : Prop := f64_ltb b a = false.
#[export] Instance f64_le_dec : RelDecision f64_le.
Proof. intros a b. unfold f64_le. apply _. Defined.

(** The numbers as triples in lexicographic order: sign and kind, exponent,
    mantissa, the last two turned round for negative numbers. *)
Definition rank (a : f64) : Z * (Z * Z) :=
  match a with
  | S754_nan => (0, (0, 0))
  | S754_zero _ => (0, (0, 0))
  | S754_infinity s => (if s then -2 else 2, (0, 0))
  | S754_finite s m e => if s then (-1, (- e, - Z.pos m)) else (1, (e, Z.pos m))
  end.

Definition lexlt (a b : Z * (Z * Z)) : Prop :=
  a.1 < b.1 \/ (a.1 = b.1 /\ (a.2.1 < b.2.1 \/ (a.2.1 = b.2.1 /\ a.2.2 < b.2.2))).

Lemma f64_ltb_rank a b :
  not_nan a = true -> not_nan b = true -> f64_ltb a b = true <-> lexlt (rank a) (rank b).
Proof.
  unfold f64_ltb, SFltb, lexlt.
  destruct a as [s|s| |s m e], b as [s'|s'| |s' m' e']; try done; intros _ _;
    destruct s, s'; cbn; try (split; [done | lia]); try (split; [lia | done]);
    destruct (Z.compare_spec e e'); cbn; try (split; [done|lia]); try (split; [lia|done]);
    change (Pos.compare_cont Eq m m') with (Pos.compare m m');
    destruct (Pos.compare_spec m m'); cbn; (split; [done|lia]) || (split; [lia|done]).
Qed.

Lemma f64_le_rank a b :
  not_nan a = true -> not_nan b = true -> f64_le a b <-> ~ lexlt (rank b) (rank a).
Proof.
  intros Ha Hb. rewrite <- f64_ltb_rank by done. unfold f64_le.
  destruct (f64_ltb b a); naive_solver.
Qed.

Lemma f64_le_trans a b c :
  not_nan a = true -> not_nan b = true -> not_nan c = true ->
  f64_le a b -> f64_le b c -> f64_le a c.
Proof. intros ???. rewrite !f64_le_rank by done. unfold lexlt. lia. Qed.

Lemma f64_le_refl a : f64_le a a.
Proof.
  destruct (not_nan a) eqn:E; [apply f64_le_rank; unfold lexlt; try done; lia|].
  by destruct a.
Qed.

#[export] Instance f64_le_total : Total f64_le.
Proof.
  intros a b. destruct (not_nan a) eqn:Ea, (not_nan b) eqn:Eb.
  - rewrite !f64_le_rank by done. unfold lexlt. lia.
  - left. by destruct b.
  - left. destruct a; try done. by destruct b.
  - left. by destruct b.
Qed.

(** [std::sort] on an array of doubles. *)
Definition f64_sort (l : list f64) : list f64 := merge_sort f64_le l.

Lemma f64_sort_Permutation l : f64_sort l ≡ₚ l.
Proof. apply merge_sort_Permutation. Qed.

Lemma f64_sort_length l : length (f64_sort l) = length l.
Proof. by rewrite f64_sort_Permutation. Qed.

Lemma Sorted_f64_sort l : Sorted f64_le (f64_sort l).
Proof. apply Sorted_merge_sort; apply _. Qed.

(** Sorting orders numbers: of two places, the first does not hold the greater
    one. *)
Lemma Sorted_f64_le l i j x y :
  Sorted f64_le l -> Forall (fun a => not_nan a = true) l ->
  (i <= j)%nat -> l !! i = Some x -> l !! j = Some y -> f64_le x y.
Proof.
  intros Hs Hn. revert i j x y.
  induction l as [|a l IH]; intros i j x y Hij Hx Hy; [done|].
  inversion Hs as [|? ? Hs' Hhd]; subst. inversion Hn as [|? ? Ha Hn']; subst.
  destruct i as [|i], j as [|j]; cbn in *; simplify_eq; try lia.
  - apply f64_le_refl.
  - destruct l as [|b l]; [done|]. inversion Hhd; subst.
    pose proof (Forall_lookup_1 _ _ _ _ Hn' Hy). inversion Hn'; subst.
    apply (f64_le_trans _ b); try done. apply (IH Hs' Hn' 0%nat j b y); [lia|done|done].
  - apply (IH Hs' Hn' i j); [lia|done|done].
Qed.

Lemma f64_sort_ordered l i j x y :
  Forall (fun a => not_nan a = true) l ->
  (i <= j)%nat -> f64_sort l !! i = Some x -> f64_sort l !! j = Some y -> f64_le x y.
Proof.
  intros Hn. apply Sorted_f64_le; [apply Sorted_f64_sort|].
  by rewrite f64_sort_Permutation.
Qed.

(** ** Rounding

    A mantissa [N] shifted right by [k] places, with the bit below and whether
    any lower bit is set. *)

Definition located (N k : Z) (r : shr_record) : Prop :=
  exists rest, N = shr_m r * 2 ^ k + rest /\ 0 <= rest < 2 ^ k /\ 0 <= shr_m r /\
    shr_r r = bool_decide (2 ^ k <= 2 * rest) /\
    shr_s r = bool_decide (rest <> 0 /\ 2 * rest <> 2 ^ k).

Lemma located_0 N : 0 <= N -> located N 0 (Build_shr_record N false false).
Proof. intros. exists 0. cbn. repeat split; lia. Qed.

Lemma located_shr_1 N k r : 0 <= k -> located N k r -> located N (k + 1) (shr_1 r).
Proof.
  intros Hk (rest & EN & Hrest & Hm & Er & Es). destruct r as [m r s]; cbn in EN, Hm, Er, Es.
  assert (2 ^ (k + 1) = 2 * 2 ^ k) as E2 by (rewrite Z.pow_add_r; lia).
  assert (r || s = bool_decide (rest <> 0)) as Ers.
  { rewrite Er, Es. repeat case_bool_decide; cbn; try done; lia. }
  exists ((m mod 2) * 2 ^ k + rest). pose proof (Z.mod_pos_bound m 2 ltac:(lia)).
  pose proof (Z.div_mod m 2 ltac:(lia)).
  assert (shr_1 {| shr_m := m; shr_r := r; shr_s := s |}
          = {| shr_m := m / 2; shr_r := bool_decide (m mod 2 = 1); shr_s := r || s |}) as ->.
  { destruct m as [|[m|m|]|m]; try lia; cbn [shr_1]; f_equal.
    - rewrite (Pos2Z.inj_xI m). apply Z.div_unique with 1; lia.
    - symmetry. apply bool_decide_eq_true_2. rewrite (Pos2Z.inj_xI m). 
      symmetry. apply Z.mod_unique with (Z.pos m); lia.
    - rewrite (Pos2Z.inj_xO m). apply Z.div_unique with 0; lia.
    - symmetry. apply bool_decide_eq_false_2. rewrite (Pos2Z.inj_xO m).
      rewrite (Z.mul_comm 2), Z.mod_mul; lia. }
  cbn [shr_m shr_r shr_s]. rewrite Ers, E2.
  assert (m mod 2 = 0 \/ m mod 2 = 1) as [E|E] by lia; rewrite E in *.
  - split_and!; try nia; apply bool_decide_ext; lia.
  - split_and!; try nia; apply bool_decide_ext; lia.
Qed.

Lemma located_iter N p : forall k r,
  0 <= k -> located N k r -> located N (k + Z.pos p) (iter_pos shr_1 p r).
Proof.
  induction p as [p IH|p IH|]; intros k r Hk H; cbn [iter_pos].
  - replace (k + Z.pos p~1) with (k + 1 + Z.pos p + Z.pos p) by lia.
    apply IH; [lia|]. apply IH; [lia|]. by apply located_shr_1.
  - replace (k + Z.pos p~0) with (k + Z.pos p + Z.pos p) by lia.
    apply IH; [lia|]. by apply IH.
  - by apply located_shr_1.
Qed.

(** Rounding to nearest: at most half a unit away. *)
Lemma round_nearest N k r : located N k r ->
  2 * Z.abs (round_nearest_even (shr_m r) (loc_of_shr_record r) * 2 ^ k - N) <= 2 ^ k /\
  0 <= round_nearest_even (shr_m r) (loc_of_shr_record r).
Proof.
  intros (rest & EN & Hrest & Hm & Er & Es). destruct r as [m r s]; cbn in EN, Hm, Er, Es.
  subst N. set (P := 2 ^ k) in *. cbn [shr_m].
  destruct r, s; cbn [loc_of_shr_record round_nearest_even]; symmetry in Er, Es;
    rewrite ?bool_decide_eq_true, ?bool_decide_eq_false in Er;
    rewrite ?bool_decide_eq_true, ?bool_decide_eq_false in Es;
    [split; lia | case_match; split; lia | split; lia | split; lia].
Qed.

Lemma digits2_pos_spec p : 2 ^ (Z.pos (digits2_pos p) - 1) <= Z.pos p < 2 ^ Z.pos (digits2_pos p).
Proof.
  induction p as [p IH|p IH|]; cbn [digits2_pos]; [| |cbn; lia];
    rewrite Pos2Z.inj_succ; unfold Z.succ; rewrite Z.add_simpl_r;
    rewrite Z.pow_add_r, Z.pow_1_r by lia; set (d := Z.pos (digits2_pos p)) in *;
    assert (2 ^ d = 2 * 2 ^ (d - 1)) by (rewrite <- Z.pow_succ_r by lia; f_equal; lia); lia.
Qed.

Lemma pow2_digits p d : Z.pos p < 2 ^ d -> 0 <= d -> Z.pos (digits2_pos p) <= d.
Proof.
  intros H Hd. destruct (Z.le_gt_cases (Z.pos (digits2_pos p)) d) as [|Hlt]; [done|].
  pose proof (digits2_pos_spec p). pose proof (Z.pow_le_mono_r 2 d (Z.pos (digits2_pos p) - 1)). lia.
Qed.

Lemma digits_pow2 p d : 2 ^ d <= Z.pos p -> 0 <= d -> d < Z.pos (digits2_pos p).
Proof.
  intros H Hd. destruct (Z.le_gt_cases (Z.pos (digits2_pos p)) d) as [Hle|]; [|done].
  pose proof (digits2_pos_spec p). pose proof (Z.pow_le_mono_r 2 (Z.pos (digits2_pos p)) d). lia.
Qed.

(** The shift that brings a mantissa to 53 bits. *)
Lemma shr_fexp_located N e : -1074 <= e ->
  let k := Z.max 0 (Z.pos (digits2_pos N) - 53) in
  exists r, shr_fexp 53 1024 (Z.pos N) e loc_Exact = (r, e + k) /\ located (Z.pos N) k r.
Proof.
  intros He k. unfold shr_fexp, shr. cbn [Zdigits2 shr_record_of_loc].
  change (PosDef.Pos.add) with Pos.add.
  set (d := Z.pos (digits2_pos N)) in *. unfold fexp, emin.
  change (3 - 1024 - 53) with (-1074).
  destruct (Z.max (d + e - 53) (-1074) - e) as [|p|p] eqn:E.
  - replace k with 0 by lia. rewrite Z.add_0_r. eexists. split; [done|]. by apply located_0.
  - replace k with (Z.pos p) by lia. eexists. split; [done|].
    apply (located_iter _ p 0); [done|]. by apply located_0.
  - replace k with 0 by lia. rewrite Z.add_0_r. eexists. split; [done|]. by apply located_0.
Qed.

(** Shifting and rounding keep a mantissa non-negative, so that conversions of
    integers are numbers. *)
Lemma shr_fexp_nonneg m e l : 0 <= m -> 0 <= shr_m (shr_fexp 53 1024 m e l).1.
Proof.
  intros Hm.
  assert (forall r, 0 <= shr_m r -> 0 <= shr_m (shr_1 r)) as H1.
  { intros [[|[]|] ? ?]; cbn; lia. }
  assert (forall p r, 0 <= shr_m r -> 0 <= shr_m (iter_pos shr_1 p r)) as Hi.
  { induction p; intros r Hr; cbn [iter_pos]; auto. }
  unfold shr_fexp, shr. assert (0 <= shr_m (shr_record_of_loc m l)) by (by destruct l as [|[]]).
  case_match; cbn; auto.
Qed.

Lemma round_nonneg m l : 0 <= m -> 0 <= round_nearest_even m l.
Proof. intros. destruct l as [|[]]; cbn; try case_match; lia. Qed.

Lemma f64_of_int_not_nan z : not_nan (f64_of_int z) = true.
Proof.
  assert (forall s p e, not_nan (binary_round_aux 53 1024 s (Z.pos p) e loc_Exact) = true) as H.
  { intros s p e. unfold binary_round_aux. destruct (shr_fexp _ _ (Z.pos p) _ _) as [r e1] eqn:E1.
    pose proof (shr_fexp_nonneg (Z.pos p) e loc_Exact ltac:(lia)) as Hr. rewrite E1 in Hr. cbn in Hr.
    destruct (shr_fexp _ _ (round_nearest_even _ _) _ _) as [r2 e2] eqn:E2.
    pose proof (shr_fexp_nonneg _ e1 loc_Exact (round_nonneg _ (loc_of_shr_record r) Hr)) as Hr2.
    rewrite E2 in Hr2. cbn in Hr2. destruct (shr_m r2); [done|by case_match|lia]. }
  unfold f64_of_int, binary_normalize, binary_round.
  destruct z; [done| |]; destruct (shl_align _ _ _); apply H.
Qed.

(** Rounding a positive number: the result is a multiple of the unit of the last
    place, at most half of it away. *)
Lemma round_pos N e :
  -1074 <= e -> Z.pos (digits2_pos N) + e <= 900 ->
  let k := Z.max 0 (Z.pos (digits2_pos N) - 53) in
  exists m' e' q, binary_round_aux 53 1024 false (Z.pos N) e loc_Exact = S754_finite false m' e' /\
    e <= e' /\ Z.pos m' * 2 ^ (e' - e) = q * 2 ^ k /\ 2 * Z.abs (q * 2 ^ k - Z.pos N) <= 2 ^ k.
Proof.
  intros He Hmax k. unfold binary_round_aux.
  destruct (shr_fexp_located N e He) as (r & -> & Hr). fold k in Hr |- *.
  destruct (round_nearest _ _ _ Hr) as [Hq Hq0].
  set (q := round_nearest_even _ _) in *. pose proof (digits2_pos_spec N) as Hd.
  set (d := Z.pos (digits2_pos N)) in *.
  assert (0 < 2 ^ k) as HP by (apply Z.pow_pos_nonneg; lia).
  assert (0 < q <= 2 ^ 53) as Hq2.
  { destruct (Z.le_gt_cases d 53).
    - replace k with 0 in * by lia. change (2 ^ 0) with 1 in *.
      pose proof (Z.pow_le_mono_r 2 d 53). lia.
    - assert (2 ^ (d - 1) = 2 ^ 52 * 2 ^ k) as E1 by (rewrite <- Z.pow_add_r by lia; f_equal; lia).
      assert (2 ^ d = 2 ^ 53 * 2 ^ k) as E2 by (rewrite <- Z.pow_add_r by lia; f_equal; lia).
      rewrite E1, E2 in Hd. nia. }
  destruct q as [|q'|q'] eqn:Eq; try lia.
  destruct (shr_fexp_located q' (e + k)) as (r2 & -> & (rest & EN & Hrest & Hm & _)); [lia|].
  set (k2 := Z.max 0 (Z.pos (digits2_pos q') - 53)) in *.
  assert (rest = 0) as ->.
  { destruct (decide (k2 = 0)) as [E|Hk2]; [rewrite E in Hrest; change (2 ^ 0) with 1 in Hrest; lia|].
    pose proof (digits2_pos_spec q'). pose proof (pow2_digits q' 54).
    assert (k2 = 1) as E by lia. rewrite E in *. change (2 ^ 1) with 2 in *.
    assert (Z.pos (digits2_pos q') = 54) as E' by lia. rewrite E' in *.
    change (54 - 1) with 53 in *. assert (Z.pos q' = 2 ^ 53) by lia.
    assert (2 ^ 53 = 2 * 2 ^ 52) by done. lia. }
  rewrite Z.add_0_r in EN. assert (0 < 2 ^ k2) by (apply Z.pow_pos_nonneg; lia).
  destruct (shr_m r2) as [|m'|m'] eqn:Em; [lia| |lia].
  pose proof (pow2_digits q' 54 ltac:(lia) ltac:(lia)).
  destruct (Z.leb_spec (e + k + k2) (1024 - 53)); [|lia].
  exists m', (e + k + k2), (Z.pos q'). split_and!; [done|lia| |lia].
  rewrite EN, <- Z.mul_assoc, <- Z.pow_add_r by lia. do 2 f_equal. lia.
Qed.

Lemma trunc_scaled m' e' e : e <= e' -> e <= 0 ->
  f64_trunc (S754_finite false m' e') = Some (Z.pos m' * 2 ^ (e' - e) / 2 ^ (- e)).
Proof.
  intros H1 H2. cbn [f64_trunc]. f_equal. assert (0 < 2 ^ (- e)) by (apply Z.pow_pos_nonneg; lia).
  destruct (Z.leb_spec 0 e').
  - replace (e' - e) with (e' + - e) by lia. rewrite Z.pow_add_r, Z.mul_assoc, Z.div_mul by lia. done.
  - assert (2 ^ (- e) = 2 ^ (e' - e) * 2 ^ (- e')) as ->
      by (rewrite <- Z.pow_add_r by lia; f_equal; lia).
    rewrite (Z.mul_comm (Z.pos m')), Z.div_mul_cancel_l; [done| |];
      apply Z.pow_nonzero; lia.
Qed.

Lemma iter_xO n p : Z.pos (Pos.iter xO n p) = Z.pos n * 2 ^ Z.pos p.
Proof.
  induction p as [|p IH] using Pos.peano_ind; [cbn; lia|].
  rewrite Pos.iter_succ, Pos2Z.inj_xO, IH, Pos2Z.inj_succ, Z.pow_succ_r by lia. lia.
Qed.

(** An integer below 2^53 is converted exactly, with 53 bits. *)
Lemma of_int_pos n : Z.pos n < 2 ^ 53 ->
  exists d, 0 <= d /\ 2 ^ 52 <= Z.pos n * 2 ^ d < 2 ^ 53 /\
    exists M, Z.pos M = Z.pos n * 2 ^ d /\ f64_of_int (Z.pos n) = S754_finite false M (- d).
Proof.
  intros Hn. pose proof (pow2_digits n 53 Hn ltac:(lia)). pose proof (digits2_pos_spec n) as Hd.
  set (D := Z.pos (digits2_pos n)) in *. exists (53 - D). split; [lia|].
  assert (2 ^ D * 2 ^ (53 - D) = 2 ^ 53) by (rewrite <- Z.pow_add_r by lia; f_equal; lia).
  assert (2 ^ (D - 1) * 2 ^ (53 - D) = 2 ^ 52) by (rewrite <- Z.pow_add_r by lia; f_equal; lia).
  assert (2 ^ 52 <= Z.pos n * 2 ^ (53 - D) < 2 ^ 53) as Hb by nia. split; [done|].
  assert (exists M, Z.pos M = Z.pos n * 2 ^ (53 - D) /\
    f64_of_int (Z.pos n) = binary_round_aux 53 1024 false (Z.pos M) (- (53 - D)) loc_Exact)
    as (M & EM & ->).
  { unfold f64_of_int, binary_normalize, binary_round, shl_align, fexp, emin. fold D.
    change (3 - 1024 - 53) with (-1074). rewrite Z.add_0_r, Z.sub_0_r, Z.max_l by lia.
    destruct (D - 53) as [|p|p] eqn:E.
    - exists n. split; [|do 2 f_equal; lia]. replace (53 - D) with 0 by lia. lia.
    - lia.
    - exists (Pos.iter xO n p). split; [|do 2 f_equal; lia].
      replace (53 - D) with (Z.pos p) by lia. apply iter_xO. }
  exists M. split; [done|].
  assert (Z.pos (digits2_pos M) = 53) as ED.
  { pose proof (pow2_digits M 53 ltac:(lia) ltac:(lia)).
    pose proof (digits_pow2 M 52 ltac:(lia) ltac:(lia)). lia. }
  unfold binary_round_aux, shr_fexp, shr. cbn [Zdigits2 shr_record_of_loc].
  change PosDef.Pos.add with Pos.add.
  rewrite ED. unfold fexp, emin. change (3 - 1024 - 53) with (-1074).
  replace (Z.max (53 + - (53 - D) - 53) (-1074) - - (53 - D)) with 0 by lia.
  cbn [shr_m loc_of_shr_record round_nearest_even Zdigits2].
  rewrite ED. replace (Z.max (53 + - (53 - D) - 53) (-1074) - - (53 - D)) with 0 by lia.
  cbn [shr_m]. destruct (Z.leb_spec (- (53 - D)) (1024 - 53)); [done|lia].
Qed.

(** ** Percentages

    The product of a count and a constant close to [a]/100, truncated, is the
    rank [a * n / 100]: the rounding never moves it to a neighbour. *)
Lemma trunc_percent a m n :
  90 <= a <= 99 -> -40 <= 100 * Z.pos m - a * 2 ^ 53 <= 40 -> 0 < n <= 2 ^ 40 ->
  f64_trunc (f64_mul (f64_of_int n) (S754_finite false m (-53))) = Some (a * n / 100).
Proof.
  intros Ha Hm Hn. destruct n as [|n|n]; try lia.
  destruct (of_int_pos n) as (d & Hd & Hb & M & EM & ->); [lia|].
  set (P := 2 ^ d) in *. change (2 ^ 53) with 9007199254740992 in *.
  change (2 ^ 52) with 4503599627370496 in *. change (2 ^ 40) with 1099511627776 in *.
  assert (0 < P) by (apply Z.pow_pos_nonneg; lia).
  cbn [f64_mul SFmul xorb]. unfold f64_mul, SFmul. cbn [xorb].
  change PosDef.Pos.mul with Pos.mul. change IntDef.Z.add with Z.add.
  set (N := (M * m)%positive). assert (Z.pos N = Z.pos n * P * Z.pos m) as EN.
  { unfold N. rewrite Pos2Z.inj_mul, EM. done. }
  pose proof (digits2_pos_spec N) as Hdig.
  assert (Z.pos (digits2_pos N) <= 106) as Hd106.
  { apply pow2_digits; [|lia]. change (2 ^ 106) with (9007199254740992 * 9007199254740992). nia. }
  assert (104 < Z.pos (digits2_pos N)) as Hd104.
  { apply digits_pow2; [|lia]. change (2 ^ 104) with (4503599627370496 * 4503599627370496). nia. }
  assert (d <= 52) as Hd52.
  { destruct (Z.le_gt_cases d 52); [done|].
    pose proof (Z.pow_le_mono_r 2 53 d). fold P in H1. change (2 ^ 53) with 9007199254740992 in *. nia. }
  destruct (round_pos N (- d + -53)) as (m' & e' & q & -> & He' & EV & Hq); [lia|lia|].
  rewrite Z.max_r in EV, Hq by lia. set (k := Z.pos (digits2_pos N) - 53) in *.
  rewrite (trunc_scaled m' e' (- d + -53)) by lia. rewrite EV. f_equal.
  set (K := 2 ^ k) in *. assert (0 < K) by (apply Z.pow_pos_nonneg; lia).
  assert (Z.pos N < 9007199254740992 * K) as HK.
  { unfold K, k. change 9007199254740992 with (2 ^ 53). rewrite <- Z.pow_add_r by lia.
    replace (53 + _) with (Z.pos (digits2_pos N)) by lia. lia. }
  assert (exists c, 1 <= c /\ 9007199254740992 = c * K) as (c & Hc & Ec).
  { exists (2 ^ (53 - k)). split; [pose proof (Z.pow_pos_nonneg 2 (53 - k)); lia|]. unfold K. rewrite <- Z.pow_add_r by lia.
    replace (53 - k + k) with 53 by lia. done. }
  assert (2 ^ (- (- d + -53)) = c * K * P) as ->.
  { rewrite <- Ec. change 9007199254740992 with (2 ^ 53). unfold P. rewrite <- Z.pow_add_r by lia.
    f_equal. lia. }
  assert (4096 <= P) as HP8 by nia.
  pose proof (Z.div_mod (a * Z.pos n) 100 ltac:(lia)) as Ej.
  pose proof (Z.mod_pos_bound (a * Z.pos n) 100 ltac:(lia)) as Hj.
  set (j := a * Z.pos n / 100) in *. set (v := (a * Z.pos n) mod 100) in *.
  set (X := Z.pos n * P) in *. set (Y := j * P).
  assert (X * a = 100 * Y + v * P) as EX by (unfold X, Y; nia).
  assert (X * (a * 9007199254740992 - 40) <= 100 * Z.pos N <= X * (a * 9007199254740992 + 40))
    as HN by (rewrite EN; nia).
  assert (0 <= v * P <= 99 * P) as Hv
    by (split; [apply Z.mul_nonneg_nonneg | apply Z.mul_le_mono_nonneg_r]; lia).
  assert (K <= 9007199254740992) as HK2
    by (pose proof (Z.mul_le_mono_nonneg_r 1 c K); lia).
  assert (X * 90 <= X * a) as HX by (apply Z.mul_le_mono_nonneg_l; lia).
  assert (q * K - j * (c * K * P) = q * K - 9007199254740992 * Y) as Er by (rewrite Ec; unfold Y; ring).
  symmetry. apply Z.div_unique with (q * K - j * (c * K * P)); [|ring].
  left. rewrite Er, <- Ec. split; [|lia].
  destruct (Z.le_gt_cases (j * (c * P)) q) as [Hle|Hlt].
  - assert (j * (c * P) * K <= q * K) as Hle' by (apply Z.mul_le_mono_nonneg_r; lia).
    enough (j * (c * P) * K = 9007199254740992 * Y) by lia. rewrite Ec. unfold Y. ring.
  - exfalso. assert ((q + 1) * K <= j * (c * P) * K) as Hlt'
      by (apply Z.mul_le_mono_nonneg_r; lia).
    assert (j * (c * P) * K = 9007199254740992 * Y) as EY by (rewrite Ec; unfold Y; ring). lia.
Qed.
