(* ===== verification/RandomGenerator.v ===== *)
(** * RandomGenerator

    [src/libs/lib_util/RandomGenerator.h]: generators of inter-arrival times,
    in seconds, for a request rate.  The samples of the distributions of the
    standard library are a stream of the environment. *)

From S2P Require Import Prelude Binary64.
#[local] Open Scope Z_scope.

(** ** Generators *)

(** [expIG_] and [uniformIG_] are the parameters of the distribution objects:
    the rate and the upper bound. *)
Inductive Generator :=
  | Fixed (interval_ : f64)
  | Poisson (lambda_ expIG_ : f64)
  | Uniform (lambda_ uniformIG_ : f64).

Definition updateInterval (reqRate : f64) : f64 :=
  if f64_leb reqRate (f64_of_int 0) then f64_of_int 0 else f64_div (f64_of_int 1) reqRate.

Definition Fixed_new (reqRate : f64) : Generator := Fixed (updateInterval reqRate).
Definition Poisson_new (reqRate : f64) : Generator := Poisson reqRate reqRate.
Definition Uniform_new (reqRate : f64) : Generator :=
  Uniform reqRate (f64_div (f64_of_int 2) reqRate).

(** The samples of [std::exponential_distribution] with a rate and of
    [std::uniform_real_distribution] from 0 to a bound, drawn as the [n]-th
    number. *)
Class Samples := {
  exponential : f64 -> nat -> f64;
  uniform : f64 -> nat -> f64;
}.

Section Generators.
Context `{Samples}.

Definition Fixed_generate (interval_ : f64) : f64 := interval_.
(** Without a rate: the next request in 24 hours. *)
Definition Poisson_generate (lambda_ expIG_ : f64) (n : nat) : f64 :=
  if f64_leb lambda_ (f64_of_int 0) then f64_of_int 86400 else exponential expIG_ n.
Definition Uniform_generate (lambda_ uniformIG_ : f64) (n : nat) : f64 :=
  if f64_leb lambda_ (f64_of_int 0) then f64_of_int 86400 else uniform uniformIG_ n.

Definition generate (g : Generator) (n : nat) : f64 :=
  match g with
  | Fixed interval_ => Fixed_generate interval_
  | Poisson lambda_ expIG_ => Poisson_generate lambda_ expIG_ n
  | Uniform lambda_ uniformIG_ => Uniform_generate lambda_ uniformIG_ n
  end.

(** [(uint64_t)(iaGen->generate() * 1000 * 1000)]: microseconds. *)
Definition generate_usec (g : Generator) (n : nat) : option Z :=
  f64_to_uint64 (f64_mul (f64_mul (generate g n) (f64_of_int 1000)) (f64_of_int 1000)).
End Generators.

Definition getreqRate (g : Generator) : f64 :=
  match g with
  | Fixed interval =>
      if f64_leb interval (f64_of_int 0) then f64_of_int (-1) else f64_div (f64_of_int 1) interval
  | Poisson lambda _ | Uniform lambda _ => lambda
  end.

(** The result says whether a change was made.  [Fixed] has no [return], so
    that its result is undefined ([None]). *)
Definition Fixed_setreqRate (reqRate : f64) : option bool * Generator :=
  (None, Fixed (updateInterval reqRate)).

(** The comparison is that of the member with itself. *)
Definition Poisson_setreqRate (lambda lambda_ expIG_ : f64) : option bool * Generator :=
  if f64_eqb lambda_ lambda_ then (Some false, Poisson lambda_ expIG_)
  else (Some true, Poisson lambda (if f64_ltb (f64_of_int 0) lambda then lambda else expIG_)).

Definition Uniform_setreqRate (lambda lambda_ uniformIG_ : f64) : option bool * Generator :=
  if f64_eqb lambda_ lambda then (Some false, Uniform lambda_ uniformIG_)
  else (Some true, Uniform lambda (if f64_ltb (f64_of_int 0) lambda
                                   then f64_div (f64_of_int 2) lambda else uniformIG_)).

Definition setreqRate (lambda : f64) (g : Generator) : option bool * Generator :=
  match g with
  | Fixed _ => Fixed_setreqRate lambda
  | Poisson lambda_ expIG_ => Poisson_setreqRate lambda lambda_ expIG_
  | Uniform lambda_ uniformIG_ => Uniform_setreqRate lambda lambda_ uniformIG_
  end.

(** ** Changing the rate *)

(** Once it was constructed with a number, the rate of a [Poisson] generator
    never changes: whatever rates are set, in whatever order, [setreqRate]
    reports that there was nothing to change and the generator goes on with the
    rate of its construction, where a [Uniform] one takes over each new rate. *)
Theorem poisson_rate_is_fixed r0 rates :
  not_nan r0 = true ->
  foldl (fun g r => (setreqRate r g).2) (Poisson_new r0) rates = Poisson_new r0 /\
  (forall r, not_nan r = true ->
     setreqRate r (Poisson_new r0) = (Some false, Poisson_new r0) /\
     f64_eqb (getreqRate (setreqRate r (Uniform_new r0)).2) r = true).
Proof.
  intros H0. assert (forall r, setreqRate r (Poisson_new r0) = (Some false, Poisson_new r0)) as Hp
    by (intros r; cbn; unfold Poisson_setreqRate; by rewrite f64_eqb_refl, H0).
  split.
  - induction rates as [|r rates IH]; [done|]. cbn [foldl]. by rewrite Hp.
  - intros r Hr. split; [apply Hp|]. cbn. unfold Uniform_setreqRate.
    destruct (f64_eqb r0 r) eqn:E; [done|].
    cbn. by rewrite f64_eqb_refl.
Qed.

(** A hundred requests per second, then a thousand. *)
Lemma poisson_rate_is_fixed_witness :
  let g := Poisson_new (f64_of_int 100) in
  foldl (fun g r => (setreqRate r g).2) g [f64_of_int 1000] = g /\
  getreqRate g = f64_of_int 100.
Proof.
  split; [|reflexivity]. by apply (poisson_rate_is_fixed (f64_of_int 100) [f64_of_int 1000]).
Defined.
