(* ===== verification/BenchmarkUtil.v ===== *)
(** * BenchmarkUtil

    [src/libs/lib_util/BenchmarkUtil.{h,cc}]: the statistics of the latencies of
    an interval, the results of an experiment interval by interval, and the loop
    of every [runBenchmark] that marks the intervals.  The latencies are an array
    of doubles that [computeStats] sorts in place, a part at a time. *)

From S2P Require Import Prelude Binary64.
From stdpp Require Import sorting.
#[local] Open Scope Z_scope.

(** ** Time *)

(** [timespecToUsec]: unsigned 64-bit arithmetic. *)
Definition timespecToUsec (tv_sec tv_nsec : Z) : Z :=
  wrapU64 (wrapU64 (wrapU64 tv_sec * 1000000) + wrapU64 tv_nsec `div` 1000).

(** ** Statistics *)

Record Statistics := {
  count : Z;
  average : f64;
  stddev : f64;
  stat_min : f64;
  stat_max : f64;
  P50 : f64;
  P90 : f64;
  P95 : f64;
  P99 : f64;
}.

Definition zero : f64 := f64_of_int 0.
(** [memset(&stats, 0, sizeof(stats))]. *)
Definition no_stats : Statistics :=
  {| count := 0; average := zero; stddev := zero; stat_min := zero; stat_max := zero;
     P50 := zero; P90 := zero; P95 := zero; P99 := zero |}.

(** [a[i]]; outside of the array (or of the part that is given), nothing is
    defined. *)
Definition at_pos {S A} (a : list A) (i : Z) : M S A :=
  if i <? 0 then throw OutOfBounds
  else match a !! Z.to_nat i with Some x => mret x | None => throw OutOfBounds end.

(** The constants 0.9, 0.95 and 0.99. *)
Definition c090 : f64 := f64_div (f64_of_int 9) (f64_of_int 10).
Definition c095 : f64 := f64_div (f64_of_int 95) (f64_of_int 100).
Definition c099 : f64 := f64_div (f64_of_int 99) (f64_of_int 100).

(** [rawData[static_cast<int>(count * c)]]. *)
Definition percentile {S} (rawData : list f64) (count : Z) (c : f64) : M S f64 :=
  match f64_to_int (f64_mul (f64_of_int count) c) with
  | Some i => at_pos rawData i
  | None => throw OutOfBounds
  end.

Definition sum_of (rawData : list f64) : f64 := foldl f64_add zero rawData.
Definition average_of (rawData : list f64) : f64 :=
  f64_div (sum_of rawData) (f64_of_int (Z.of_nat (length rawData))).
Definition stddev_of (rawData : list f64) (average : f64) : f64 :=
  f64_sqrt (f64_div (foldl (fun s x => let diff := f64_abs (f64_sub x average) in
                                       f64_add s (f64_mul diff diff)) zero rawData)
                    (f64_of_int (Z.of_nat (length rawData)))).

(** After the sort: [rawData] holds the [count] elements in order. *)
Definition sorted_stats {S} (rawData : list f64) : M S Statistics :=
  let count := Z.of_nat (length rawData) in
  let average := average_of rawData in
  min ← at_pos rawData 0;
  max ← at_pos rawData (count - 1);
  p50 ← at_pos rawData (count `div` 2);
  p90 ← percentile rawData count c090;
  p95 ← percentile rawData count c095;
  p99 ← percentile rawData count c099;
  mret {| count := count; average := average; stddev := stddev_of rawData average;
          stat_min := min; stat_max := max; P50 := p50; P90 := p90; P95 := p95; P99 := p99 |}.

(** The part of an array that [computeStats] is given. *)
Definition part (off n : nat) (a : list f64) : list f64 := take n (drop off a).

(** The results of an experiment: the latencies, and the lines written. *)
Record row := Row {
  row_title : string;
  row_time : Z;
  row_duration : f64;
  row_stats : Statistics;
  row_throughput : f64;
}.

Record results := Results {
  latencies : list f64;
  logFile : list row;
  totals : list (Z * f64);
}.

Definition set_latencies (a : list f64) (s : results) : results :=
  Results a (logFile s) (totals s).

(** [computeStats(rawData + off, count)]. *)
Definition computeStats (off n : nat) : M results Statistics :=
  if (n =? 0)%nat then mret no_stats
  else
    a ← gets latencies;
    if (length a <? off + n)%nat then throw OutOfBounds
    else
      let sorted := f64_sort (part off n a) in
      modify (set_latencies (take off a ++ sorted ++ drop (off + n) a)) ;;
      sorted_stats sorted.

(** ** The results of an experiment *)

Definition write_row (r : row) : M results unit :=
  modify (fun s => Results (latencies s) (logFile s ++ [r]) (totals s)).
Definition print_totals (t : Z * f64) : M results unit :=
  modify (fun s => Results (latencies s) (logFile s) (totals s ++ [t])).

(** The body of the loop; the number of entries is the difference of two
    [uint32_t]. *)
Definition process_interval (indices timeStampsUsec : list Z) (expName : string) (i : Z) :
    M results unit :=
  t1 ← at_pos timeStampsUsec i;
  t0 ← at_pos timeStampsUsec (i - 1);
  let durationMsec := f64_div (f64_of_int (wrapU64 (t1 - t0))) (f64_of_int 1000) in
  i1 ← at_pos indices i;
  i0 ← at_pos indices (i - 1);
  let numEntries := wrapU32 (i1 - i0) in
  stats ← computeStats (Z.to_nat i0) (Z.to_nat numEntries);
  let throughput :=
    f64_div (f64_mul (f64_of_int numEntries) (f64_of_int 1000)) durationMsec in
  (if i =? 1 then
     t ← at_pos timeStampsUsec 0;
     write_row (Row expName t zero stats throughput)
   else mret tt) ;;
  write_row (Row expName t1 durationMsec stats throughput).

(** [is_open]: the log file could be opened. *)
Definition processResults (is_open : bool) (indices timeStampsUsec : list Z) (expName : string) :
    M results bool :=
  if negb is_open then mret false
  else
    let totalIntervals := Z.of_nat (length indices) in
    for_loop (R := unit) (length indices - 1) 1 tt (fun i _ =>
      process_interval indices timeStampsUsec expName i ;; mret (Next tt)) ;;
    totalEntries ← at_pos indices (totalIntervals - 1);
    t1 ← at_pos timeStampsUsec (totalIntervals - 1);
    t0 ← at_pos timeStampsUsec 0;
    let totalTimeSec := f64_div (f64_of_int (wrapU64 (t1 - t0))) (f64_of_int 1000000) in
    print_totals (totalEntries, f64_div (f64_of_int totalEntries) totalTimeSec) ;;
    mret true.

(** ** The intervals

    The measuring loop of every [runBenchmark]: it sleeps, then notes the number
    of latency slots taken and the time, until the time is over. *)

(** [endTime]: the product is computed as an [int]. *)
Definition deadline (currTime totalExecTimeMsec : Z) : Z :=
  wrapU64 (currTime + wrapU64 (wrap32 (totalExecTimeMsec * 1000))).

Section Sampling.
(** The time and the counter at the [k]-th reading of the loop. *)
Context (clock counter : nat -> Z).

Fixpoint sample_loop (fuel k : nat) (endTime : Z) (indices timeStampsUsec : list Z) :
    outcome (list Z * list Z) :=
  match fuel with
  | O => OutOfFuel
  | S fuel' =>
      let currTime := clock k in
      let indices := indices ++ [counter k] in
      let timeStampsUsec := timeStampsUsec ++ [currTime] in
      if currTime <? endTime then sample_loop fuel' (S k) endTime indices timeStampsUsec
      else Done (indices, timeStampsUsec)
  end.

(** The first time stamp is taken before the threads are started, the deadline
    after. *)
Definition sample_intervals (fuel : nat) (t0 currTime totalExecTimeMsec : Z) :
    outcome (list Z * list Z) :=
  sample_loop fuel 0 (deadline currTime totalExecTimeMsec) [0] [t0].
End Sampling.

(** ** Ranks *)

(** The statistics of the elements [l], which are in order. *)
Record ranks (l : list f64) (st : Statistics) : Prop := {
  ranks_count : count st = Z.of_nat (length l);
  ranks_min : l !! 0%nat = Some (stat_min st);
  ranks_P50 : l !! Z.to_nat (count st `div` 2) = Some (P50 st);
  ranks_P90 : l !! Z.to_nat (90 * count st / 100) = Some (P90 st);
  ranks_P95 : l !! Z.to_nat (95 * count st / 100) = Some (P95 st);
  ranks_P99 : l !! Z.to_nat (99 * count st / 100) = Some (P99 st);
  ranks_max : l !! Z.to_nat (count st - 1) = Some (stat_max st);
}.

Lemma at_pos_in {S A} (a : list A) i (s : S) : 0 <= i < Z.of_nat (length a) ->
  exists x, a !! Z.to_nat i = Some x /\ at_pos a i s = (Done x, s).
Proof.
  intros Hi. destruct (lookup_lt_is_Some_2 a (Z.to_nat i)) as [x Hx]; [lia|].
  exists x. split; [done|]. unfold at_pos. destruct (Z.ltb_spec i 0); [lia|]. by rewrite Hx.
Qed.

(** The ranks are computed without an error: the floating-point product is
    truncated to the rank of the percentage. *)
Lemma percentile_rank {S} (l : list f64) n m a (s : S) :
  90 <= a <= 99 -> -40 <= 100 * Z.pos m - a * 2 ^ 53 <= 40 -> 0 < n <= 2 ^ 26 ->
  percentile l n (SpecFloat.S754_finite false m (-53)) s = at_pos l (a * n / 100) s.
Proof.
  intros Ha Hm Hn. unfold percentile, f64_to_int, f64_to_range.
  rewrite (trunc_percent a) by (try done; pose proof (Z.pow_le_mono_r 2 26 40); lia).
  change (2 ^ 26) with 67108864 in Hn.
  assert (0 <= a * n / 100 < 2 ^ 31) as [H1 H2].
  { change (2 ^ 31) with 2147483648. assert (0 <= a * n <= 99 * 67108864) by nia.
    split; [apply Z.div_pos; lia | apply Z.div_lt_upper_bound; lia]. }
  destruct (Z.leb_spec (- 2 ^ 31) (a * n / 100)); [|lia].
  destruct (Z.ltb_spec (a * n / 100) (2 ^ 31)); [done|lia].
Qed.

Lemma sorted_stats_ranks {S} (l : list f64) (s : S) :
  l <> [] -> Z.of_nat (length l) <= 2 ^ 26 ->
  exists st, sorted_stats l s = (Done st, s) /\ ranks l st.
Proof.
  intros Hne Hmax. assert (0 < Z.of_nat (length l)) as Hpos by (destruct l; cbn; [done|lia]).
  set (n := Z.of_nat (length l)) in *.
  assert (forall a, 90 <= a <= 99 -> 0 <= a * n / 100 < n) as Hr.
  { intros a Ha. split; [apply Z.div_pos; nia | apply Z.div_lt_upper_bound; nia]. }
  assert (0 <= n `div` 2 < n) as Hh.
  { pose proof (Z.div_mod n 2). pose proof (Z.mod_pos_bound n 2). lia. }
  destruct (at_pos_in l 0 s) as (x0 & L0 & E0); [lia|].
  destruct (at_pos_in l (n - 1) s) as (x1 & L1 & E1); [lia|].
  destruct (at_pos_in l (n `div` 2) s) as (x2 & L2 & E2); [lia|].
  destruct (at_pos_in l (90 * n / 100) s) as (x3 & L3 & E3); [by apply Hr|].
  destruct (at_pos_in l (95 * n / 100) s) as (x4 & L4 & E4); [by apply Hr|].
  destruct (at_pos_in l (99 * n / 100) s) as (x5 & L5 & E5); [by apply Hr|].
  unfold sorted_stats. fold n. run_bind E0. run_bind E1. run_bind E2.
  erewrite bind_done by (rewrite <- E3; by apply percentile_rank).
  erewrite bind_done by (rewrite <- E4; by apply percentile_rank).
  erewrite bind_done by (rewrite <- E5; by apply percentile_rank).
  eexists. split; [done|]. by split.
Qed.

(** The statistics are in the order of their names. *)
Definition in_order (st : Statistics) : Prop :=
  f64_le (stat_min st) (P50 st) /\ f64_le (P50 st) (P90 st) /\ f64_le (P90 st) (P95 st) /\
  f64_le (P95 st) (P99 st) /\ f64_le (P99 st) (stat_max st).

Lemma ranks_in_order l st :
  Forall (fun x => not_nan x = true) l -> l <> [] -> ranks (f64_sort l) st -> in_order st.
Proof.
  intros Hn Hne [Ec E0 E50 E90 E95 E99 E1]. rewrite f64_sort_length in Ec.
  assert (0 < count st) as Hpos by (rewrite Ec; destruct l; cbn; [done|lia]).
  set (n := count st) in *.
  assert (forall a b i j, 90 <= a <= b -> b <= 99 -> i = a * n / 100 -> j = b * n / 100 ->
    0 <= n `div` 2 <= i /\ i <= j <= n - 1) as Hr.
  { intros a b i j Ha Hb -> ->. split; [split; [apply Z.div_pos; lia|]|split].
    - transitivity (50 * n / 100); [|apply Z.div_le_mono; nia].
      replace (50 * n) with (n * 50) by lia. change 100 with (2 * 50).
      by rewrite Z.div_mul_cancel_r.
    - apply Z.div_le_mono; nia.
    - enough (b * n / 100 < n) by lia. apply Z.div_lt_upper_bound; nia. }
  destruct (Hr 90 95 _ _ ltac:(lia) ltac:(lia) eq_refl eq_refl) as [??].
  destruct (Hr 95 99 _ _ ltac:(lia) ltac:(lia) eq_refl eq_refl) as [??].
  split_and!; eapply f64_sort_ordered; try eassumption; apply Z2Nat.inj_le || idtac; lia.
Qed.

Lemma part_length off n (a : list f64) : (off + n <= length a)%nat -> length (part off n a) = n.
Proof. intros. unfold part. rewrite length_take, length_drop. lia. Qed.

Lemma part_not_nan off n (a : list f64) :
  Forall (fun x => not_nan x = true) a -> Forall (fun x => not_nan x = true) (part off n a).
Proof. intros. apply Forall_take. by apply Forall_drop. Qed.

(** The array after a part of it was sorted. *)
Definition sort_part (off n : nat) (a : list f64) : list f64 :=
  take off a ++ f64_sort (part off n a) ++ drop (off + n) a.

Lemma sort_part_Permutation off n a : sort_part off n a ≡ₚ a.
Proof.
  unfold sort_part, part. rewrite f64_sort_Permutation.
  rewrite <- drop_drop, (take_drop n (drop off a)). by rewrite take_drop.
Qed.

(** What [computeStats] returns for the elements [l]. *)
Definition stats_of (l : list f64) (st : Statistics) : Prop :=
  if decide (l = []) then st = no_stats else ranks (f64_sort l) st /\ in_order st.

Lemma stats_of_count l st : stats_of l st -> count st = Z.of_nat (length l).
Proof.
  unfold stats_of. case_decide; [by subst; intros ->|].
  intros [[Ec _ _ _ _ _ _] _]. by rewrite Ec, f64_sort_length.
Qed.

Lemma computeStats_run off n s :
  (off + n <= length (latencies s))%nat -> Z.of_nat n <= 2 ^ 26 ->
  Forall (fun x => not_nan x = true) (latencies s) ->
  exists st,
    computeStats off n s =
      (Done st, set_latencies (sort_part off n (latencies s)) s) /\
    stats_of (part off n (latencies s)) st.
Proof.
  intros Hin Hmax Hn. unfold computeStats, stats_of.
  pose proof (part_length off n (latencies s) Hin) as Hlen.
  destruct (Nat.eqb_spec n 0) as [->|Hpos].
  - exists no_stats. split; [|done]. unfold sort_part, part. rewrite take_0, Nat.add_0_r.
    change (f64_sort []) with (@nil f64).
    cbn [app]. rewrite take_drop. by destruct s.
  - set (a := latencies s) in *. set (s' := set_latencies (sort_part off n a) s).
    destruct (sorted_stats_ranks (f64_sort (part off n a)) s') as (st & E & Hst).
    { intros E. apply (f_equal length) in E. rewrite f64_sort_length, Hlen in E. done. }
    { by rewrite f64_sort_length, Hlen. }
    exists st. split; [|rewrite decide_False by (intros E'; rewrite E' in Hlen; done); split; [done|]].
    + run_bind (eq_refl : gets latencies s = (Done a, s)).
      destruct (Nat.ltb_spec (length a) (off + n)); [lia|]. fold (sort_part off n a).
      by rewrite (bind_done (modify (set_latencies (sort_part off n a))) _ s tt s' eq_refl).
    + apply (ranks_in_order (part off n a)); [by apply part_not_nan| |done].
      intros E'. rewrite E' in Hlen. done.
Qed.

(** [computeStats] on a part of the latencies inside of the array sorts this
    part, leaves the others as they are, and returns for a part of [n] numbers
    the count, the least and the greatest one, and the elements of rank [n/2],
    [90 n / 100], [95 n / 100] and [99 n / 100], which the products in floating
    point, truncated, always hit; these are in the order of their names. *)
Theorem computeStats_ranks off n s :
  (off + n <= length (latencies s))%nat -> 0 < Z.of_nat n <= 2 ^ 26 ->
  Forall (fun x => not_nan x = true) (latencies s) ->
  exists st sorted,
    computeStats off n s =
      (Done st, Results (take off (latencies s) ++ sorted ++ drop (off + n) (latencies s))
                  (logFile s) (totals s)) /\
    sorted ≡ₚ take n (drop off (latencies s)) /\ Sorted f64_le sorted /\
    ranks sorted st /\ count st = Z.of_nat n /\
    f64_le (stat_min st) (P50 st) /\ f64_le (P50 st) (P90 st) /\ f64_le (P90 st) (P95 st) /\
    f64_le (P95 st) (P99 st) /\ f64_le (P99 st) (stat_max st).
Proof.
  intros Hin [Hpos Hmax] Hn. destruct (computeStats_run off n s Hin Hmax Hn) as (st & E & Hst).
  pose proof (part_length off n (latencies s) Hin) as Hlen.
  pose proof (stats_of_count _ _ Hst) as Hc. rewrite Hlen in Hc.
  unfold stats_of in Hst. destruct (decide _) as [E'|_]; [rewrite E' in Hlen; cbn in Hlen; lia|].
  destruct Hst as [Hr Ho]. exists st, (f64_sort (part off n (latencies s))).
  split_and!; try done; try apply Ho.
  - apply f64_sort_Permutation.
  - apply Sorted_f64_sort.
Qed.

(** ** The results, interval by interval *)

Section Results.
Context (indices timeStampsUsec : list Z) (expName : string).
(** The array when the threads have ended. *)
Context (a : list f64).

(** The counter was read as many times as the clock, never went back, and stays
    inside of the array. *)
Record sampled : Prop := {
  sampled_times : length timeStampsUsec = length indices;
  sampled_first : indices !! 0%nat = Some 0;
  sampled_steps : forall i x y, indices !! i = Some x -> indices !! S i = Some y -> x <= y;
  sampled_inside : forall i x, indices !! i = Some x -> x <= Z.of_nat (length a);
}.

Context (Hs : sampled).
Context (Hnum : Forall (fun x => not_nan x = true) a) (Hmax : Z.of_nat (length a) <= 2 ^ 26).

Lemma sampled_nonneg i x : indices !! i = Some x -> 0 <= x.
Proof.
  revert x. induction i as [|i IH]; intros x Hx.
  - rewrite (sampled_first Hs) in Hx. simplify_eq. lia.
  - destruct (lookup_lt_is_Some_2 indices i) as [y Hy].
    { apply lookup_lt_Some in Hx. lia. }
    pose proof (IH _ Hy). pose proof (sampled_steps Hs _ _ _ Hy Hx). lia.
Qed.

(** The line for interval [i]: the statistics of the latencies in its slots. *)
Definition line_of (i : nat) (r : row) : Prop :=
  exists i0 i1 t0 t1,
    indices !! i = Some i0 /\ indices !! S i = Some i1 /\
    timeStampsUsec !! i = Some t0 /\ timeStampsUsec !! S i = Some t1 /\
    row_title r = expName /\ row_time r = t1 /\
    row_duration r = f64_div (f64_of_int (wrapU64 (t1 - t0))) (f64_of_int 1000) /\
    count (row_stats r) = i1 - i0 /\
    stats_of (part (Z.to_nat i0) (Z.to_nat (i1 - i0)) a) (row_stats r).

(** The first [i] intervals are sorted, the rest of the array is as it was. *)
Definition sorted_up_to (i : nat) (l : list f64) : Prop :=
  exists x, indices !! i = Some x /\ l ≡ₚ a /\ drop (Z.to_nat x) l = drop (Z.to_nat x) a.
(** The line the first one is preceded by, for plotting. *)
Definition copy_of (t0 : Z) (r : row) : row :=
  Row expName t0 zero (row_stats r) (row_throughput r).

Lemma at_pos_found {S A} (l : list A) i x (s : S) :
  l !! i = Some x -> at_pos l (Z.of_nat i) s = (Done x, s).
Proof.
  intros E. unfold at_pos. destruct (Z.ltb_spec (Z.of_nat i) 0); [lia|].
  by rewrite Nat2Z.id, E.
Qed.

Lemma write_copy i t0 st thr s :
  timeStampsUsec !! 0%nat = Some t0 ->
  (if Z.of_nat (S i) =? 1 then
     t ← at_pos timeStampsUsec 0; write_row (Row expName t zero st thr)
   else mret tt) s =
  (Done tt, Results (latencies s)
     (logFile s ++ (if (i =? 0)%nat then [Row expName t0 zero st thr] else [])) (totals s)).
Proof.
  intros Ht. destruct (Z.eqb_spec (Z.of_nat (S i)) 1), (Nat.eqb_spec i 0); try lia.
  - run_bind (at_pos_found _ _ _ s Ht). done.
  - rewrite app_nil_r. by destruct s.
Qed.

Lemma sort_part_drop off n l :
  (off + n <= length l)%nat -> drop (off + n) (sort_part off n l) = drop (off + n) l.
Proof.
  intros H. unfold sort_part. rewrite app_assoc, drop_app_length'; [done|].
  rewrite length_app, f64_sort_length, part_length by lia. rewrite length_take. lia.
Qed.

Lemma interval_step i s :
  (S i < length indices)%nat -> sorted_up_to i (latencies s) ->
  exists r s', process_interval indices timeStampsUsec expName (Z.of_nat (S i)) s = (Done tt, s') /\
    line_of i r /\ sorted_up_to (S i) (latencies s') /\ totals s' = totals s /\
    exists t0, timeStampsUsec !! 0%nat = Some t0 /\
      logFile s' = logFile s ++ (if (i =? 0)%nat then [copy_of t0 r] else []) ++ [r].
Proof.
  intros Hi (x & Hx & Hperm & Hdrop).
  destruct (lookup_lt_is_Some_2 indices (S i)) as [y Hy]; [lia|].
  pose proof (sampled_times Hs) as Hlt.
  destruct (lookup_lt_is_Some_2 timeStampsUsec (S i)) as [t1 Ht1]; [lia|].
  destruct (lookup_lt_is_Some_2 timeStampsUsec i) as [t0 Ht0]; [lia|].
  destruct (lookup_lt_is_Some_2 timeStampsUsec 0) as [tt0 Htt0]; [lia|].
  pose proof (sampled_nonneg _ _ Hx). pose proof (sampled_steps Hs _ _ _ Hx Hy).
  pose proof (sampled_inside Hs _ _ Hy) as Hin.
  assert (length (latencies s) = length a) as Hla by (by rewrite Hperm).
  change (2 ^ 26) with 67108864 in Hmax.
  assert (wrapU32 (y - x) = y - x) as Hw by (apply wrapU_id; lia).
  destruct (computeStats_run (Z.to_nat x) (Z.to_nat (y - x)) s) as (st & E & Hst); [lia|lia| |].
  { by rewrite Hperm. }
  assert (part (Z.to_nat x) (Z.to_nat (y - x)) (latencies s)
          = part (Z.to_nat x) (Z.to_nat (y - x)) a) as Ep by (unfold part; by rewrite Hdrop).
  rewrite Ep in Hst. pose proof (stats_of_count _ _ Hst) as Hc. rewrite part_length in Hc by lia.
  set (r := Row expName t1 (f64_div (f64_of_int (wrapU64 (t1 - t0))) (f64_of_int 1000)) st
              (f64_div (f64_mul (f64_of_int (y - x)) (f64_of_int 1000))
                 (f64_div (f64_of_int (wrapU64 (t1 - t0))) (f64_of_int 1000)))).
  exists r. eexists. split; [|split; [|split; [|split; [|exists tt0; split; [done|]]]]].
  - unfold process_interval. run_bind (at_pos_found _ _ _ s Ht1).
    replace (Z.of_nat (S i) - 1) with (Z.of_nat i) by lia. run_bind (at_pos_found _ _ _ s Ht0).
    run_bind (at_pos_found _ _ _ s Hy). run_bind (at_pos_found _ _ _ s Hx). rewrite Hw.
    run_bind E. run_bind (write_copy i _ st (row_throughput r) (set_latencies
      (sort_part (Z.to_nat x) (Z.to_nat (y - x)) (latencies s)) s) Htt0). reflexivity.
  - exists x, y, t0, t1. split_and!; try done. cbn [row_stats r]. lia.
  - exists y. split; [done|]. 
    set (l := sort_part (Z.to_nat x) (Z.to_nat (y - x)) (latencies s)).
    change (l ≡ₚ a /\ drop (Z.to_nat y) l = drop (Z.to_nat y) a). unfold l.
    split; [by rewrite sort_part_Permutation|].
    replace (Z.to_nat y) with (Z.to_nat x + Z.to_nat (y - x))%nat by lia.
    rewrite sort_part_drop by lia. by rewrite <- !drop_drop, Hdrop.
  - done.
  - cbn [logFile]. by rewrite <- app_assoc.
Qed.

(** The lines after the intervals [i], [i + 1], ... were written. *)
Lemma intervals_run n : forall i s,
  (S i + n = length indices)%nat -> sorted_up_to i (latencies s) ->
  exists rs s',
    for_loop (R := unit) n (Z.of_nat (S i)) tt (fun j _ =>
      process_interval indices timeStampsUsec expName j ;; mret (Next tt)) s
      = (Done (Next tt), s') /\
    length rs = n /\ (forall k r, rs !! k = Some r -> line_of (i + k) r) /\
    latencies s' ≡ₚ a /\ totals s' = totals s /\
    (forall t0, timeStampsUsec !! 0%nat = Some t0 ->
      logFile s' = logFile s ++ (if (i =? 0)%nat then copy_of t0 <$> take 1 rs else []) ++ rs).
Proof.
  induction n as [|n IH]; intros i s Hi Hup; cbn [for_loop].
  - exists [], s. destruct Hup as (x & _ & Hperm & _). split_and!; try done.
    intros t0 _. case_match; by rewrite app_nil_r.
  - destruct (interval_step i s) as (r & s1 & E & Hr & Hup1 & Etot & t0 & Ht0 & Elog); [lia|done|].
    destruct (IH (S i) s1) as (rs & s' & E' & Hlen & Hrs & Hperm & Etot' & Elog'); [lia|done|].
    exists (r :: rs), s'. split; [|split; [|split; [|split; [|split]]]].
    + erewrite bind_done; [|run_bind E; reflexivity].
      replace (Z.of_nat (S i) + 1) with (Z.of_nat (S (S i))) by lia. done.
    + cbn. lia.
    + intros [|k] r' Hk; cbn in Hk; simplify_eq; [by rewrite Nat.add_0_r|].
      rewrite Nat.add_succ_r. by apply (Hrs k).
    + done.
    + congruence.
    + intros t0' Ht0'. simplify_eq. rewrite (Elog' t0 Ht0), Elog. cbn [Nat.eqb].
      destruct i; cbn [Nat.eqb take fmap list_fmap app]; by rewrite <- !app_assoc.
Qed.

(** The counts of the lines add up. *)
Lemma line_counts rs : forall i,
  (forall k r, rs !! k = Some r -> line_of (i + k) r) ->
  forall x y, indices !! i = Some x -> indices !! (i + length rs)%nat = Some y ->
  foldr (fun r n => count (row_stats r) + n) 0 rs = y - x.
Proof.
  induction rs as [|r rs IH]; intros i Hrs x y Hx Hy.
  - cbn in Hy. rewrite Nat.add_0_r in Hy. simplify_eq. cbn. lia.
  - destruct (Hrs 0%nat r eq_refl) as (i0 & i1 & _ & _ & Hi0 & Hi1 & _ & _ & _ & _ & _ & Hc & _).
    rewrite Nat.add_0_r in Hi0, Hi1. simplify_eq. cbn [foldr]. rewrite Hc.
    rewrite (IH (S i)) with (x := i1) (y := y); [lia| |done|].
    + intros k r' Hk. replace (S i + k)%nat with (i + S k)%nat by lia. by apply Hrs.
    + cbn [length] in Hy. by replace (S i + length rs)%nat with (i + S (length rs))%nat by lia.
Qed.

Lemma processResults_run s last :
  latencies s = a -> indices !! (length indices - 1)%nat = Some last ->
  exists rs s',
    processResults true indices timeStampsUsec expName s = (Done true, s') /\
    length rs = (length indices - 1)%nat /\ (forall k r, rs !! k = Some r -> line_of k r) /\
    foldr (fun r n => count (row_stats r) + n) 0 rs = last /\
    latencies s' ≡ₚ a /\
    (exists t0, timeStampsUsec !! 0%nat = Some t0 /\
      logFile s' = logFile s ++ (copy_of t0 <$> take 1 rs) ++ rs) /\
    exists thr, totals s' = totals s ++ [(last, thr)].
Proof.
  intros Ha Hlast. pose proof (lookup_lt_Some _ _ _ Hlast) as Hlt.
  destruct (intervals_run (length indices - 1) 0 s) as (rs & s1 & E & Hlen & Hrs & Hperm & Etot & Elog).
  { lia. } { exists 0. split; [apply Hs|]. by rewrite Ha. }
  pose proof (sampled_times Hs) as Het.
  destruct (lookup_lt_is_Some_2 timeStampsUsec 0) as [t0 Ht0]; [lia|].
  destruct (lookup_lt_is_Some_2 timeStampsUsec (length indices - 1)) as [t1 Ht1]; [lia|].
  pose proof (at_pos_found _ _ _ s1 Hlast) as E1. pose proof (at_pos_found _ _ _ s1 Ht1) as E2.
  pose proof (at_pos_found _ _ _ s1 Ht0) as E3.
  replace (Z.of_nat (length indices - 1)) with (Z.of_nat (length indices) - 1) in E1, E2 by lia.
  exists rs. eexists. split; [|split; [done|split; [done|split; [|split; [|split]]]]].
  - unfold processResults. cbn [negb]. change (Z.of_nat 1) with 1 in E. run_bind E.
    run_bind E1. run_bind E2. change (Z.of_nat 0) with 0 in E3. run_bind E3. reflexivity.
  - rewrite (line_counts rs 0 Hrs 0 last); [lia|apply Hs|]. by rewrite Hlen.
  - done.
  - exists t0. split; [done|]. cbn [logFile]. rewrite (Elog t0 Ht0). done.
  - eexists. cbn [totals]. by rewrite Etot.
Qed.

End Results.

(** ** The measuring loop *)

Section Loop.
Context (clock counter : nat -> Z).

(** The loop ends with the first reading that is not before the deadline. *)
Lemma sample_loop_run endTime k : endTime <= clock k -> (forall j, (j < k)%nat -> clock j < endTime) ->
  forall j fuel indices times, (j <= k)%nat -> (k - j < fuel)%nat ->
  sample_loop clock counter fuel j endTime indices times =
  Done (indices ++ (counter <$> seq j (S k - j)), times ++ (clock <$> seq j (S k - j))).
Proof.
  intros Hk Hbefore j fuel. revert j. induction fuel as [|fuel IH]; intros j indices times Hj Hf; [lia|].
  cbn [sample_loop]. replace (S k - j)%nat with (S (k - j)) by lia. cbn [seq fmap list_fmap].
  destruct (Z.ltb_spec (clock j) endTime) as [Hlt|Hge].
  - assert (j <> k) by (intros ->; lia). rewrite IH by lia.
    replace (S k - S j)%nat with (k - j)%nat by lia. by rewrite <- !app_assoc.
  - assert (j = k) as -> by (destruct (decide (j < k)%nat); [specialize (Hbefore j); lia|lia]).
    rewrite Nat.sub_diag. done.
Qed.

Lemma lookup_readings (x : Z) f n i :
  (x :: (f <$> seq 0 n)) !! S i = if (i <? n)%nat then Some (f i : Z) else None.
Proof.
  change ((f <$> seq 0 n) !! i = if (i <? n)%nat then Some (f i) else None).
  rewrite list_lookup_fmap. destruct (Nat.ltb_spec i n).
  - by rewrite lookup_seq_lt by lia.
  - by rewrite lookup_seq_ge by lia.
Qed.

Lemma readings_sampled k t0 a :
  0 <= counter 0%nat -> (forall j, counter j <= counter (S j)) ->
  (forall j, counter j <= Z.of_nat (length a)) ->
  sampled (0 :: (counter <$> seq 0 (S k))) (t0 :: (clock <$> seq 0 (S k))) a.
Proof.
  intros H0 Hmono Hin. split.
  - cbn. by rewrite !length_fmap.
  - done.
  - intros i x y Hx. rewrite lookup_readings. destruct (Nat.ltb_spec i (S k)); [|done].
    intros [= <-]. destruct i as [|i]; [cbn in Hx; simplify_eq; lia|].
    rewrite lookup_readings in Hx. destruct (Nat.ltb_spec i (S k)); simplify_eq. apply Hmono.
  - intros [|i] x Hx; [cbn in Hx; simplify_eq; lia|].
    rewrite lookup_readings in Hx. destruct (Nat.ltb_spec i (S k)); simplify_eq. apply Hin.
Qed.
End Loop.

(** The end of [runBenchmark]: the intervals, then, when the threads have ended
    and the latencies are all there, the results; that these could not be written
    is a warning. *)
Definition report (clock counter : nat -> Z) (fuel : nat) (is_open : bool)
    (t0 currTime totalExecTimeMsec : Z) (expName : string) : M results bool :=
  match sample_intervals clock counter fuel t0 currTime totalExecTimeMsec with
  | Done (indices, timeStampsUsec) =>
      processResults is_open indices timeStampsUsec expName ;; mret true
  | Trap t => throw t
  | OutOfFuel => out_of_fuel
  end.

(** C8: an experiment is reported interval by interval.  With the clock reaching
    the deadline at reading [k] and a counter of latency slots that never goes
    back and stays inside of the array, [k + 1] turns of the measuring loop are
    enough; [processResults] returns [true], writes one line per interval (the
    first one twice, as at the start), the line with the statistics of the
    latencies recorded in the slots of its interval; the counts of the lines add
    up to the total that is printed, and no latency is lost or changed. *)
Theorem benchmark_report clock counter fuel t0 currTime T expName k s :
  deadline currTime T <= clock k -> (forall j, (j < k)%nat -> clock j < deadline currTime T) ->
  (k < fuel)%nat ->
  0 <= counter 0%nat -> (forall j, counter j <= counter (S j)) ->
  (forall j, counter j <= Z.of_nat (length (latencies s))) ->
  Z.of_nat (length (latencies s)) <= 2 ^ 26 ->
  Forall (fun x => not_nan x = true) (latencies s) ->
  exists r rs s' thr, report clock counter fuel true t0 currTime T expName s = (Done true, s') /\
    length rs = k /\
    logFile s' = logFile s ++ [copy_of expName t0 r; r] ++ rs /\
    (forall j rj, (r :: rs) !! j = Some rj ->
      line_of (0 :: (counter <$> seq 0 (S k))) (t0 :: (clock <$> seq 0 (S k))) expName
        (latencies s) j rj) /\
    foldr (fun r n => count (row_stats r) + n) 0 (r :: rs) = counter k /\
    totals s' = totals s ++ [(counter k, thr)] /\
    latencies s' ≡ₚ latencies s.
Proof.
  intros Hk Hbefore Hf H0 Hmono Hin Hmax Hn.
  pose proof (readings_sampled clock counter k t0 (latencies s) H0 Hmono Hin) as Hsam.
  set (I := 0 :: (counter <$> seq 0 (S k))) in *. set (Ts := t0 :: (clock <$> seq 0 (S k))) in *.
  assert (length I = S (S k)) as HlI by (cbn; by rewrite !length_fmap, length_seq).
  destruct (processResults_run I Ts expName (latencies s) Hsam Hn Hmax s (counter k))
    as (rs & s' & E & Hlen & Hrs & Hsum & Hperm & (t0' & Ht0 & Elog) & thr & Etot); [done| |].
  { rewrite HlI. replace (S (S k) - 1)%nat with (S k) by lia. unfold I. rewrite lookup_readings.
    destruct (Nat.ltb_spec k (S k)); [done|lia]. }
  cbn in Ht0. simplify_eq. rewrite HlI in Hlen. destruct rs as [|r rs]; [cbn in Hlen; lia|].
  exists r, rs, s', thr. split; [|split; [cbn in Hlen; lia|split; [exact Elog|done]]].
  unfold report, sample_intervals.
  rewrite (sample_loop_run clock counter _ k Hk Hbefore 0 fuel [0] [t0']) by lia.
  rewrite Nat.sub_0_r. cbn [app]. fold I Ts. by run_bind E.
Qed.

(** The length of an experiment.  Up to 2147483 ms the loop ends with the
    first reading at or after the time asked for; from 2147484 ms (35 minutes and
    48 seconds) to 4294967 ms the product in microseconds has wrapped around to a
    negative number, and the experiment ends after its first interval. *)
Theorem experiment_length clock counter fuel t0 currTime T :
  2 ^ 31 <= currTime < 2 ^ 63 -> (forall j, currTime <= clock j < 2 ^ 63) -> 0 <= T ->
  (T <= 2147483 -> forall k, currTime + T * 1000 <= clock k ->
     (forall j, (j < k)%nat -> clock j < currTime + T * 1000) -> (k < fuel)%nat ->
     sample_intervals clock counter fuel t0 currTime T =
       Done (0 :: (counter <$> seq 0 (S k)), t0 :: (clock <$> seq 0 (S k)))) /\
  (2147484 <= T <= 4294967 -> (0 < fuel)%nat ->
     sample_intervals clock counter fuel t0 currTime T = Done ([0; counter 0%nat], [t0; clock 0%nat])).
Proof.
  intros Hc Hcl HT. change (2 ^ 31) with 2147483648 in Hc.
  change (2 ^ 63) with 9223372036854775808 in *. unfold sample_intervals, deadline. split.
  - intros HT2 k Hk Hb Hf. rewrite wrap32_id by lia.
    rewrite (wrapU_id 64 (T * 1000)) by (change (2 ^ 64) with 18446744073709551616; lia).
    rewrite wrapU_id by (change (2 ^ 64) with 18446744073709551616; lia).
    by rewrite (sample_loop_run clock counter _ k Hk Hb 0 fuel [0] [t0]) by lia.
  - intros HT2 Hf. destruct fuel as [|fuel]; [lia|].
    assert (wrap32 (T * 1000) = T * 1000 - 4294967296) as ->.
    { unfold wrapS. change (2 ^ (32 - 1)) with 2147483648. change (2 ^ 32) with 4294967296.
      rewrite <- (Z.mod_unique (T * 1000 + 2147483648) 4294967296 1 (T * 1000 - 2147483648)); lia. }
    set (E := wrapU64 _).
    assert (E = currTime + (T * 1000 - 4294967296)) as ->.
    { unfold E, wrapU. change (2 ^ 64) with 18446744073709551616.
      rewrite Zplus_mod_idemp_r. rewrite Z.mod_small; lia. }
    pose proof (Hcl 0%nat). cbn [sample_loop].
    destruct (Z.ltb_spec (clock 0%nat) (currTime + (T * 1000 - 4294967296))); [lia|done].
Qed.

(** ** Examples *)

Definition demo_latencies : list f64 := f64_of_int <$> [700; 300; 500; 100; 900; 200].
Definition demo_results : results := Results demo_latencies [] [].

Lemma demo_not_nan : Forall (fun x => not_nan x = true) demo_latencies.
Proof. apply Forall_forall. intros x Hx. repeat (apply elem_of_cons in Hx as [->|Hx]; [done|]). by apply elem_of_nil in Hx. Qed.

(** The last four of six latencies. *)
Lemma computeStats_ranks_witness :
  exists st, (computeStats 2 4 demo_results).1 = Done st /\
    P50 st = f64_of_int 500 /\ P99 st = f64_of_int 900 /\ f64_le (P95 st) (P99 st).
Proof.
  destruct (computeStats_ranks 2 4 demo_results) as
    (st & sorted & E & _ & _ & _ & _ & _ & _ & _ & H & _);
    [vm_compute; lia | vm_compute; split; congruence | exact demo_not_nan |].
  exists st. split; [by rewrite E|].
  assert ((computeStats 2 4 demo_results).1 = Done st) as E' by (by rewrite E).
  vm_compute in E'. injection E' as E'. split; [|split; [|exact H]]; by rewrite <- E'.
Defined.

(** Two intervals, with four latencies in the first and two in the second. *)
Lemma benchmark_report_witness :
  let clock := fun k : nat => if (k =? 0)%nat then 2500000 else 4600000 in
  let counter := fun k : nat => if (k =? 0)%nat then 4 else 6 in
  exists r r' s' thr,
    report clock counter 10 true 400000 500000 4000 "fifo" demo_results = (Done true, s') /\
    logFile s' = [copy_of "fifo" 400000 r; r; r'] /\ count (row_stats r) = 4 /\
    totals s' = [(6, thr)].
Proof.
  intros clock counter.
  destruct (benchmark_report clock counter 10 400000 500000 4000 "fifo" 1 demo_results)
    as (r & rs & s' & thr & E & Hlen & Hlog & Hlines & _ & Htot & _).
  - vm_compute. congruence.
  - intros [|j] Hj; [vm_compute; done|lia].
  - lia.
  - vm_compute. congruence.
  - intros [|[|j]]; vm_compute; congruence.
  - intros [|[|j]]; vm_compute; congruence.
  - vm_compute. congruence.
  - exact demo_not_nan.
  - destruct rs as [|r' [|? ?]]; [discriminate Hlen | | discriminate Hlen]. exists r, r', s', thr.
    split; [exact E|split; [exact Hlog|split; [|exact Htot]]].
    destruct (Hlines 0%nat r eq_refl) as (i0 & i1 & ? & ? & H0 & H1 & _ & _ & _ & _ & _ & Hc & _).
    vm_compute in H0. vm_compute in H1. injection H0 as <-. injection H1 as <-. exact Hc.
Defined.

(** An experiment of forty minutes. *)
Lemma experiment_length_witness :
  let clock := fun k : nat => 1600000002000000 in
  sample_intervals clock (fun k => Z.of_nat k) 10 1600000000000000 1600000000000000 2400000 =
  Done ([0; 0], [1600000000000000; 1600000002000000]).
Proof.
  intros clock.
  apply (experiment_length clock (fun k => Z.of_nat k) 10 1600000000000000 1600000000000000 2400000);
    [lia | intros j; unfold clock; lia | lia | lia | lia].
Defined.
