(* ===== verification/Drivers.v ===== *)
(** * The benchmark drivers: what they share

    The programs of [src/simulation/] build a scheduler by its name, set the
    database up, run threads against it and clean up.  This file holds their
    static variables, the schedulers they can build, and the service that
    carries tasks to a scheduler ([src/libs/lib_scheduler/SchedulerServer.cpp]). *)

From S2P Require Import PartitionedFIFOScheduler PartitionedLocalFIFOScheduler SinglePartitionedFIFOTaskScheduler.
From S2P Require Import PartitionedFIFOTaskScheduler PartitionedScanTask PushFIFOScheduler SparkScheduler.
From S2P Require Import Prelude Tables World Procs Client SchedulerUtil Binary64 RandomGenerator.

(** ** Static variables *)

Record config := {
  numSchedulers : Z;
  numClientThreads : Z;
  numWorkers : Z;
  numTasks : Z;
  partitions : Z;
  workerCapacity : Z;
  probMultiTx : f32;
  measureIntervalMsec : Z;
  totalExecTimeMsec : Z;
  arrivalDelay : Z;
  reqPerSec : f64;
  reqDist : string;
  scheduleAlgo : string;
  maxOutstanding : Z;
  cleanDB : bool;
  noSetupDB : bool;
  serverAddr : string;
}.

Definition kFifoAlgo : string := "fifo".
Definition kFifoLocalAlgo : string := "fifo-local".
Definition kFifoTaskAlgo : string := "fifo-task".
Definition kSinglePartitionedFifoTaskAlgo : string := "single-partitioned-fifo-task".
Definition kSparkAlgo : string := "spark".
Definition kScanTaskAlgo : string := "scan-task".
Definition kPushFifoAlgo : string := "push-fifo".

Definition kNoDist : string := "none".
Definition kFixed : string := "fixed".
Definition kPoisson : string := "poisson".
Definition kUniform : string := "uniform".
Definition kDists : list string := [kNoDist; kFixed; kPoisson; kUniform].

(** At most 2^26 latencies are recorded. *)
Definition kMaxEntries : Z := 67108864.

(** The values before the command line is read. *)
Definition default_config : config :=
  {| numSchedulers := 1; numClientThreads := 1; numWorkers := 1; numTasks := 8; partitions := 8;
     workerCapacity := 134217728; probMultiTx := f32_of_int 0; measureIntervalMsec := 2000;
     totalExecTimeMsec := 10000; arrivalDelay := 0; reqPerSec := f64_of_int 100;
     reqDist := kNoDist; scheduleAlgo := kFifoAlgo; maxOutstanding := 1; cleanDB := false;
     noSetupDB := false; serverAddr := "localhost" |}.

(** ** Arrivals *)

(** [None]: the distribution is not known; [Some None]: no generator. *)
Definition arrival_generator (reqDist : string) (reqPerSecThread : f64) :
    option (option Generator) :=
  if String.eqb reqDist kFixed then Some (Some (Fixed_new reqPerSecThread))
  else if String.eqb reqDist kPoisson then Some (Some (Poisson_new reqPerSecThread))
  else if String.eqb reqDist kUniform then Some (Some (Uniform_new reqPerSecThread))
  else if String.eqb reqDist kNoDist then Some None
  else None.

(** ** Schedulers *)

Inductive any_scheduler :=
  | AFifo (s : PartitionedFIFOScheduler.PartitionedFIFOScheduler)
  | AFifoLocal (s : PartitionedLocalFIFOScheduler.PartitionedLocalFIFOScheduler)
  | AFifoTask (s : PartitionedFIFOTaskScheduler.PartitionedFIFOTaskScheduler)
  | ASingle (s : SinglePartitionedFIFOTaskScheduler.SinglePartitionedFIFOTaskScheduler)
  | ASpark (s : SparkScheduler.SparkScheduler)
  | AScan (s : PartitionedScanTask.PartitionedScanTask)
  | APush (s : PushFIFOScheduler.PushFIFOScheduler).

(** The constructors, with the arguments the drivers give them. *)
Definition new_fifo (c : config) : any_scheduler :=
  AFifo {| PartitionedFIFOScheduler.workerCapacity_ := workerCapacity c;
           PartitionedFIFOScheduler.workerPartitions_ := partitions c;
           PartitionedFIFOScheduler.numWorkers_ := numWorkers c |}.
Definition new_fifo_local (c : config) : any_scheduler :=
  AFifoLocal {| PartitionedLocalFIFOScheduler.workerCapacity_ := workerCapacity c;
                PartitionedLocalFIFOScheduler.workerPartitions_ := partitions c;
                PartitionedLocalFIFOScheduler.numWorkers_ := numWorkers c |}.
Definition new_fifo_task (c : config) : any_scheduler :=
  AFifoTask {| PartitionedFIFOTaskScheduler.partitions_ := partitions c;
               PartitionedFIFOTaskScheduler.numTasks_ := numTasks c;
               PartitionedFIFOTaskScheduler.workerCapacity_ := workerCapacity c;
               PartitionedFIFOTaskScheduler.numWorkers_ := numWorkers c;
               PartitionedFIFOTaskScheduler.probMultiTx_ := probMultiTx c |}.
Definition new_single (c : config) (prob : f32) : any_scheduler :=
  ASingle {| SinglePartitionedFIFOTaskScheduler.partitions_ := partitions c;
             SinglePartitionedFIFOTaskScheduler.numTasks_ := numTasks c;
             SinglePartitionedFIFOTaskScheduler.workerCapacity_ := workerCapacity c;
             SinglePartitionedFIFOTaskScheduler.numWorkers_ := numWorkers c;
             SinglePartitionedFIFOTaskScheduler.probMultiTx_ := prob |}.
Definition new_spark (c : config) : any_scheduler :=
  ASpark {| SparkScheduler.workerPartitions_ := partitions c;
            SparkScheduler.workerCapacity_ := workerCapacity c;
            SparkScheduler.numWorkers_ := numWorkers c |}.
Definition new_scan (c : config) : any_scheduler :=
  AScan {| PartitionedScanTask.partitions_ := partitions c;
           PartitionedScanTask.numTasks_ := numTasks c;
           PartitionedScanTask.numWorkers_ := numWorkers c;
           PartitionedScanTask.probMultiTx_ := probMultiTx c |}.
Definition new_push (c : config) : any_scheduler :=
  APush {| PushFIFOScheduler.partitions_ := partitions c;
           PushFIFOScheduler.numTasks_ := numTasks c;
           PushFIFOScheduler.probMultiTx_ := probMultiTx c |}.

Section Drivers.
Context `{Env}.
(** Whether a connection to a host succeeds. *)
Context (connects : string -> bool).

Definition setup_any (s : any_scheduler) : M world bool :=
  match s with
  | AFifo s => setup_ s
  | AFifoLocal s => setup_ s
  | AFifoTask s => setup_ s
  | ASingle s => setup_ s
  | ASpark s => SparkScheduler.setup s
  | AScan s => setup_ s
  | APush s => setup_ s
  end.

(** [endServing] of the workers a [SparkScheduler] started is not part of the
    database. *)
Definition teardown_any (s : any_scheduler) : M world bool :=
  match s with
  | AFifo s => teardown_ s
  | AFifoLocal s => teardown_ s
  | AFifoTask s => teardown_ s
  | ASingle s => teardown_ s
  | ASpark s => truncateWorkerTable ;; mret true
  | AScan s => teardown_ s
  | APush s => teardown_ s
  end.

(** [asyncSchedule]; [SparkScheduler] inherits the one that exits. *)
Definition asyncSchedule_any (s : any_scheduler) : M world bool :=
  match s with
  | AFifo s => asyncSchedule_ s
  | AFifoLocal s => asyncSchedule_ s
  | AFifoTask s => asyncSchedule_ s
  | ASingle s => asyncSchedule_ s
  | ASpark s => asyncSchedule_default
  | AScan s => asyncSchedule_ s
  | APush s => asyncSchedule_ s
  end.

(** [schedule]; [None] for [SparkScheduler], whose [schedule] waits for other
    threads (the steps of SparkScheduler.v). *)
Definition schedule_any (s : any_scheduler) (t : task) : option (M world bool) :=
  match s with
  | AFifo s => Some (schedule_ s t)
  | AFifoLocal s => Some (schedule_ s t)
  | AFifoTask s => Some (schedule_ s t)
  | ASingle s => Some (schedule_ s t)
  | ASpark s => None
  | AScan s => Some (schedule_ s t)
  | APush s => Some (schedule_ s t)
  end.

(** A new scheduler connects to all servers of the list, then [assert]s that
    the algorithm is known. *)
Definition with_scheduler {A} (addr : string) (s : option any_scheduler)
    (k : any_scheduler -> M world A) : M world A :=
  match s with
  | None => throw AssertFailure
  | Some s =>
      match VoltdbSchedulerUtil_new connects addr with
      | None => throw UncaughtException
      | Some _ => k s
      end
  end.

(** [kAlgorithms.find(scheduleAlgo)] and the like: a name that is not known
    prints the usage and exits. *)
Definition check_name (known : list string) (name : string) : M world unit :=
  if bool_decide (name ∈ known) then mret tt else throw ProcessExit.

(** A step of [main]: a failure exits. *)
Definition or_exit (res : bool) : M world unit := if res then mret tt else throw ProcessExit.

(** [setup] and [teardown] of a driver: a scheduler is made for the algorithm. *)
Definition driver_setup (construct : string -> option any_scheduler) (c : config) : M world bool :=
  with_scheduler (serverAddr c) (construct (scheduleAlgo c)) setup_any.
Definition driver_teardown (construct : string -> option any_scheduler) (c : config) : M world bool :=
  with_scheduler (serverAddr c) (construct (scheduleAlgo c)) teardown_any.

(** The three parts of every [main]. *)
Definition experiment (setup runBenchmark teardown : M world bool) (c : config) : M world unit :=
  (if noSetupDB c then mret tt else (res ← setup; or_exit res)) ;;
  res ← runBenchmark;
  or_exit res ;;
  if cleanDB c then res ← teardown; or_exit res else mret tt.

(** [main] behind the options, with a distribution of arrivals. *)
Definition main_run (kAlgorithms : list string) (setup runBenchmark teardown : M world bool) (c : config) :
    M world unit :=
  check_name kAlgorithms (scheduleAlgo c) ;;
  check_name kDists (reqDist c) ;;
  experiment setup runBenchmark teardown c.

(** [FrontendServiceServer::SubmitTask]: the result of [schedule] is dropped;
    the status of the answer is always [SUCCESS]. *)
Definition SubmitTask (sched : task -> M world bool) (request : SubmitTaskRequest) : M world Z :=
  sched (protobufToTask request) ;; mret SUCCESS.
End Drivers.
