(* ===== verification/Options.v ===== *)
(** * The command lines of the programs

    Each program of [src/simulation/] reads its options with [getopt] in a loop
    with a [switch] that assigns static variables; an option it does not know
    prints the usage and exits.  The result of [getopt] is a list of letters with
    their arguments; a program is a table from letters to the variables its
    [case] assigns. *)

From S2P Require Import Prelude Binary64 Drivers.
From stdpp Require Import pretty.
From Stdlib Require Import Ascii.
#[local] Open Scope Z_scope.

(** ** [atoi] *)

Definition is_white (c : ascii) : bool :=
  let n := N_of_ascii c in (n =? 32)%N || ((9 <=? n)%N && (n <=? 13)%N).

Fixpoint skip_white (s : string) : string :=
  match s with
  | String c s' => if is_white c then skip_white s' else s
  | EmptyString => EmptyString
  end.

Definition digit_of (c : ascii) : option Z :=
  let n := Z.of_N (N_of_ascii c) in if (48 <=? n) && (n <=? 57) then Some (n - 48) else None.

(** The digits in front, after the number [n]. *)
Fixpoint read_digits (n : Z) (s : string) : Z :=
  match s with
  | String c s' => match digit_of c with Some d => read_digits (10 * n + d) s' | None => n end
  | EmptyString => n
  end.

(** [strtol]: a number that does not fit is the nearest that does. *)
Definition strtol (s : string) : Z :=
  let n := match skip_white s with
           | String "-"%char s' => - read_digits 0 s'
           | String "+"%char s' => read_digits 0 s'
           | s' => read_digits 0 s'
           end in
  Z.max (- 2 ^ 63) (Z.min n (2 ^ 63 - 1)).

(** [atoi] converts the [long] of [strtol] to an [int]. *)
Definition atoi (s : string) : Z := wrap32 (strtol s).

(** ** Static variables *)

Inductive kind := KInt | KDouble | KString | KFlag.
Inductive value := VI (z : Z) | VD (f : f64) | VS (s : string) | VB (b : bool).

Inductive variable :=
  | NumSchedulers | NumClientThreads | NumWorkers | NumTasks | Partitions | WorkerCapacity
  | MeasureIntervalMsec | TotalExecTimeMsec | ArrivalDelay | MaxOutstanding
  | NumSenders | NumReceivers | NumMessages | Msg_size | BasePort | NumExecutors | TopkTasks
  | ProbMultiTx | ReqPerSec
  | ServerAddr | OutputFile | ScheduleAlgo | ReqDist | WorkerType
  | CleanDB | NoSetupDB | OutputCpuUsage | Broadcast | StreamRpc.

#[export] Instance variable_eq_dec : EqDecision variable.
Proof. solve_decision. Defined.

Definition kind_of (v : variable) : kind :=
  match v with
  | ProbMultiTx | ReqPerSec => KDouble
  | ServerAddr | OutputFile | ScheduleAlgo | ReqDist | WorkerType => KString
  | CleanDB | NoSetupDB | OutputCpuUsage | Broadcast | StreamRpc => KFlag
  | _ => KInt
  end.

Definition has_kind (k : kind) (x : value) : Prop :=
  match k, x with
  | KInt, VI z => in_signed 32 z
  | KDouble, VD _ | KString, VS _ | KFlag, VB _ => True
  | _, _ => False
  end.

Definition store : Type := variable -> value.
Definition assign (v : variable) (x : value) (s : store) : store :=
  fun v' => if decide (v' = v) then x else s v'.

(** Every variable holds a value of its type. *)
Definition typed (s : store) : Prop := forall v, has_kind (kind_of v) (s v).

Definition int_of (s : store) (v : variable) : Z := match s v with VI z => z | _ => 0 end.
Definition double_of (s : store) (v : variable) : f64 :=
  match s v with VD f => f | _ => f64_of_int 0 end.
Definition string_of (s : store) (v : variable) : string := match s v with VS t => t | _ => "" end.
Definition flag_of (s : store) (v : variable) : bool := match s v with VB b => b | _ => false end.

(** The values before the command line is read; [serverAddr] and [outputFile] are
    the local variables of [main], with the values a program gives them. *)
Definition initial (serverAddr outputFile : string) (basePort : Z) : store := fun v =>
  match v with
  | NumTasks | Partitions => VI 8
  | WorkerCapacity => VI 134217728
  | MeasureIntervalMsec => VI 2000
  | TotalExecTimeMsec => VI 10000
  | ArrivalDelay => VI 0
  | Msg_size => VI 2048
  | BasePort => VI basePort
  | NumSchedulers | NumClientThreads | NumWorkers | MaxOutstanding | NumSenders | NumReceivers
  | NumMessages | NumExecutors | TopkTasks => VI 1
  | ProbMultiTx => VD (f64_of_int 0)
  | ReqPerSec => VD (f64_of_int 100)
  | ServerAddr => VS serverAddr
  | OutputFile => VS outputFile
  | ScheduleAlgo => VS kFifoAlgo
  | ReqDist => VS kNoDist
  | WorkerType => VS "mock-poll"
  | CleanDB | NoSetupDB | OutputCpuUsage | Broadcast | StreamRpc => VB false
  end.

(** ** The loop over the options *)

(** The variables that the [case] of a letter assigns, one after the other. *)
Definition switch : Type := list (ascii * list variable).

Fixpoint case_of (t : switch) (c : ascii) : option (list variable) :=
  match t with
  | [] => None
  | (c', vs) :: t' => if Ascii.eqb c c' then Some vs else case_of t' c
  end.

Section Parse.
(** [atof] of the C library. *)
Context (atof : string -> f64) (t : switch).

Definition argument (k : kind) (optarg : string) : value :=
  match k with
  | KInt => VI (atoi optarg)
  | KDouble => VD (atof optarg)
  | KString => VS optarg
  | KFlag => VB true
  end.

Definition run_case (vs : list variable) (optarg : string) (s : store) : store :=
  foldl (fun s v => assign v (argument (kind_of v) optarg) s) s vs.

(** [while ((opt = getopt(...)) != -1) switch (opt)]: what is not in the table is
    ['h'], ['?'] or anything else, for which [Usage] exits. *)
Fixpoint parse (opts : list (ascii * string)) (s : store) : outcome store :=
  match opts with
  | [] => Done s
  | (opt, optarg) :: opts' =>
      match case_of t opt with
      | Some vs => parse opts' (run_case vs optarg s)
      | None => Trap ProcessExit
      end
  end.
End Parse.

(** ** The programs *)

Definition common_options : switch :=
  [("o", [OutputFile]); ("s", [ServerAddr]); ("i", [MeasureIntervalMsec]);
   ("t", [TotalExecTimeMsec])]%char.

Definition SyntheticScheduler_options : switch :=
  (common_options ++
   [("N", [NumSchedulers]); ("W", [NumWorkers]); ("C", [WorkerCapacity]); ("P", [Partitions]);
    ("A", [ScheduleAlgo]); ("T", [NumTasks]); ("p", [ProbMultiTx]); ("R", [ReqPerSec]);
    ("D", [ReqDist]); ("x", [CleanDB])])%char.

Definition AsyncSyntheticScheduler_options : switch :=
  (common_options ++
   [("N", [NumSchedulers]); ("W", [NumWorkers]); ("C", [WorkerCapacity]); ("P", [Partitions]);
    ("A", [ScheduleAlgo]); ("T", [NumTasks]); ("p", [ProbMultiTx]); ("R", [ReqPerSec]);
    ("D", [ReqDist]); ("x", [CleanDB]); ("X", [NoSetupDB]); ("m", [MaxOutstanding]);
    ("c", [OutputCpuUsage])])%char.

(** The case of [-d] has no [break] and goes on to that of [-x]. *)
Definition LoadGenerator_options : switch :=
  (common_options ++
   [("N", [NumClientThreads]); ("S", [NumSchedulers]); ("W", [NumWorkers]); ("C", [WorkerCapacity]);
    ("P", [Partitions]); ("A", [ScheduleAlgo]); ("T", [NumTasks]); ("p", [ProbMultiTx]);
    ("d", [ArrivalDelay; CleanDB]); ("x", [CleanDB])])%char.

Definition CommunicationBench_options : switch :=
  (common_options ++
   [("N", [NumSenders]); ("P", [Partitions]); ("d", [ArrivalDelay]); ("x", [CleanDB]);
    ("X", [NoSetupDB]); ("m", [MaxOutstanding]); ("b", [Broadcast])])%char.

Definition DBCommBenchClient_options : switch :=
  (common_options ++
   [("M", [NumMessages]); ("N", [NumSenders]); ("m", [Msg_size]); ("x", [CleanDB]);
    ("b", [Broadcast])])%char.

Definition DBCommBenchServer_options : switch :=
  [("s", [ServerAddr]); ("N", [NumReceivers]); ("M", [NumMessages]); ("m", [Msg_size])]%char.

Definition SyntheticWorker_options : switch :=
  (common_options ++
   [("W", [NumWorkers]); ("P", [Partitions]); ("A", [WorkerType]); ("E", [NumExecutors]);
    ("K", [TopkTasks])])%char.

Definition GrpcBenchClient_options : switch :=
  (common_options ++
   [("p", [BasePort]); ("N", [NumSenders]); ("M", [NumMessages]); ("m", [Msg_size]);
    ("b", [Broadcast]); ("R", [NumReceivers]); ("S", [StreamRpc])])%char.

Definition GrpcBenchServer_options : switch := [("p", [BasePort]); ("N", [NumReceivers])]%char.

Definition TCPBenchClient_options : switch :=
  (common_options ++
   [("p", [BasePort]); ("N", [NumSenders]); ("M", [NumMessages]); ("m", [Msg_size]);
    ("b", [Broadcast]); ("R", [NumReceivers])])%char.

Definition TCPBenchServer_options : switch :=
  [("m", [Msg_size]); ("p", [BasePort]); ("N", [NumReceivers]); ("M", [NumMessages])]%char.

Definition programs : list switch :=
  [SyntheticScheduler_options; AsyncSyntheticScheduler_options; LoadGenerator_options;
   CommunicationBench_options; DBCommBenchClient_options; DBCommBenchServer_options;
   SyntheticWorker_options; GrpcBenchClient_options; GrpcBenchServer_options;
   TCPBenchClient_options; TCPBenchServer_options].

(** ** Numbers *)

Lemma digit_of_pretty d : (d < 10)%N -> digit_of (pretty_N_char d) = Some (Z.of_N d).
Proof.
  intros H. assert (d ∈ [0; 1; 2; 3; 4; 5; 6; 7; 8; 9]%N) as Hd by (set_unfold; lia).
  repeat (apply elem_of_cons in Hd as [->|Hd]; [done|]). by apply elem_of_nil in Hd.
Qed.

(** A number is printed from its last digit to its first. *)
Lemma read_pretty x : forall s, read_digits 0 (pretty_N_go x s) = read_digits (Z.of_N x) s.
Proof.
  induction (N.lt_wf_0 x) as [x _ IH]. intros s.
  destruct (decide (x = 0)%N) as [->|Hx]; [by rewrite pretty_N_go_0|].
  rewrite pretty_N_go_step by lia. rewrite IH by (apply N.div_lt; lia).
  pose proof (N.mod_lt x 10). cbn [read_digits]. rewrite digit_of_pretty by lia. f_equal.
  pose proof (N.div_mod x 10). lia.
Qed.

Lemma pretty_N_go_first x : forall s, (0 < x)%N ->
  exists d s', (d < 10)%N /\ pretty_N_go x s = String (pretty_N_char d) s'.
Proof.
  induction (N.lt_wf_0 x) as [x _ IH]. intros s Hx. rewrite pretty_N_go_step by done.
  destruct (decide (x / 10 = 0)%N) as [->|Hd].
  - rewrite pretty_N_go_0. exists (x mod 10)%N, s. split; [by apply N.mod_lt | done].
  - apply IH; [by apply N.div_lt | by apply N.neq_0_lt_0].
Qed.

Lemma pretty_first (x : N) : exists d s', (d < 10)%N /\ pretty x = String (pretty_N_char d) s'.
Proof.
  destruct (decide (x = 0)%N) as [->|Hx].
  - by exists 0%N, "".
  - destruct (pretty_N_go_first x "") as (d & s' & Hd & E); [lia|]. exists d, s'. split; [done|].
    unfold pretty, pretty_N. by rewrite decide_False.
Qed.

Lemma read_digits_pretty (x : N) : read_digits 0 (pretty x) = Z.of_N x.
Proof.
  unfold pretty, pretty_N. case_decide; [by subst|]. by rewrite read_pretty.
Qed.

(** A digit is neither white space nor a sign. *)
Lemma strtol_digit d s' : (d < 10)%N ->
  strtol (String (pretty_N_char d) s') =
  Z.max (- 2 ^ 63) (Z.min (read_digits 0 (String (pretty_N_char d) s')) (2 ^ 63 - 1)).
Proof.
  intros H. assert (d ∈ [0; 1; 2; 3; 4; 5; 6; 7; 8; 9]%N) as Hd by (set_unfold; lia).
  repeat (apply elem_of_cons in Hd as [->|Hd]; [reflexivity|]). by apply elem_of_nil in Hd.
Qed.

(** What is printed for an [int] is read back. *)
Lemma atoi_pretty z : in_signed 32 z -> atoi (pretty z) = z.
Proof.
  intros [H1 H2]. cbn in H1, H2. unfold atoi.
  enough (strtol (pretty z) = z) as -> by (apply wrap32_id; by split).
  destruct z as [|p|p]; [reflexivity| |].
  - change (pretty (Z.pos p)) with (pretty (N.pos p)).
    destruct (pretty_first (N.pos p)) as (d & s' & Hd & E). rewrite E, strtol_digit, <- E by done.
    rewrite read_digits_pretty. lia.
  - change (pretty (Z.neg p)) with (String "-" (pretty (N.pos p))). unfold strtol.
    cbn [skip_white is_white]. change (is_white "-") with false. cbv iota.
    rewrite read_digits_pretty. lia.
Qed.

(** ** Parsing keeps the types *)

Lemma argument_kind atof k optarg : has_kind k (argument atof k optarg).
Proof. destruct k; [|done..]. by apply wrapS_range. Qed.

Lemma assign_typed v x s : has_kind (kind_of v) x -> typed s -> typed (assign v x s).
Proof. intros Hx Hs v'. unfold assign. by case_decide; [subst|]. Qed.

Lemma run_case_typed atof vs optarg : forall s, typed s -> typed (run_case atof vs optarg s).
Proof.
  induction vs as [|v vs IH]; intros s Hs; [done|].
  apply IH, assign_typed; [apply argument_kind | done].
Qed.

Lemma initial_typed serverAddr outputFile basePort :
  in_signed 32 basePort -> typed (initial serverAddr outputFile basePort).
Proof. intros H v. by destruct v. Qed.

(** Parsing is type safe and total: on the options [opts], with whatever texts
    as their arguments, the loop of a program either ends, when every letter has
    a case, with every static variable holding a value of its type (each [int]
    in the range of an [int], although [atoi] reads any text), or it prints the
    usage and exits. *)
Theorem options_keep_types atof t opts s :
  typed s ->
  if forallb (fun o => bool_decide (is_Some (case_of t o.1))) opts
  then exists s', parse atof t opts s = Done s' /\ typed s'
  else parse atof t opts s = Trap ProcessExit.
Proof.
  revert s. induction opts as [|[c optarg] opts IH]; intros s Hs; cbn.
  - by exists s.
  - destruct (case_of t c) as [vs|]; cbn; [|done]. by apply IH, run_case_typed.
Qed.

Lemma options_keep_types_witness :
  exists s', parse (fun _ => f64_of_int 0) GrpcBenchClient_options
    [("p"%char, "123456789012"); ("b"%char, ""); ("o"%char, "x.csv")] (initial "localhost" "y.csv" 8080) =
    Done s' /\ typed s'.
Proof.
  apply (options_keep_types (fun _ => f64_of_int 0) GrpcBenchClient_options
    [("p"%char, "123456789012"); ("b"%char, ""); ("o"%char, "x.csv")]).
  by apply initial_typed.
Defined.

(** ** Printing settings *)

Section Settings.
Context (atof : string -> f64) (dtoa : f64 -> string).

(** The argument that sets a variable to [x]. *)
Definition spell (x : value) : string :=
  match x with VI z => pretty z | VD f => dtoa f | VS s => s | VB _ => "" end.

(** An option can only set a flag; a double must survive printing. *)
Definition spellable (x : value) : Prop :=
  match x with VI z => in_signed 32 z | VD f => atof (dtoa f) = f | VS _ => True | VB b => b = true end.

Lemma argument_spell v x :
  has_kind (kind_of v) x -> spellable x -> argument atof (kind_of v) (spell x) = x.
Proof.
  destruct (kind_of v), x as [z|f|s|b]; cbn; try done; intros H1 H2.
  - by rewrite atoi_pretty.
  - by rewrite H2.
  - by subst.
Qed.

(** The letter whose case assigns [v] and nothing else. *)
Fixpoint letter_of (t : switch) (v : variable) : option ascii :=
  match t with
  | [] => None
  | (c, vs) :: t' => if decide (vs = [v]) then Some c else letter_of t' v
  end.

(** The letters of a switch are different. *)
Fixpoint well_formed (t : switch) : bool :=
  match t with
  | [] => true
  | (c, _) :: t' => negb (existsb (fun o => Ascii.eqb o.1 c) t') && well_formed t'
  end.

Lemma case_of_letter t v c : well_formed t -> letter_of t v = Some c -> case_of t c = Some [v].
Proof.
  induction t as [|[c' vs] t IH]; cbn; [done|]. intros [H1 H2]%andb_prop_elim E.
  case_decide as Hvs; [simplify_eq; by rewrite Ascii.eqb_refl|].
  destruct (Ascii.eqb_spec c c') as [->|Hc]; [|by apply IH].
  exfalso. clear -H1 E. induction t as [|[c vs'] t IH]; cbn in *; [done|].
  destruct (Ascii.eqb_spec c c') as [->|Hc]; [done|]. case_decide; [by simplify_eq|]. by apply IH.
Qed.

Definition setting : Type := variable * value.

(** The options that make the settings; those a program has no letter for are
    left out. *)
Definition print_setting (t : switch) (p : setting) : list (ascii * string) :=
  match letter_of t p.1 with Some c => [(c, spell p.2)] | None => [] end.
Definition command_line (t : switch) (l : list setting) : list (ascii * string) :=
  concat (print_setting t <$> l).

(** A program can make the setting. *)
Definition settable (t : switch) (p : setting) : Prop :=
  is_Some (letter_of t p.1) /\ has_kind (kind_of p.1) p.2 /\ spellable p.2.

(** The variables after the settings, one after the other. *)
Definition settings (l : list setting) (s : store) : store :=
  foldl (fun s p => assign p.1 p.2 s) s l.

Lemma parse_command_line t l s :
  well_formed t -> Forall (settable t) l ->
  parse atof t (command_line t l) s = Done (settings l s).
Proof.
  intros Ht Hl. revert s. induction Hl as [|[v x] l ([c Hc] & Hk & Hx) _ IH]; intros s; [done|].
  cbn in *. unfold command_line, print_setting. cbn. rewrite Hc. cbn.
  rewrite (case_of_letter t v c Ht Hc). cbn. rewrite argument_spell by done. apply IH.
Qed.

Lemma settings_other l v s : v ∉ l.*1 -> settings l s v = s v.
Proof.
  revert s. induction l as [|[v' x] l IH]; intros s Hv; [done|]. cbn in *.
  apply not_elem_of_cons in Hv as [Hv Hl]. fold (settings l (assign v' x s)).
  rewrite IH by done. unfold assign. by rewrite decide_False.
Qed.

Lemma settings_given l v x s : NoDup l.*1 -> (v, x) ∈ l -> settings l s v = x.
Proof.
  revert s. induction l as [|[v' x'] l IH]; intros s Hl Hv; [by apply elem_of_nil in Hv|].
  cbn in *. apply NoDup_cons in Hl as [H1 H2].
  apply elem_of_cons in Hv as [Hv|Hv]; [simplify_eq|by apply IH].
  fold (settings l (assign v' x' s)).
  rewrite settings_other by done. unfold assign. by rewrite decide_True.
Qed.

Lemma programs_well_formed t : t ∈ programs -> well_formed t.
Proof.
  intros Ht. assert (forallb well_formed programs) as H by (vm_compute; done).
  apply forallb_True in H. by eapply Forall_forall in H.
Qed.
End Settings.



(** A flag that is set stays set. *)
Lemma parse_keeps_flag atof t v opts s s' :
  kind_of v = KFlag /\ s v = VB true -> parse atof t opts s = Done s' -> s' v = VB true.
Proof.
  intros [Hk Hv]. revert s Hv. induction opts as [|[c optarg] opts IH]; intros s Hv E; cbn in E.
  - by simplify_eq.
  - destruct (case_of t c) as [vs|]; [|done]. eapply (IH _ _ E).
    Unshelve. clear -Hk Hv. revert s Hv. induction vs as [|v' vs IH]; intros s Hv; [done|].
    apply IH. unfold assign. case_decide; [subst; by rewrite Hk|done].
Qed.

(** The case of [-d] of LoadGenerator.cc has no [break], so an arrival delay
    also sets [cleanDB] (the tables are truncated at the end), with or without
    [-x]; the driver of messages, whose case has one, keeps the flag. *)
Theorem delay_cleans_database atof delay opts s s' :
  parse atof LoadGenerator_options (("d"%char, delay) :: opts) s = Done s' ->
  flag_of s' CleanDB = true /\
  (opts = [] -> int_of s' ArrivalDelay = atoi delay /\
     exists s'', parse atof CommunicationBench_options [("d"%char, delay)] s = Done s'' /\
       int_of s'' ArrivalDelay = atoi delay /\ flag_of s'' CleanDB = flag_of s CleanDB).
Proof.
  intros E. split; [|intros ->; cbn in E; simplify_eq; split; [done|eexists; split; [reflexivity|done]]].
  cbn in E. apply (parse_keeps_flag _ _ CleanDB) in E; [|done]. unfold flag_of. by rewrite E.
Qed.

Lemma delay_cleans_database_witness :
  exists s', parse (fun _ => f64_of_int 0) LoadGenerator_options [("d"%char, "5")]
      (initial "localhost" "y.csv" 0) = Done s' /\ flag_of s' CleanDB = true.
Proof.
  eexists. split; [reflexivity|].
  apply (delay_cleans_database (fun _ => f64_of_int 0) "5" [] (initial "localhost" "y.csv" 0)).
  reflexivity.
Defined.
