(* ===== verification/SyntheticScheduler.v ===== *)
(** * SyntheticScheduler

    [src/simulation/SyntheticScheduler.cc]: threads that call [schedule] as
    fast as they can or at the times a generator of arrivals gives.  One
    [SchedulerThread] is modelled with all it reads from outside: the clock,
    the flag [mainFinished], the samples of the generator. *)

From S2P Require Import PartitionedFIFOScheduler.
From S2P Require Import Prelude Tables World Procs Pool Client SchedulerUtil Setup Drain Binary64 RandomGenerator Drivers.

Definition kAlgorithms : list string :=
  [kFifoAlgo; kFifoLocalAlgo; kFifoTaskAlgo; kSinglePartitionedFifoTaskAlgo; kSparkAlgo;
   kScanTaskAlgo; kPushFifoAlgo].

Definition constructScheduler (c : config) (algo : string) : option any_scheduler :=
  if String.eqb algo kFifoAlgo then Some (new_fifo c)
  else if String.eqb algo kFifoLocalAlgo then Some (new_fifo_local c)
  else if String.eqb algo kFifoTaskAlgo then Some (new_fifo_task c)
  else if String.eqb algo kSinglePartitionedFifoTaskAlgo then Some (new_single c (probMultiTx c))
  else if String.eqb algo kSparkAlgo then Some (new_spark c)
  else if String.eqb algo kScanTaskAlgo then Some (new_scan c)
  else if String.eqb algo kPushFifoAlgo then Some (new_push c)
  else None.

(** ** A scheduler thread *)

Record thread := Thread {
  th_world : world;
  th_clock : nat;                      (* readings of the clock so far *)
  th_tests : nat;                      (* readings of [mainFinished] so far *)
  th_samples : nat;                    (* intervals generated so far *)
  schedLatsArrayIndex : Z;
  schedLatencies : list (Z * Z);       (* the slots written, in order, and what to them *)
  th_starts : list Z;                  (* [startTime] of each request, in order *)
}.

Section Thread.
Context `{Env, Samples} (clock : nat -> Z) (mainFinished : nat -> bool).
Context (numWorkers : Z) (sched : task -> M world bool) (iaGen : option Generator).

Definition on_world {A} (m : M world A) : M thread A := fun s =>
  match m (th_world s) with
  | (o, w) => (o, Thread w (th_clock s) (th_tests s) (th_samples s) (schedLatsArrayIndex s)
                    (schedLatencies s) (th_starts s))
  end.

Definition getCurrTimeUsec : M thread Z := fun s =>
  (Done (clock (th_clock s)),
   Thread (th_world s) (S (th_clock s)) (th_tests s) (th_samples s) (schedLatsArrayIndex s)
     (schedLatencies s) (th_starts s)).

Definition test_finished : M thread bool := fun s =>
  (Done (mainFinished (th_tests s)),
   Thread (th_world s) (th_clock s) (S (th_tests s)) (th_samples s) (schedLatsArrayIndex s)
     (schedLatencies s) (th_starts s)).

(** [schedLatsArrayIndex.fetch_add(1)] on a [uint32_t]. *)
Definition fetch_add_index : M thread Z := fun s =>
  (Done (schedLatsArrayIndex s),
   Thread (th_world s) (th_clock s) (th_tests s) (th_samples s)
     (wrapU32 (schedLatsArrayIndex s + 1)) (schedLatencies s) (th_starts s)).

(** The conversion of an interval that is no [uint64_t] is undefined. *)
Definition next_interval (g : Generator) : M thread Z := fun s =>
  (match generate_usec g (th_samples s) with Some d => Done d | None => Trap OutOfBounds end,
   Thread (th_world s) (th_clock s) (th_tests s) (S (th_samples s)) (schedLatsArrayIndex s)
     (schedLatencies s) (th_starts s)).

Definition started (t : Z) : M thread unit := modify (fun s =>
  Thread (th_world s) (th_clock s) (th_tests s) (th_samples s) (schedLatsArrayIndex s)
    (schedLatencies s) (th_starts s ++ [t])).

Definition record_latency (aryIndex latency : Z) : M thread unit := modify (fun s =>
  Thread (th_world s) (th_clock s) (th_tests s) (th_samples s) (schedLatsArrayIndex s)
    (schedLatencies s ++ [(aryIndex, latency)]) (th_starts s)).

(** [nextTime] after a request, or before the first one. *)
Definition advance (nextTime : Z) : M thread Z :=
  match iaGen with
  | None => mret nextTime
  | Some g => d ← next_interval g; mret (wrapU64 (nextTime + d))
  end.

(** One request. *)
Definition send_request (nextTime : Z) : M thread (Z * Z) :=
  aryIndex ← fetch_add_index;
  (if kMaxEntries <=? aryIndex then throw ProcessExit else mret tt) ;;
  startTime ← getCurrTimeUsec;
  started startTime ;;
  r ← on_world c_rand;
  td ← on_world (int_rem r numWorkers);
  status ← on_world (sched (Task_ td 1000));
  assertM status ;;
  endTime ← getCurrTimeUsec;
  record_latency aryIndex (wrapU64 (endTime - startTime)) ;;
  nextTime ← advance nextTime;
  mret (endTime, nextTime).

(** It is not yet the turn of the next request: sleep at most five microseconds. *)
Definition waits (currTime nextTime : Z) : bool :=
  match iaGen with None => false | Some _ => currTime <? nextTime end.

(** One iteration of [do ... while (!mainFinished)]. *)
Definition thread_iteration (currTime nextTime : Z) : M thread (Z * Z) :=
  if waits currTime nextTime then
    currTime ← getCurrTimeUsec; mret (currTime, nextTime)
  else send_request nextTime.

Fixpoint thread_loop (fuel : nat) (currTime nextTime : Z) : M thread unit :=
  match fuel with
  | O => out_of_fuel
  | S fuel' =>
      p ← thread_iteration currTime nextTime;
      finished ← test_finished;
      if (finished : bool) then mret tt else thread_loop fuel' p.1 p.2
  end.

Definition SchedulerThread (fuel : nat) : M thread unit :=
  currTime ← getCurrTimeUsec;
  nextTime ← advance currTime;
  thread_loop fuel currTime nextTime.
End Thread.

(** ** Requests are never early *)

(** The [k]-th arrival, when the first interval starts at [t0]. *)
Fixpoint arrival (t0 : Z) (d : nat -> Z) (k : nat) : Z :=
  match k with
  | O => t0 + d 0%nat
  | S k' => arrival t0 d k' + d k
  end.

Section Pacing.
Context `{Env, Samples} (clock : nat -> Z) (mainFinished : nat -> bool).
Context (numWorkers : Z) (sched : task -> M world bool) (g : Generator) (d : nat -> Z) (t0 : Z).
Context (clock_mono : forall i j, (i <= j)%nat -> clock i <= clock j).
Context (intervals : forall n, generate_usec g n = Some (d n)).

(** No request was started before its arrival. *)
Definition paced (starts : list Z) : Prop :=
  forall k t, starts !! k = Some t -> arrival t0 d k <= t.

Abbreviation hoare := (triple (fun _ s => paced (th_starts s))).

(** [n] requests were started; [t] is a past reading of the clock. *)
Definition at_request (n : nat) (t : Z) (s : thread) : Prop :=
  paced (th_starts s) /\ length (th_starts s) = n /\ t <= clock (th_clock s).

Lemma world_step {A} (m : M world A) n t k :
  hoare (fun s => at_request n t s /\ th_samples s = k) (on_world m)
    (fun _ s => at_request n t s /\ th_samples s = k).
Proof.
  intros s [(H1 & H2 & H3) H4]. unfold on_world. destruct (m (th_world s)) as [[a|tr|] w]; cbn; done.
Qed.

Lemma clock_step n t k :
  hoare (fun s => at_request n t s /\ th_samples s = k) (getCurrTimeUsec clock)
    (fun t' s => t <= t' /\ at_request n t' s /\ th_samples s = k).
Proof.
  intros s [(H1 & H2 & H3) H4]. cbn. split; [done|]. split; [|done].
  split; [done|]. split; [done|]. apply clock_mono. cbn. lia.
Qed.

Lemma advance_step n t k next :
  hoare (fun s => at_request n t s /\ th_samples s = k) (advance (Some g) next)
    (fun next' s => next' = wrapU64 (next + d k) /\ at_request n t s /\ th_samples s = S k).
Proof.
  intros s [(H1 & H2 & H3) H4]. unfold advance, next_interval, mbind, M_bind.
  rewrite intervals, H4. by split_and!.
Qed.

Lemma send_paced n t :
  arrival t0 d n <= t ->
  hoare (fun s => at_request n t s /\ th_samples s = S n)
    (send_request clock numWorkers sched (Some g) (arrival t0 d n))
    (fun p s => p.2 = wrapU64 (arrival t0 d (S n)) /\ at_request (S n) p.1 s /\ th_samples s = S (S n)).
Proof.
  intros Ht. unfold send_request.
  eapply (triple_bind _ _ _ (fun _ s => at_request n t s /\ th_samples s = S n)); [by intros s Hs|].
  intros aryIndex.
  eapply (triple_bind _ _ _ (fun _ s => at_request n t s /\ th_samples s = S n)).
  { case_match; [apply triple_throw; by intros s [[Hs _] _]|by apply triple_ret]. }
  intros _. eapply triple_bind; [apply (clock_step n t (S n))|]. intros start.
  eapply (triple_bind _ _ _ (fun _ s => at_request (S n) start s /\ th_samples s = S n)).
  { intros s (Hle & (H1 & H2 & H3) & H4). cbn. split; [|done]. split; [|split; [|done]]; cbn.
    - intros k t' Hk. apply lookup_snoc_Some in Hk as [[_ Hk]|[-> <-]]; [by apply H1|]. rewrite H2. lia.
    - rewrite length_app, H2. cbn. lia. }
  intros _. do 3 (eapply triple_bind; [apply world_step|]; intros ?).
  eapply (triple_bind _ _ _ (fun _ s => at_request (S n) start s /\ th_samples s = S n)).
  { unfold assertM. case_match; [by apply triple_ret|apply triple_throw; by intros s [[Hs _] _]]. }
  intros _. eapply triple_bind; [apply clock_step|]. intros end_.
  eapply (triple_bind _ _ _ (fun _ s => at_request (S n) end_ s /\ th_samples s = S n)).
  { by intros s (_ & (H1 & H2 & H3) & H4). }
  intros _. eapply triple_bind; [apply advance_step|]. intros next. by apply triple_ret.
Qed.
Lemma iteration_paced n t :
  hoare (fun s => at_request n t s /\ th_samples s = S n)
    (thread_iteration clock numWorkers sched (Some g) t (arrival t0 d n))
    (fun p s => exists n', (n' <= S n)%nat /\ p.2 = wrapU64 (arrival t0 d n') /\
       at_request n' p.1 s /\ th_samples s = S n' \/
       p.2 = arrival t0 d n /\ at_request n p.1 s /\ th_samples s = S n).
Proof.
  unfold thread_iteration, waits. case_match eqn:E.
  - eapply triple_bind; [apply clock_step|]. intros t'. apply triple_ret. intros s (_ & Hs).
    exists n. by right.
  - apply Z.ltb_ge in E. intros s Hs. pose proof (send_paced n t E s Hs) as Hp.
    destruct (send_request _ _ _ _ _ s) as [[p|tr|] s']; [|done|done].
    exists (S n). by left.
Qed.

Lemma loop_paced fuel : forall n t,
  (forall k, (k <= n + fuel)%nat -> 0 <= arrival t0 d k < 2 ^ 64) ->
  hoare (fun s => at_request n t s /\ th_samples s = S n)
    (thread_loop clock mainFinished numWorkers sched (Some g) fuel t (arrival t0 d n))
    (fun _ s => paced (th_starts s)).
Proof.
  induction fuel as [|fuel IH]; intros n t Hb; cbn [thread_loop].
  - intros s [[Hs _] _]. exact Hs.
  - eapply triple_bind; [apply iteration_paced|]. intros p.
    eapply (triple_bind _ _ _ (fun _ s => exists n', (n' <= S n)%nat /\ p.2 = arrival t0 d n' /\
      at_request n' p.1 s /\ th_samples s = S n')).
    { intros s (n' & [(Hn & Hp & Hs)|(Hp & Hs)]); cbn.
      - exists n'. rewrite Hp. split; [done|].
        split; [|exact Hs]. apply wrapU_id. apply Hb. lia.
      - exists n. split; [lia|]. split; [done|exact Hs]. }
    intros finished s (n' & Hn & Hp & Hs). destruct finished.
    + apply Hs.
    + rewrite Hp. apply IH; [|exact Hs]. intros k Hk. apply Hb. lia.
Qed.
End Pacing.

(** With a generator of arrivals a thread is an open loop that is never
    early: however long the calls of [schedule] take, whatever they return and
    however the thread ends, the [k]-th request is started no earlier than the
    start of the thread plus the first [k] intervals. *)
Theorem requests_never_early `{En : Env, Sm : Samples} clock mainFinished numWorkers sched g d fuel s o s' :
  (forall i j, (i <= j)%nat -> clock i <= clock j) -> (forall n, generate_usec g n = Some (d n)) ->
  (forall k, (k <= fuel)%nat -> 0 <= arrival (clock (th_clock s)) d k < 2 ^ 64) ->
  th_starts s = [] -> th_samples s = 0%nat ->
  SchedulerThread clock mainFinished numWorkers sched (Some g) fuel s = (o, s') ->
  forall k t, th_starts s' !! k = Some t -> arrival (clock (th_clock s)) d k <= t.
Proof.
  intros Hc Hd Hb Hs Hsm E. set (t0 := clock (th_clock s)) in *.
  assert (paced d t0 (th_starts s')) as Hp; [|exact Hp].
  set (start := fun s => at_request clock d t0 0 t0 s /\ th_samples s = 0%nat).
  pose proof (triple_bind (fun _ s => paced d t0 (th_starts s)) (fun s' => s' = s) (getCurrTimeUsec clock)
    (fun t s => t = t0 /\ start s)
    (fun t => next ← advance (Some g) t;
              thread_loop clock mainFinished numWorkers sched (Some g) fuel t next)
    (fun _ s => paced d t0 (th_starts s))) as Ht.
  specialize (Ht ltac:(intros ? ->; cbn; unfold start, at_request, paced; cbn; rewrite Hs; split_and!;
    [done|done|done|apply Hc; lia|done])).
  assert (forall t, triple (fun _ s => paced d t0 (th_starts s)) (fun s => t = t0 /\ start s)
    (next ← advance (Some g) t; thread_loop clock mainFinished numWorkers sched (Some g) fuel t next)
    (fun _ s => paced d t0 (th_starts s))) as Hk.
  { intros t. eapply (triple_bind _ _ _ (fun next s => t = t0 /\ next = wrapU64 (t0 + d 0%nat) /\
      at_request clock d t0 0 t0 s /\ th_samples s = 1%nat)).
    - intros s1 [-> Hs1]. pose proof (advance_step clock g d t0 Hd 0 t0 0 t0 s1 Hs1) as Hadv.
      destruct (advance (Some g) t0 s1) as [[next|tr|] s2]; [by split|done|done].
    - intros next s1 (-> & -> & Hs1). rewrite wrapU_id by (apply (Hb 0%nat); lia).
      by apply (loop_paced clock mainFinished numWorkers sched g d t0 Hc Hd fuel 0 t0 Hb). }
  specialize (Ht Hk s eq_refl). unfold SchedulerThread in E. rewrite E in Ht. by destruct o.
Qed.

(** ** A thread runs until it is told to stop *)

Section Running.
Context `{Env, Samples} (clock : nat -> Z) (mainFinished : nat -> bool).
Context (numWorkers : Z) (sched : task -> M world bool) (iaGen : option Generator).
Context (inv : nat -> world -> Prop) (draining : forall t, Draining inv (sched t)).
Context (inv_tick : forall k w, inv k w -> inv k (tick w)).
Context (workers_pos : 0 < numWorkers).
Context (intervals : forall g n, iaGen = Some g -> generate_usec g n <> None).

(** [m] requests later: each took a unit of capacity and the next slot. *)
Record after_requests (k : nat) (s : thread) (m : nat) (s' : thread) : Prop := {
  ar_inv : inv k (th_world s');
  ar_capacity : total_capacity (w_db (th_world s')) = total_capacity (w_db (th_world s)) - Z.of_nat m;
  ar_index : schedLatsArrayIndex s' = schedLatsArrayIndex s + Z.of_nat m;
  ar_slots : exists l, schedLatencies s' = schedLatencies s ++ l /\
    l.*1 = seqZ (schedLatsArrayIndex s) (Z.of_nat m);
  ar_tests : th_tests s' = th_tests s;
}.

Lemma advance_run next s :
  exists next', advance iaGen next s = (Done next',
    match iaGen with
    | None => s
    | Some _ => Thread (th_world s) (th_clock s) (th_tests s) (S (th_samples s)) (schedLatsArrayIndex s)
                  (schedLatencies s) (th_starts s)
    end).
Proof using intervals.
  unfold advance. destruct iaGen as [g|] eqn:Eg; [|by eexists].
  unfold next_interval, mbind, M_bind. pose proof (intervals g (th_samples s) eq_refl).
  destruct (generate_usec g (th_samples s)); [by eexists|done].
Qed.

Lemma send_run next s k :
  inv (S k) (th_world s) -> 0 < total_capacity (w_db (th_world s)) ->
  0 <= schedLatsArrayIndex s < kMaxEntries ->
  exists p s', send_request clock numWorkers sched iaGen next s = (Done p, s') /\ after_requests k s 1 s'.
Proof using All.
  intros Hi Hc Hx. unfold send_request.
  rewrite (bind_done fetch_add_index _ _ _ _ eq_refl), (proj2 (Z.leb_gt _ _)) by lia.
  rewrite (bind_done (mret tt) _ _ _ _ eq_refl), (bind_done (getCurrTimeUsec clock) _ _ _ _ eq_refl).
  rewrite (bind_done (started _) _ _ _ _ eq_refl).
  destruct (c_rand (th_world s)) as [o w1] eqn:Er. pose proof Er as [= <- <-].
  erewrite (bind_done (on_world c_rand)) by (unfold on_world; cbn; reflexivity).
  erewrite (bind_done (on_world (int_rem _ _)))
    by (unfold on_world, int_rem; rewrite decide_False by lia; cbn; reflexivity).
  set (t := Task_ _ 1000).
  destruct (drain_hit (Draining := draining t) k (tick (th_world s)) (inv_tick _ _ Hi) Hc)
    as (w2 & Es & Hi2 & Hc2).
  erewrite (bind_done (on_world (sched t))) by (unfold on_world; cbn; rewrite Es; reflexivity).
  rewrite (bind_done (assertM true) _ _ _ _ eq_refl), (bind_done (getCurrTimeUsec clock) _ _ _ _ eq_refl).
  rewrite (bind_done (record_latency _ _) _ _ _ _ eq_refl).
  match goal with |- context [mbind _ (advance iaGen next) ?x] =>
    destruct (advance_run next x) as [next' Ea] end.
  run_bind Ea. eexists _, _. split; [reflexivity|].
  assert (wrapU 32 (schedLatsArrayIndex s + 1) = schedLatsArrayIndex s + 1) as Hw
    by (apply wrapU_id; unfold kMaxEntries in Hx; lia).
  destruct iaGen; (split; cbn; [done|rewrite Hc2; cbn; lia|exact Hw| |done]);
    (eexists; split; [reflexivity|]); change (Z.of_nat 1) with 1; by rewrite seqZ_cons by lia.
Qed.

Lemma after_requests_trans k k' s m s1 m' s2 :
  after_requests k s m s1 -> after_requests k' s1 m' s2 -> after_requests k' s (m + m') s2.
Proof.
  intros [A1 A2 A3 (l & A4 & A5) A6] [B1 B2 B3 (l' & B4 & B5) B6].
  split; [done|lia|lia| |congruence].
  exists (l ++ l'). rewrite B4, A4, (assoc_L (++)). split; [done|].
  rewrite fmap_app, A5, B5, A3, Nat2Z.inj_add. by rewrite <- seqZ_app by lia.
Qed.

Lemma iteration_run cur next s k :
  inv (S k) (th_world s) -> 0 < total_capacity (w_db (th_world s)) ->
  0 <= schedLatsArrayIndex s < kMaxEntries ->
  exists p s' m, thread_iteration clock numWorkers sched iaGen cur next s = (Done p, s') /\
    (m <= 1)%nat /\ (iaGen = None -> m = 1%nat) /\ after_requests (S k - m) s m s'.
Proof using All.
  intros Hi Hc Hx. unfold thread_iteration. destruct (waits iaGen cur next) eqn:E.
  - exists (clock (th_clock s), next). eexists _, 0%nat. split; [reflexivity|].
    split; [lia|]. split; [intros Eg; unfold waits in E; by rewrite Eg in E|].
    split; cbn; [done|lia|lia| |done]. exists []. by rewrite app_nil_r.
  - destruct (send_run next s k Hi Hc Hx) as (p & s' & Es & Ha).
    exists p, s', 1%nat. split; [done|]. split; [lia|]. split; [done|]. by replace (S k - 1)%nat with k by lia.
Qed.

(** After [n] iterations of which the last one sees the flag. *)
Lemma thread_loop_run n : forall cur next s k,
  inv (S n + k) (th_world s) -> Z.of_nat (S n) <= total_capacity (w_db (th_world s)) ->
  0 <= schedLatsArrayIndex s -> schedLatsArrayIndex s + Z.of_nat n < kMaxEntries ->
  (forall i, (i < n)%nat -> mainFinished (th_tests s + i) = false) ->
  mainFinished (th_tests s + n) = true ->
  exists s' m, thread_loop clock mainFinished numWorkers sched iaGen (S n) cur next s = (Done tt, s') /\
    (m <= S n)%nat /\ (iaGen = None -> m = S n) /\
    after_requests (S n + k - m) s m
      (Thread (th_world s') (th_clock s') (th_tests s) (th_samples s') (schedLatsArrayIndex s')
         (schedLatencies s') (th_starts s')).
Proof using All.
  induction n as [|n IH]; intros cur next s k Hi Hc Hx0 Hx Hf Ht.
  - destruct (iteration_run cur next s k Hi) as (p & s1 & m & E & Hm & Hm' & Ha); [lia|lia|].
    rewrite Nat.add_0_r in Ht. eexists _, m. cbn [thread_loop]. run_bind E.
    rewrite (bind_done (test_finished _) _ _ _ _ eq_refl), (ar_tests _ _ _ _ Ha), Ht.
    split; [reflexivity|]. split; [done|]. split; [done|].
    destruct Ha as [A1 A2 A3 A4 A5]. by split.
  - destruct (iteration_run cur next s (S n + k) Hi) as (p & s1 & m & E & Hm & Hm' & Ha); [lia|lia|].
    set (s2 := Thread (th_world s1) (th_clock s1) (S (th_tests s1)) (th_samples s1)
      (schedLatsArrayIndex s1) (schedLatencies s1) (th_starts s1)).
    pose proof Ha as [A1 A2 A3 A4 A5].
    destruct (IH p.1 p.2 s2 (k + (1 - m))%nat) as (s3 & m3 & E3 & Hm3 & Hm3' & Ha3).
    + change (inv (S n + (k + (1 - m))) (th_world s1)).
      replace (S n + (k + (1 - m)))%nat with (S (S n + k) - m)%nat by lia. exact A1.
    + cbn. lia.
    + cbn. lia.
    + cbn. lia.
    + intros i Hlt. cbn. rewrite A5, <- Nat.add_succ_r. apply Hf. lia.
    + cbn. by rewrite A5, <- Nat.add_succ_r.
    + exists s3, (m + m3)%nat. split.
      { change (thread_loop clock mainFinished numWorkers sched iaGen (S (S n)) cur next) with
          (p ← thread_iteration clock numWorkers sched iaGen cur next;
           finished ← test_finished mainFinished;
           if (finished : bool) then mret tt
           else thread_loop clock mainFinished numWorkers sched iaGen (S n) p.1 p.2).
        run_bind E. rewrite (bind_done (test_finished _) _ _ _ _ eq_refl).
        replace (mainFinished (th_tests s1)) with false
          by (symmetry; rewrite A5, <- (Nat.add_0_r (th_tests s)); apply Hf; lia). exact E3. }
      split; [lia|]. split; [intros Hg; rewrite (Hm' Hg), (Hm3' Hg); lia|].
      destruct Ha3 as [B1 B2 B3 B4 B5].
      assert (after_requests (S (S n) + k - (m + m3)) s1 m3 (Thread (th_world s3) (th_clock s3)
        (th_tests s1) (th_samples s3) (schedLatsArrayIndex s3) (schedLatencies s3) (th_starts s3))) as Ha3.
      { split; [|done..]. change (inv (S (S n) + k - (m + m3)) (th_world s3)).
        replace (S (S n) + k - (m + m3))%nat with (S n + (k + (1 - m)) - m3)%nat by lia. exact B1. }
      pose proof (after_requests_trans _ _ _ _ _ _ _ Ha Ha3) as Hfin. rewrite A5 in Hfin. exact Hfin.
Qed.
(** The whole thread: [n] readings of the flag do not stop it, the next does. *)
Lemma thread_run n s k :
  inv (S n + k) (th_world s) -> Z.of_nat (S n) <= total_capacity (w_db (th_world s)) ->
  0 <= schedLatsArrayIndex s -> schedLatsArrayIndex s + Z.of_nat n < kMaxEntries ->
  (forall i, (i < n)%nat -> mainFinished (th_tests s + i) = false) ->
  mainFinished (th_tests s + n) = true ->
  exists s' m, SchedulerThread clock mainFinished numWorkers sched iaGen (S n) s = (Done tt, s') /\
    (m <= S n)%nat /\ (iaGen = None -> m = S n) /\
    after_requests (S n + k - m) s m
      (Thread (th_world s') (th_clock s') (th_tests s) (th_samples s') (schedLatsArrayIndex s')
         (schedLatencies s') (th_starts s')).
Proof using All.
  intros Hi Hc Hx0 Hx Hf Ht. unfold SchedulerThread.
  rewrite (bind_done (getCurrTimeUsec clock) _ _ _ _ eq_refl).
  match goal with |- context [mbind _ (advance iaGen ?t) ?x] =>
    destruct (advance_run t x) as [next Ea] end.
  run_bind Ea. match goal with |- context [thread_loop _ _ _ _ _ _ ?t _ ?x] =>
    destruct (thread_loop_run n t next x k) as (s' & m & E & Hm & Hm' & [A1 A2 A3 A4 A5]) end;
    try (by destruct iaGen).
  exists s', m. split; [exact E|]. split; [done|]. split; [done|]. by destruct iaGen; split.
Qed.
End Running.

(** ** An experiment with the FIFO scheduler *)

Definition new_thread (w : world) (index : Z) : thread := Thread w 0 0 0 index [] [].

(** An experiment with the default algorithm: the database is set up, then a
    thread runs until the [n]-th reading of [mainFinished] stops it.  If there
    is capacity for its requests and room for their latencies, no [assert]
    fails and nothing exits; each request took one unit of capacity of the
    database and recorded its latency in the next slot; without a generator of
    arrivals there is a request for every turn of the loop. *)
Theorem fifo_thread_completes `{En : Env, !Reliable, Sm : Samples} c clock mainFinished iaGen n w index :
  0 < partitions c <= 2 ^ 30 -> 0 <= workerCapacity c < 2 ^ 31 -> 0 < numWorkers c < 2 ^ 31 ->
  Z.of_nat (S n) <= numWorkers c * workerCapacity c ->
  0 <= index -> index + Z.of_nat n < kMaxEntries ->
  (forall g k, iaGen = Some g -> generate_usec g k <> None) ->
  (forall i, (i < n)%nat -> mainFinished i = false) -> mainFinished n = true ->
  exists s w0 th m, constructScheduler c kFifoAlgo = Some s /\ setup_any s w = (Done true, w0) /\
    SchedulerThread clock mainFinished (numWorkers c)
      (fun t => default (throw AssertFailure) (schedule_any s t)) iaGen (S n) (new_thread w0 index) =
      (Done tt, th) /\
    (m <= S n)%nat /\ (iaGen = None -> m = S n) /\
    total_capacity (w_db (th_world th)) = numWorkers c * workerCapacity c - Z.of_nat m /\
    (schedLatencies th).*1 = seqZ index (Z.of_nat m) /\
    schedLatsArrayIndex th = index + Z.of_nat m.
Proof.
  intros HP HC HN Hn Hi Hix Hg Hf Ht. exists (new_fifo c).
  set (this := {| PartitionedFIFOScheduler.workerCapacity_ := workerCapacity c;
    PartitionedFIFOScheduler.workerPartitions_ := partitions c;
    PartitionedFIFOScheduler.numWorkers_ := numWorkers c |}).
  assert (config_ok this) as Hok by done.
  destruct (fifo_setup_run this Hok w) as (w0 & E & Hfr).
  destruct (fifo_fresh this Hok _ Hfr) as (Hwf & Hin & Htot). cbn in Htot.
  pose proof (fifo_schedule_draining this ltac:(unfold activePartitions; cbn; lia)) as Hd.
  destruct (thread_run clock mainFinished (numWorkers c) (PartitionedFIFOScheduler.schedule this) iaGen
    (pool_inv this) Hd ltac:(done) ltac:(lia) (fun g k => Hg g k) n (new_thread w0 index) 0)
    as (th & m & Er & Hm & Hm' & [A1 A2 A3 (l & A4 & A5) A6]); try done; [cbn; lia|].
  exists w0, th, m. split; [done|]. split; [exact E|]. split; [exact Er|]. split; [done|].
  split; [done|]. cbn in *. split; [lia|]. split; [by rewrite A4|done].
Qed.

Definition bench_demo : config :=
  {| numSchedulers := 1; numClientThreads := 1; numWorkers := 3; numTasks := 8; partitions := 3;
     workerCapacity := 2; probMultiTx := f32_of_int 0; measureIntervalMsec := 2000;
     totalExecTimeMsec := 10000; arrivalDelay := 0; reqPerSec := f64_of_int 100;
     reqDist := kNoDist; scheduleAlgo := kFifoAlgo; maxOutstanding := 1; cleanDB := false;
     noSetupDB := false; serverAddr := "localhost" |}.

(** Three turns as fast as possible, on a pool of six units. *)
Lemma fifo_thread_completes_witness :
  let E := steady Z.of_nat in
  let Sm := {| exponential r n := r; uniform b n := b |} in
  exists s w0 th, constructScheduler bench_demo kFifoAlgo = Some s /\
    setup_any s (init_world empty_db) = (Done true, w0) /\
    SchedulerThread Z.of_nat (fun i => bool_decide (i = 2%nat)) 3
      (fun t => default (throw AssertFailure) (schedule_any s t)) None 3 (new_thread w0 0) = (Done tt, th) /\
    total_capacity (w_db (th_world th)) = 3.
Proof.
  destruct (fifo_thread_completes (En := steady Z.of_nat) (Sm := {| exponential r n := r; uniform b n := b |})
    bench_demo Z.of_nat (fun i => bool_decide (i = 2%nat)) None 2 (init_world empty_db) 0)
    as (s & w0 & th & m & E0 & E1 & E2 & _ & Hm & Ht & _);
    [cbn; unfold kMaxEntries; lia..|done|by intros [|[|i]] Hi; [..|lia]|done|].
  exists s, w0, th. split; [exact E0|]. split; [exact E1|]. split; [exact E2|].
  rewrite Ht, (Hm eq_refl). reflexivity.
Defined.

(** Requests every ten microseconds, on a clock that advances by three. *)
Lemma requests_never_early_witness :
  let E := steady Z.of_nat in
  let Sm := {| exponential r n := r; uniform b n := b |} in
  let th := SchedulerThread (fun i => 3 * Z.of_nat i) (fun i => bool_decide (i = 19%nat)) 1
    (fun _ => mret true) (Some (Fixed_new (f64_of_int 100000))) 20 (new_thread (init_world empty_db) 0) in
  th.1 = Done tt /\ (3 <= length (th_starts th.2))%nat /\
  forall k t, th_starts th.2 !! k = Some t -> arrival 0 (fun _ => 10) k <= t.
Proof.
  intros E Sm th. split; [by vm_compute|]. split; [apply Nat.leb_le; by vm_compute|].
  apply (requests_never_early (fun i => 3 * Z.of_nat i) (fun i => bool_decide (i = 19%nat)) 1
    (fun _ => mret true) (Fixed_new (f64_of_int 100000)) (fun _ => 10) 20
    (new_thread (init_world empty_db) 0) th.1 th.2).
  - intros i j Hij. lia.
  - intros n. by vm_compute.
  - assert (forall k, arrival 0 (fun _ => 10) k = 10 * Z.of_nat (S k)) as Ha
      by (induction k as [|k IH]; [done|]; cbn [arrival]; rewrite IH; lia).
    intros k Hk. cbn [new_thread th_clock]. change (3 * Z.of_nat 0) with 0. rewrite Ha. lia.
  - done.
  - done.
  - apply surjective_pairing.
Defined.
