(* ===== verification/LoadGenerator.v ===== *)
(** * LoadGenerator

    [src/simulation/LoadGenerator.cc]: schedulers behind gRPC servers, and client
    threads that send tasks to them one at a time.  The database is set up by the
    scheduler of [-A], as in the other drivers; the schedulers that serve the
    clients are always Spark-like ones (SparkScheduler.v).  A client thread is a
    [thread] of SyntheticScheduler.v; the call through a channel is a parameter. *)

From S2P Require Import SyntheticScheduler WorkerManager PartitionedFIFOScheduler SinglePartitionedFIFOTaskScheduler.
From S2P Require Import SparkScheduler SparkSetup.
From S2P Require Import Prelude Tables World Procs Pool Client SchedulerUtil Setup Binary64 RandomGenerator Drivers.
From stdpp Require Import pretty.
#[local] Open Scope Z_scope.

Definition kAlgorithms : list string :=
  [kFifoAlgo; kFifoTaskAlgo; kSinglePartitionedFifoTaskAlgo; kSparkAlgo; kScanTaskAlgo; kPushFifoAlgo].

Definition constructScheduler (c : config) (algo : string) : option any_scheduler :=
  if String.eqb algo kFifoAlgo then Some (new_fifo c)
  else if String.eqb algo kFifoTaskAlgo then Some (new_fifo_task c)
  else if String.eqb algo kSinglePartitionedFifoTaskAlgo then Some (new_single c (probMultiTx c))
  else if String.eqb algo kSparkAlgo then Some (new_spark c)
  else if String.eqb algo kScanTaskAlgo then Some (new_scan c)
  else if String.eqb algo kPushFifoAlgo then Some (new_push c)
  else None.

(** ** The schedulers *)

Section Servers.
Context (connects : string -> bool) (c : config).

(** The address of a scheduler: [port] is an [int]. *)
Definition scheduler_addr (schedulerId : Z) : string :=
  "localhost:" +:+ pretty (wrap32 (9000 + schedulerId)).

(** [runBenchmark]: the scheduler of a server and the server's address. *)
Definition start_schedulers : M world (list (any_scheduler * string)) :=
  r ← for_loop (R := unit) (Z.to_nat (numSchedulers c)) 0 [] (fun schedulerId l =>
    with_scheduler connects (serverAddr c) (constructScheduler c "spark") (fun s =>
      mret (Next (l ++ [(s, scheduler_addr schedulerId)]))));
  match r with
  | Next l | Break l => mret l
  | Return _ => mret []
  end.
End Servers.

(** ** A client thread *)

Section Client.
Context `{Env} (clock : nat -> Z) (mainFinished : nat -> bool).
(** [stub->SubmitTask] through a channel; whether its status is [ok]. *)
Context (SubmitTask : nat -> SubmitTaskRequest -> M world bool).
Context (numWorkers : Z) (channels : list string).

(** One turn of the loop. *)
Definition send_task : M thread unit :=
  aryIndex ← fetch_add_index;
  (if kMaxEntries <=? aryIndex then throw ProcessExit else mret tt) ;;
  startTime ← getCurrTimeUsec clock;
  started startTime ;;
  r ← on_world c_rand;
  td ← on_world (int_rem r numWorkers);
  let st_request := taskToProtobuf (Task_ td 1000) in
  r ← on_world c_rand;
  i ← on_world (int_rem r (Z.of_nat (length channels)));
  status ← on_world (SubmitTask (Z.to_nat i) st_request);
  assertM status ;;
  endTime ← getCurrTimeUsec clock;
  record_latency aryIndex (wrapU64 (endTime - startTime)).

(** [do ... while (!mainFinished)]. *)
Fixpoint client_loop (fuel : nat) : M thread unit :=
  match fuel with
  | O => out_of_fuel
  | S fuel' =>
      send_task ;;
      finished ← test_finished mainFinished;
      if (finished : bool) then mret tt else client_loop fuel'
  end.
End Client.

(** The thread makes a channel for every address, then sends. *)
Definition ClientThread `{Env} clock mainFinished SubmitTask (numWorkers : Z) (schedulerAddresses : list string)
    (fuel : nat) : M thread unit :=
  client_loop clock mainFinished SubmitTask numWorkers schedulerAddresses fuel.

(** ** A client thread runs until it is told to stop *)

(** The requests of a client: the data of one of the workers. *)
Definition valid_request (numWorkers : Z) (rq : SubmitTaskRequest) : Prop :=
  0 <= targetdata rq < numWorkers /\ exectime rq = 1000.

Section Running.
Context `{Env} (clock : nat -> Z) (mainFinished : nat -> bool).
Context (SubmitTask : nat -> SubmitTaskRequest -> M world bool).
Context (numWorkers : Z) (channels : list string) (I : world -> Prop).
Context (workers_pos : 0 < numWorkers < 2 ^ 31) (channels_pos : (0 < length channels)%nat).
Context (I_tick : forall w, I w -> I (tick w)).
(** Every scheduler answers every valid request. *)
Context (answers : forall k rq w, (k < length channels)%nat -> valid_request numWorkers rq -> I w ->
  exists w', SubmitTask k rq w = (Done true, w') /\ I w').

(** [m] requests later. *)
Record after_tasks (s : thread) (m : nat) (s' : thread) : Prop := {
  at_inv : I (th_world s');
  at_index : schedLatsArrayIndex s' = schedLatsArrayIndex s + Z.of_nat m;
  at_slots : exists l, schedLatencies s' = schedLatencies s ++ l /\
    l.*1 = seqZ (schedLatsArrayIndex s) (Z.of_nat m);
  at_tests : th_tests s' = th_tests s;
}.

Lemma rand_mod n w : 0 < n ->
  exists i, 0 <= i < n /\ c_rand w = (Done (wrapU 31 (rand_stream (w_tick w))), tick w) /\
    forall s : thread, on_world (int_rem (wrapU 31 (rand_stream (w_tick w))) n) s = (Done i, s).
Proof.
  intros Hn. destruct (c_rand w) as [o w1] eqn:Er. pose proof Er as [= <- <-].
  pose proof (c_rand_range _ _ _ Er) as Hr. exists (wrapU 31 (rand_stream (w_tick w)) mod n).
  split; [by apply Z.mod_pos_bound|]. split; [done|]. intros s. unfold on_world, int_rem.
  rewrite decide_False by lia. rewrite c_rem_mod by lia. by destruct s.
Qed.

Lemma send_task_run s :
  I (th_world s) -> 0 <= schedLatsArrayIndex s < kMaxEntries ->
  exists s', send_task clock SubmitTask numWorkers channels s = (Done tt, s') /\ after_tasks s 1 s'.
Proof using All.
  intros Hi Hx. unfold send_task.
  rewrite (bind_done fetch_add_index _ _ _ _ eq_refl), (proj2 (Z.leb_gt _ _)) by lia.
  rewrite (bind_done (mret tt) _ _ _ _ eq_refl), (bind_done (getCurrTimeUsec clock) _ _ _ _ eq_refl).
  rewrite (bind_done (started _) _ _ _ _ eq_refl).
  destruct (rand_mod numWorkers (th_world s)) as (td & Htd & E1 & E2); [lia|].
  erewrite (bind_done (on_world c_rand)) by (unfold on_world; cbn [th_world]; rewrite E1; reflexivity).
  rewrite (bind_done _ _ _ _ _ (E2 _)).
  destruct (rand_mod (Z.of_nat (length channels)) (tick (th_world s))) as (i & Hir & E3 & E4); [lia|].
  erewrite (bind_done (on_world c_rand)) by (unfold on_world; cbn [th_world]; rewrite E3; reflexivity).
  rewrite (bind_done _ _ _ _ _ (E4 _)).
  destruct (answers (Z.to_nat i) (taskToProtobuf (Task_ td 1000)) (tick (tick (th_world s))))
    as (w' & Es & Hi'); [lia| |auto|].
  { by split. }
  erewrite (bind_done (on_world (SubmitTask _ _))) by (unfold on_world; cbn [th_world]; rewrite Es; reflexivity).
  rewrite (bind_done (assertM true) _ _ _ _ eq_refl), (bind_done (getCurrTimeUsec clock) _ _ _ _ eq_refl).
  eexists. split; [reflexivity|].
  assert (wrapU 32 (schedLatsArrayIndex s + 1) = schedLatsArrayIndex s + 1) as Hw
    by (apply wrapU_id; unfold kMaxEntries in Hx; lia).
  split; cbn; [done|exact Hw| |done].
  eexists. split; [reflexivity|]. change (Z.of_nat 1) with 1. by rewrite seqZ_cons by lia.
Qed.

Lemma after_tasks_trans s m s1 m' s2 :
  after_tasks s m s1 -> after_tasks s1 m' s2 -> after_tasks s (m + m') s2.
Proof.
  intros [A1 A3 (l & A4 & A5) A6] [B1 B3 (l' & B4 & B5) B6].
  split; [done|lia| |congruence].
  exists (l ++ l'). rewrite B4, A4, (assoc_L (++)). split; [done|].
  rewrite fmap_app, A5, B5, A3, Nat2Z.inj_add. by rewrite <- seqZ_app by lia.
Qed.

(** The same state, as far as readings of the flag go. *)
Definition untested (s s' : thread) : thread :=
  Thread (th_world s') (th_clock s') (th_tests s) (th_samples s') (schedLatsArrayIndex s')
    (schedLatencies s') (th_starts s').

Lemma client_loop_run n : forall s,
  I (th_world s) -> 0 <= schedLatsArrayIndex s -> schedLatsArrayIndex s + Z.of_nat n < kMaxEntries ->
  (forall i, (i < n)%nat -> mainFinished (th_tests s + i)%nat = false) ->
  mainFinished (th_tests s + n)%nat = true ->
  exists s', client_loop clock mainFinished SubmitTask numWorkers channels (S n) s = (Done tt, s') /\
    after_tasks s (S n) (untested s s').
Proof using All.
  induction n as [|n IH]; intros s Hi Hx0 Hx Hf Ht;
    (destruct (send_task_run s Hi) as (s1 & E & Ha); [lia|]); pose proof Ha as [A1 A3 A4 A5].
  - rewrite Nat.add_0_r in Ht. eexists. cbn [client_loop]. run_bind E.
    rewrite (bind_done (test_finished _) _ _ _ _ eq_refl), A5, Ht. split; [reflexivity|].
    by split.
  - set (s2 := Thread (th_world s1) (th_clock s1) (S (th_tests s1)) (th_samples s1)
      (schedLatsArrayIndex s1) (schedLatencies s1) (th_starts s1)).
    destruct (IH s2) as (s3 & E3 & [B1 B3 B4 B5]); cbn; [done|lia|lia| | |].
    + intros i Hlt. rewrite A5, <- Nat.add_succ_r. apply Hf. lia.
    + by rewrite A5, <- Nat.add_succ_r.
    + exists s3. split.
      { change (client_loop clock mainFinished SubmitTask numWorkers channels (S (S n)) s) with
          ((send_task clock SubmitTask numWorkers channels ;;
            finished ← test_finished mainFinished;
            if (finished : bool) then mret tt
            else client_loop clock mainFinished SubmitTask numWorkers channels (S n)) s).
        run_bind E. rewrite (bind_done (test_finished _) _ _ _ _ eq_refl).
        replace (mainFinished (th_tests s1)) with false
          by (symmetry; rewrite A5, <- (Nat.add_0_r (th_tests s)); apply Hf; lia). exact E3. }
      apply (after_tasks_trans s 1 s1 (S n)); [done|].
      unfold untested. rewrite <- A5. split; [exact B1|exact B3|exact B4|done].
Qed.
End Running.

(** A client thread ends at the [n]-th reading of [mainFinished] at the
    latest: when the schedulers answer every request for data below
    [numWorkers], no [assert] fails and nothing exits; the thread sent exactly
    one request per turn and recorded the latency of each in the next free
    slot. *)
Theorem client_thread_completes `{En : Env} clock mainFinished SubmitTask numWorkers channels
    (I : world -> Prop) n w index :
  0 < numWorkers < 2 ^ 31 -> channels <> [] -> (forall w, I w -> I (tick w)) ->
  (forall k rq w, (k < length channels)%nat -> valid_request numWorkers rq -> I w ->
     exists w', SubmitTask k rq w = (Done true, w') /\ I w') ->
  I w -> 0 <= index -> index + Z.of_nat n < kMaxEntries ->
  (forall i, (i < n)%nat -> mainFinished i = false) -> mainFinished n = true ->
  exists th, ClientThread clock mainFinished SubmitTask numWorkers channels (S n) (new_thread w index) =
      (Done tt, th) /\
    I (th_world th) /\ schedLatsArrayIndex th = index + Z.of_nat (S n) /\
    (schedLatencies th).*1 = seqZ index (Z.of_nat (S n)).
Proof.
  intros HN Hc Ht Ha Hi Hx0 Hx Hf Hn.
  destruct (client_loop_run clock mainFinished SubmitTask numWorkers channels I HN
    ltac:(destruct channels; cbn; [done|lia]) Ht Ha n (new_thread w index))
    as (th & E & [A1 A2 (l & A3 & A4) _]); try done.
  exists th. split_and!; [exact E|exact A1|exact A2|]. cbn in A3, A4. by rewrite A3.
Qed.

(** ** Which algorithms the generator works with *)

Section Servers.
Context (connects : string -> bool) (c : config).
Context (connected : VoltdbSchedulerUtil_new connects (serverAddr c) <> None).

Lemma with_scheduler_ok {A} s (k : any_scheduler -> M world A) :
  with_scheduler connects (serverAddr c) (Some s) k = k s.
Proof using All. unfold with_scheduler. by destruct (VoltdbSchedulerUtil_new connects (serverAddr c)). Qed.

Lemma start_loop m : forall i l w,
  for_loop (R := unit) m i l (fun schedulerId l =>
    with_scheduler connects (serverAddr c) (constructScheduler c "spark") (fun s =>
      mret (Next (l ++ [(s, scheduler_addr schedulerId)])))) w =
  (Done (Next (l ++ ((fun i => (new_spark c, scheduler_addr i)) <$> seqZ i (Z.of_nat m)))), w).
Proof using All.
  change (constructScheduler c "spark") with (Some (new_spark c)).
  induction m as [|m IH]; intros i l w; [cbn; by rewrite app_nil_r|].
  cbn [for_loop]. rewrite with_scheduler_ok. rewrite (bind_done (mret _) _ _ _ _ eq_refl), IH.
  rewrite (seqZ_cons i) by lia. rewrite <- app_assoc. cbn [fmap list_fmap app].
  replace (Z.pred (Z.of_nat (S m))) with (Z.of_nat m) by lia. done.
Qed.

Lemma start_schedulers_run w : 0 <= numSchedulers c ->
  start_schedulers connects c w =
  (Done ((fun i => (new_spark c, scheduler_addr i)) <$> seqZ 0 (numSchedulers c)), w).
Proof using All.
  intros Hn. unfold start_schedulers. rewrite (bind_done _ _ _ _ _ (start_loop _ 0 [] w)).
  by rewrite Z2Nat.id by done.
Qed.
End Servers.

(** Setting up for one of the FIFO schedulers leaves no data. *)
Lemma fifo_setup_no_data `{Env, !Reliable} c algo s w :
  0 < partitions c <= 2 ^ 30 -> 0 <= workerCapacity c < 2 ^ 31 -> 0 < numWorkers c < 2 ^ 31 ->
  algo ∈ [kFifoAlgo; kSinglePartitionedFifoTaskAlgo] -> constructScheduler c algo = Some s ->
  exists w1, setup_any s w = (Done true, w1) /\ DataLocation (w_db w1) = [].
Proof.
  intros HP HC HN Ha Hs.
  destruct (setup_workers (partitions c) (workerCapacity c) (numWorkers c)
    (set_db (on_DataLocation (fun _ => []) (on_Worker (fun _ => []) (w_db w))) (tick w)))
    as (w1 & E1 & D1 & _); [lia..|].
  destruct (setup_workers (partitions c) (workerCapacity c) (numWorkers c)
    (set_db (on_Task (fun _ => []) (on_DataLocation (fun _ => []) (on_Worker (fun _ => []) (w_db w))))
      (tick (tick w)))) as (w2 & E2 & D2 & _); [lia..|].
  set_unfold in Ha. destruct Ha as [->|[->|[]]]; cbn in Hs; simplify_eq.
  - exists w1. split; [|by rewrite D1]. cbn [setup_any new_fifo setup_ PartitionedFIFOScheduler_util].
    unfold PartitionedFIFOScheduler.setup, PartitionedFIFOScheduler.truncateWorkerTable.
    by rewrite (bind_done _ _ _ _ _ (truncateWorkerTable_ok w)).
  - exists w2. split; [|by rewrite D2].
    cbn [setup_any new_single setup_ SinglePartitionedFIFOTaskScheduler_util].
    unfold SinglePartitionedFIFOTaskScheduler.setup, SinglePartitionedFIFOTaskScheduler.truncateWorkerTable,
      SinglePartitionedFIFOTaskScheduler.truncateTaskTable.
    rewrite (bind_done _ _ _ _ _ (truncateWorkerTable_ok w)).
    by rewrite (bind_done _ _ _ _ _ (truncateTaskTable_ok _)).
Qed.

(** C16: whatever [-A] says, all schedulers of a load generator are Spark-like
    ones, one per port from 9000 on.  With [-A spark] the database that is set up
    holds every piece of data the clients ask for: the first poll of any request
    takes the worker of that data.  With [fifo], the default, or
    [single-partitioned-fifo-task] the setup succeeds too, but registers no data,
    and the first selection of every request divides by zero. *)
Theorem load_generator_needs_spark `{Env, !Reliable} connects c w :
  0 < partitions c <= 2 ^ 30 -> 0 < workerCapacity c < 2 ^ 31 -> 0 < numWorkers c < 2 ^ 31 ->
  0 <= numSchedulers c -> VoltdbSchedulerUtil_new connects (serverAddr c) <> None ->
  (forall w', start_schedulers connects c w' =
     (Done ((fun i => (new_spark c, scheduler_addr i)) <$> seqZ 0 (numSchedulers c)), w')) /\
  (exists w1, with_scheduler connects (serverAddr c) (constructScheduler c kSparkAlgo) setup_any w =
       (Done true, w1) /\
     forall rq w2 fuel, valid_request (numWorkers c) rq -> w_db w2 = w_db w1 -> (0 < fuel)%nat ->
     exists w3, SparkScheduler.selectWorker fuel (targetData (protobufToTask rq)) w2 =
       (Done (targetdata rq), w3)) /\
  (forall algo, algo ∈ [kFifoAlgo; kSinglePartitionedFifoTaskAlgo] ->
     exists w1, with_scheduler connects (serverAddr c) (constructScheduler c algo) setup_any w =
       (Done true, w1) /\
     forall rq w2 fuel, w_db w2 = w_db w1 -> (0 < fuel)%nat ->
     exists w3, SparkScheduler.selectWorker fuel (targetData (protobufToTask rq)) w2 =
       (Trap DivisionByZero, w3)).
Proof.
  intros HP HC HN Hs Hcon. split_and!.
  - intros w'. by apply start_schedulers_run.
  - change (constructScheduler c kSparkAlgo) with (Some (new_spark c)).
    rewrite with_scheduler_ok by done. cbn [setup_any new_spark].
    match goal with |- context [SparkScheduler.setup ?this w] =>
      destruct (spark_setup_run this ltac:(cbn; lia) ltac:(cbn; lia) ltac:(cbn; lia) w) as (w1 & E & Hf) end.
    exists w1. split; [exact E|]. intros rq w2 fuel [Hrq _] Hd Hfuel. rewrite <- Hd in Hf.
    cbn [protobufToTask targetData]. rewrite wrap32_id by lia.
    rewrite <- (Z2Nat.id (targetdata rq)) by lia.
    eapply spark_fresh_selects; [..|exact Hf|done| | |done]; cbn; lia.
  - intros algo Ha. destruct (constructScheduler c algo) as [s|] eqn:Es;
      [|by set_unfold in Ha; destruct Ha as [->|[->|[]]]].
    rewrite with_scheduler_ok by done.
    destruct (fifo_setup_no_data c algo s w) as (w1 & E & Hd); [done|lia|done..|].
    exists w1. split; [exact E|]. intros rq w2 fuel Hd2 Hfuel. apply no_data_traps; [by rewrite Hd2|done].
Qed.

(** ** Examples *)

(** Three requests to one scheduler that answers at once. *)
Lemma client_thread_completes_witness :
  let E := steady Z.of_nat in
  exists th, ClientThread Z.of_nat (fun i => bool_decide (i = 2%nat)) (fun _ _ => mret (M := M world) true) 3
      ["localhost:9000"] 3 (new_thread (init_world empty_db) 5) = (Done tt, th) /\
    (schedLatencies th).*1 = [5; 6; 7].
Proof.
  destruct (client_thread_completes (En := steady Z.of_nat) Z.of_nat (fun i => bool_decide (i = 2%nat))
    (fun _ _ => mret (M := M world) true) 3 ["localhost:9000"] (fun _ => True) 2 (init_world empty_db) 5)
    as (th & E & _ & _ & Hl);
    [lia|done|done|intros k rq w _ _ _; by exists w|done|lia|unfold kMaxEntries; lia
    |by intros [|[|i]] Hi; [..|lia]|done|].
  exists th. exact (conj E Hl).
Defined.

Lemma load_generator_needs_spark_witness :
  let E := steady Z.of_nat in
  exists w1, with_scheduler (fun _ => true) "localhost" (constructScheduler bench_demo kFifoAlgo) setup_any
      (init_world empty_db) = (Done true, w1) /\
    exists w3, SparkScheduler.selectWorker 1 2 w1 = (Trap DivisionByZero, w3).
Proof.
  destruct (load_generator_needs_spark (H := steady Z.of_nat) (fun _ => true) bench_demo
    (init_world empty_db)) as (_ & _ & Hf); [cbn; lia..|done|].
  destruct (Hf kFifoAlgo) as (w1 & E & Ht); [by left|]. exists w1. split; [exact E|].
  apply (Ht {| targetdata := 2; exectime := 1000 |} w1 1%nat eq_refl). lia.
Defined.
