(* ===== verification/EventLoop.v ===== *)
(** * The event loop of an asynchronous client

    Some drivers of [src/simulation/] (AsyncSyntheticScheduler.cc,
    CommunicationBench.cc) send requests without waiting for the answers.  The
    VoltDB client is single-threaded: a callback takes in an answer when the
    thread runs the event loop, and a counter of outstanding requests decides
    when it does.  This file holds what the two programs share, with the
    accounts of requests and answers; what the event loop finds ready, and in
    which order, is given from outside. *)

From S2P Require Import Prelude Tables World Procs Pool Client Frame SchedulerUtil Binary64 RandomGenerator Drivers.

(** ** A thread and its callback *)

Record thread := Thread {
  at_world : world;                  (* with the requests in flight *)
  outCnt_ : Z;                       (* of the callback *)
  at_tests : nat;                    (* readings of [mainFinished] so far *)
  at_runs : nat;                     (* runs of the event loop so far *)
  at_clock : nat;                    (* readings of the clock so far *)
  at_samples : nat;                  (* intervals generated so far *)
  latsArrayIndex : Z;                (* [schedLatsArrayIndex], [msgLatsArrayIndex] *)
  latencies : list (Z * f64);        (* the slots written, in order, and what to them *)
}.

Definition set_world (w : world) (s : thread) : thread :=
  Thread w (outCnt_ s) (at_tests s) (at_runs s) (at_clock s) (at_samples s) (latsArrayIndex s) (latencies s).
Definition set_out (n : Z) (s : thread) : thread :=
  Thread (at_world s) n (at_tests s) (at_runs s) (at_clock s) (at_samples s) (latsArrayIndex s) (latencies s).
Definition set_tests (n : nat) (s : thread) : thread :=
  Thread (at_world s) (outCnt_ s) n (at_runs s) (at_clock s) (at_samples s) (latsArrayIndex s) (latencies s).
Definition set_runs (n : nat) (s : thread) : thread :=
  Thread (at_world s) (outCnt_ s) (at_tests s) n (at_clock s) (at_samples s) (latsArrayIndex s) (latencies s).
Definition set_clock (n : nat) (s : thread) : thread :=
  Thread (at_world s) (outCnt_ s) (at_tests s) (at_runs s) n (at_samples s) (latsArrayIndex s) (latencies s).
Definition set_samples (n : nat) (s : thread) : thread :=
  Thread (at_world s) (outCnt_ s) (at_tests s) (at_runs s) (at_clock s) n (latsArrayIndex s) (latencies s).
Definition set_index (i : Z) (s : thread) : thread :=
  Thread (at_world s) (outCnt_ s) (at_tests s) (at_runs s) (at_clock s) (at_samples s) i (latencies s).
Definition set_latencies (l : list (Z * f64)) (s : thread) : thread :=
  Thread (at_world s) (outCnt_ s) (at_tests s) (at_runs s) (at_clock s) (at_samples s) (latsArrayIndex s) l.

(** A thread that starts with the given world and next free slot. *)
Definition new_thread (w : world) (index : Z) : thread := Thread w 0 0 0 0 0 index [].

(** The requests without an answer. *)
Definition outstanding (s : thread) : list request := w_inflight (at_world s).

Definition on_world {A} (m : M world A) : M thread A := fun s =>
  match m (at_world s) with (o, w) => (o, set_world w s) end.

(** [fetch_add(1)] on the [uint32_t] index. *)
Definition fetch_add_index : M thread Z := fun s =>
  (Done (latsArrayIndex s), set_index (wrapU32 (latsArrayIndex s + 1)) s).

Section Loop.
Context `{Env} (maxOutstanding : Z).
(** [clusterRoundTripTime] of the [n]-th answer, in milliseconds. *)
Context (round_trip : nat -> Z).
(** What the callback does with the tables of a successful answer. *)
Context (inspect : table -> M world unit).
Context (mainFinished : nat -> bool).
(** The answers the [n]-th run of the event loop finds ready: positions among
    the requests that are outstanding then. *)
Context (ready : nat -> list nat).

Definition record_latency (aryIndex : Z) : M thread unit := modify (fun s =>
  set_latencies (latencies s ++
    [(aryIndex, f64_mul (f64_of_int (round_trip (length (latencies s)))) (f64_of_int 1000))]) s).

(** [endThresh_]. *)
Definition endThresh : Z := Z.quot maxOutstanding 2.

(** [callback]: the result says whether to leave the event loop. *)
Definition callback (r : response) : M thread bool :=
  match r with
  | RFailure => throw ProcessExit
  | RSuccess results =>
      aryIndex ← fetch_add_index;
      (if kMaxEntries <=? aryIndex then throw ProcessExit else mret tt) ;;
      record_latency aryIndex ;;
      on_world (inspect results) ;;
      modify (fun s => set_out (outCnt_ s - 1) s) ;;
      s ← get;
      mret (outCnt_ s <=? endThresh)
  end.

(** The answer to the [i]-th outstanding request arrives; [false] when there is
    no such request. *)
Definition answer (i : nat) : M thread bool :=
  l ← gets outstanding;
  match l !! i with
  | None => mret false
  | Some rq =>
      on_world (modify (set_inflight (delete i l))) ;;
      r ← on_world (serve rq);
      callback r
  end.

(** [voltdb::Client::runOnce]: the answers that are ready, until a callback
    returns true. *)
Fixpoint run_answers (answers : list nat) : M thread unit :=
  match answers with
  | [] => mret tt
  | i :: answers' =>
      stop ← answer i;
      if (stop : bool) then mret tt else run_answers answers'
  end.

Definition runOnce : M thread unit :=
  s ← get;
  modify (fun s => set_runs (S (at_runs s)) s) ;;
  run_answers (ready (at_runs s)).

Definition test_finished : M thread bool := fun s =>
  (Done (mainFinished (at_tests s)), set_tests (S (at_tests s)) s).

(** One turn of a loop that sends as fast as it can. *)
Definition send_turn (send : M world bool) : M thread unit :=
  status ← on_world send;
  assertM status ;;
  modify (fun s => set_out (outCnt_ s + 1) s) ;;
  s ← get;
  if maxOutstanding <=? outCnt_ s then runOnce
  else if Z.quot maxOutstanding 2 <? outCnt_ s then runOnce
  else mret tt.

(** [do turn while (!mainFinished)]. *)
Fixpoint do_while {X} (turn : X -> M thread X) (fuel : nat) (x : X) : M thread X :=
  match fuel with
  | O => out_of_fuel
  | S fuel' =>
      x' ← turn x;
      finished ← test_finished;
      if (finished : bool) then mret x' else do_while turn fuel' x'
  end.

(** [while (!voltdbClient.drain()) {}]: the event loop runs until no request is
    outstanding; a callback that returns true only interrupts it. *)
Fixpoint drain (fuel : nat) (pick : nat -> nat) : M thread unit :=
  l ← gets outstanding;
  match l with
  | [] => mret tt
  | _ =>
      match fuel with
      | O => out_of_fuel
      | S fuel' =>
          answer (pick fuel mod length l)%nat ;;
          drain fuel' pick
      end
  end.
End Loop.

(** ** Interfaces *)

(** A scheduler's asynchronous operation queues one request that is [good], and
    does nothing else to the world but draw random numbers. *)
Class Queues (good : request -> Prop) (send : M world bool) : Prop :=
  queues w : match send w with
    | (Done b, w') => b = true /\ w_db w' = w_db w /\
        exists rq, good rq /\ w_inflight w' = w_inflight w ++ [rq]
    | (Trap _, w') => w_db w' = w_db w
    | (OutOfFuel, _) => False
    end.

(** The callback with [inspect] accepts the answer to a good request only if the
    request moved the database on: [after k] holds when [k] were accepted. *)
Class Accepts `{Env} (good : request -> Prop) (inspect : table -> M world unit)
    (after : nat -> db -> Prop) : Prop := {
  accepts_frame t : preserves same_client (inspect t);
  accepts_ends t w : (inspect t w).1 <> OutOfFuel;
  accepts k rq w : good rq -> after k (w_db w) ->
    match (r ← serve rq; match r with RFailure => throw ProcessExit | RSuccess t => inspect t end) w with
    | (Done _, w') => after (S k) (w_db w')
    | _ => True
    end;
}.

(** ** The accounts of a thread *)

Lemma transaction_ends `{Env} m w : (transaction m w).1 <> OutOfFuel.
Proof.
  unfold transaction, mbind, M_bind, draw_fate, run_txn.
  destruct (fate_stream (w_tick w)); try destruct (m (tick w)) as [[t|tr|] w1]; done.
Qed.

Lemma serve_ends `{Env} rq w : (serve rq w).1 <> OutOfFuel.
Proof. unfold serve. case_match; [apply transaction_ends|done]. Qed.

Lemma first_int64_ends t w : (first_int64 t w).1 <> OutOfFuel.
Proof. unfold first_int64. by repeat case_match. Qed.

(** Every run ends: it returns or is stopped by a trap. *)
Abbreviation ends := (triple (fun t _ => t <> None)).

Section Accounts.
Context `{Env} (maxOutstanding : Z) (round_trip : nat -> Z) (inspect : table -> M world unit).
Context (mainFinished : nat -> bool) (ready : nat -> list nat) (i0 : Z).
Context (good : request -> Prop) (after : nat -> db -> Prop) `{!Accepts good inspect after}.

(** [sent] requests were sent and are outstanding or have their latency in one
    of the slots from [i0] on. *)
Record accounts (sent : nat) (s : thread) : Prop := {
  acc_out : outCnt_ s = Z.of_nat (length (outstanding s));
  acc_sent : (length (latencies s) + length (outstanding s) = sent)%nat;
  acc_slots : (latencies s).*1 = seqZ i0 (Z.of_nat (length (latencies s)));
  acc_index : latsArrayIndex s = i0 + Z.of_nat (length (latencies s));
  acc_range : 0 <= i0 /\ latsArrayIndex s <= kMaxEntries;
  acc_good : Forall good (outstanding s);
  acc_db : after (length (latencies s)) (w_db (at_world s));
}.

(** Readings of the flag, the clock and the generator do not count. *)
Lemma accounts_same sent s s' :
  accounts sent s -> at_world s' = at_world s -> outCnt_ s' = outCnt_ s ->
  latencies s' = latencies s -> latsArrayIndex s' = latsArrayIndex s -> accounts sent s'.
Proof.
  intros [A1 A2 A3 A4 A5 A6 A7] E1 E2 E3 E4. unfold outstanding in *.
  split; unfold outstanding; by rewrite ?E1, ?E2, ?E3, ?E4.
Qed.

(** Taking a request out of those in flight, serving it and running the callback
    on the answer. *)
Lemma taken_accounts i rq sent s :
  accounts sent s -> outstanding s !! i = Some rq ->
  match (on_world (modify (set_inflight (delete i (outstanding s)))) ;;
         r ← on_world (serve rq); callback maxOutstanding round_trip inspect r) s with
  | (Done _, s') => accounts sent s' /\ length (outstanding s') = (length (outstanding s) - 1)%nat
  | (Trap _, _) => True
  | (OutOfFuel, _) => False
  end.
Proof.
  intros [A1 A2 A3 A4 [A5 A5'] A6 A7] Ei. pose proof (lookup_lt_Some _ _ _ Ei) as Hi.
  assert (length (delete i (outstanding s)) = length (outstanding s) - 1)%nat as Hd
    by (rewrite length_delete by (by exists rq); lia).
  rewrite (bind_done (on_world (modify _)) _ _ _ _ eq_refl).
  set (w1 := set_inflight (delete i (outstanding s)) (at_world s)).
  pose proof (frame_serve rq w1) as Hfr. pose proof (serve_ends rq w1) as Hfe.
  pose proof (accepts _ rq w1 (proj1 (Forall_lookup _ _) A6 _ _ Ei) A7) as Hacc.
  unfold mbind, M_bind in Hacc. unfold mbind at 1, M_bind at 1, on_world at 1. cbn [at_world set_world].
  fold w1. destruct (serve rq w1) as [[r|t|] w']; [|done|done]. destruct Hfr as (Hw & _). cbn in Hw.
  unfold callback. destruct r as [|results]; [done|].
  rewrite (bind_done fetch_add_index _ _ _ _ eq_refl). cbn [latsArrayIndex set_world].
  destruct (kMaxEntries <=? latsArrayIndex s) eqn:E; [done|]. apply Z.leb_gt in E.
  rewrite (bind_done (mret tt) _ _ _ _ eq_refl), (bind_done (record_latency _ _) _ _ _ _ eq_refl).
  unfold mbind at 1, M_bind at 1, on_world at 1. cbn [at_world set_latencies set_index set_world].
  pose proof (accepts_frame results w') as Hfi. pose proof (accepts_ends results w') as Hfie.
  destruct (inspect results w') as [[[]|t|] w2]; [|done|done]. destruct Hfi as (Hw2 & _). cbn in Hw2.
  rewrite (bind_done (modify _) _ _ _ _ eq_refl), (bind_done get _ _ _ _ eq_refl).
  assert (wrapU 32 (latsArrayIndex s + 1) = latsArrayIndex s + 1) as Hx
    by (apply wrapU_id; unfold kMaxEntries in E; lia).
  unfold mret, M_ret. rewrite Hw in Hw2. unfold outstanding at 1.
  cbn [set_out set_world set_latencies at_world]. rewrite Hw2. split; [|exact Hd].
  split; unfold outstanding;
    cbn [set_out set_world set_latencies set_index at_world outCnt_ latencies latsArrayIndex];
    rewrite ?Hw2, ?length_app; cbn [length].
  - rewrite A1. lia.
  - lia.
  - rewrite fmap_app, A3, Nat2Z.inj_add, seqZ_app by lia.
    f_equal. change (Z.of_nat 1) with 1. rewrite seqZ_cons by lia. cbn. by rewrite A4.
  - rewrite Hx. lia.
  - rewrite Hx. unfold kMaxEntries in *. lia.
  - by apply Forall_delete.
  - by rewrite Nat.add_1_r.
Qed.

Lemma answer_accounts i sent n :
  ends (fun s => accounts sent s /\ length (outstanding s) = n)
    (answer maxOutstanding round_trip inspect i)
    (fun _ s => accounts sent s /\ length (outstanding s) = (if decide (i < n)%nat then n - 1 else n)%nat).
Proof.
  intros s [Hs Hn]. unfold answer. rewrite (bind_done (gets outstanding) _ _ _ _ eq_refl).
  destruct (outstanding s !! i) as [rq|] eqn:Ei.
  - pose proof (lookup_lt_Some _ _ _ Ei) as Hi. rewrite decide_True by lia.
    pose proof (taken_accounts i rq sent s Hs Ei) as Ha. rewrite Hn in Ha.
    match type of Ha with match ?x with _ => _ end => by destruct x as [[b|t|] s'] end.
  - apply lookup_ge_None in Ei. rewrite decide_False by lia. by split.
Qed.

Lemma run_answers_accounts answers : forall sent,
  ends (accounts sent) (run_answers maxOutstanding round_trip inspect answers) (fun _ => accounts sent).
Proof.
  induction answers as [|i answers IH]; intros sent; cbn [run_answers]; [by apply triple_ret|].
  eapply (triple_bind _ _ _ (fun _ => accounts sent)).
  - intros s Hs. pose proof (answer_accounts i sent _ s (conj Hs eq_refl)) as Ha.
    destruct (answer _ _ _ i s) as [[b|t|] s']; [apply Ha|done|done].
  - intros []; [by apply triple_ret|apply IH].
Qed.

Lemma runOnce_accounts sent :
  ends (accounts sent) (runOnce maxOutstanding round_trip inspect ready) (fun _ => accounts sent).
Proof.
  intros s Hs. unfold runOnce. rewrite (bind_done get _ _ _ _ eq_refl).
  rewrite (bind_done (modify _) _ _ _ _ eq_refl). apply run_answers_accounts.
  by apply (accounts_same sent s).
Qed.

(** Sending a request and counting it. *)
Lemma sending_accounts send `{!Queues good send} sent {B} (k : unit -> M thread B) (Q : B -> thread -> Prop) :
  ends (accounts (S sent)) (k tt) Q ->
  ends (accounts sent)
    (status ← on_world send; assertM status ;; modify (fun s => set_out (outCnt_ s + 1) s) ≫= k) Q.
Proof.
  intros Hk s [A1 A2 A3 A4 A5 A6 A7]. pose proof (queues (at_world s)) as Hq.
  unfold mbind at 1, M_bind at 1, on_world at 1.
  destruct (send (at_world s)) as [[b|t|] w']; [|done|done].
  destruct Hq as (-> & Hdb & rq & Hrq & Hw). rewrite (bind_done (assertM true) _ _ _ _ eq_refl).
  rewrite (bind_done (modify _) _ _ _ _ eq_refl). apply Hk.
  unfold outstanding in *. split; unfold outstanding;
    cbn [set_out set_world at_world outCnt_ latencies latsArrayIndex];
    rewrite ?Hw, ?Hdb, ?length_app; cbn [length]; try done; try lia.
  apply Forall_app. by split; [|constructor].
Qed.

Lemma send_turn_accounts send `{!Queues good send} sent :
  ends (accounts sent) (send_turn maxOutstanding round_trip inspect ready send)
    (fun _ => accounts (S sent)).
Proof.
  apply (sending_accounts send sent (fun _ => _)). intros s Hs.
  rewrite (bind_done get _ _ _ _ eq_refl).
  destruct (maxOutstanding <=? _); [by apply runOnce_accounts|].
  destruct (_ <? _); [by apply runOnce_accounts|exact Hs].
Qed.

(** No part of a turn reads the flag. *)
Definition same_tests (s s' : thread) : Prop := at_tests s' = at_tests s.

#[export] Instance same_tests_preorder : PreOrder same_tests.
Proof. split; [done|]. intros s1 s2 s3 H1 H2. unfold same_tests in *. congruence. Qed.

Lemma tests_world {A} (m : M world A) : preserves same_tests (on_world m).
Proof. intros s. unfold on_world. by destruct (m (at_world s)). Qed.

Lemma tests_modify f : (forall s, at_tests (f s) = at_tests s) -> preserves same_tests (modify f).
Proof. intros Hf s. apply Hf. Qed.

Lemma tests_callback r : preserves same_tests (callback maxOutstanding round_trip inspect r).
Proof.
  destruct r as [|results]; unfold callback; [by apply preserves_throw, _|].
  apply preserves_bind; [apply _|by intros s|]. intros aryIndex.
  apply preserves_bind; [apply _|case_match; [by apply preserves_throw, _|by apply preserves_ret, _]|].
  intros _. apply preserves_bind; [apply _|by apply tests_modify|]. intros _.
  apply preserves_bind; [apply _|apply tests_world|]. intros _.
  apply preserves_bind; [apply _|by apply tests_modify|]. intros _.
  apply preserves_bind; [apply _|done|]. intros s. apply preserves_ret, _.
Qed.

Lemma tests_runOnce : preserves same_tests (runOnce maxOutstanding round_trip inspect ready).
Proof.
  unfold runOnce. apply preserves_bind; [apply _|done|]. intros s.
  apply preserves_bind; [apply _|by apply tests_modify|]. intros _.
  generalize (ready (at_runs s)). intros answers.
  induction answers as [|i answers IH]; cbn [run_answers]; [apply preserves_ret, _|].
  apply preserves_bind; [apply _| |intros []; [apply preserves_ret, _|apply IH]].
  unfold answer. apply preserves_bind; [apply _|apply preserves_gets, _|]. intros l.
  case_match; [|apply preserves_ret, _]. apply preserves_bind; [apply _|apply tests_world|]. intros _.
  apply preserves_bind; [apply _|apply tests_world|]. apply tests_callback.
Qed.

Lemma tests_send_turn send :
  preserves same_tests (send_turn maxOutstanding round_trip inspect ready send).
Proof.
  unfold send_turn. apply preserves_bind; [apply _|apply tests_world|]. intros b.
  apply preserves_bind; [apply _|apply preserves_assert, _|]. intros _.
  apply preserves_bind; [apply _|by apply tests_modify|]. intros _.
  apply preserves_bind; [apply _|done|]. intros s.
  repeat case_match; [apply tests_runOnce..|apply preserves_ret, _].
Qed.

(** A loop whose turns send one request or, if [lo] is 0, perhaps none. *)
Lemma do_while_accounts {X} (turn : X -> M thread X) (lo : nat) :
  (forall x sent, ends (accounts sent) (turn x)
     (fun _ s => exists k, (lo <= k <= 1)%nat /\ accounts (sent + k) s)) ->
  (forall x, preserves same_tests (turn x)) ->
  forall n x sent s, accounts sent s ->
  (forall k, (k < n)%nat -> mainFinished (at_tests s + k)%nat = false) ->
  mainFinished (at_tests s + n)%nat = true ->
  match do_while mainFinished turn (S n) x s with
  | (Done _, s') => exists m, (lo * S n <= m <= S n)%nat /\ accounts (sent + m) s'
  | (Trap _, _) => True
  | (OutOfFuel, _) => False
  end.
Proof.
  intros Hturn Htests n. induction n as [|n IH]; intros x sent s Hs Hf Ht;
    match goal with |- context [do_while mainFinished turn (S ?m) x s] =>
      change (do_while mainFinished turn (S m) x s) with
        ((x' ← turn x; finished ← test_finished mainFinished;
          if (finished : bool) then mret x' else do_while mainFinished turn m x') s) end;
    pose proof (Hturn x sent s Hs) as H1; pose proof (Htests x s) as H2;
    unfold mbind at 1, M_bind at 1;
    (destruct (turn x s) as [[x'|t|] s1]; [|done|done]); unfold same_tests in H2; cbn in H2;
    destruct H1 as (k & Hk & H1);
    rewrite (bind_done (test_finished mainFinished) _ _ _ _ eq_refl), H2.
  - rewrite Nat.add_0_r in Ht. rewrite Ht. exists k. split; [lia|].
    by apply (accounts_same _ s1).
  - replace (mainFinished (at_tests s)) with false
      by (symmetry; rewrite <- (Nat.add_0_r (at_tests s)); apply Hf; lia).
    pose proof (IH x' (sent + k)%nat (set_tests (S (at_tests s)) s1)
      ltac:(by apply (accounts_same _ s1))
      ltac:(intros j Hj; cbn; rewrite <- Nat.add_succ_r; apply Hf; lia)
      ltac:(cbn; by rewrite <- Nat.add_succ_r)) as Hrec.
    destruct (do_while mainFinished turn (S n) x' _) as [[x2|t|] s2]; [|done|done].
    destruct Hrec as (m & Hm & Hacc). exists (k + m)%nat. split; [nia|].
    by rewrite Nat.add_assoc.
Qed.

(** Every answer is waited for. *)
Lemma drain_accounts pick fuel : forall sent s,
  accounts sent s -> (length (outstanding s) <= fuel)%nat ->
  match drain maxOutstanding round_trip inspect fuel pick s with
  | (Done _, s') => accounts sent s' /\ outstanding s' = []
  | (Trap _, _) => True
  | (OutOfFuel, _) => False
  end.
Proof.
  induction fuel as [|fuel IH]; intros sent s Hs Hlen; cbn [drain];
    rewrite (bind_done (gets outstanding) _ _ _ _ eq_refl);
    destruct (outstanding s) as [|rq l] eqn:El; [by split|cbn in Hlen; lia|by split|].
  set (i := (pick (S fuel) mod length (rq :: l))%nat).
  pose proof (answer_accounts i sent _ s (conj Hs eq_refl)) as Ha. rewrite El in Ha.
  assert (i < length (rq :: l))%nat as Hi by (by apply Nat.mod_upper_bound).
  rewrite decide_True in Ha by done. unfold mbind, M_bind.
  destruct (answer _ _ _ i s) as [[b|t|] s']; [|done|done]. destruct Ha as [Ha Hl].
  apply IH; [done|]. cbn in Hl, Hlen. lia.
Qed.

(** What the accounts say when no request is outstanding. *)
Lemma accounts_drained sent s :
  accounts sent s -> outstanding s = [] ->
  outCnt_ s = 0 /\ (latencies s).*1 = seqZ i0 (Z.of_nat sent) /\
  latsArrayIndex s = i0 + Z.of_nat sent /\ after sent (w_db (at_world s)).
Proof.
  intros [A1 A2 A3 A4 A5 A6 A7] E. rewrite E in A1, A2. cbn in A1, A2.
  replace (length (latencies s)) with sent in * by lia. done.
Qed.

Lemma accounts_start w :
  w_inflight w = [] -> 0 <= i0 <= kMaxEntries -> after 0 (w_db w) -> accounts 0 (new_thread w i0).
Proof.
  intros Hw Hi Ha. split; unfold outstanding; cbn; rewrite ?Hw; try done. lia.
Qed.
End Accounts.
