(* ===== verification/AsyncSyntheticScheduler.v ===== *)
(** * AsyncSyntheticScheduler

    [src/simulation/AsyncSyntheticScheduler.cc]: threads that send scheduling
    requests without waiting for the answers, as fast as they can or at the
    times a generator of arrivals gives (EventLoop.v holds the callback's
    frame, the event loop and the accounts). *)

From S2P Require Import PartitionedFIFOScheduler PartitionedLocalFIFOScheduler SinglePartitionedFIFOTaskScheduler.
From S2P Require Import Prelude Tables World Procs Pool Client Frame SchedulerUtil Binary64 RandomGenerator Drivers EventLoop.

Definition kAlgorithms : list string := [kFifoAlgo; kFifoLocalAlgo; kSinglePartitionedFifoTaskAlgo].

Definition constructScheduler (c : config) (algo : string) : option any_scheduler :=
  if String.eqb algo kFifoAlgo then Some (new_fifo c)
  else if String.eqb algo kFifoLocalAlgo then Some (new_fifo_local c)
  else if String.eqb algo kSinglePartitionedFifoTaskAlgo then Some (new_single c (f32_of_int 0))
  else None.

(** What the callback does with an answer: [DbosId] is an [int]. *)
Definition check_worker (results : table) : M world unit :=
  selectedWorker ← first_int64 results;
  assertM (bool_decide (0 <= wrap32 selectedWorker)).

Section Thread.
Context `{Env, Samples} (maxOutstanding : Z) (asched : M world bool).
Context (round_trip : nat -> Z) (clock : nat -> Z) (mainFinished : nat -> bool) (ready : nat -> list nat).

Definition getCurrTimeUsec : M thread Z := fun s =>
  (Done (clock (at_clock s)), set_clock (S (at_clock s)) s).

(** The conversion of an interval that is no [uint64_t] is undefined. *)
Definition next_interval (g : Generator) : M thread Z := fun s =>
  (match generate_usec g (at_samples s) with Some d => Done d | None => Trap OutOfBounds end,
   set_samples (S (at_samples s)) s).

(** One turn of the loop with a distribution of arrivals: [currTime] and
    [nextTime]. *)
Definition paced_turn (g : Generator) (times : Z * Z) : M thread (Z * Z) :=
  let '(currTime, nextTime) := times in
  nextTime ← (if nextTime <=? currTime then
                status ← on_world asched;
                assertM status ;;
                modify (fun s => set_out (outCnt_ s + 1) s) ;;
                runOnce maxOutstanding round_trip check_worker ready ;;
                d ← next_interval g;
                mret (wrapU64 (nextTime + d))
              else mret nextTime);
  currTime ← getCurrTimeUsec;
  mret (currTime, nextTime).

(** The loop: [fuel] turns at most. *)
Definition send_loop (iaGen : option Generator) (fuel : nat) : M thread unit :=
  match iaGen with
  | None =>
      do_while mainFinished
        (fun _ => send_turn maxOutstanding round_trip check_worker ready asched) fuel tt
  | Some g =>
      currTime ← getCurrTimeUsec;
      d ← next_interval g;
      do_while mainFinished (paced_turn g) fuel (currTime, wrapU64 (currTime + d)) ;;
      mret tt
  end.

Definition SchedulerThread (iaGen : option Generator) (fuel : nat) (pick : nat -> nat) : M thread unit :=
  modify (set_out 0) ;;
  send_loop iaGen fuel ;;
  s ← get;
  drain maxOutstanding round_trip check_worker (length (outstanding s)) pick.
End Thread.

(** ** Requests that take a unit of capacity *)

(** [k] units were taken from a well-formed database that had [C]. *)
Definition taken (C : Z) (k : nat) (d : db) : Prop :=
  wf_db d /\ total_capacity d = C - Z.of_nat k.

(** A procedure whose nonnegative results are units taken. *)
Definition takes_one (m : M world Z) : Prop := forall w, wf_db (w_db w) ->
  match m w with
  | (Done z, w') => 0 <= wrap32 z ->
      wf_db (w_db w') /\ total_capacity (w_db w') = total_capacity (w_db w) - 1
  | _ => True
  end.

Definition selects `{Env} (rq : request) : Prop :=
  exists m, takes_one m /\ call_procedure (rq_name rq) (rq_args rq) = Some (long_proc m).

#[export] Instance selects_accepts `{En : Env} C : Accepts selects check_worker (taken C).
Proof.
  split.
  - intros t. unfold check_worker. apply preserves_bind; [apply _|apply frame_first_int64|].
    intros z. apply preserves_assert, _.
  - intros t w. unfold check_worker, mbind, M_bind. pose proof (first_int64_ends t w).
    destruct (first_int64 t w) as [[z|tr|] w']; [|done|done]. by case_bool_decide.
  - intros k rq w (m & Hm & Ec) [Hwf Ht]. unfold serve. rewrite Ec. unfold mbind at 1, M_bind at 1.
    destruct (transaction (long_proc m) w) as [[r|tr|] w'] eqn:Et; [|done|done].
    apply transaction_cases in Et as [[_ ->]|(t & Et & [->| ->])]; [done| |done].
    unfold long_proc in Et. apply bind_inv in Et as (z & w1 & Ez & Et). injection Et as <- <-.
    specialize (Hm (tick w) Hwf). rewrite Ez in Hm. unfold check_worker.
    rewrite (bind_done _ _ _ z w1) by done. case_bool_decide as Hz; [|done]. cbn.
    destruct (Hm Hz) as [Hwf' Ht']. split; [done|]. cbn in Ht'. lia.
Qed.

Lemma select_post_takes cand p miss hit effect w o :
  select_post cand p miss hit (effect p) w o -> wf_db (w_db w) ->
  (forall r, r ∈ cand p (w_db w) -> r ∈ free_workers p (w_db w)) -> takes_unit effect ->
  wrap32 miss < 0 ->
  match o with
  | (Done z, w') => 0 <= wrap32 z ->
      wf_db (w_db w') /\ total_capacity (w_db w') = total_capacity (w_db w) - 1
  | _ => True
  end.
Proof.
  intros [[_ ->]|(r & Hr & ->)] Hwf Hc Ht Hm; [lia|]. intros _. rewrite w_db_set_db.
  apply Hc, elem_of_free_workers in Hr as (Hp & Hf & Hin).
  subst p. split; [by apply (takes_wf _ Ht)|by apply (takes_total _ Ht)].
Qed.

(** A task number that is the NULL of its column makes the statement fail. *)
Lemma insertTask_null t i s p w : ~ id_ok t -> insertTask t i s p w = (Trap UncaughtException, w).
Proof.
  intros Ht. unfold insertTask, int_col, id_ok in *.
  destruct (in_signedb 32 t) eqn:E; [|done]. apply in_signedb_spec in E. unfold in_signed in E.
  by replace t with (-2147483648) by lia.
Qed.

Lemma takes_SelectWorker `{Env} p : takes_one (SelectWorker_run p).
Proof.
  intros w Hwf. eapply select_post_takes; [by apply SelectWorker_spec|done..].
Qed.

Lemma takes_SelectOrderedWorker `{Env} p t : takes_one (SelectOrderedWorker_run p t).
Proof.
  intros w Hwf. destruct (decide (id_ok t)) as [Ht|Ht].
  - eapply select_post_takes; [by apply SelectOrderedWorker_spec|done|apply fullest_sub|done|done].
  - unfold SelectOrderedWorker_run. rewrite bind_read.
    destruct (pick_row_cases (fullest (free_workers p (w_db w))) w) as [[_ E]|(r & _ & E)]; run_bind E.
    + by intros Hz.
    + by rewrite (bind_trap _ _ _ _ _ (insertTask_null _ _ _ _ _ Ht)).
Qed.

Lemma takes_SelectSingle `{Env} p t : takes_one (SelectSinglePartitionedTaskWorker_run p t).
Proof.
  intros w Hwf. destruct (decide (id_ok t)) as [Ht|Ht].
  - eapply select_post_takes; [by apply SelectSingle_spec|done..].
  - unfold SelectSinglePartitionedTaskWorker_run. rewrite bind_read.
    destruct (pick_row_cases (free_workers p (w_db w)) w) as [[_ E]|(r & _ & E)]; run_bind E.
    + by intros Hz.
    + by rewrite (bind_trap _ _ _ _ _ (insertTask_null _ _ _ _ _ Ht)).
Qed.

#[export] Instance fifo_queues `{Env} s : Queues selects (PartitionedFIFOScheduler.asyncSchedule s).
Proof.
  intros w. unfold PartitionedFIFOScheduler.asyncSchedule, mbind, M_bind, c_rand, int_rem.
  case_decide; [done|]. split; [done|]. split; [done|]. eexists. split; [|done].
  eexists. split; [apply takes_SelectWorker|done].
Qed.

#[export] Instance fifo_local_queues `{Env} s : Queues selects (PartitionedLocalFIFOScheduler.asyncSchedule s).
Proof.
  intros w. unfold PartitionedLocalFIFOScheduler.asyncSchedule, mbind, M_bind, c_rand, int_rem.
  cbn. case_decide; [done|]. split; [done|]. split; [done|]. eexists. split; [|done].
  eexists. split; [apply takes_SelectOrderedWorker|done].
Qed.

#[export] Instance single_queues `{Env} s : Queues selects (SinglePartitionedFIFOTaskScheduler.asyncSchedule s).
Proof.
  intros w. unfold SinglePartitionedFIFOTaskScheduler.asyncSchedule, mbind, M_bind, c_rand, int_rem.
  cbn. case_decide; [done|]. split; [done|]. split; [done|]. eexists. split; [|done].
  eexists. split; [apply takes_SelectSingle|done].
Qed.

Lemma scheduler_queues `{Env} c algo s :
  constructScheduler c algo = Some s -> Queues selects (asyncSchedule_any s).
Proof.
  unfold constructScheduler. repeat (case_match; [intros [= <-]; cbn; apply _|]). done.
Qed.

(** ** The accounts of a thread *)

Section Paced.
Context `{Env, Samples} (maxOutstanding : Z) (asched : M world bool).
Context (round_trip : nat -> Z) (clock : nat -> Z) (mainFinished : nat -> bool) (ready : nat -> list nat).
Context (i0 C : Z) `{!Queues selects asched}.

Abbreviation acc := (accounts i0 selects (taken C)).

Lemma clock_accounts sent :
  ends (acc sent) (getCurrTimeUsec clock) (fun _ => acc sent).
Proof. intros s Hs. by apply (accounts_same _ _ _ sent s). Qed.

Lemma interval_accounts g sent :
  ends (acc sent) (next_interval g) (fun _ => acc sent).
Proof.
  intros s Hs. unfold next_interval. destruct (generate_usec g (at_samples s)); [|done].
  by apply (accounts_same _ _ _ sent s).
Qed.

Lemma paced_turn_accounts g times sent :
  ends (acc sent) (paced_turn maxOutstanding asched round_trip clock ready g times)
    (fun _ s => exists k, (0 <= k <= 1)%nat /\ acc (sent + k) s).
Proof using All.
  destruct times as [cur next]. unfold paced_turn.
  eapply (triple_bind _ _ _ (fun _ s => exists k, (0 <= k <= 1)%nat /\ acc (sent + k) s)).
  - destruct (next <=? cur).
    + apply (sending_accounts i0 selects (taken C) asched sent (fun _ => _)).
      apply (triple_bind _ _ _ (fun _ => acc (S sent))).
      { eapply runOnce_accounts, _. } intros _.
      apply (triple_bind _ _ _ (fun _ => acc (S sent))); [apply interval_accounts|]. intros d.
      apply triple_ret. intros s Hs. exists 1%nat. rewrite Nat.add_1_r. split; [lia|done].
    + apply triple_ret. intros s Hs. exists 0%nat. rewrite Nat.add_0_r. split; [lia|done].
  - intros next' s (k & Hk & Hs). pose proof (clock_accounts (sent + k) s Hs) as Hc.
    unfold mbind, M_bind. destruct (getCurrTimeUsec clock s) as [[t|tr|] s']; [|done|done].
    cbn. by exists k.
Qed.

Lemma paced_turn_tests g times :
  preserves same_tests (paced_turn maxOutstanding asched round_trip clock ready g times).
Proof.
  destruct times as [cur next]. unfold paced_turn.
  assert (preserves same_tests (next_interval g)) as Hg
    by (intros s; unfold next_interval; by destruct (generate_usec g (at_samples s))).
  apply preserves_bind; [apply _| |intros nt; apply preserves_bind; [apply _|done|intros; apply preserves_ret, _]].
  case_match; [|apply preserves_ret, _].
  apply preserves_bind; [apply _|apply tests_world|]. intros b.
  apply preserves_bind; [apply _|apply preserves_assert, _|]. intros _.
  apply preserves_bind; [apply _|by apply tests_modify|]. intros _.
  apply preserves_bind; [apply _|apply tests_runOnce|]. intros _.
  apply preserves_bind; [apply _|done|]. intros d. apply preserves_ret, _.
Qed.

Lemma fast_turn_accounts sent :
  ends (acc sent) (send_turn maxOutstanding round_trip check_worker ready asched)
    (fun _ s => exists k, (1 <= k <= 1)%nat /\ acc (sent + k) s).
Proof using All.
  eapply triple_weaken; [eapply send_turn_accounts; apply _|done|].
  intros [] s Hs. exists 1%nat. rewrite Nat.add_1_r. split; [lia|done].
Qed.

(** The loop of either kind, until the [n]-th reading of the flag stops it. *)
Lemma send_loop_accounts iaGen n s :
  acc 0 s -> (forall k, (k < n)%nat -> mainFinished (at_tests s + k)%nat = false) ->
  mainFinished (at_tests s + n)%nat = true ->
  match send_loop maxOutstanding asched round_trip clock mainFinished ready iaGen (S n) s with
  | (Done _, s') => exists m, (m <= S n)%nat /\ (iaGen = None -> m = S n) /\ acc m s'
  | (Trap _, _) => True
  | (OutOfFuel, _) => False
  end.
Proof using All.
  intros Hs Hf Ht. unfold send_loop. destruct iaGen as [g|].
  - rewrite (bind_done (getCurrTimeUsec clock) _ _ _ _ eq_refl).
    unfold mbind at 1, M_bind at 1, next_interval at 1.
    destruct (generate_usec g (at_samples _)) as [d|]; [|done].
    unfold mbind at 1, M_bind at 1.
    match goal with |- context [do_while mainFinished ?turn (S n) ?x ?s1] =>
      pose proof (do_while_accounts mainFinished i0 selects (taken C) turn 0
        (paced_turn_accounts g) (paced_turn_tests g) n x 0 s1
        ltac:(by apply (accounts_same _ _ _ 0 s)) Hf Ht) as Hd;
      destruct (do_while mainFinished turn (S n) x s1) as [[x'|t|] s']; [|done|done]
    end.
    destruct Hd as (m & Hm & Hacc). exists m. split; [lia|]. split; [done|]. exact Hacc.
  - pose proof (do_while_accounts mainFinished i0 selects (taken C)
      (fun _ : unit => send_turn maxOutstanding round_trip check_worker ready asched) 1
      (fun _ => fast_turn_accounts) (fun _ => tests_send_turn maxOutstanding round_trip check_worker ready asched)
      n tt 0 s Hs Hf Ht) as Hd.
    destruct (do_while mainFinished _ (S n) tt s) as [[x'|t|] s']; [|done|done].
    destruct Hd as (m & Hm & Hacc). exists m. split; [lia|]. split; [lia|exact Hacc].
Qed.
End Paced.

(** C25: a thread of the asynchronous benchmark, with any of its algorithms and
    with or without a distribution of arrivals, always ends, whatever the event
    loop finds ready and in whatever order the answers arrive.  When nothing
    stopped it (a failed call, a request without a worker, a full array), all
    requests were answered: none is outstanding, the counter of the callback is
    back at zero, each request has its latency in a slot of its own, and each
    took exactly one unit of capacity of the database. *)
Theorem async_thread_accounts `{En : Env, Sm : Samples} c algo sched iaGen (round_trip clock : nat -> Z)
    (mainFinished : nat -> bool) (ready : nat -> list nat) (pick : nat -> nat) n w index :
  constructScheduler c algo = Some sched ->
  wf_db (w_db w) -> w_inflight w = [] -> 0 <= index <= kMaxEntries ->
  (forall k, (k < n)%nat -> mainFinished k = false) -> mainFinished n = true ->
  match SchedulerThread (maxOutstanding c) (asyncSchedule_any sched) round_trip clock mainFinished ready
          iaGen (S n) pick (new_thread w index) with
  | (Done _, s) => exists m, (m <= S n)%nat /\ (iaGen = None -> m = S n) /\
      outstanding s = [] /\ outCnt_ s = 0 /\
      (latencies s).*1 = seqZ index (Z.of_nat m) /\ latsArrayIndex s = index + Z.of_nat m /\
      total_capacity (w_db (at_world s)) = total_capacity (w_db w) - Z.of_nat m
  | (Trap _, _) => True
  | (OutOfFuel, _) => False
  end.
Proof.
  intros Hc Hwf Hw Hi Hf Ht. pose proof (scheduler_queues c algo sched Hc) as Hq.
  unfold SchedulerThread. rewrite (bind_done (modify _) _ _ _ _ eq_refl).
  set (C := total_capacity (w_db w)).
  assert (accounts index selects (taken C) 0 (set_out 0 (new_thread w index))) as Hs
    by (apply accounts_start; [done|done|split; [done|symmetry; apply Z.sub_0_r]]).
  pose proof (send_loop_accounts (maxOutstanding c) (asyncSchedule_any sched) round_trip clock
    mainFinished ready index C iaGen n _ Hs Hf Ht) as H1.
  unfold mbind at 1, M_bind at 1.
  destruct (send_loop _ _ _ _ _ _ iaGen (S n) _) as [[[]|t|] s1]; [|done|done].
  destruct H1 as (m & Hm & Hm' & H1). rewrite (bind_done get _ _ _ _ eq_refl).
  pose proof (drain_accounts (maxOutstanding c) round_trip check_worker index selects (taken C) pick _ _ _
    H1 (le_n _)) as H2.
  destruct (drain _ _ _ _ pick s1) as [[[]|t|] s2]; [|done|done]. destruct H2 as [H2 He].
  destruct (accounts_drained index selects (taken C) _ _ H2 He) as (D1 & D2 & D3 & [_ D4]).
  exists m. by split_and!.
Qed.

(** A turn without answers. *)
Lemma send_turn_silent `{Env} maxOutstanding asched `{!Queues selects asched} (round_trip : nat -> Z) s :
  match send_turn maxOutstanding round_trip check_worker (fun _ => []) asched s with
  | (Done _, s') => outCnt_ s' = outCnt_ s + 1 /\ at_tests s' = at_tests s /\
      length (outstanding s') = S (length (outstanding s))
  | (Trap _, _) => True
  | (OutOfFuel, _) => False
  end.
Proof.
  unfold send_turn. pose proof (queues (at_world s)) as Hq.
  unfold mbind at 1, M_bind at 1, on_world at 1.
  destruct (asched (at_world s)) as [[b|t|] w']; [|done|done]. destruct Hq as (-> & _ & rq & _ & Hw).
  rewrite (bind_done (assertM true) _ _ _ _ eq_refl), (bind_done (modify _) _ _ _ _ eq_refl),
    (bind_done get _ _ _ _ eq_refl).
  assert (length (w_inflight w') = S (length (outstanding s))) as Hl
    by (unfold outstanding; rewrite Hw, length_app; cbn; lia).
  destruct (maxOutstanding <=? _); [|destruct (_ <? _)]; by split_and!.
Qed.

(** [maxOutstanding] is no bound: [runOnce] returns at once when no answer
    is ready, and the loop sends the next request all the same; while no answer
    arrives every turn leaves one more request outstanding. *)
Theorem outstanding_is_unbounded `{En : Env, Sm : Samples} c algo sched (round_trip clock : nat -> Z)
    (mainFinished : nat -> bool) n s :
  constructScheduler c algo = Some sched ->
  (forall k, (k < n)%nat -> mainFinished (at_tests s + k)%nat = false) ->
  mainFinished (at_tests s + n)%nat = true ->
  match send_loop (maxOutstanding c) (asyncSchedule_any sched) round_trip clock mainFinished
          (fun _ => []) None (S n) s with
  | (Done _, s') => outCnt_ s' = outCnt_ s + Z.of_nat (S n) /\
                    length (outstanding s') = (length (outstanding s) + S n)%nat
  | (Trap _, _) => True
  | (OutOfFuel, _) => False
  end.
Proof.
  intros Hc. pose proof (scheduler_queues c algo sched Hc) as Hq. unfold send_loop.
  set (turn := fun _ : unit => send_turn (maxOutstanding c) round_trip check_worker (fun _ => [])
    (asyncSchedule_any sched)).
  revert s. induction n as [|n IH]; intros s Hf Ht;
    match goal with |- context [do_while mainFinished turn (S ?m) tt s] =>
      change (do_while mainFinished turn (S m) tt s) with
        ((x' ← turn tt; finished ← test_finished mainFinished;
          if (finished : bool) then mret x' else do_while mainFinished turn m x') s) end;
    pose proof (send_turn_silent (maxOutstanding c) (asyncSchedule_any sched) round_trip s) as H1;
    fold (turn tt) in H1; unfold mbind at 1, M_bind at 1;
    (destruct (turn tt s) as [[[]|t|] s1]; [|done|done]); destruct H1 as (H1 & H2 & H3);
    rewrite (bind_done (test_finished mainFinished) _ _ _ _ eq_refl), H2.
  - rewrite Nat.add_0_r in Ht. rewrite Ht. cbn. unfold outstanding in *. cbn. lia.
  - replace (mainFinished (at_tests s)) with false
      by (symmetry; rewrite <- (Nat.add_0_r (at_tests s)); apply Hf; lia).
    pose proof (IH (set_tests (S (at_tests s)) s1)
      ltac:(intros k Hk; cbn; rewrite <- Nat.add_succ_r; apply Hf; lia)
      ltac:(cbn; by rewrite <- Nat.add_succ_r)) as Hn.
    destruct (do_while mainFinished turn (S n) tt _) as [[[]|t|] s2]; [|done|done].
    unfold outstanding in *. cbn [outCnt_ at_world set_tests] in *. lia.
Qed.

(** ** Examples *)

Definition async_demo : config :=
  {| numSchedulers := 1; numClientThreads := 1; numWorkers := 2; numTasks := 8; partitions := 2;
     workerCapacity := 9; probMultiTx := f32_of_int 0; measureIntervalMsec := 2000;
     totalExecTimeMsec := 10000; arrivalDelay := 0; reqPerSec := f64_of_int 100;
     reqDist := kNoDist; scheduleAlgo := kFifoAlgo; maxOutstanding := 2; cleanDB := false;
     noSetupDB := false; serverAddr := "localhost" |}.

Definition async_demo_world : world :=
  init_world (Db [WorkerRow 0 9 0 0 ""; WorkerRow 1 9 0 1 ""] [] [] [] [] []).

#[local] Instance async_env : Env := steady Z.of_nat.
#[local] Instance async_samples : Samples :=
  {| exponential _ _ := f64_of_int 0; uniform _ _ := f64_of_int 0 |}.

(** Five requests; an answer arrives at every second run of the event loop. *)
Lemma async_thread_accounts_witness :
  exists s', SchedulerThread 2 (asyncSchedule_any (new_fifo async_demo)) (fun _ => 1) Z.of_nat
      (fun i => bool_decide (i = 4%nat)) (fun r => if Nat.even r then [0%nat] else []) None 5 (fun i => i)
      (new_thread async_demo_world 5) = (Done tt, s') /\
    outstanding s' = [] /\ outCnt_ s' = 0 /\ total_capacity (w_db (at_world s')) = 13.
Proof.
  pose proof (async_thread_accounts async_demo kFifoAlgo (new_fifo async_demo) None (fun _ => 1) Z.of_nat
    (fun i => bool_decide (i = 4%nat)) (fun r => if Nat.even r then [0%nat] else []) (fun i => i) 4
    async_demo_world 5 eq_refl ltac:(split; [by vm_compute; repeat constructor; set_solver|by repeat constructor])
    eq_refl ltac:(by vm_compute) ltac:(by intros [|[|[|[|k]]]] Hk; [..|lia]) eq_refl) as Ha.
  change (maxOutstanding async_demo) with 2 in Ha.
  destruct (SchedulerThread _ _ _ _ _ _ None 5 _ _) as [[[]|t|] s'] eqn:E; [|vm_compute in E; discriminate..].
  destruct Ha as (m & _ & Hm & H1 & H2 & _ & _ & H3). rewrite (Hm eq_refl) in H3.
  exists s'. split; [done|]. split; [exact H1|]. split; [exact H2|exact H3].
Defined.

(** Five requests outstanding where at most two were asked for. *)
Lemma outstanding_is_unbounded_witness :
  exists s', send_loop 2 (asyncSchedule_any (new_fifo async_demo)) (fun _ => 1) Z.of_nat
      (fun i => bool_decide (i = 4%nat)) (fun _ => []) None 5 (new_thread async_demo_world 5) = (Done tt, s') /\
    outCnt_ s' = 5 /\ length (outstanding s') = 5%nat.
Proof.
  pose proof (outstanding_is_unbounded async_demo kFifoAlgo (new_fifo async_demo) (fun _ => 1) Z.of_nat
    (fun i => bool_decide (i = 4%nat)) 4 (new_thread async_demo_world 5) eq_refl
    ltac:(by intros [|[|[|[|k]]]] Hk; [..|lia]) eq_refl) as Ha.
  change (maxOutstanding async_demo) with 2 in Ha.
  destruct (send_loop _ _ _ _ _ _ None 5 _) as [[[]|t|] s'] eqn:E; [|vm_compute in E; discriminate..].
  destruct Ha as (H1 & H2). exists s'. split; [done|]. split; [exact H1|exact H2].
Defined.
