(* ===== verification/CommunicationBench.v ===== *)
(** * CommunicationBench

    [src/simulation/CommunicationBench.cc]: threads that send messages through
    the database, to every partition or by a broadcast, without waiting for
    the answers.  The callback, the turns and the accounts are those of
    EventLoop.v; the callback looks at no result. *)

From S2P Require Import Prelude Tables World Procs Client Frame SchedulerUtil Binary64 RandomGenerator Drivers EventLoop.

Definition kAlgorithms : list string := [kFifoAlgo].

Definition constructScheduler (c : config) (algo : string) : option any_scheduler :=
  if String.eqb algo kFifoAlgo then Some (new_fifo c)
  else if String.eqb algo kFifoTaskAlgo then Some (new_fifo_task c)
  else if String.eqb algo kSinglePartitionedFifoTaskAlgo then Some (new_single c (probMultiTx c))
  else if String.eqb algo kSparkAlgo then Some (new_spark c)
  else if String.eqb algo kScanTaskAlgo then Some (new_scan c)
  else if String.eqb algo kPushFifoAlgo then Some (new_push c)
  else None.

Definition no_check (results : table) : M world unit := mret tt.

Section Thread.
Context `{Env} (broadcast : bool) (partitions maxOutstanding : Z).
Context (round_trip : nat -> Z) (mainFinished : nat -> bool) (ready : nat -> list nat).

(** The operation of a turn; any scheduler inherits both. *)
Definition send_messages : M world bool :=
  if broadcast then asyncBroadcastMessage else asyncSendMessage 0 partitions.

Definition SenderThread (fuel : nat) (pick : nat -> nat) : M thread unit :=
  modify (set_out 0) ;;
  do_while mainFinished
    (fun _ => send_turn maxOutstanding round_trip no_check ready send_messages) fuel tt ;;
  s ← get;
  drain maxOutstanding round_trip no_check (length (outstanding s)) pick.
End Thread.

(** ** Broadcasts *)

Definition broadcast_request (rq : request) : Prop := rq = Request "BroadcastMessage" [VInt 0].

(** [k] messages were stored behind the rows [b]. *)
Definition stored (b : list Z) (k : nat) (d : db) : Prop := Broadcast d = b ++ replicate k 0.

#[export] Instance broadcast_accepts `{Env} b : Accepts broadcast_request no_check (stored b).
Proof.
  split; [done|done|]. intros k rq w -> Hk. unfold serve. cbn [call_procedure find_proc rq_name rq_args].
  set (m := long_proc (BroadcastMessage_run 0)).
  change (match _ with Some m => transaction m | None => mret RFailure end) with (transaction m).
  unfold mbind at 1, M_bind at 1. destruct (transaction m w) as [[r|tr|] w'] eqn:Et; [|done|done].
  apply transaction_cases in Et as [[_ ->]|(t & Et & [->| ->])]; [done| |done].
  injection Et as <- <-. unfold stored in *.
  change (Broadcast (w_db w) ++ [0] = b ++ replicate (S k) 0). by rewrite Hk, replicate_S_end, app_assoc.
Qed.

#[export] Instance broadcast_queues `{Env} partitions : Queues broadcast_request (send_messages true partitions).
Proof. intros w. split; [done|]. split; [done|]. by eexists. Qed.

(** With [-b] a sender thread always ends, whatever is ready in the event
    loop and in whatever order the answers arrive.  When nothing stopped it, all
    of its requests were answered, each with its latency in a slot of its own,
    and the Broadcast table has one more row for each. *)
Theorem broadcasts_are_stored `{En : Env} partitions maxOutstanding (round_trip : nat -> Z)
    (mainFinished : nat -> bool) (ready : nat -> list nat) (pick : nat -> nat) n w index :
  w_inflight w = [] -> 0 <= index <= kMaxEntries ->
  (forall k, (k < n)%nat -> mainFinished k = false) -> mainFinished n = true ->
  match SenderThread true partitions maxOutstanding round_trip mainFinished ready (S n) pick
          (new_thread w index) with
  | (Done _, s) =>
      outstanding s = [] /\ outCnt_ s = 0 /\
      (latencies s).*1 = seqZ index (Z.of_nat (S n)) /\
      Broadcast (w_db (at_world s)) = Broadcast (w_db w) ++ replicate (S n) 0
  | (Trap _, _) => True
  | (OutOfFuel, _) => False
  end.
Proof.
  intros Hw Hi Hf Ht. unfold SenderThread. rewrite (bind_done (modify _) _ _ _ _ eq_refl).
  set (b := Broadcast (w_db w)).
  assert (accounts index broadcast_request (stored b) 0 (set_out 0 (new_thread w index))) as Hs
    by (apply accounts_start; [done|done|symmetry; apply app_nil_r]).
  pose proof (do_while_accounts mainFinished index broadcast_request (stored b)
    (fun _ : unit => send_turn maxOutstanding round_trip no_check ready (send_messages true partitions)) 1)
    as Hd.
  specialize (Hd ltac:(intros [] sent; eapply triple_weaken; [eapply send_turn_accounts; apply _|done|];
    intros [] s Hsent; exists 1%nat; rewrite Nat.add_1_r; by split; [lia|])).
  specialize (Hd ltac:(intros []; apply tests_send_turn) n tt 0%nat _ Hs Hf Ht).
  unfold mbind at 1, M_bind at 1.
  destruct (do_while mainFinished _ (S n) tt _) as [[[]|t|] s1]; [|done|done].
  destruct Hd as (m & Hm & H1). rewrite (bind_done get _ _ _ _ eq_refl).
  pose proof (drain_accounts maxOutstanding round_trip no_check index broadcast_request (stored b) pick _ _ _
    H1 (le_n _)) as H2.
  destruct (drain _ _ _ _ pick s1) as [[[]|t|] s2]; [|done|done]. destruct H2 as [H2 He].
  destruct (accounts_drained index broadcast_request (stored b) _ _ H2 He) as (D1 & D2 & D3 & D4).
  replace (0 + m)%nat with (S n) in * by lia. by split_and!.
Qed.

(** ** Messages to the partitions *)

Section Messages.
Context `{Env} (partitions maxOutstanding : Z) (partitions_pos : 0 < partitions).
Context (round_trip : nat -> Z) (mainFinished : nat -> bool) (ready : nat -> list nat) (d0 : db).

Definition is_message (rq : request) : Prop := exists i, rq = message_to i.

(** Nothing was stored and no answer was taken in; what is outstanding are
    messages. *)
Record waiting (s : thread) : Prop := {
  wt_db : w_db (at_world s) = d0;
  wt_lats : latencies s = [];
  wt_out : Forall is_message (outstanding s);
}.

(** The process has exited. *)
Definition exits (o : outcome unit * thread) : Prop :=
  exists s, o = (Trap ProcessExit, s) /\ w_db (at_world s) = d0 /\ latencies s = [].

Lemma answer_waiting i s :
  waiting s ->
  answer maxOutstanding round_trip no_check i s =
  match outstanding s !! i with
  | None => (Done false, s)
  | Some _ => (Trap ProcessExit, set_world (set_inflight (delete i (outstanding s)) (at_world s)) s)
  end.
Proof.
  intros [W1 W2 W3]. unfold answer. rewrite (bind_done (gets outstanding) _ _ _ _ eq_refl).
  destruct (outstanding s !! i) as [rq|] eqn:Ei; [|done].
  destruct (proj1 (Forall_lookup _ _) W3 _ _ Ei) as [j ->].
  rewrite (bind_done (on_world (modify _)) _ _ _ _ eq_refl).
  assert (forall w, serve (message_to j) w = (Done RFailure, w)) as Es by (intros; by apply serve_unknown).
  unfold mbind, M_bind, on_world at 1. by rewrite Es.
Qed.

(** A run of the event loop that returns took in no answer. *)
Lemma run_waiting answers s :
  waiting s ->
  run_answers maxOutstanding round_trip no_check answers s = (Done tt, s) \/
  exits (run_answers maxOutstanding round_trip no_check answers s).
Proof.
  intros Hs. induction answers as [|i answers IH]; cbn [run_answers]; [by left|].
  unfold mbind, M_bind. rewrite answer_waiting by done.
  destruct (outstanding s !! i); [|exact IH]. right. destruct Hs. by eexists.
Qed.

Lemma drain_waiting pick s :
  waiting s -> outstanding s <> [] ->
  exits (drain maxOutstanding round_trip no_check (length (outstanding s)) pick s).
Proof.
  intros Hs Hne. destruct (outstanding s) as [|rq l] eqn:El; [done|]. cbn [length drain].
  rewrite (bind_done (gets outstanding) _ _ _ _ eq_refl), El.
  set (i := (pick (S (length l)) mod length (rq :: l))%nat).
  assert (i < length (rq :: l))%nat as Hi by (by apply Nat.mod_upper_bound).
  apply lookup_lt_is_Some_2 in Hi as [rq' Hi]. unfold mbind, M_bind.
  rewrite answer_waiting, El, Hi by done. destruct Hs. by eexists.
Qed.

Lemma turn_waiting s :
  waiting s ->
  match send_turn maxOutstanding round_trip no_check ready (send_messages false partitions) s with
  | (Done _, s') => waiting s' /\ outstanding s' <> []
  | o => exits o
  end.
Proof using partitions_pos.
  intros [W1 W2 W3]. unfold send_turn.
  set (l := (fun k => message_to (0 + Z.of_nat k)) <$> seq 0 (Z.to_nat partitions)).
  assert (send_messages false partitions (at_world s) =
    (Done true, set_inflight (w_inflight (at_world s) ++ l) (at_world s))) as E.
  { unfold send_messages, asyncSendMessage. by run_bind (send_loop (Z.to_nat partitions) 0 (at_world s)). }
  unfold mbind at 1, M_bind at 1, on_world at 1. rewrite E.
  rewrite (bind_done (assertM true) _ _ _ _ eq_refl), (bind_done (modify _) _ _ _ _ eq_refl),
    (bind_done get _ _ _ _ eq_refl).
  set (s1 := set_out _ _). assert (waiting s1 /\ outstanding s1 <> []) as [Hs1 Hne].
  { split.
    - split; [exact W1|exact W2|]. unfold outstanding in *. cbn. apply Forall_app. split; [exact W3|].
      apply Forall_fmap, Forall_forall. intros k _. by eexists.
    - unfold outstanding, l. cbn. destruct (Z.to_nat partitions) eqn:En; [lia|]. cbn.
      by intros [_ ?]%app_eq_nil. }
  assert (match runOnce maxOutstanding round_trip no_check ready s1 with
          | (Done _, s') => waiting s' /\ outstanding s' <> []
          | o => exits o
          end) as Hr.
  { unfold runOnce. rewrite (bind_done get _ _ _ _ eq_refl), (bind_done (modify _) _ _ _ _ eq_refl).
    set (s2 := set_runs _ _). assert (waiting s2) as Hs2 by (destruct Hs1; by split).
    destruct (run_waiting (ready (at_runs s1)) s2 Hs2) as [-> |(s' & E' & He)]; [by split|].
    rewrite E'. by exists s'. }
  destruct (maxOutstanding <=? _); [exact Hr|]. destruct (_ <? _); [exact Hr|]. by split.
Qed.

Lemma loop_waiting n : forall s,
  waiting s -> (forall k, (k < n)%nat -> mainFinished (at_tests s + k)%nat = false) ->
  mainFinished (at_tests s + n)%nat = true ->
  match do_while mainFinished
    (fun _ => send_turn maxOutstanding round_trip no_check ready (send_messages false partitions)) (S n) tt s with
  | (Done _, s') => waiting s' /\ outstanding s' <> []
  | o => exits o
  end.
Proof using partitions_pos.
  set (turn := fun _ : unit => send_turn maxOutstanding round_trip no_check ready (send_messages false partitions)).
  induction n as [|n IH]; intros s Hs Hf Ht;
    match goal with |- context [do_while mainFinished turn (S ?m) tt s] =>
      change (do_while mainFinished turn (S m) tt s) with
        ((x' ← turn tt; finished ← test_finished mainFinished;
          if (finished : bool) then mret x' else do_while mainFinished turn m x') s) end;
    pose proof (turn_waiting s Hs) as H1;
    pose proof (tests_send_turn maxOutstanding round_trip no_check ready (send_messages false partitions) s)
      as H2;
    fold (turn tt) in H1, H2; unfold mbind at 1, M_bind at 1;
    (destruct (turn tt s) as [[[]|t|] s1];
      [|by destruct H1 as (s' & [= -> ->] & He); exists s'|by destruct H1 as (s' & [=] & _)]);
    unfold same_tests in H2; cbn in H2;
    rewrite (bind_done (test_finished mainFinished) _ _ _ _ eq_refl), H2; destruct H1 as [[W1 W2 W3] Hne].
  - rewrite Nat.add_0_r in Ht. rewrite Ht. by split.
  - replace (mainFinished (at_tests s)) with false
      by (symmetry; rewrite <- (Nat.add_0_r (at_tests s)); apply Hf; lia).
    apply IH; [by split|intros k Hk; cbn; rewrite <- Nat.add_succ_r; apply Hf; lia|
      cbn; by rewrite <- Nat.add_succ_r].
Qed.
End Messages.

(** Without [-b], the default, the benchmark cannot be run: every message a
    sender thread sends is rejected, the callback exits the process at the first
    answer that is taken in, at the latest when the thread drains its client;
    no message was stored and no latency recorded. *)
Theorem message_thread_exits `{En : Env} partitions maxOutstanding (round_trip : nat -> Z)
    (mainFinished : nat -> bool) (ready : nat -> list nat) (pick : nat -> nat) n w index :
  0 < partitions -> w_inflight w = [] ->
  (forall k, (k < n)%nat -> mainFinished k = false) -> mainFinished n = true ->
  exists s, SenderThread false partitions maxOutstanding round_trip mainFinished ready (S n) pick
      (new_thread w index) = (Trap ProcessExit, s) /\
    w_db (at_world s) = w_db w /\ latencies s = [].
Proof.
  intros Hp Hw Hf Ht. unfold SenderThread. rewrite (bind_done (modify _) _ _ _ _ eq_refl).
  assert (waiting (w_db w) (set_out 0 (new_thread w index))) as Hs
    by (split; [done|done|unfold outstanding; cbn; by rewrite Hw]).
  pose proof (loop_waiting partitions maxOutstanding Hp round_trip mainFinished ready (w_db w) n _ Hs Hf Ht)
    as Hloop.
  unfold mbind at 1, M_bind at 1.
  destruct (do_while mainFinished _ (S n) tt _) as [[[]|t|] s1].
  - destruct Hloop as [H1 Hne]. rewrite (bind_done get _ _ _ _ eq_refl). by apply drain_waiting.
  - destruct Hloop as (s & [= -> ->] & He). by exists s.
  - by destruct Hloop as (s & [=] & _).
Qed.

(** ** Examples *)

#[local] Instance bench_env : Env := steady Z.of_nat.

Definition bench_world : world := init_world (Db [] [] [] [] [] []).

(** Three broadcasts, two of them answered while the thread sends. *)
Lemma broadcasts_are_stored_witness :
  exists s, SenderThread true 8 2 (fun _ => 1) (fun i => bool_decide (i = 2%nat)) (fun _ => [0%nat]) 3
      (fun i => i) (new_thread bench_world 0) = (Done tt, s) /\
    outstanding s = [] /\ Broadcast (w_db (at_world s)) = [0; 0; 0].
Proof.
  pose proof (broadcasts_are_stored 8 2 (fun _ => 1) (fun i => bool_decide (i = 2%nat)) (fun _ => [0%nat])
    (fun i => i) 2 bench_world 0 eq_refl ltac:(by vm_compute) ltac:(by intros [|[|k]] Hk; [..|lia]) eq_refl)
    as Ha.
  destruct (SenderThread _ _ _ _ _ _ 3 _ _) as [[[]|t|] s] eqn:E; [|vm_compute in E; discriminate..].
  destruct Ha as (H1 & _ & _ & H2). exists s. split; [done|]. split; [exact H1|exact H2].
Defined.

(** No answer is ready while the thread sends: it exits when it drains. *)
Lemma message_thread_exits_witness :
  exists s, SenderThread false 8 1 (fun _ => 1) (fun i => bool_decide (i = 2%nat)) (fun _ => []) 3
      (fun i => i) (new_thread bench_world 0) = (Trap ProcessExit, s) /\
    w_db (at_world s) = w_db bench_world /\ latencies s = [].
Proof.
  apply (message_thread_exits 8 1 (fun _ => 1) (fun i => bool_decide (i = 2%nat)) (fun _ => [])
    (fun i => i) 2 bench_world 0 ltac:(lia) eq_refl ltac:(by intros [|[|k]] Hk; [..|lia]) eq_refl).
Defined.
