(* ===== verification/MessageBench.v ===== *)
(** * Ping-pong through the database

    [src/simulation/DBCommBenchClient.cc] and [DBCommBenchServer.cc]: a sender
    thread and a receiver thread in two processes exchange batches of messages
    through the Message table.  A batch is sent asynchronously and followed by
    the event loop, whose callback counts the answers; the other side polls the
    table until it has received a whole batch. *)

From S2P Require Import Prelude Tables World Procs Pool Client Frame SchedulerUtil.

(** ** Sending and receiving *)

Section Calls.
Context `{Env} (numMessages : Z).

Definition SendMessage_procedure : Procedure :=
  Procedure_new "SendMessage" [scalar WIRE_TYPE_INTEGER; scalar WIRE_TYPE_INTEGER;
                               scalar WIRE_TYPE_BIGINT; scalar WIRE_TYPE_STRING].

(** [params->addInt32(receiver).addInt32(sender_id)] and so on. *)
Definition message_params (receiver sender_id time : Z) (data : string) (ps : ParameterSet) :
    option ParameterSet :=
  ((addInt32 receiver ps ≫= addInt32 sender_id) ≫= addInt64 time) ≫= addString data.

Definition message_request (receiver sender_id time : Z) (data : string) : M world request :=
  match message_params receiver sender_id time data (reset (m_params SendMessage_procedure)) with
  | None => throw UncaughtException
  | Some ps =>
      match serializeTo ps with
      | None => throw UncaughtException
      | Some (vs, _) => mret (Request (m_name SendMessage_procedure) vs)
      end
  end.

(** The loop of [dbos_send], from message [i] on; [clock] gives the time of each
    message.  The server has no [broadcast]. *)
Fixpoint queue_messages (broadcast : bool) (receiver_id sender_id : Z) (data : string) (clock : nat -> Z)
    (n i : nat) : M world (list request) :=
  match n with
  | O => mret []
  | S n' =>
      let receiver := if broadcast then receiver_id + Z.of_nat i else receiver_id in
      rq ← message_request receiver sender_id (wrap64 (wrapU64 (clock i))) data;
      rest ← queue_messages broadcast receiver_id sender_id data clock n' (S i);
      mret (rq :: rest)
  end.

(** The client's [dbos_recv]: the number of messages. *)
Definition dbos_recv (receiverID : Z) : M world Z :=
  r ← invoke (Procedure_new "ReceiveMessage" [scalar WIRE_TYPE_INTEGER]) [VInt receiverID];
  match r with
  | RFailure => throw ProcessExit
  | RSuccess results => mret (Z.of_nat (length results))
  end.

(** The server's, which also stores the sender of the first message. *)
Definition dbos_recv_from (receiverID sender_id : Z) : M world (Z * Z) :=
  r ← invoke (Procedure_new "ReceiveMessage" [scalar WIRE_TYPE_INTEGER]) [VInt receiverID];
  match r with
  | RFailure => throw ProcessExit
  | RSuccess results =>
      sender ← (match results with
                | [] => mret sender_id
                | (VInt s :: _) :: _ => mret s
                | _ => throw UncaughtException
                end : M world Z);
      mret (Z.of_nat (length results), sender)
  end.
End Calls.

(** ** The two threads *)

(** In the event loop after a batch was queued; polling with [recvd] messages
    so far; or at the end of the thread. *)
Inductive phase := Running | Receiving (recvd : Z) | Finished.

Record endpoint := Endpoint {
  ph : phase;
  m_count : Z;                    (* of [SendCallback] *)
  queued : list request;          (* sent, not yet executed *)
  answers : list response;        (* executed, the callback was not yet called *)
}.

Record state := State_ {
  st_world : world;
  sender : endpoint;
  rounds : nat;                   (* exchanges the sender has completed *)
  receiver : endpoint;
  clientId : Z;
  served : nat;                   (* batches the receiver has answered *)
}.

(** [SendCallback::callback]; the event loop is left when the count is zero. *)
Definition callback (numMessages : Z) (j : nat) (e : endpoint) : endpoint :=
  let c := m_count e - 1 in
  if c =? 0 then Endpoint (Receiving 0) numMessages (queued e) (delete j (answers e))
  else Endpoint (ph e) c (queued e) (delete j (answers e)).

Definition executed (i : nat) (r : response) (e : endpoint) : endpoint :=
  Endpoint (ph e) (m_count e) (delete i (queued e)) (answers e ++ [r]).
Definition received (n : Z) (e : endpoint) : endpoint :=
  Endpoint (Receiving n) (m_count e) (queued e) (answers e).
Definition sent (q : list request) (e : endpoint) : endpoint :=
  Endpoint Running (m_count e) (queued e ++ q) (answers e).
Definition stopped (e : endpoint) : endpoint :=
  Endpoint Finished (m_count e) (queued e) (answers e).

Section Threads.
Context `{Env} (numMessages threadId : Z) (data : string).
(** The times of the messages of each batch. *)
Context (clock_s clock_r : nat -> nat -> Z).

(** Receivers have the id of the sender plus 100. *)
Definition receiver_id : Z := threadId + 100.

Definition send_batch (k : nat) : M world (list request) :=
  queue_messages false receiver_id threadId data (clock_s k) (Z.to_nat numMessages) 0.
Definition reply_batch (client : Z) (k : nat) : M world (list request) :=
  queue_messages false client receiver_id data (clock_r k) (Z.to_nat numMessages) 0.

(** Both threads connect; the sender sends its first batch, the receiver polls. *)
Definition start (w : world) (q : list request) : state :=
  State_ w (Endpoint Running numMessages q []) 0 (Endpoint (Receiving 0) numMessages [] []) (-1) 0.

Inductive step (s : state) : state -> Prop :=
  | sender_executed i rq r w :
      queued (sender s) !! i = Some rq -> serve rq (st_world s) = (Done r, w) ->
      step s (State_ w (executed i r (sender s)) (rounds s) (receiver s) (clientId s) (served s))
  | sender_callback j r :
      ph (sender s) = Running -> answers (sender s) !! j = Some r ->
      step s (State_ (st_world s) (callback numMessages j (sender s)) (rounds s) (receiver s) (clientId s) (served s))
  | sender_receives r n w :
      ph (sender s) = Receiving r -> r < numMessages ->
      dbos_recv threadId (st_world s) = (Done n, w) ->
      step s (State_ w (received (r + n) (sender s)) (rounds s) (receiver s) (clientId s) (served s))
  | sender_next r q w :
      ph (sender s) = Receiving r -> numMessages <= r ->
      send_batch (S (rounds s)) (st_world s) = (Done q, w) ->
      step s (State_ w (sent q (sender s)) (S (rounds s)) (receiver s) (clientId s) (served s))
  | sender_stops r :   (* [mainFinished]; the first exchange is not followed by a test *)
      ph (sender s) = Receiving r -> numMessages <= r -> (0 < rounds s)%nat ->
      step s (State_ (st_world s) (stopped (sender s)) (S (rounds s)) (receiver s) (clientId s) (served s))
  | receiver_executed i rq r w :
      queued (receiver s) !! i = Some rq -> serve rq (st_world s) = (Done r, w) ->
      step s (State_ w (sender s) (rounds s) (executed i r (receiver s)) (clientId s) (served s))
  | receiver_callback j r :
      ph (receiver s) = Running -> answers (receiver s) !! j = Some r ->
      step s (State_ (st_world s) (sender s) (rounds s) (callback numMessages j (receiver s)) (clientId s) (served s))
  | receiver_receives r n c w :
      ph (receiver s) = Receiving r -> r < numMessages ->
      dbos_recv_from receiver_id (clientId s) (st_world s) = (Done (n, c), w) ->
      step s (State_ w (sender s) (rounds s) (received (r + n) (receiver s)) c (served s))
  | receiver_replies r q w :
      ph (receiver s) = Receiving r -> numMessages <= r ->
      reply_batch (clientId s) (served s) (st_world s) = (Done q, w) ->
      step s (State_ w (sender s) (rounds s) (sent q (receiver s)) (clientId s) (S (served s))).
End Threads.

(** ** What the calls do to the table *)

Definition inbox (x : Z) (d : db) : list message_row := filter (fun m => ReceiverID m = x) (Message d).

(** The messages for no one of the pair. *)
Definition foreign (x y : Z) (d : db) : list message_row :=
  filter (fun m => ReceiverID m <> x /\ ReceiverID m <> y) (Message d).

Definition delivered (to from : Z) (d d' : db) : Prop :=
  exists m, ReceiverID m = to /\ SenderID m = from /\ Message d' = Message d ++ [m].
Definition polled (x : Z) (d d' : db) : Prop :=
  Message d' = filter (fun m => ReceiverID m <> x) (Message d).

Lemma inbox_delivered to from d d' x :
  delivered to from d d' ->
  (x <> to -> inbox x d' = inbox x d) /\
  (exists m, SenderID m = from /\ inbox to d' = inbox to d ++ [m]) /\
  foreign to x d' = foreign to x d /\ foreign x to d' = foreign x to d.
Proof.
  intros (m & Hto & Hfrom & Hd). unfold inbox, foreign. rewrite Hd, !filter_app.
  rewrite !filter_cons, !filter_nil. split_and!.
  - intros Hx. rewrite decide_False by congruence. apply app_nil_r.
  - exists m. by rewrite decide_True.
  - rewrite decide_False by tauto. apply app_nil_r.
  - rewrite decide_False by tauto. apply app_nil_r.
Qed.

Lemma filter_filter {A} (P Q : A -> Prop) `{!forall x, Decision (P x), !forall x, Decision (Q x)} (l : list A) :
  filter P (filter Q l) = filter (fun x => P x /\ Q x) l.
Proof.
  induction l as [|x l IH]; [done|]. rewrite !filter_cons.
  repeat case_decide; rewrite ?filter_cons; repeat case_decide; try tauto; by rewrite ?IH.
Qed.

Lemma inbox_polled x y d d' :
  polled x d d' ->
  inbox x d' = [] /\ (y <> x -> inbox y d' = inbox y d) /\
  foreign x y d' = foreign x y d /\ foreign y x d' = foreign y x d.
Proof.
  intros Hd. unfold inbox, foreign. rewrite Hd, !filter_filter. split_and!.
  - induction (Message d) as [|m l IH]; [done|]. rewrite filter_cons. case_decide; [tauto|done].
  - intros Hx. apply list_filter_iff. intros m. split; [tauto|]. intros <-. by split.
  - apply list_filter_iff. tauto.
  - apply list_filter_iff. tauto.
Qed.

Section Effects.
Context `{Env}.

(** A message of one of the threads. *)
Definition is_message (to from : Z) (rq : request) : Prop :=
  exists t d, - 9223372036854775808 < t < 9223372036854775808 /\
    rq = Request "SendMessage" [VInt to; VInt from; VInt t; VStr d].

Lemma serve_message_reliable `{!Reliable} to from rq w :
  id_ok to -> id_ok from -> is_message to from rq ->
  exists r w', serve rq w = (Done r, w') /\ delivered to from (w_db w) (w_db w').
Proof.
  intros Hto Hfrom (t & d & Ht & ->).
  assert (SendMessage_run to from t d (tick w) =
    (Done SUCCESS, set_db (on_Message (fun l => l ++ [MessageRow to from t d]) (w_db w)) (tick w))) as E.
  { unfold SendMessage_run. rewrite (bind_done _ _ _ _ _ (int_col_ok to (tick w) Hto)),
      (bind_done _ _ _ _ _ (int_col_ok from (tick w) Hfrom)).
    assert (bigint_col t (tick w) = (Done t, tick w)) as E.
    { unfold bigint_col. rewrite (proj2 (in_signedb_spec 64 t)) by (unfold in_signed; lia).
      by rewrite bool_decide_eq_false_2 by lia. }
    by run_bind E. }
  eexists _, _. split; [by apply (transaction_long (SendMessage_run to from t d))|].
  by exists (MessageRow to from t d).
Qed.

(** A message is delivered or, if its transaction fails, lost. *)
Lemma serve_message to from rq w r w' :
  id_ok to -> id_ok from -> is_message to from rq -> serve rq w = (Done r, w') ->
  (w_db w' = w_db w /\ (Reliable -> False)) \/ delivered to from (w_db w) (w_db w').
Proof.
  intros Hto Hfrom Hm E0. pose proof E0 as E. pose proof Hm as (t & d & Ht & ->).
  apply (transaction_cases (long_proc (SendMessage_run to from t d))) in E as [[E _]|(rs & E & _)].
  - left. split; [done|]. intros HR.
    destruct (serve_message_reliable to from _ w Hto Hfrom Hm) as (r' & w2 & E2 & m & _ & _ & Hd).
    rewrite E0 in E2. injection E2 as _ <-. rewrite E in Hd. apply (f_equal length) in Hd.
    rewrite length_app in Hd. cbn in Hd. lia.
  - unfold long_proc in E. apply bind_inv in E as (z & w1 & E & E1). injection E1 as _ <-.
    unfold SendMessage_run in E. apply bind_inv in E as (r1 & w2 & E1 & E).
    apply bind_inv in E as (s1 & w3 & E2 & E). apply bind_inv in E as (m1 & w4 & E3 & E).
    injection E as _ <-. right.
    assert (forall z v w w', int_col z w = (Done v, w') -> v = z /\ w' = w) as Hi
      by (intros z0 v w0 w0'; unfold int_col; case_match; by intros [= -> ->]).
    apply Hi in E1 as [-> ->], E2 as [-> ->].
    unfold bigint_col in E3. destruct (_ && _) in E3; [|done]. injection E3 as <- <-.
    by exists (MessageRow to from t d).
Qed.

Lemma serve_message_aborted rq w r w' :
  fate_stream (w_tick w) = Aborted -> serve rq w = (Done r, w') -> w_db w' = w_db w.
Proof.
  intros Hf E. unfold serve in E. case_match; [|by injection E as _ <-].
  rewrite transaction_aborted in E by done. by injection E as _ <-.
Qed.

(** A poll returns the whole inbox and empties it. *)
Lemma ReceiveMessage_done x w t w' :
  ReceiveMessage_run x w = (Done t, w') ->
  exists rows, rows ≡ₚ inbox x (w_db w) /\
    t = (fun m => [VInt (SenderID m); VInt (MessageID m); VStr (Data m)]) <$> rows /\
    polled x (w_db w) (w_db w').
Proof.
  unfold ReceiveMessage_run. rewrite bind_read. fold (inbox x (w_db w)).
  destruct (pick_rows_spec (length (inbox x (w_db w))) (inbox x (w_db w)) w)
    as (rows & rest & k & Ep & Hlen & Hp).
  assert (rest = []) as ->.
  { rewrite Nat.min_id in Hlen. apply Permutation_length in Hp. rewrite length_app in Hp.
    destruct rest; [done|cbn in Hp; lia]. }
  rewrite app_nil_r in Hp. run_bind Ep. intros E. exists rows. split; [done|].
  destruct (decide (length rows < 1)%nat) as [Hl|Hl].
  - injection E as <- <-. split; [done|]. unfold polled. cbn.
    destruct rows as [|m rows]; [|cbn in Hl; lia]. apply Permutation_nil_r in Hp.
    unfold inbox in Hp. induction (Message (w_db w)) as [|m l IH]; [done|].
    rewrite filter_cons in Hp |- *. case_decide; [done|]. rewrite decide_True by done. f_equal. by apply IH.
  - injection E as <- <-. split; [done|]. done.
Qed.

Lemma dbos_recv_done x w n w' :
  dbos_recv x w = (Done n, w') ->
  n = Z.of_nat (length (inbox x (w_db w))) /\ polled x (w_db w) (w_db w').
Proof.
  intros E. unfold dbos_recv in E. apply bind_inv in E as (r & w1 & E & E1).
  apply (transaction_cases (ReceiveMessage_run x)) in E as [[_ ->]|(t & E & Hr)]; [done|].
  destruct r as [|results]; [done|]. injection E1 as <- <-. destruct Hr as [[= ->]|[=]].
  apply ReceiveMessage_done in E as (rows & Hp & -> & Hd). split; [|exact Hd].
  by rewrite length_fmap, Hp.
Qed.

Lemma dbos_recv_from_done x c w n c' w' :
  dbos_recv_from x c w = (Done (n, c'), w') ->
  n = Z.of_nat (length (inbox x (w_db w))) /\ polled x (w_db w) (w_db w') /\
  ((n = 0 /\ c' = c) \/ exists m, m ∈ inbox x (w_db w) /\ c' = SenderID m).
Proof.
  intros E. unfold dbos_recv_from in E. apply bind_inv in E as (r & w1 & E & E1).
  apply (transaction_cases (ReceiveMessage_run x)) in E as [[_ ->]|(t & E & Hr)]; [done|].
  destruct r as [|results]; [done|]. destruct Hr as [[= ->]|[=]].
  apply ReceiveMessage_done in E as (rows & Hp & -> & Hd). rewrite <- Hp.
  destruct rows as [|m rows].
  - injection E1 as <- <- <-. split; [done|]. split; [exact Hd|]. by left.
  - injection E1 as <- <- <-. cbn. rewrite length_fmap. split; [done|]. split; [exact Hd|]. right.
    exists m. split; [|done]. rewrite <- Hp. by left.
Qed.

Lemma ReceiveMessage_total x w : exists t w', ReceiveMessage_run x w = (Done t, w').
Proof.
  unfold ReceiveMessage_run. rewrite bind_read.
  match goal with |- context [pick_rows ?k ?l] =>
    destruct (pick_rows_spec k l w) as (rows & rest & j & Ep & _) end.
  run_bind Ep. case_decide; by eexists _, _.
Qed.

Lemma receive_invoked `{!Reliable} x w :
  exists t w', invoke (Procedure_new "ReceiveMessage" [scalar WIRE_TYPE_INTEGER]) [VInt x] w =
    (Done (RSuccess t), w') /\ ReceiveMessage_run x (tick w) = (Done t, w').
Proof.
  destruct (ReceiveMessage_total x (tick w)) as (t & w' & E). exists t, w'. split; [|done].
  by apply transaction_committed in E.
Qed.

Lemma dbos_recv_total `{!Reliable} x w : exists n w', dbos_recv x w = (Done n, w').
Proof.
  destruct (receive_invoked x w) as (t & w' & E & _). unfold dbos_recv. run_bind E. by eexists _, _.
Qed.

Lemma dbos_recv_from_total `{!Reliable} x c w : exists n c' w', dbos_recv_from x c w = (Done (n, c'), w').
Proof.
  destruct (receive_invoked x w) as (t & w' & E & Er). unfold dbos_recv_from. run_bind E.
  apply ReceiveMessage_done in Er as (rows & _ & -> & _). destruct rows as [|m rows]; by eexists _, _, _.
Qed.

Lemma message_request_run to from t d w :
  message_request to from t d w =
  (Done (Request "SendMessage" [VInt to; VInt from; VInt t; VStr d]), w).
Proof. reflexivity. Qed.

Lemma queue_messages_cons to from d clock n i w t q :
  wrap64 (wrapU64 (clock i)) = t -> queue_messages false to from d clock n (S i) w = (Done q, w) ->
  queue_messages false to from d clock (S n) i w =
  (Done (Request "SendMessage" [VInt to; VInt from; VInt t; VStr d] :: q), w).
Proof.
  intros Ht E. cbn [queue_messages]. rewrite Ht. clear Ht. unfold mbind, M_bind.
  by rewrite message_request_run, E.
Qed.

Lemma queue_messages_run to from d clock n : forall i w,
  (forall j, 0 <= clock j < 9223372036854775808) ->
  exists q, queue_messages false to from d clock n i w = (Done q, w) /\ length q = n /\
    Forall (is_message to from) q.
Proof.
  induction n as [|n IH]; intros i w Hc; [by exists []|].
  destruct (IH (S i) w Hc) as (q & E & Hq & Hall).
  assert (wrap64 (wrapU64 (clock i)) = clock i) as Ht.
  { specialize (Hc i). rewrite wrapU_id by lia. apply wrapS_id; [lia|]. unfold in_signed. lia. }
  eexists. split; [by eapply queue_messages_cons|]. split; [cbn; by rewrite Hq|].
  constructor; [|done]. exists (clock i), d. split; [|done]. specialize (Hc i). lia.
Qed.
End Effects.

(** ** The exchange *)

Ltac fields := cbn [sender receiver rounds served clientId st_world].

(** The messages an endpoint has polled of the current batch. *)
Definition got (e : endpoint) : Z := match ph e with Receiving r => r | _ => 0 end.
Definition unsent (e : endpoint) : Z := Z.of_nat (length (queued e)).

Section Exchange.
Context `{Env} (numMessages threadId : Z) (data : string) (clock_s clock_r : nat -> nat -> Z).
Context (batch : 0 < numMessages).
Context (clock_s_ok : forall k j, 0 <= clock_s k j < 9223372036854775808).
Context (clock_r_ok : forall k j, 0 <= clock_r k j < 9223372036854775808).
Context (sid_ok : id_ok threadId) (rid_ok : id_ok (receiver_id threadId)).

Abbreviation rid := (receiver_id threadId).
Abbreviation sid := threadId.
Abbreviation steps := (step numMessages threadId data clock_s clock_r).

(** The callback waits for as many answers as there are requests. *)
Definition endpoint_ok (e : endpoint) : Prop :=
  match ph e with
  | Running => m_count e = Z.of_nat (length (queued e)) + Z.of_nat (length (answers e)) /\ 0 < m_count e
  | _ => queued e = [] /\ answers e = [] /\ m_count e = numMessages
  end.

Lemma executed_ok i rq r e :
  endpoint_ok e -> queued e !! i = Some rq ->
  ph e = Running /\ endpoint_ok (executed i r e) /\ got (executed i r e) = got e /\
  unsent (executed i r e) = unsent e - 1 /\
  (forall P : request -> Prop, Forall P (queued e) -> Forall P (queued (executed i r e))).
Proof.
  intros He Hi. pose proof (lookup_lt_Some _ _ _ Hi) as Hl. unfold endpoint_ok, got, unsent in *.
  destruct e as [[|n|] c q a]; cbn in *; [|destruct He as (-> & _); done..].
  rewrite length_delete, length_app by done. cbn. split_and!; try done; try lia.
  intros P HP. by apply Forall_delete.
Qed.

Lemma callback_ok j r e :
  endpoint_ok e -> ph e = Running -> answers e !! j = Some r ->
  endpoint_ok (callback numMessages j e) /\ got (callback numMessages j e) = 0 /\
  queued (callback numMessages j e) = queued e /\ ph (callback numMessages j e) <> Finished.
Proof.
  intros He Hp Hj. pose proof (lookup_lt_Some _ _ _ Hj) as Hl.
  assert (length (delete j (answers e)) = length (answers e) - 1)%nat as Hd
    by (rewrite length_delete by (by exists r); lia).
  unfold endpoint_ok, got, callback in *. rewrite Hp in He. destruct He as [Hc Hpos].
  destruct (m_count e - 1 =? 0) eqn:E; cbn [ph queued answers m_count].
  - apply Z.eqb_eq in E. split_and!; try done.
    + apply nil_length_inv. lia.
    + apply nil_length_inv. rewrite Hd. lia.
  - apply Z.eqb_neq in E. rewrite Hp. split_and!; try done; rewrite ?Hd; lia.
Qed.

Lemma endpoint_received n n' e :
  endpoint_ok e -> ph e = Receiving n ->
  endpoint_ok (received n' e) /\ queued e = [] /\ queued (received n' e) = [] /\ got e = n.
Proof.
  intros He Hp. unfold endpoint_ok, got in *. rewrite Hp in He. cbn. destruct He as (H1 & H2 & H3).
  rewrite Hp. by split_and!.
Qed.

Lemma sent_ok n q e :
  endpoint_ok e -> ph e = Receiving n -> Z.of_nat (length q) = numMessages ->
  endpoint_ok (sent q e) /\ queued (sent q e) = q /\ got (sent q e) = 0.
Proof using batch.
  intros He Hp Hq. unfold endpoint_ok, got in *. rewrite Hp in He. destruct He as (H1 & H2 & H3).
  cbn. rewrite H1, H2. cbn. split_and!; try done; lia.
Qed.

(** The sender's batch is on its way or polled: [n] messages are left of it. *)
Record ping (n : Z) (s : state) : Prop := {
  ping_sender : got (sender s) = 0 /\ ph (sender s) <> Finished;
  ping_receiver : queued (receiver s) = [] /\ ph (receiver s) <> Finished /\ 0 <= got (receiver s);
  ping_replies : inbox sid (w_db (st_world s)) = [];
  ping_tokens : unsent (sender s) + Z.of_nat (length (inbox rid (w_db (st_world s)))) + got (receiver s) = n;
  ping_rounds : served s = rounds s;
  ping_queued : Forall (is_message rid sid) (queued (sender s));
  ping_inbox : Forall (fun m => SenderID m = sid) (inbox rid (w_db (st_world s)));
  ping_client : 0 < got (receiver s) -> clientId s = sid;
}.

(** Likewise the receiver's. *)
Record pong (n : Z) (s : state) : Prop := {
  pong_receiver : got (receiver s) = 0 /\ ph (receiver s) <> Finished;
  pong_sender : queued (sender s) = [] /\ ph (sender s) <> Finished /\ 0 <= got (sender s);
  pong_messages : inbox rid (w_db (st_world s)) = [];
  pong_tokens : unsent (receiver s) + Z.of_nat (length (inbox sid (w_db (st_world s)))) + got (sender s) = n;
  pong_rounds : served s = S (rounds s);
  pong_queued : Forall (is_message sid rid) (queued (receiver s));
}.

(** The sender has ended. *)
Record over (s : state) : Prop := {
  over_sender : ph (sender s) = Finished;
  over_receiver : queued (receiver s) = [] /\ ph (receiver s) <> Finished /\ got (receiver s) = 0;
  over_table : inbox sid (w_db (st_world s)) = [] /\ inbox rid (w_db (st_world s)) = [];
  over_rounds : served s = rounds s;
}.

Record safe (s : state) : Prop := {
  safe_sender : endpoint_ok (sender s);
  safe_receiver : endpoint_ok (receiver s);
}.

Lemma rid_sid : rid <> sid.
Proof. unfold receiver_id. lia. Qed.

Lemma finished_or (e e' : endpoint) : ph e' = ph e -> ph e <> Finished -> ph e' <> Finished.
Proof. congruence. Qed.

(** What a step does while the sender's batch is on its way: messages are lost
    only if a transaction is. *)
Lemma ping_step n s s' :
  safe s -> ping n s -> n <= numMessages -> steps s s' ->
  safe s' /\ foreign sid rid (w_db (st_world s')) = foreign sid rid (w_db (st_world s)) /\
  ((exists n', n' <= n /\ (Reliable -> n' = n) /\ ping n' s' /\ rounds s' = rounds s) \/
   (n = numMessages /\ pong numMessages s' /\ rounds s' = rounds s)).
Proof using batch clock_r_ok sid_ok rid_ok.
  intros [O1 O2] [[P1 P1'] (P2 & P2' & P2'') P3 P4 P5 P6 P7 P8] Hn Hs.
  destruct Hs as [i rq r w Hi Hx|j r Hp Hj|r k w Hp Hr Hx|r q w Hp Hr Hx|r Hp Hr Hr'
    |i rq r w Hi Hx|j r Hp Hj|r k c w Hp Hr Hx|r q w Hp Hr Hx]; fields.
  - destruct (executed_ok i rq r _ O1 Hi) as (E1 & E2 & E3 & E4 & E5).
    pose proof (proj1 (Forall_lookup _ _) P6 _ _ Hi) as Hm.
    destruct (serve_message _ _ _ _ _ _ rid_ok sid_ok Hm Hx) as [[Hd Hrel]|Hd].
    + rewrite Hd. split; [by split|]. split; [done|]. left. exists (n - 1). split; [lia|]. split; [done|]. split; [|done].
      split; fields; rewrite ?Hd, ?E3, ?E4; auto; lia.
    + destruct (inbox_delivered _ _ _ _ sid Hd) as (D1 & (m & Dm & D2) & D3 & D4).
      specialize (D1 (not_eq_sym rid_sid)). split; [by split|]. split; [done|]. left.
      exists n. split; [lia|]. split; [done|]. split; [|done]. split; fields; rewrite ?D1, ?D2, ?E3, ?E4; auto.
      * rewrite length_app. cbn. lia.
      * apply Forall_app. split; [done|]. by constructor.
  - destruct (callback_ok j r _ O1 Hp Hj) as (E1 & E2 & E3 & E4).
    split; [by split|]. split; [done|]. left. exists n. split; [lia|]. split; [done|]. split; [|done].
    split; fields; unfold unsent; rewrite ?E3; done.
  - destruct (endpoint_received r (r + k) _ O1 Hp) as (E1 & E2 & E3 & E4).
    destruct (dbos_recv_done _ _ _ _ Hx) as [-> Hd].
    destruct (inbox_polled _ rid _ _ Hd) as (D1 & D2 & D3 & D4). specialize (D2 rid_sid).
    rewrite P3 in *. split; [by split|]. split; [done|]. left. exists n. split; [lia|]. split; [done|]. split; [|done].
    split; fields; rewrite ?D2; auto; [].
    split; [|done]. unfold got in *. cbn. rewrite Hp in P1. lia.
  - unfold got in P1. rewrite Hp in P1. lia.
  - unfold got in P1. rewrite Hp in P1. lia.
  - by rewrite P2 in Hi.
  - destruct (callback_ok j r _ O2 Hp Hj) as (E1 & E2 & E3 & E4).
    split; [by split|]. split; [done|]. left. exists n. split; [lia|]. split; [done|]. split; [|done].
    assert (got (receiver s) = 0) as Hg by (unfold got; by rewrite Hp).
    split; fields; rewrite ?E2, ?E3, ?Hg in *; try done; lia.
  - destruct (endpoint_received r (r + k) _ O2 Hp) as (E1 & E2 & E3 & E4).
    destruct (dbos_recv_from_done _ _ _ _ _ _ Hx) as (-> & Hd & Hc).
    destruct (inbox_polled _ sid _ _ Hd) as (D1 & D2 & D3 & D4). specialize (D2 (not_eq_sym rid_sid)).
    rewrite E4 in *. split; [by split|]. split; [done|]. left. exists n. split; [lia|]. split; [done|]. split; [|done].
    split; fields; rewrite ?D1, ?D2; try done; [split; [done|split; [done|cbn; lia]]|cbn; lia|].
    intros Hg. destruct Hc as [[Hz ->]|(m & Hm & ->)].
    + apply P8. cbn in Hg. lia.
    + by apply (proj1 (Forall_forall _ _) P7).
  - assert (got (receiver s) = r) as Hg by (unfold got; by rewrite Hp).
    assert (unsent (sender s) = 0 /\ inbox rid (w_db (st_world s)) = [] /\ n = numMessages) as (H1 & H2 & H3).
    { unfold unsent in *. rewrite Hg in *. split_and!; [lia| |lia]. apply nil_length_inv. lia. }
    unfold reply_batch in Hx. rewrite P8 in Hx by lia.
    destruct (queue_messages_run sid rid data (clock_r (served s)) (Z.to_nat numMessages) 0 (st_world s)
      (clock_r_ok _)) as (q' & E & Hq & Hall). rewrite E in Hx. injection Hx as <- <-.
    destruct (sent_ok r q' _ O2 Hp ltac:(lia)) as (E1 & E2 & E3).
    split; [by split|]. split; [done|]. right. split; [done|]. split; [|done].
    split; fields; try done; [| |congruence|by rewrite E2].
    + split; [|split; [done|by rewrite P1]]. unfold unsent in H1. apply nil_length_inv. lia.
    + unfold unsent. cbn [queued] in E2. rewrite E2, P3, P1. cbn. lia.
Qed.

(** Likewise while the receiver's batch is on its way. *)
Lemma pong_step n s s' :
  safe s -> pong n s -> n <= numMessages -> steps s s' ->
  safe s' /\ foreign sid rid (w_db (st_world s')) = foreign sid rid (w_db (st_world s)) /\
  ((exists n', n' <= n /\ (Reliable -> n' = n) /\ pong n' s' /\ rounds s' = rounds s) \/
   (n = numMessages /\ rounds s' = S (rounds s) /\ (ping numMessages s' \/ over s'))).
Proof using batch clock_s_ok sid_ok rid_ok.
  intros [O1 O2] [[P1 P1'] (P2 & P2' & P2'') P3 P4 P5 P6] Hn Hs.
  destruct Hs as [i rq r w Hi Hx|j r Hp Hj|r k w Hp Hr Hx|r q w Hp Hr Hx|r Hp Hr Hr'
    |i rq r w Hi Hx|j r Hp Hj|r k c w Hp Hr Hx|r q w Hp Hr Hx]; fields.
  - by rewrite P2 in Hi.
  - destruct (callback_ok j r _ O1 Hp Hj) as (E1 & E2 & E3 & E4).
    split; [by split|]. split; [done|]. left. exists n. split; [lia|]. split; [done|]. split; [|done].
    assert (got (sender s) = 0) as Hg by (unfold got; by rewrite Hp).
    split; fields; rewrite ?E2, ?E3, ?Hg in *; auto; lia.
  - destruct (endpoint_received r (r + k) _ O1 Hp) as (E1 & E2 & E3 & E4).
    destruct (dbos_recv_done _ _ _ _ Hx) as [-> Hd].
    destruct (inbox_polled _ rid _ _ Hd) as (D1 & D2 & D3 & D4). specialize (D2 rid_sid).
    rewrite E4 in *. split; [by split|]. split; [done|]. left. exists n. split; [lia|].
    split; [done|]. split; [|done].
    split; fields; rewrite ?D1, ?D2; auto; [|unfold got; cbn; lia].
    split; [done|]. split; [done|]. unfold got. cbn. lia.
  - assert (got (sender s) = r) as Hg by (unfold got; by rewrite Hp).
    assert (unsent (receiver s) = 0 /\ inbox sid (w_db (st_world s)) = [] /\ n = numMessages) as (H1 & H2 & H3).
    { unfold unsent in *. rewrite Hg in *. split_and!; [lia| |lia]. apply nil_length_inv. lia. }
    destruct (queue_messages_run rid sid data (clock_s (S (rounds s))) (Z.to_nat numMessages) 0 (st_world s)
      (clock_s_ok _)) as (q' & E & Hq & Hall). unfold send_batch in Hx. rewrite E in Hx. injection Hx as <- <-.
    destruct (sent_ok r q' _ O1 Hp ltac:(lia)) as (E1 & E2 & E3).
    split; [by split|]. split; [done|]. right. split; [done|]. split; [done|]. left.
    split; fields; rewrite ?E2, ?P1, ?P3; auto.
    + split; [|done]. unfold unsent in H1. apply nil_length_inv. lia.
    + unfold unsent. rewrite E2. cbn. lia.
    + lia.
  - assert (got (sender s) = r) as Hg by (unfold got; by rewrite Hp).
    assert (unsent (receiver s) = 0 /\ inbox sid (w_db (st_world s)) = [] /\ n = numMessages) as (H1 & H2 & H3).
    { unfold unsent in *. rewrite Hg in *. split_and!; [lia| |lia]. apply nil_length_inv. lia. }
    split; [split; [|done]; unfold endpoint_ok in *; cbn; by rewrite Hp in O1|]. split; [done|]. right.
    split; [done|]. split; [done|]. right. split; fields; auto. split; [|done].
    unfold unsent in H1. apply nil_length_inv. lia.
  - destruct (executed_ok i rq r _ O2 Hi) as (E1 & E2 & E3 & E4 & E5).
    pose proof (proj1 (Forall_lookup _ _) P6 _ _ Hi) as Hm.
    destruct (serve_message _ _ _ _ _ _ sid_ok rid_ok Hm Hx) as [[Hd Hrel]|Hd].
    + rewrite Hd. split; [by split|]. split; [done|]. left. exists (n - 1). split; [lia|].
      split; [done|]. split; [|done]. split; fields; rewrite ?Hd, ?E3, ?E4; auto; lia.
    + destruct (inbox_delivered _ _ _ _ rid Hd) as (D1 & (m & Dm & D2) & D3 & D4).
      specialize (D1 rid_sid). split; [by split|]. split; [done|]. left.
      exists n. split; [lia|]. split; [done|]. split; [|done].
      split; fields; rewrite ?D1, ?D2, ?E3, ?E4; auto. rewrite length_app. cbn. lia.
  - destruct (callback_ok j r _ O2 Hp Hj) as (E1 & E2 & E3 & E4).
    split; [by split|]. split; [done|]. left. exists n. split; [lia|]. split; [done|]. split; [|done].
    split; fields; unfold unsent; rewrite ?E3; auto.
  - destruct (endpoint_received r (r + k) _ O2 Hp) as (E1 & E2 & E3 & E4).
    destruct (dbos_recv_from_done _ _ _ _ _ _ Hx) as (-> & Hd & Hc).
    destruct (inbox_polled _ sid _ _ Hd) as (D1 & D2 & D3 & D4). specialize (D2 (not_eq_sym rid_sid)).
    rewrite P3 in *. split; [by split|]. split; [done|]. left. exists n. split; [lia|].
    split; [done|]. split; [|done].
    split; fields; rewrite ?D2; auto; [].
    split; [|done]. unfold got in *. cbn. rewrite Hp in P1. lia.
  - unfold got in P1. rewrite Hp in P1. lia.
Qed.

Lemma over_step s s' :
  safe s -> over s -> steps s s' ->
  safe s' /\ foreign sid rid (w_db (st_world s')) = foreign sid rid (w_db (st_world s)) /\ over s'.
Proof using batch.
  intros [O1 O2] [P1 (P2 & P2' & P2'') [P3 P3'] P5] Hs.
  destruct Hs as [i rq r w Hi Hx|j r Hp Hj|r k w Hp Hr Hx|r q w Hp Hr Hx|r Hp Hr Hr'
    |i rq r w Hi Hx|j r Hp Hj|r k c w Hp Hr Hx|r q w Hp Hr Hx]; fields.
  - unfold endpoint_ok in O1. rewrite P1 in O1. destruct O1 as (E & _). by rewrite E in Hi.
  - by rewrite P1 in Hp.
  - by rewrite P1 in Hp.
  - by rewrite P1 in Hp.
  - by rewrite P1 in Hp.
  - by rewrite P2 in Hi.
  - destruct (callback_ok j r _ O2 Hp Hj) as (E1 & E2 & E3 & E4).
    split; [by split|]. split; [done|]. split; fields; rewrite ?E3; auto.
  - destruct (endpoint_received r (r + k) _ O2 Hp) as (E1 & E2 & E3 & E4).
    destruct (dbos_recv_from_done _ _ _ _ _ _ Hx) as (-> & Hd & Hc).
    destruct (inbox_polled _ sid _ _ Hd) as (D1 & D2 & D3 & D4). specialize (D2 (not_eq_sym rid_sid)).
    rewrite P3' in *. split; [by split|]. split; [done|]. split; fields; rewrite ?D2; auto.
    split; [done|]. split; [done|]. unfold got in *. cbn. rewrite Hp in P2''. lia.
  - unfold got in P2''. rewrite Hp in P2''. lia.
Qed.

(** *** Reachable states *)

Lemma start_ping w q :
  send_batch numMessages threadId data clock_s 0 w = (Done q, w) ->
  inbox sid (w_db w) = [] -> inbox rid (w_db w) = [] ->
  safe (start numMessages w q) /\ ping numMessages (start numMessages w q).
Proof using batch clock_s_ok.
  intros Hq H1 H2.
  destruct (queue_messages_run rid sid data (clock_s 0%nat) (Z.to_nat numMessages) 0 w (clock_s_ok _))
    as (q' & E & Hl & Hall). unfold send_batch in Hq. rewrite E in Hq. injection Hq as <-.
  split; [split; [split; cbn; lia|done]|].
  split; unfold start; fields; rewrite ?H1, ?H2; auto.
  - by split_and!.
  - unfold unsent, got. cbn. lia.
  - unfold got. cbn. lia.
Qed.

Definition exchanging (s : state) : Prop :=
  ping numMessages s \/ pong numMessages s \/ over s.

Section Running.
Context (reliable_env : Reliable).

Lemma exchanging_steps s s' :
  safe s -> exchanging s -> rtc steps s s' ->
  safe s' /\ exchanging s' /\
  foreign sid rid (w_db (st_world s')) = foreign sid rid (w_db (st_world s)).
Proof using All.
  intros Hs Hp Hrun. induction Hrun as [s|s s1 s' H1 _ IH]; [done|].
  assert (safe s1 /\ exchanging s1 /\
    foreign sid rid (w_db (st_world s1)) = foreign sid rid (w_db (st_world s))) as (G1 & G2 & G3).
  { destruct Hp as [Hp|[Hp|Hp]].
    - destruct (ping_step _ _ _ Hs Hp ltac:(done) H1) as (G1 & G3 & [(n & _ & Hn & G2 & _)|(_ & G2 & _)]);
        split; [done| |done|]; (split; [|done]); [left; by rewrite <- (Hn reliable_env)|by right; left].
    - destruct (pong_step _ _ _ Hs Hp ltac:(done) H1) as (G1 & G3 & [(n & _ & Hn & G2 & _)|(_ & _ & [G2|G2])]);
        (split; [done|]); (split; [|done]);
        [right; left; by rewrite <- (Hn reliable_env)|by left|by right; right].
    - destruct (over_step _ _ Hs Hp H1) as (G1 & G3 & G2). split; [done|]. split; [by right; right|done]. }
  destruct (IH G1 G2) as (G4 & G5 & G6). split; [done|]. split; [done|congruence].
Qed.

(** What is left to do for [e] until it has a batch. *)
Definition to_go (e : endpoint) : nat :=
  match ph e with
  | Running => 2 + Z.to_nat (m_count e)
  | Receiving r => if decide (r < numMessages) then 1%nat else 0%nat
  | Finished => 0%nat
  end.

Lemma running_answer e :
  endpoint_ok e -> ph e = Running -> queued e = [] -> exists r, answers e !! 0%nat = Some r.
Proof.
  intros He Hp Hq. unfold endpoint_ok in He. rewrite Hp, Hq in He. destruct He as [E Hpos]. cbn in E.
  destruct (answers e) as [|r l]; [cbn in E; lia|by exists r].
Qed.

Lemma callback_to_go j e :
  endpoint_ok e -> ph e = Running -> (to_go (callback numMessages j e) < to_go e)%nat.
Proof.
  intros He Hp. unfold endpoint_ok in He. unfold to_go, callback. rewrite Hp in He |- *. destruct He as [_ Hc].
  destruct (m_count e - 1 =? 0); cbn; [case_decide; lia|]. lia.
Qed.

(** A step that brings the batch of the sender closer to its reply. *)
Lemma ping_advance s :
  safe s -> ping numMessages s ->
  exists s', steps s s' /\ safe s' /\ rounds s' = rounds s /\
    (pong numMessages s' \/ ping numMessages s' /\
     (length (queued (sender s')) + to_go (receiver s') < length (queued (sender s)) + to_go (receiver s))%nat).
Proof using All.
  intros Hs Hp. pose proof Hs as [O1 O2]. pose proof Hp as [P1 (P2 & P2' & P2'') P3 P4 P5 P6 P7 P8].
  assert (forall s', steps s s' ->
    (ping numMessages s' -> (length (queued (sender s')) + to_go (receiver s') <
       length (queued (sender s)) + to_go (receiver s))%nat) ->
    exists s', steps s s' /\ safe s' /\ rounds s' = rounds s /\
    (pong numMessages s' \/ ping numMessages s' /\
     (length (queued (sender s')) + to_go (receiver s') < length (queued (sender s)) + to_go (receiver s))%nat))
    as Hstep.
  { intros s' Hst Hd. exists s'. split; [done|].
    destruct (ping_step _ _ _ Hs Hp ltac:(done) Hst) as (G1 & _ & [(n & _ & Hn & G2 & G3)|(_ & G2 & G3)]);
      (split; [done|]); (split; [done|]); [right|by left].
    rewrite (Hn reliable_env) in G2. by split; [|apply Hd]. }
  destruct (queued (sender s)) as [|rq q] eqn:Eq.
  - destruct (ph (receiver s)) as [|r|] eqn:Er; [| |done].
    + destruct (running_answer _ O2 Er P2) as [a Ha].
      eapply Hstep; [by eapply receiver_callback|intros _]; fields; rewrite Eq;
        pose proof (callback_to_go 0 _ O2 Er); lia.
    + assert (got (receiver s) = r) as Hg by (unfold got; by rewrite Er).
      destruct (decide (r < numMessages)) as [Hr|Hr].
      * destruct (dbos_recv_from_total rid (clientId s) (st_world s)) as (n & c & w & Ex).
        assert (to_go (received (r + n) (receiver s)) < to_go (receiver s))%nat as Hd.
        { unfold to_go. rewrite Er. cbn. rewrite (decide_True (P := r < numMessages)) by done.
          rewrite decide_False; [lia|]. destruct (dbos_recv_from_done _ _ _ _ _ _ Ex) as (-> & _).
          unfold unsent in P4. rewrite Eq in P4. cbn in P4. lia. }
        eapply Hstep; [by eapply receiver_receives|intros _]; fields; rewrite Eq; lia.
      * destruct (queue_messages_run (clientId s) rid data (clock_r (served s)) (Z.to_nat numMessages) 0
          (st_world s) (clock_r_ok _)) as (q & E & _).
        eapply Hstep; [eapply receiver_replies; [done|lia|exact E]|].
        intros [_ (Q2 & _) _ _ _ _ _ _]. exfalso. cbn in Q2.
        destruct (queue_messages_run (clientId s) rid data (clock_r (served s)) (Z.to_nat numMessages) 0
          (st_world s) (clock_r_ok _)) as (q' & E' & Hl & _). rewrite E in E'. injection E' as <-.
        apply (f_equal length) in Q2. rewrite length_app in Q2. cbn in Q2. lia.
  - destruct (serve_message_reliable rid sid rq (st_world s) rid_ok sid_ok) as (r & w & Ex & _).
    { by inversion P6. }
    eapply Hstep; [eapply (sender_executed _ _ _ _ _ _ 0); [by rewrite Eq|exact Ex]|intros _];
      fields; cbn; rewrite Eq; cbn; lia.
Qed.

(** Likewise for the reply. *)
Lemma pong_advance s :
  safe s -> pong numMessages s ->
  exists s', steps s s' /\
    (rounds s' = S (rounds s) \/
     safe s' /\ pong numMessages s' /\ rounds s' = rounds s /\
     (length (queued (receiver s')) + to_go (sender s') < length (queued (receiver s)) + to_go (sender s))%nat).
Proof using All.
  intros Hs Hp. pose proof Hs as [O1 O2]. pose proof Hp as [P1 (P2 & P2' & P2'') P3 P4 P5 P6].
  assert (forall s', steps s s' ->
    (rounds s' = S (rounds s) \/ (length (queued (receiver s')) + to_go (sender s') <
       length (queued (receiver s)) + to_go (sender s))%nat) ->
    exists s', steps s s' /\ (rounds s' = S (rounds s) \/
     safe s' /\ pong numMessages s' /\ rounds s' = rounds s /\
     (length (queued (receiver s')) + to_go (sender s') < length (queued (receiver s)) + to_go (sender s))%nat))
    as Hstep.
  { intros s' Hst Hd. exists s'. split; [done|].
    destruct (pong_step _ _ _ Hs Hp ltac:(done) Hst) as (G1 & _ & [(n & _ & Hn & G2 & G3)|(_ & G3 & G2)]);
      [|by left].
    rewrite (Hn reliable_env) in G2. destruct Hd as [Hd|Hd]; [by left|by right]. }
  destruct (queued (receiver s)) as [|rq q] eqn:Eq.
  - destruct (ph (sender s)) as [|r|] eqn:Er; [| |done].
    + destruct (running_answer _ O1 Er P2) as [a Ha].
      eapply Hstep; [by eapply sender_callback|right]; fields; rewrite Eq;
        pose proof (callback_to_go 0 _ O1 Er); lia.
    + assert (got (sender s) = r) as Hg by (unfold got; by rewrite Er).
      destruct (decide (r < numMessages)) as [Hr|Hr].
      * destruct (dbos_recv_total sid (st_world s)) as (n & w & Ex).
        assert (to_go (received (r + n) (sender s)) < to_go (sender s))%nat as Hd.
        { unfold to_go. rewrite Er. cbn. rewrite (decide_True (P := r < numMessages)) by done.
          rewrite decide_False; [lia|]. destruct (dbos_recv_done _ _ _ _ Ex) as (-> & _).
          unfold unsent in P4. rewrite Eq in P4. cbn in P4. lia. }
        eapply Hstep; [by eapply sender_receives|right]; fields; rewrite Eq; lia.
      * destruct (queue_messages_run rid sid data (clock_s (S (rounds s))) (Z.to_nat numMessages) 0
          (st_world s) (clock_s_ok _)) as (q & E & _).
        eapply Hstep; [eapply sender_next; [done|lia|exact E]|by left].
  - destruct (serve_message_reliable sid rid rq (st_world s) sid_ok rid_ok) as (r & w & Ex & _).
    { by inversion P6. }
    eapply Hstep; [eapply (receiver_executed _ _ _ _ _ _ 0); [by rewrite Eq|exact Ex]|right];
      fields; cbn; rewrite Eq; cbn; lia.
Qed.

Lemma reply_reached k : forall s,
  (length (queued (sender s)) + to_go (receiver s) < k)%nat -> safe s -> ping numMessages s ->
  exists s', rtc steps s s' /\ safe s' /\ pong numMessages s' /\ rounds s' = rounds s.
Proof using All.
  induction k as [|k IH]; intros s Hk Hs Hp; [lia|].
  destruct (ping_advance s Hs Hp) as (s1 & H1 & G1 & G2 & [G3|[G3 G4]]).
  - exists s1. split; [by apply rtc_once|done].
  - destruct (IH s1 ltac:(lia) G1 G3) as (s' & Hr & G5 & G6 & G7). exists s'.
    split; [by eapply rtc_l|]. split; [done|]. split; [done|congruence].
Qed.

Lemma round_reached k : forall s,
  (length (queued (receiver s)) + to_go (sender s) < k)%nat -> safe s -> pong numMessages s ->
  exists s', rtc steps s s' /\ rounds s' = S (rounds s).
Proof using All.
  induction k as [|k IH]; intros s Hk Hs Hp; [lia|].
  destruct (pong_advance s Hs Hp) as (s1 & H1 & [G2|(G1 & G3 & G2 & G4)]).
  - exists s1. split; [by apply rtc_once|done].
  - destruct (IH s1 ltac:(lia) G1 G3) as (s' & Hr & G5). exists s'.
    split; [by eapply rtc_l|congruence].
Qed.
End Running.

(** *** A lost message *)

(** Once a message of a batch is lost, no exchange is ever completed. *)
Lemma deficit_steps n s s' :
  safe s -> ping n s -> n < numMessages -> rtc steps s s' ->
  exists n', n' <= n /\ safe s' /\ ping n' s' /\ rounds s' = rounds s.
Proof using batch clock_r_ok sid_ok rid_ok.
  intros Hs Hp Hn Hrun. revert n Hp Hn. induction Hrun as [s|s s1 s' H1 _ IH]; intros n Hp Hn; [by exists n|].
  destruct (ping_step _ _ _ Hs Hp ltac:(lia) H1) as (G1 & _ & [(n1 & Hn1 & _ & G2 & G3)|(E & _)]); [|lia].
  destruct (IH G1 n1 G2 ltac:(lia)) as (n' & Hn' & G4 & G5 & G6). exists n'.
  split; [lia|]. split; [done|]. split; [done|congruence].
Qed.

Lemma reachable_states s s' :
  safe s -> (exists n, n <= numMessages /\ ping n s) -> rtc steps s s' ->
  safe s' /\ ((exists n, n <= numMessages /\ (ping n s' \/ pong n s')) \/ over s').
Proof using batch clock_r_ok clock_s_ok sid_ok rid_ok.
  intros Hs (n & Hn & Hp) Hrun.
  assert ((exists n, n <= numMessages /\ (ping n s \/ pong n s)) \/ over s) as Hinv by (left; exists n; auto).
  clear n Hn Hp. induction Hrun as [s|s s1 s' H1 _ IH]; [done|].
  destruct Hinv as [(n & Hn & [Hp|Hp])|Ho].
  - destruct (ping_step _ _ _ Hs Hp Hn H1) as (G1 & _ & [(n' & Hn' & _ & G2 & _)|(_ & G2 & _)]);
      (apply IH; [done|]); left; [exists n'; auto with lia|exists numMessages; auto with lia].
  - destruct (pong_step _ _ _ Hs Hp Hn H1) as (G1 & _ & [(n' & Hn' & _ & G2 & _)|(_ & _ & [G2|G2])]);
      (apply IH; [done|]); [left; exists n'; auto with lia|left; exists numMessages; auto with lia|by right].
  - destruct (over_step _ _ Hs Ho H1) as (G1 & _ & G2). apply IH; [done|by right].
Qed.
End Exchange.

(** ** Properties *)


(** Nothing is sent again: the callback only prints an answer that is a
    failure.  Once the transaction of one message is aborted, both threads poll
    for ever, and no further exchange is completed. *)
Theorem lost_message_blocks `{En : Env} numMessages threadId data (clock_s clock_r : nat -> nat -> Z) w q s i rq r w1 s' :
  0 < numMessages ->
  (forall k j, 0 <= clock_s k j < 9223372036854775808) ->
  (forall k j, 0 <= clock_r k j < 9223372036854775808) ->
  id_ok threadId -> id_ok (receiver_id threadId) ->
  inbox threadId (w_db w) = [] -> inbox (receiver_id threadId) (w_db w) = [] ->
  send_batch numMessages threadId data clock_s 0 w = (Done q, w) ->
  rtc (step numMessages threadId data clock_s clock_r) (start numMessages w q) s ->
  queued (sender s) !! i = Some rq -> fate_stream (w_tick (st_world s)) = Aborted ->
  serve rq (st_world s) = (Done r, w1) ->
  rtc (step numMessages threadId data clock_s clock_r)
    (State_ w1 (executed i r (sender s)) (rounds s) (receiver s) (clientId s) (served s)) s' ->
  rounds s' = rounds s.
Proof.
  intros HM Hcs Hcr Hs Hr H1 H2 Hq Hrun Hi Hf Hx Hrest.
  destruct (start_ping numMessages threadId data clock_s HM Hcs w q Hq H1 H2) as [Hsafe Hping].
  destruct (reachable_states numMessages threadId data clock_s clock_r HM Hcs Hcr Hs Hr _ _ Hsafe
    (ex_intro _ numMessages (conj (Z.le_refl _) Hping)) Hrun) as [Gs Ge].
  assert (exists n, n <= numMessages /\ ping threadId n s) as (n & Hn & Gp).
  { destruct Ge as [(n & Hn & [Gp|Gp])|Go]; [by exists n| |].
    - destruct (pong_sender _ _ _ Gp) as (E & _). by rewrite E in Hi.
    - destruct Gs as [O1 _]. unfold endpoint_ok in O1. rewrite (over_sender _ _ Go) in O1.
      destruct O1 as (E & _). by rewrite E in Hi. }
  set (s1 := State_ w1 _ _ _ _ _) in *.
  assert (step numMessages threadId data clock_s clock_r s s1) as Hst by (by eapply sender_executed).
  pose proof (serve_message_aborted rq (st_world s) r w1 Hf Hx) as Hd.
  destruct (executed_ok numMessages i rq r (sender s) (safe_sender _ _ Gs) Hi) as (_ & _ & _ & E4 & _).
  destruct (ping_step numMessages threadId data clock_s clock_r HM Hcr Hs Hr n s s1 Gs Gp Hn Hst)
    as (G1 & _ & [(n1 & _ & _ & G2 & _)|(_ & G2 & _)]).
  - assert (n1 = n - 1) as ->.
    { pose proof (ping_tokens _ _ _ Gp) as T. pose proof (ping_tokens _ _ _ G2) as T1.
      subst s1. cbn [st_world sender receiver] in T1. rewrite Hd, E4 in T1. lia. }
    destruct (deficit_steps numMessages threadId data clock_s clock_r HM Hcr Hs Hr (n - 1) s1 s' G1 G2
      ltac:(lia) Hrest) as (_ & _ & _ & _ & E). exact E.
  - exfalso. pose proof (ping_rounds _ _ _ Gp) as T. pose proof (pong_rounds _ _ _ G2) as T1.
    subst s1. cbn in T1. lia.
Qed.

(** ** Examples *)

(** Batches of two messages between thread 3 and thread 103. *)
Definition pair_clock (k j : nat) : Z := 1600000000000000.
Lemma pair_clock_ok k j : 0 <= pair_clock k j < 9223372036854775808.
Proof. unfold pair_clock. lia. Qed.

Definition pair_world : world := init_world (Db [] [] [] [] [] []).


(** The first transaction is aborted. *)
Definition abort_first : Env :=
  {| rand_stream := Z.of_nat; fate_stream n := if decide (n = 0%nat) then Aborted else Committed;
     pick_stream n := n |}.

Lemma lost_message_blocks_witness :
  let E := abort_first in
  exists q s1, send_batch 2 3 "x" pair_clock 0 pair_world = (Done q, pair_world) /\
    step (H := E) 2 3 "x" pair_clock pair_clock (start 2 pair_world q) s1 /\
    forall s', rtc (step (H := E) 2 3 "x" pair_clock pair_clock) s1 s' -> rounds s' = 0%nat.
Proof.
  intros E. destruct (send_batch 2 3 "x" pair_clock 0 pair_world) as [[q|t|] w] eqn:Eq;
    [|vm_compute in Eq; discriminate..].
  assert (w = pair_world /\ exists rq q', q = rq :: q') as [-> (rq & q' & Hq)]
    by (vm_compute in Eq; injection Eq as <- <-; by eauto).
  destruct (serve (H := E) rq pair_world) as [[r|t|] w1] eqn:Ex.
  2,3: unfold serve in Ex; case_match; [unfold transaction in Ex; vm_compute in Ex; discriminate|discriminate].
  exists q. eexists (State_ w1 (executed 0 r _) 0 _ (-1) 0). split; [done|]. split.
  - apply (sender_executed (H := E) 2 3 "x" pair_clock pair_clock (start 2 pair_world q) 0 rq r w1);
      [by rewrite Hq|exact Ex].
  - intros s' Hrun.
    apply (lost_message_blocks (En := E) 2 3 "x" pair_clock pair_clock pair_world q (start 2 pair_world q)
      0 rq r w1 s' ltac:(done) pair_clock_ok pair_clock_ok ltac:(by vm_compute) ltac:(by vm_compute)
      eq_refl eq_refl Eq (rtc_refl _ _) ltac:(by rewrite Hq) eq_refl Ex Hrun).
Defined.
