(* ===== verification/SyntheticWorker.v ===== *)
(** * SyntheticWorker

    [src/simulation/SyntheticWorker.cc]: a program of worker threads.  Each
    thread serves with a worker of its own until the main thread has set
    [mainFinished]; it waits for this on [mainCv] with [mainLock] held.  The
    threads are a step relation in which the test of the predicate and the wait
    are steps of their own, as the main thread takes the lock for neither its
    assignment nor its notification. *)

From S2P Require Import MockPollWorker MockHTTPWorker.
From S2P Require Import Prelude World SchedulerUtil WorkerManager Binary64 BenchmarkUtil.
#[local] Open Scope Z_scope.

(** ** Workers *)

Definition kMockPoll : string := "mock-poll".
Definition kMockHTTP : string := "mock-http".
Definition kWorkerTypes : list string := [kMockPoll; kMockHTTP].

Record worker_config := {
  numWorkers : Z;
  numExecutors : Z;
  partitions : Z;
  topkTasks : Z;
  workerType : string;
}.

Inductive any_worker :=
  | APoll (w : MockPollWorker.MockPollWorker)
  | AHttp (w : MockHTTPWorker.MockHTTPWorker).

Section Construct.
Context `{Env} (connects : string -> bool) (c : worker_config).

(** [None] is the null pointer. *)
Definition constructWorker (workerId : Z) (serverAddr type : string) : M world (option any_worker) :=
  if String.eqb type kMockPoll then
    pkey ← int_rem workerId (partitions c);
    mret (Some (APoll {| MockPollWorker.workerId_ := workerId; MockPollWorker.pkey_ := pkey;
                         MockPollWorker.numExecutors_ := numExecutors c;
                         MockPollWorker.topk_ := topkTasks c |}))
  else if String.eqb type kMockHTTP then
    pkey ← int_rem workerId (partitions c);
    mret (Some (AHttp (MockHTTPWorker_new workerId pkey serverAddr)))
  else mret None.

(** A worker thread up to [startServing], whose result is not looked at. *)
Definition WorkerThread_start (workerId : Z) (serverAddr : string) : M world any_worker :=
  _ ← createVoltdbClient connects serverAddr;
  worker ← constructWorker workerId serverAddr (workerType c);
  match worker with
  | None => throw AssertFailure
  | Some (APoll w) => mret (APoll w)
  | Some (AHttp w) => MockHTTPWorker.startServing w ;; mret (AHttp w)
  end.
End Construct.

(** ** Measuring *)

Section Measuring.
(** The clock and the counters [WorkerManager::totalTasks_] and
    [totalFinishedTasks_] at each reading; reading 0 is the one before the loop. *)
Context (clock tasks finished : nat -> Z).

Definition throughput (counter : nat -> Z) (i : nat) : f64 :=
  f64_div (f64_mul (f64_of_int (wrapU64 (counter (S i) - counter i))) (f64_of_int 1))
    (f64_div (f64_of_int (wrapU64 (clock (S i) - clock i))) (f64_of_int 1000000)).

(** The measuring loop of [runBenchmark] with its vectors [dispatchThroughput]
    and [finishThroughput]. *)
Fixpoint measure_loop (fuel i : nat) (endTime : Z) (dispatch finish : list f64) :
    outcome (list f64 * list f64) :=
  match fuel with
  | O => OutOfFuel
  | S fuel' =>
      let dispatch := dispatch ++ [throughput tasks i] in
      let finish := finish ++ [throughput finished i] in
      if clock (S i) <? endTime then measure_loop fuel' (S i) endTime dispatch finish
      else Done (dispatch, finish)
  end.

Definition measure_throughput (fuel : nat) (totalExecTimeMsec : Z) : outcome (list f64 * list f64) :=
  measure_loop fuel 0 (deadline (clock 0%nat) totalExecTimeMsec) [] [].
End Measuring.

(** ** Threads *)

(** A worker thread: before [startServing], at the lock, at the predicate, past
    it at [wait], blocked in it, at [unlock], at [endServing], in it once the
    stop flag is set, at the end, where the worker has been deleted. *)
Inductive wpc :=
  | Starting | Locking | Testing | Waiting | Asleep | Unlocking | Ending | Stopping | Deleted.

(** [runBenchmark]: creating threads, measuring, at [notify_all], joining thread
    [i], returned. *)
Inductive mpc := Creating | Measuring | Notifying | Joining (i : nat) | Returned.

#[export] Instance wpc_eq_dec : EqDecision wpc.
Proof. solve_decision. Defined.
#[export] Instance mpc_eq_dec : EqDecision mpc.
Proof. solve_decision. Defined.

(** [serving]: the threads of the workers that read the worker's members. *)
Record state := State_ {
  threads : list wpc;
  serving : list bool;
  mutex : option nat;
  mainFinished : bool;
  main : mpc;
}.

Definition start : state := State_ [] [] None false Creating.

Definition set_thread (i : nat) (p : wpc) (s : state) : state :=
  State_ (<[i := p]> (threads s)) (serving s) (mutex s) (mainFinished s) (main s).
Definition set_mutex (m : option nat) (s : state) : state :=
  State_ (threads s) (serving s) m (mainFinished s) (main s).
Definition set_serving (i : nat) (b : bool) (s : state) : state :=
  State_ (threads s) (<[i := b]> (serving s)) (mutex s) (mainFinished s) (main s).
Definition set_main (p : mpc) (s : state) : state :=
  State_ (threads s) (serving s) (mutex s) (mainFinished s) p.

(** [notify_all]: who is blocked goes for the lock. *)
Definition notified (p : wpc) : wpc := match p with Asleep => Locking | _ => p end.

Section Threads.
Context (n : nat) (type : string).

(** [endServing] of a [MockPollWorker] joins its threads, that of a
    [MockHTTPWorker] only sets the flag. *)
Definition joins : bool := String.eqb type kMockPoll.

(** [WorkerThread] of thread [i]. *)
Inductive worker_step (i : nat) (s : state) : state -> Prop :=
  | step_start : threads s !! i = Some Starting ->
      worker_step i s (set_serving i true (set_thread i Locking s))
  | step_lock : threads s !! i = Some Locking -> mutex s = None ->
      worker_step i s (set_mutex (Some i) (set_thread i Testing s))
  | step_test : threads s !! i = Some Testing ->
      worker_step i s (set_thread i (if mainFinished s then Unlocking else Waiting) s)
  | step_wait : threads s !! i = Some Waiting ->
      worker_step i s (set_mutex None (set_thread i Asleep s))
  | step_unlock : threads s !! i = Some Unlocking ->
      worker_step i s (set_mutex None (set_thread i Ending s))
  | step_end : threads s !! i = Some Ending ->
      worker_step i s (set_thread i Stopping s)
  | step_delete : threads s !! i = Some Stopping ->
      (joins = true -> serving s !! i = Some false) ->
      worker_step i s (set_thread i Deleted s)
  | step_stopped : threads s !! i = Some Stopping -> serving s !! i = Some true ->
      worker_step i s (set_serving i false s).

(** [runBenchmark]. *)
Inductive main_step (s : state) : state -> Prop :=
  | step_create : main s = Creating -> (length (threads s) < n)%nat ->
      main_step s (State_ (threads s ++ [Starting]) (serving s ++ [false]) (mutex s)
                     (mainFinished s) Creating)
  | step_created : main s = Creating -> length (threads s) = n -> main_step s (set_main Measuring s)
  | step_finish : main s = Measuring ->
      main_step s (State_ (threads s) (serving s) (mutex s) true Notifying)
  | step_notify : main s = Notifying ->
      main_step s (State_ (notified <$> threads s) (serving s) (mutex s) (mainFinished s) (Joining 0))
  | step_join i : main s = Joining i -> threads s !! i = Some Deleted ->
      main_step s (set_main (Joining (S i)) s)
  | step_return i : main s = Joining i -> (n <= i)%nat -> main_step s (set_main Returned s).

Definition step (s s' : state) : Prop := (exists i, worker_step i s s') \/ main_step s s'.

(** [wait] may also return for no reason. *)
Definition spurious (s s' : state) : Prop :=
  exists i, threads s !! i = Some Asleep /\ s' = set_thread i Locking s.

Definition any_step (s s' : state) : Prop := step s s' \/ spurious s s'.
End Threads.

(** ** Invariant *)

(** The thread has the lock; it has seen [mainFinished]. *)
Definition holds (p : wpc) : bool :=
  match p with Testing | Waiting | Unlocking => true | _ => false end.
Definition passed (p : wpc) : bool :=
  match p with Unlocking | Ending | Stopping | Deleted => true | _ => false end.

Section Invariant.
Context (n : nat) (type : string).

(** The threads the main thread has joined; whether it has set the flag. *)
Definition joined (s : state) : nat :=
  match main s with Joining i => i | Returned => n | _ => 0%nat end.
Definition announced (p : mpc) : bool := match p with Creating | Measuring => false | _ => true end.

Record thread_ok (s : state) (i : nat) (p : wpc) : Prop := {
  ok_holds : holds p = true -> mutex s = Some i;
  ok_passed : passed p = true -> mainFinished s = true;
  ok_deleted : p = Deleted -> joins type = true -> serving s !! i = Some false;
}.

Record inv (s : state) : Prop := {
  inv_length : length (serving s) = length (threads s) /\ (length (threads s) <= n)%nat /\
    (main s <> Creating -> length (threads s) = n);
  inv_threads : forall i p, threads s !! i = Some p -> thread_ok s i p;
  inv_mutex : forall i, mutex s = Some i -> exists p, threads s !! i = Some p /\ holds p = true;
  inv_finished : mainFinished s = announced (main s);
  inv_joined : (joined s <= n)%nat /\
    forall i, (i < joined s)%nat -> threads s !! i = Some Deleted;
}.

Lemma lookup_set {A} (l : list A) i j x y z : l !! i = Some z ->
  <[i := x]> l !! j = Some y -> (j = i /\ y = x) \/ (j <> i /\ l !! j = Some y).
Proof.
  intros Hi H. destruct (decide (j = i)) as [->|Hj].
  - rewrite list_lookup_insert_eq in H by (by eapply lookup_lt_Some). left. naive_solver.
  - rewrite list_lookup_insert_ne in H by done. by right.
Qed.

Lemma sync_inv_start : inv start.
Proof.
  split; unfold joined; cbn; try done.
  - split; [done|]. split; [lia|done].
  - split; [lia|]. intros; lia.
Qed.

(** A thread that does not hold the lock moves on; the lock, the flag and the
    main thread stay as they are. *)
Lemma inv_move i p q s :
  inv s -> threads s !! i = Some p -> holds q = holds p -> q <> Deleted -> p <> Deleted ->
  (passed q = true -> mainFinished s = true) -> inv (set_thread i q s).
Proof.
  intros [(Hl1 & Hl2 & Hl3) Ht Hm Hf (Hj1 & Hj2)] Hp Hh Hq Hpd Hpass.
  split; cbn [threads serving mutex mainFinished main set_thread]; rewrite ?length_insert; try done.
  - intros j r Hr. destruct (lookup_set _ _ _ _ _ _ Hp Hr) as [[-> ->]|[Hne Hr']].
    + destruct (Ht _ _ Hp). split; cbn; try done. by rewrite Hh.
    + by destruct (Ht _ _ Hr').
  - intros j Hj. destruct (Hm _ Hj) as (r & Hr & Hrh). destruct (decide (j = i)) as [->|Hne].
    + exists q. rewrite list_lookup_insert_eq by (by eapply lookup_lt_Some). simplify_eq. by rewrite Hh.
    + exists r. by rewrite list_lookup_insert_ne.
  - split; [done|]. intros j Hjj. specialize (Hj2 j Hjj). destruct (decide (j = i)) as [->|Hne].
    + congruence.
    + by rewrite list_lookup_insert_ne.
Qed.

(** A thread takes or gives back the lock. *)
Lemma inv_lock i p q m s :
  inv s -> threads s !! i = Some p -> q <> Deleted -> p <> Deleted ->
  (passed q = true -> mainFinished s = true) ->
  (holds p = false /\ mutex s = None /\ holds q = true /\ m = Some i \/
   holds p = true /\ holds q = false /\ m = None) ->
  inv (set_mutex m (set_thread i q s)).
Proof.
  intros [(Hl1 & Hl2 & Hl3) Ht Hm Hf (Hj1 & Hj2)] Hp Hq Hpd Hpass Hcase.
  split; cbn [threads serving mutex mainFinished main set_thread set_mutex]; rewrite ?length_insert; try done.
  - intros j r Hr. destruct (lookup_set _ _ _ _ _ _ Hp Hr) as [[-> ->]|[Hne Hr']].
    + destruct (Ht _ _ Hp). split; cbn; try done. destruct Hcase as [(_ & _ & _ & ->)|(_ & Hqh & _)]; congruence.
    + destruct (Ht _ _ Hr') as [Hh Hpa Hd]. split; cbn; try done. intros Hrh. specialize (Hh Hrh).
      destruct Hcase as [(_ & Hnone & _)|(Hph & _)]; [congruence|].
      pose proof (ok_holds _ _ _ (Ht _ _ Hp) Hph). congruence.
  - intros j Hj. destruct Hcase as [(_ & _ & Hqh & ->)|(_ & _ & ->)]; simplify_eq.
    exists q. by rewrite list_lookup_insert_eq by (by eapply lookup_lt_Some).
  - split; [done|]. intros j Hjj. specialize (Hj2 j Hjj). destruct (decide (j = i)) as [->|Hne].
    + congruence.
    + by rewrite list_lookup_insert_ne.
Qed.

Lemma inv_serving i b p s :
  inv s -> threads s !! i = Some p -> p <> Deleted -> inv (set_serving i b s).
Proof.
  intros [(Hl1 & Hl2 & Hl3) Ht Hm Hf Hj] Hp Hpd.
  split; cbn [threads serving mutex mainFinished main set_serving]; rewrite ?length_insert; try done.
  intros j r Hr. destruct (Ht _ _ Hr) as [Hh Hpa Hd]. split; cbn; try done.
  intros -> Hjn. rewrite list_lookup_insert_ne by congruence. by apply Hd.
Qed.

Lemma inv_worker i s s' : inv s -> worker_step type i s s' -> inv s'.
Proof.
  intros Hinv Hstep. destruct Hstep as [Hp|Hp Hmu|Hp|Hp|Hp|Hp|Hp Hd|Hp Hsv].
  - eapply inv_serving; [by eapply inv_move| |];
      [cbn; by rewrite list_lookup_insert_eq by (by eapply lookup_lt_Some)|done].
  - eapply inv_lock; try done. left. by split_and!.
  - eapply inv_move; try done; destruct (mainFinished s); done.
  - eapply inv_lock; try done. by right.
  - pose proof (ok_passed _ _ _ (inv_threads _ Hinv _ _ Hp) eq_refl). eapply inv_lock; try done. by right.
  - pose proof (ok_passed _ _ _ (inv_threads _ Hinv _ _ Hp) eq_refl). by eapply inv_move.
  - destruct Hinv as [(Hl1 & Hl2 & Hl3) Ht Hm Hf (Hj1 & Hj2)].
    split; cbn [threads serving mutex mainFinished main set_thread]; rewrite ?length_insert; try done.
    + intros j r Hr. destruct (lookup_set _ _ _ _ _ _ Hp Hr) as [[-> ->]|[Hne Hr']].
      * destruct (Ht _ _ Hp). by split; cbn; auto.
      * by destruct (Ht _ _ Hr').
    + intros j Hj. destruct (Hm _ Hj) as (r & Hr & Hrh). exists r.
      rewrite list_lookup_insert_ne; [done|]. intros <-. rewrite Hp in Hr. by injection Hr as <-.
    + split; [done|]. intros j Hjj. specialize (Hj2 j Hjj). destruct (decide (j = i)) as [->|Hne].
      * by rewrite list_lookup_insert_eq by (by eapply lookup_lt_Some).
      * by rewrite list_lookup_insert_ne.
  - by eapply inv_serving.
Qed.

Lemma inv_main s s' : inv s -> main_step n s s' -> inv s'.
Proof.
  intros [(Hl1 & Hl2 & Hl3) Ht Hm Hf (Hj1 & Hj2)] Hstep.
  destruct Hstep as [Em Hlt|Em Hlen|Em|Em|i Em Hd|i Em Hi];
    unfold joined in Hj1, Hj2; rewrite Em in Hj1, Hj2, Hf; cbn in Hf;
    (split; unfold joined; cbn [threads serving mutex mainFinished main set_main announced]; try done).
  - rewrite !length_app. cbn. split; [lia|]. split; [lia|done].
  - intros j p Hp. apply lookup_app_Some in Hp as [Hp|[Hge Hp]].
    + destruct (Ht _ _ Hp) as [H1 H2 H3]. split; cbn; try done. intros E1 E2. by rewrite (lookup_app_l_Some _ _ _ _ (H3 E1 E2)).
    + destruct (j - length (threads s))%nat; [|done]. cbn in Hp. simplify_eq. by split.
  - intros j Hj. destruct (Hm _ Hj) as (p & Hp & Hh). exists p. by rewrite (lookup_app_l_Some _ _ _ _ Hp).
  - split; [lia|]. intros; lia.
  - intros j p Hp. by destruct (Ht _ _ Hp).
  - split_and!; try done. intros _. apply Hl3. by rewrite Em.
  - intros j p Hp. destruct (Ht _ _ Hp). by split.
  - rewrite length_fmap. split_and!; try done. intros _. apply Hl3. by rewrite Em.
  - intros j p Hp. apply list_lookup_fmap_Some in Hp as (q & -> & Hq).
    destruct (Ht _ _ Hq) as [H1 H2 H3]. by destruct q; split; cbn in *.
  - intros j Hj. destruct (Hm _ Hj) as (p & Hp & Hh). exists (notified p).
    rewrite list_lookup_fmap, Hp. by destruct p.
  - split; [lia|]. intros; lia.
  - split_and!; try done. intros _. apply Hl3. by rewrite Em.
  - intros j p Hp. by destruct (Ht _ _ Hp).
  - pose proof (lookup_lt_Some _ _ _ Hd). split; [lia|]. intros j Hj.
    destruct (decide (j = i)) as [->|]; [done|]. apply Hj2. lia.
  - split_and!; try done. intros _. apply Hl3. by rewrite Em.
  - intros j p Hp. by destruct (Ht _ _ Hp).
  - split; [lia|]. intros j Hj. apply Hj2. lia.
Qed.

Lemma inv_spurious s s' : inv s -> spurious s s' -> inv s'.
Proof. intros Hinv (i & Hi & ->). by eapply inv_move. Qed.

Lemma inv_step s s' : inv s -> any_step n type s s' -> inv s'.
Proof. intros Hinv [[[i H]|H]|H]; eauto using inv_worker, inv_main, inv_spurious. Qed.

Lemma inv_reachable s : rtc (any_step n type) start s -> inv s.
Proof.
  intros H. pose proof sync_inv_start as Hinv. revert Hinv. induction H; eauto using inv_step.
Qed.

Lemma inv_returned s : inv s -> main s = Returned -> threads s = replicate n Deleted.
Proof.
  intros [(_ & _ & Hl3) _ _ _ (_ & Hj2)] Em. unfold joined in Hj2. rewrite Em in Hj2.
  apply list_eq. intros i. destruct (decide (i < n)%nat) as [Hi|Hi].
  - rewrite (Hj2 i Hi). symmetry. by apply lookup_replicate_2.
  - rewrite (lookup_ge_None_2 (replicate n Deleted)) by (rewrite length_replicate; lia).
    apply lookup_ge_None_2. rewrite Hl3; [lia|by rewrite Em].
Qed.
End Invariant.

(** ** What the threads share *)

(** C10: the threads of the program, however they interleave and whether or not
    [wait] returns early: at most one of them is between taking the lock and
    giving it back; a worker is stopped only after the main thread has said so;
    [runBenchmark] returns only when every thread it created has stopped and
    deleted its worker, and, with [mock-poll] workers, none of the threads of a
    deleted worker is running. *)
Theorem workers_stop_in_order n type s :
  rtc (any_step n type) start s ->
  (forall i j p q, threads s !! i = Some p -> threads s !! j = Some q ->
     holds p = true -> holds q = true -> i = j) /\
  (forall i p, threads s !! i = Some p -> passed p = true -> mainFinished s = true) /\
  (main s = Returned -> threads s = replicate n Deleted) /\
  (forall i, joins type = true -> threads s !! i = Some Deleted -> serving s !! i = Some false).
Proof.
  intros Hr. pose proof (inv_reachable _ _ _ Hr) as Hinv. destruct Hinv as [Hl Ht Hm Hf Hj] eqn:E.
  split; [|split; [|split]].
  - intros i j p q Hp Hq Hph Hqh. pose proof (ok_holds _ _ _ _ (Ht _ _ Hp) Hph).
    pose proof (ok_holds _ _ _ _ (Ht _ _ Hq) Hqh). congruence.
  - intros i p Hp. apply (Ht _ _ Hp).
  - by apply (inv_returned n type).
  - intros i Hjn Hp. by apply (ok_deleted _ _ _ _ (Ht _ _ Hp)).
Qed.

(** ** Stopping *)

(** [endServing] is announced, and no thread is between its test and [wait] or,
    once the others were notified, blocked. *)
Definition timely (s : state) : Prop :=
  mainFinished s = true /\
  (forall i, threads s !! i <> Some Waiting) /\
  (main s = Notifying \/ forall i, threads s !! i <> Some Asleep).

(** Steps a thread has left at most. *)
Definition rank (p : wpc) : nat :=
  match p with
  | Starting => 8 | Asleep => 7 | Locking => 6 | Testing => 5 | Waiting => 4
  | Unlocking => 3 | Ending => 2 | Stopping => 1 | Deleted => 0
  end.
Definition main_rank (n : nat) (p : mpc) : nat :=
  match p with
  | Creating => n + 5 | Measuring => n + 4 | Notifying => n + 3
  | Joining i => S (n - i) | Returned => 0
  end.
Definition total {A} (f : A -> nat) (l : list A) : nat := foldr (fun x k => (f x + k)%nat) 0%nat l.
Definition measure (n : nat) (s : state) : nat :=
  (total rank (threads s) + total Nat.b2n (serving s) + main_rank n (main s))%nat.

Lemma total_cons {A} (f : A -> nat) x l : total f (x :: l) = (f x + total f l)%nat.
Proof. done. Qed.

Lemma total_insert {A} (f : A -> nat) l i x y : l !! i = Some x ->
  (total f (<[i := y]> l) + f x = total f l + f y)%nat.
Proof.
  revert i. induction l as [|a l IH]; intros [|i] H; try done.
  - cbn in H. simplify_eq. change (<[0%nat := y]> (x :: l)) with (y :: l). rewrite !total_cons. lia.
  - change (<[S i := y]> (a :: l)) with (a :: <[i := y]> l). rewrite !total_cons. specialize (IH i H). lia.
Qed.

Lemma total_le {A} (f : A -> nat) c l : (forall x, f x <= c)%nat -> (total f l <= length l * c)%nat.
Proof. intros H. induction l as [|a l IH]; [done|]. rewrite total_cons. cbn [length]. specialize (H a). lia. Qed.

Lemma total_fmap {A} (f g : A -> nat) h (l : list A) : (forall x, f (h x) <= g x)%nat ->
  (total f (h <$> l) <= total g l)%nat.
Proof. intros H. induction l as [|a l IH]; [done|]. rewrite fmap_cons, !total_cons. specialize (H a). lia. Qed.

Lemma measure_bound n s : (length (threads s) <= n)%nat -> length (serving s) = length (threads s) ->
  (measure n s <= 10 * n + 5)%nat.
Proof.
  intros H1 H2. unfold measure.
  pose proof (total_le rank 8 (threads s) ltac:(intros []; cbn; lia)).
  pose proof (total_le Nat.b2n 1 (serving s) ltac:(intros []; cbn; lia)).
  assert (main_rank n (main s) <= n + 5)%nat by (destruct (main s); cbn; lia). lia.
Qed.

Lemma set_thread_total i p q s : threads s !! i = Some p ->
  (total rank (threads (set_thread i q s)) + rank p = total rank (threads s) + rank q)%nat.
Proof. apply total_insert. Qed.

(** From then on every step brings the end nearer. *)
Lemma worker_measure n type i s s' :
  inv n type s -> timely s -> worker_step type i s s' -> (measure n s' < measure n s)%nat.
Proof.
  intros [(Hl1 & _) _ _ _ _] (Hfin & Hw & _) Hstep. unfold measure.
  destruct Hstep as [Hp|Hp Hmu|Hp|Hp|Hp|Hp|Hp Hd|Hp Hsv];
    cbn [threads serving main set_thread set_mutex set_serving];
    try (by destruct (Hw i)); rewrite ?Hfin;
    try (match goal with |- context [<[i := ?q]> (threads s)] =>
           pose proof (total_insert rank (threads s) i _ q Hp) as E; cbn [rank] in E end);
    try lia.
  - destruct (lookup_lt_is_Some_2 (serving s) i) as [b Hb].
    { rewrite Hl1. by eapply lookup_lt_Some. }
    pose proof (total_insert Nat.b2n _ _ _ true Hb) as E2. destruct b; cbn [Nat.b2n] in E2; lia.
  - pose proof (total_insert Nat.b2n _ _ _ false Hsv) as E2. cbn [Nat.b2n] in E2. lia.
Qed.

Lemma main_measure n type s s' :
  inv n type s -> timely s -> main_step n s s' -> (measure n s' < measure n s)%nat.
Proof.
  intros [(Hl1 & Hl2 & Hl3) _ _ Hf (Hj & _)] (Hfin & _) Hstep. unfold measure.
  rewrite Hfin in Hf. unfold joined in Hj.
  destruct Hstep as [Em Hlt|Em Hlen|Em|Em|i Em Hd|i Em Hi];
    cbn [threads serving main set_main]; rewrite Em in *; cbn [announced] in Hf; try done;
    cbn [main_rank].
  - pose proof (total_fmap rank rank notified (threads s) ltac:(intros []; cbn; lia)). lia.
  - apply lookup_lt_Some in Hd. lia.
  - lia.
Qed.

Lemma spurious_measure n s s' : spurious s s' -> (measure n s' < measure n s)%nat.
Proof.
  intros (i & Hi & ->). unfold measure. pose proof (set_thread_total i Asleep Locking s Hi) as E.
  cbn [rank] in E. cbn [serving main set_thread] in *. lia.
Qed.

Lemma timely_move i p q s : timely s -> threads s !! i = Some p -> q <> Waiting ->
  (q = Asleep -> main s = Notifying) -> timely (set_thread i q s).
Proof.
  intros (Hfin & Hw & Ha) Hp Hq1 Hq2. split; [done|]. split.
  - intros j Hj. destruct (lookup_set _ _ _ _ _ _ Hp Hj) as [[_ E]|[_ Hj']]; [by subst|by apply (Hw j)].
  - destruct Ha as [Em|Ha]; [by left|]. destruct (decide (q = Asleep)) as [E|Hne]; [left; by apply Hq2|].
    right. intros j Hj. destruct (lookup_set _ _ _ _ _ _ Hp Hj) as [[_ E]|[_ Hj']]; [by subst|by apply (Ha j)].
Qed.

Lemma starting_not q (l : list wpc) : q <> Starting ->
  (forall j, l !! j <> Some q) -> forall j, (l ++ [Starting]) !! j <> Some q.
Proof.
  intros Hq H j Hj. apply lookup_app_Some in Hj as [Hj|[_ Hj]]; [by apply (H j)|].
  destruct (j - length l)%nat; cbn in Hj; [by simplify_eq|done].
Qed.

Lemma notified_not (l : list wpc) :
  (forall j, l !! j <> Some Waiting) -> forall j, (notified <$> l) !! j <> Some Waiting.
Proof.
  intros H j Hj. apply list_lookup_fmap_Some in Hj as (p & Ep & Hp). destruct p; try done.
  by apply (H j).
Qed.

Lemma notified_awake (l : list wpc) j : (notified <$> l) !! j <> Some Asleep.
Proof. intros Hj. apply list_lookup_fmap_Some in Hj as (p & Ep & Hp). by destruct p. Qed.

Lemma timely_step n type s s' : timely s -> any_step n type s s' -> timely s'.
Proof.
  intros Ht [[[i Hstep]|Hstep]|(i & Hp & ->)].
  - destruct Ht as (Hfin & Hw & Ha) eqn:Et.
    destruct Hstep as [Hp|Hp Hmu|Hp|Hp|Hp|Hp|Hp Hd|Hp Hsv]; try exact Ht;
      try (refine (timely_move i _ _ s Ht Hp _ _); [done|done]).
    + rewrite Hfin. refine (timely_move i _ _ s Ht Hp _ _); done.
    + by destruct (Hw i).
  - destruct Ht as (Hfin & Hw & Ha). pose proof (notified_not _ Hw) as Hn.
    pose proof (starting_not Waiting _ ltac:(done) Hw) as Hs.
    destruct Hstep as [Em Hlt|Em Hlen|Em|Em|i Em Hd|i Em Hi]; (destruct Ha as [Ea|Ha]; [congruence || idtac|]);
      split; cbn [mainFinished threads main set_main]; try done; split; try done; auto using starting_not.
    all: right; apply notified_awake.
  - by apply (timely_move i Asleep).
Qed.

(** Unless [runBenchmark] has returned, somebody can move. *)
Lemma timely_progress n type s :
  inv n type s -> timely s -> main s <> Returned -> exists s', step n type s s'.
Proof.
  intros [(Hl1 & Hl2 & Hl3) Ht Hm Hf Hj] (Hfin & Hw & Ha) Hmain. rewrite Hfin in Hf.
  destruct (main s) as [| | |i|] eqn:Em; try done.
  - eexists. right. by apply step_notify.
  - destruct Ha as [Ha|Ha]; [done|].
    destruct (decide (n <= i)%nat) as [Hi|Hi]; [eexists; right; by eapply step_return|].
    destruct (lookup_lt_is_Some_2 (threads s) i) as [p Hp]; [rewrite Hl3; [lia|done]|].
    destruct p; try (by destruct (Ha i)); try (by destruct (Hw i)).
    + eexists. left. exists i. by apply step_start.
    + destruct (mutex s) as [j|] eqn:Emu.
      * destruct (Hm j eq_refl) as (q & Hq & Hqh). destruct q; try done.
        -- eexists. left. exists j. by apply step_test.
        -- by destruct (Hw j).
        -- eexists. left. exists j. by apply step_unlock.
      * eexists. left. exists i. by apply step_lock.
    + eexists. left. exists i. by apply step_test.
    + eexists. left. exists i. by apply step_unlock.
    + eexists. left. exists i. by apply step_end.
    + destruct (lookup_lt_is_Some_2 (serving s) i) as [b Hb]; [rewrite Hl1; by eapply lookup_lt_Some|].
      destruct b; eexists; left; exists i; [by apply step_stopped | by apply step_delete].
    + eexists. right. by eapply step_join.
Qed.

(** C13: when no worker thread is between its test of [mainFinished] and its wait
    at the moment the main thread has set the flag, the program stops: no run has
    more than [10 n + 5] further steps, whichever thread moves, and a state in
    which no thread can move is the return of [runBenchmark], with every worker
    stopped and deleted. *)
Theorem benchmark_stops n type s k s' :
  rtc (any_step n type) start s -> timely s -> nsteps (any_step n type) k s s' ->
  (k <= 10 * n + 5)%nat /\
  ((exists s'', step n type s' s'') \/ main s' = Returned /\ threads s' = replicate n Deleted).
Proof.
  intros Hr Ht Hk. pose proof (inv_reachable _ _ _ Hr) as Hinv.
  assert (inv n type s' /\ timely s' /\ rtc (any_step n type) start s' /\
          (k + measure n s' <= measure n s)%nat) as (Hinv' & Ht' & Hr' & Hme).
  { clear - Hr Ht Hk Hinv. induction Hk as [s|k s s1 s' Hstep Hk IH]; [split_and!; try done; lia|].
    assert (measure n s1 < measure n s)%nat.
    { destruct Hstep as [[[i Hs]|Hs]|Hs]; eauto using worker_measure, main_measure, spurious_measure. }
    destruct IH as (? & ? & ? & ?); [by eapply rtc_r|by eapply timely_step|by eapply inv_step|].
    split_and!; try done. lia. }
  split.
  - destruct (inv_length _ _ _ Hinv) as (H1 & H2 & _). pose proof (measure_bound n s H2 H1). lia.
  - destruct (decide (main s' = Returned)) as [Em|Em]; [|left; by eapply timely_progress].
    right. split; [done|]. by apply (inv_returned n type).
Qed.

(** ** A notification that is lost, a worker that is deleted too early *)

(** The main thread creates the threads. *)
Lemma create_steps n type : forall k, (k <= n)%nat ->
  rtc (step n type) start (State_ (replicate k Starting) (replicate k false) None false Creating).
Proof.
  induction k as [|k IH]; intros Hk; [done|]. eapply rtc_r; [apply IH; lia|].
  rewrite !replicate_S_end. right. apply (step_create n (State_ _ _ _ _ _)); [done|].
  cbn. rewrite length_replicate. lia.
Qed.

Lemma created n type :
  rtc (step n type) start (State_ (replicate n Starting) (replicate n false) None false Measuring).
Proof.
  eapply rtc_r; [by apply (create_steps n type n)|]. right.
  apply (step_created n (State_ _ _ _ _ _)); [done|]. cbn. by rewrite length_replicate.
Qed.

(** After the notification, a thread that waits is not woken again. *)
Lemma asleep_for_ever n type i s s' :
  inv n type s -> threads s !! i = Some Asleep -> (exists j, main s = Joining j) ->
  rtc (step n type) s s' -> threads s' !! i = Some Asleep /\ exists j, main s' = Joining j.
Proof.
  intros Hinv Hi Hm Hr. induction Hr as [s|s s1 s' Hstep Hr IH]; [done|]. destruct Hm as [j Em].
  assert (inv n type s1) as Hinv1 by (eapply inv_step; [done|by left]).
  apply IH; [done| |]; destruct Hstep as [[k Hstep]|Hstep]; destruct Hstep; try congruence; try (by eexists);
    cbn [threads main set_thread set_mutex set_serving set_main]; try (by eexists);
    try (by rewrite list_lookup_insert_ne by congruence); try done.
  rewrite Em in *. match goal with H : Joining _ = Joining _ |- _ => injection H as <- end.
  destruct Hinv as [(_ & Hl & _) _ _ _ (_ & Hj2)]. unfold joined in Hj2. rewrite Em in Hj2.
  pose proof (lookup_lt_Some _ _ _ Hi). rewrite (Hj2 i) in Hi by lia. done.
Qed.

(** The main thread sets the flag and notifies without the lock: with any
    number of threads there is an interleaving after which the program never
    ends.  A thread tests the flag, the main thread sets it and notifies
    everybody, the thread waits: from this state on, whatever steps follow, this
    thread is blocked and the main thread has not returned. *)
Theorem lost_notification n type :
  (0 < n)%nat ->
  exists s, rtc (step n type) start s /\ mainFinished s = true /\
    forall s', rtc (step n type) s s' -> threads s' !! 0%nat = Some Asleep /\ main s' <> Returned.
Proof.
  intros Hn. destruct n as [|m]; [lia|]. set (n := S m).
  set (s := fun p mu b q => State_ (p :: replicate m Starting) (true :: replicate m false) mu b q).
  exists (s Asleep None true (Joining 0)).
  assert (rtc (step n type) start (s Asleep None true (Joining 0))) as Hr.
  { etransitivity; [apply created|].
    eapply rtc_l; [left; exists 0%nat; by apply step_start|].
    eapply (rtc_l _ _ (s Testing (Some 0%nat) false Measuring)); [left; exists 0%nat; by eapply step_lock|].
    eapply (rtc_l _ _ (s Waiting (Some 0%nat) false Measuring)); [left; exists 0%nat; by eapply step_test|].
    eapply (rtc_l _ _ (s Waiting (Some 0%nat) true Notifying)); [right; by eapply step_finish|].
    eapply (rtc_l _ _ (s Waiting (Some 0%nat) true (Joining 0))).
    { right. pose proof (step_notify n (s Waiting (Some 0%nat) true Notifying) eq_refl) as H.
      cbn in H. change (list_fmap wpc wpc notified) with (fmap (M := list) notified) in H.
      by rewrite fmap_replicate in H. }
    eapply rtc_once. left. exists 0%nat. by eapply step_wait. }
  split; [done|]. split; [done|]. intros s' Hs'.
  assert (inv n type (s Asleep None true (Joining 0))) as Hinv.
  { apply inv_reachable. eapply rtc_subrel; [|done]. intros ???. by left. }
  destruct (asleep_for_ever n type 0 _ s' Hinv eq_refl (ex_intro _ 0%nat eq_refl) Hs') as [H [j Ej]].
  split; [done|]. by rewrite Ej.
Qed.

(** [endServing] of a [MockHTTPWorker] does not wait for the thread that
    polls the server, and [WorkerThread] deletes the worker behind it: with any
    number of threads, [runBenchmark] can return while a thread of a deleted
    worker goes on reading the members of the worker. *)
Theorem http_worker_deleted_in_use n :
  (0 < n)%nat ->
  exists s, rtc (step n kMockHTTP) start s /\ threads s !! 0%nat = Some Deleted /\
    serving s !! 0%nat = Some true.
Proof.
  intros Hn. destruct n as [|m]; [lia|]. set (n := S m).
  set (s := fun p mu b q => State_ (p :: replicate m Starting) (true :: replicate m false) mu b q).
  exists (s Deleted None true Notifying). split; [|done].
  etransitivity; [apply created|].
  eapply rtc_l; [left; exists 0%nat; by apply step_start|].
  eapply (rtc_l _ _ (s Locking None true Notifying)); [right; by eapply step_finish|].
  eapply (rtc_l _ _ (s Testing (Some 0%nat) true Notifying)); [left; exists 0%nat; by eapply step_lock|].
  eapply (rtc_l _ _ (s Unlocking (Some 0%nat) true Notifying)); [left; exists 0%nat; by eapply step_test|].
  eapply (rtc_l _ _ (s Ending None true Notifying)); [left; exists 0%nat; by eapply step_unlock|].
  eapply (rtc_l _ _ (s Stopping None true Notifying)); [left; exists 0%nat; by eapply step_end|].
  eapply rtc_once. left. exists 0%nat. by eapply step_delete.
Qed.

(** ** Measurements *)

Lemma measure_loop_run clock tasks finished endTime k :
  endTime <= clock (S k) -> (forall j, (j < k)%nat -> clock (S j) < endTime) ->
  forall i fuel d f, (i <= k)%nat -> (k - i < fuel)%nat ->
  measure_loop clock tasks finished fuel i endTime d f =
  Done (d ++ (throughput clock tasks <$> seq i (S k - i)),
        f ++ (throughput clock finished <$> seq i (S k - i))).
Proof.
  intros Hk Hbefore i fuel. revert i. induction fuel as [|fuel IH]; intros i d f Hi Hf; [lia|].
  cbn [measure_loop]. replace (S k - i)%nat with (S (k - i)) by lia. cbn [seq].
  destruct (Z.ltb_spec (clock (S i)) endTime) as [Hlt|Hge].
  - assert (i <> k) by (intros ->; lia). rewrite IH by lia.
    replace (S k - S i)%nat with (k - i)%nat by lia. by rewrite !fmap_cons, <- !app_assoc.
  - assert (i = k) as -> by (destruct (decide (i < k)%nat); [specialize (Hbefore i); lia|lia]).
    by rewrite Nat.sub_diag.
Qed.

(** The measuring loop ends with the first reading at or after the deadline,
    for which one turn more than the readings before it is enough; it has then
    one throughput of dispatched and one of finished tasks per interval, each the
    tasks counted between two successive readings divided by the seconds between
    them. *)
Theorem throughput_per_interval clock tasks finished fuel T k :
  deadline (clock 0%nat) T <= clock (S k) ->
  (forall j, (j < k)%nat -> clock (S j) < deadline (clock 0%nat) T) -> (k < fuel)%nat ->
  measure_throughput clock tasks finished fuel T =
  Done (throughput clock tasks <$> seq 0 (S k), throughput clock finished <$> seq 0 (S k)).
Proof.
  intros Hk Hb Hf. unfold measure_throughput. by rewrite (measure_loop_run _ _ _ _ k) by (done || lia).
Qed.

(** ** Examples *)

(** One thread, from its creation to the return. *)
Definition run_of_one : list state :=
  let s := fun p b mu f q => State_ [p] [b] mu f q in
  [State_ [Starting] [false] None false Creating;
   s Starting false None false Measuring; s Locking true None false Measuring;
   s Testing true (Some 0%nat) false Measuring; s Waiting true (Some 0%nat) false Measuring;
   s Asleep true None false Measuring; s Asleep true None true Notifying;
   s Locking true None true (Joining 0); s Testing true (Some 0%nat) true (Joining 0);
   s Unlocking true (Some 0%nat) true (Joining 0); s Ending true None true (Joining 0);
   s Stopping true None true (Joining 0); s Stopping false None true (Joining 0);
   s Deleted false None true (Joining 0); s Deleted false None true (Joining 1);
   s Deleted false None true Returned].

Ltac worker_moves c := left; left; exists 0%nat; by eapply c.
Ltac main_moves c := left; right; by eapply c.

Lemma run_of_one_steps k s : run_of_one !! k = Some s ->
  rtc (any_step 1 kMockPoll) start s.
Proof.
  assert (forall k s s', run_of_one !! k = Some s -> run_of_one !! S k = Some s' ->
            any_step 1 kMockPoll s s') as Hstep.
  { intros [|[|[|[|[|[|[|[|[|[|[|[|[|[|[|?]]]]]]]]]]]]]]] s1 s2 H1 H2;
      cbn in H1, H2; simplify_eq.
    - main_moves step_created.
    - worker_moves step_start.
    - worker_moves step_lock.
    - worker_moves step_test.
    - worker_moves step_wait.
    - main_moves step_finish.
    - main_moves step_notify.
    - worker_moves step_lock.
    - worker_moves step_test.
    - worker_moves step_unlock.
    - worker_moves step_end.
    - worker_moves step_stopped.
    - left. left. exists 0%nat. by eapply step_delete.
    - main_moves step_join.
    - left. right. eapply step_return; [done|]. lia. }
  revert s. induction k as [|k IH]; intros s Hs.
  - cbn in Hs. simplify_eq. eapply rtc_once. left. right. apply step_create; [done|]. cbn. lia.
  - assert (exists s0, run_of_one !! k = Some s0) as [s0 H0].
    { apply lookup_lt_is_Some_2. apply lookup_lt_Some in Hs. lia. }
    eapply rtc_r; [by apply IH|]. by apply (Hstep k).
Qed.

Lemma workers_stop_in_order_witness :
  exists s, rtc (any_step 1 kMockPoll) start s /\ main s = Returned /\ threads s = [Deleted].
Proof.
  exists (State_ [Deleted] [false] None true Returned).
  pose proof (run_of_one_steps 15 _ eq_refl) as Hr. split; [exact Hr|split; [reflexivity|]].
  apply (workers_stop_in_order 1 kMockPoll _ Hr). reflexivity.
Defined.

(** At the moment of the notification the thread is blocked. *)
Lemma benchmark_stops_witness :
  let s := State_ [Asleep] [true] None true Notifying in
  rtc (any_step 1 kMockPoll) start s /\ exists s'', step 1 kMockPoll s s''.
Proof.
  intros s. pose proof (run_of_one_steps 6 s eq_refl) as Hr. split; [exact Hr|].
  destruct (benchmark_stops 1 kMockPoll s 0 s) as [_ [H|[H _]]]; [exact Hr | | apply nsteps_O | exact H | discriminate H].
  split; [reflexivity|split; [|left; reflexivity]]. intros [|i]; discriminate.
Defined.

Lemma lost_notification_witness :
  exists s, rtc (step 2 kMockPoll) start s /\ mainFinished s = true /\
    forall s', rtc (step 2 kMockPoll) s s' -> threads s' !! 0%nat = Some Asleep /\ main s' <> Returned.
Proof. apply (lost_notification 2 kMockPoll). lia. Defined.

Lemma http_worker_deleted_in_use_witness :
  exists s, rtc (step 3 kMockHTTP) start s /\ threads s !! 0%nat = Some Deleted /\
    serving s !! 0%nat = Some true.
Proof. apply (http_worker_deleted_in_use 3). lia. Defined.

Lemma throughput_per_interval_witness :
  let clock := fun k : nat => match k with O => 1000000 | 1%nat => 3000000 | _ => 5000000 end in
  let tasks := fun k : nat => match k with O => 0 | 1%nat => 10 | _ => 30 end in
  measure_throughput clock tasks tasks 5 4000 =
  Done ([f64_of_int 5; f64_of_int 10], [f64_of_int 5; f64_of_int 10]).
Proof.
  intros clock tasks. rewrite (throughput_per_interval clock tasks tasks 5 4000 1).
  - vm_compute. reflexivity.
  - vm_compute. congruence.
  - intros [|j] Hj; [vm_compute; reflexivity|lia].
  - lia.
Defined.
