(* ===== verification/TcpBench.v ===== *)
(** * The TCP benchmark

    [src/simulation/TCPBenchClient.cc] and [TCPBenchServer.cc]: a sender thread
    and a receiver thread that play ping-pong with batches of messages over one
    connection.  The connection is two streams of bytes with bounded buffers; a
    [read] or [write] moves any number of bytes from one to what it was asked
    for.  Each thread has its own message size and number of messages, as each
    program takes them from its own command line. *)

From S2P Require Import Prelude.
#[local] Open Scope Z_scope.

(** At most 2^26 latencies are recorded. *)
Definition kMaxEntries : Z := 67108864.

(** The parameters of one program. *)
Record params := { numMessages : Z; msg_size : Z }.

(** Where a thread is in a loop over the messages: message [i], of which
    [bytes] bytes are through. *)
Record place := At { msg : Z; bytes : Z }.
Definition first : place := At 0 0.

(** [SenderThread]: sending a batch, receiving the answers, at the end of the
    loop, returned, or the process has exited. *)
Inductive client_pc := CSend (p : place) | CRecv (p : place) | CEnd | CDone | CExit.
(** [ReceiverThread]. *)
Inductive server_pc := SRecv (p : place) | SSend (p : place) | SExit.

Record state := State_ {
  client : client_pc;
  exchanges : Z;                      (* batches the client has completed: [msgLatsArrayIndex] *)
  server : server_pc;
  batches : Z;                        (* batches the server has answered *)
  up : Z;                             (* bytes on their way to the server *)
  down : Z;                           (* bytes on their way to the client *)
}.

Definition start : state := State_ (CSend first) 0 (SRecv first) 0 0 0.

Section Threads.
Context (pc ps : params) (capacity : Z).

(** The loop condition [bytes < msg_size]; after it the next message. *)
Definition more (p : params) (l : place) : bool := bytes l <? msg_size p.
Definition in_batch (p : params) (l : place) : bool := msg l <? numMessages p.
Definition moved (n : Z) (l : place) : place := At (msg l) (bytes l + n).
Definition next (l : place) : place := At (msg l + 1) 0.

(** What one call of [read] or [write] can move. *)
Definition chunk (p : params) (l : place) (n : Z) : Prop :=
  in_batch p l = true /\ more p l = true /\ 0 < n <= msg_size p - bytes l.

Inductive client_step (s : state) : state -> Prop :=
  | c_write l n : client s = CSend l -> chunk pc l n -> up s + n <= capacity ->
      client_step s (State_ (CSend (moved n l)) (exchanges s) (server s) (batches s) (up s + n) (down s))
  | c_written l : client s = CSend l -> in_batch pc l = true -> more pc l = false ->
      client_step s (State_ (CSend (next l)) (exchanges s) (server s) (batches s) (up s) (down s))
  | c_sent l : client s = CSend l -> in_batch pc l = false ->
      client_step s (State_ (CRecv first) (exchanges s) (server s) (batches s) (up s) (down s))
  | c_read l n : client s = CRecv l -> chunk pc l n -> n <= down s ->
      client_step s (State_ (CRecv (moved n l)) (exchanges s) (server s) (batches s) (up s) (down s - n))
  | c_got l : client s = CRecv l -> in_batch pc l = true -> more pc l = false ->
      client_step s (State_ (CRecv (next l)) (exchanges s) (server s) (batches s) (up s) (down s))
  (** [fetch_add] on the index, the test of the bound, the latency. *)
  | c_record l : client s = CRecv l -> in_batch pc l = false ->
      client_step s (State_ (if exchanges s <? kMaxEntries then CEnd else CExit)
                       (exchanges s + 1) (server s) (batches s) (up s) (down s))
  (** [while (!mainFinished)]. *)
  | c_again : client s = CEnd ->
      client_step s (State_ (CSend first) (exchanges s) (server s) (batches s) (up s) (down s))
  | c_finished : client s = CEnd ->
      client_step s (State_ CDone (exchanges s) (server s) (batches s) (up s) (down s)).

Inductive server_step (s : state) : state -> Prop :=
  | s_read l n : server s = SRecv l -> chunk ps l n -> n <= up s ->
      server_step s (State_ (client s) (exchanges s) (SRecv (moved n l)) (batches s) (up s - n) (down s))
  | s_got l : server s = SRecv l -> in_batch ps l = true -> more ps l = false ->
      server_step s (State_ (client s) (exchanges s) (SRecv (next l)) (batches s) (up s) (down s))
  | s_received l : server s = SRecv l -> in_batch ps l = false ->
      server_step s (State_ (client s) (exchanges s) (SSend first) (batches s) (up s) (down s))
  | s_write l n : server s = SSend l -> chunk ps l n -> down s + n <= capacity ->
      server_step s (State_ (client s) (exchanges s) (SSend (moved n l)) (batches s) (up s) (down s + n))
  | s_written l : server s = SSend l -> in_batch ps l = true -> more ps l = false ->
      server_step s (State_ (client s) (exchanges s) (SSend (next l)) (batches s) (up s) (down s))
  | s_sent l : server s = SSend l -> in_batch ps l = false ->
      server_step s (State_ (client s) (exchanges s) (SRecv first) (batches s + 1) (up s) (down s)).

(** When the client is gone and nothing is left to read, [read] returns 0 and
    [bytes_read] stays as it is. *)
Inductive eof_step (s : state) : state -> Prop :=
  | s_eof l : server s = SRecv l -> in_batch ps l = true -> more ps l = true ->
      (client s = CDone \/ client s = CExit) -> up s = 0 -> eof_step s s.

(** A call on a broken connection returns a negative number: [exit(-1)]. *)
Inductive broken_step (s : state) : state -> Prop :=
  | c_broken l : client s = CSend l \/ client s = CRecv l ->
      broken_step s (State_ CExit (exchanges s) (server s) (batches s) (up s) (down s))
  | s_broken l : server s = SRecv l \/ server s = SSend l ->
      broken_step s (State_ (client s) (exchanges s) SExit (batches s) (up s) (down s)).

Definition step (s s' : state) : Prop := client_step s s' \/ server_step s s'.
Definition any_step (s s' : state) : Prop := step s s' \/ eof_step s s' \/ broken_step s s'.
End Threads.

(** ** What has passed *)

Definition batch (p : params) : Z := numMessages p * msg_size p.
(** Bytes of the current batch that are through. *)
Definition through (p : params) (l : place) : Z := msg l * msg_size p + bytes l.

Record valid (p : params) (l : place) : Prop := {
  valid_msg : 0 <= msg l <= numMessages p;
  valid_bytes : 0 <= bytes l <= msg_size p;
  valid_end : msg l = numMessages p -> bytes l = 0;
}.

Definition positive (p : params) : Prop := 0 < numMessages p /\ 0 < msg_size p.

Lemma batch_positive p : positive p -> 0 < batch p.
Proof. intros [H1 H2]. unfold batch. nia. Qed.

Section Conservation.
Context (pc ps : params) (capacity : Z) (Hc : positive pc) (Hs : positive ps).

(** All the bytes a thread has sent and received. *)
Definition c_bytes (s : state) : Z * Z :=
  match client s with
  | CSend l => (exchanges s * batch pc + through pc l, exchanges s * batch pc)
  | CRecv l => (exchanges s * batch pc + batch pc, exchanges s * batch pc + through pc l)
  | _ => (exchanges s * batch pc, exchanges s * batch pc)
  end.
Definition s_bytes (s : state) : Z * Z :=
  match server s with
  | SRecv l => (batches s * batch ps, batches s * batch ps + through ps l)
  | SSend l => (batches s * batch ps + through ps l, batches s * batch ps + batch ps)
  | SExit => (0, 0)
  end.

Definition client_valid (c : client_pc) : Prop :=
  match c with CSend l | CRecv l => valid pc l | _ => True end.
Definition server_valid (c : server_pc) : Prop :=
  match c with SRecv l | SSend l => valid ps l | SExit => False end.

(** No byte is lost or made up. *)
Record conserved (s : state) : Prop := {
  cons_client : client_valid (client s);
  cons_server : server_valid (server s);
  cons_up : (c_bytes s).1 = (s_bytes s).2 + up s /\ 0 <= up s <= capacity;
  cons_down : (s_bytes s).1 = (c_bytes s).2 + down s /\ 0 <= down s <= capacity;
  cons_counts : 0 <= exchanges s /\ 0 <= batches s;
}.

Lemma chunk_valid p l n : positive p -> valid p l -> chunk p l n ->
  valid p (moved n l) /\ through p (moved n l) = through p l + n /\ 0 < n.
Proof.
  intros Hp [Hm Hb He] (Hin & Hmore & Hn). unfold in_batch, more in *.
  rewrite Z.ltb_lt in Hin, Hmore. unfold through, moved. split; [|cbn; lia].
  split; cbn; lia.
Qed.

Lemma next_valid p l : positive p -> valid p l -> in_batch p l = true -> more p l = false ->
  valid p (next l) /\ through p (next l) = through p l.
Proof.
  intros Hp [Hm Hb He] Hin Hmore. unfold in_batch, more in *.
  rewrite Z.ltb_lt in Hin. rewrite Z.ltb_ge in Hmore. unfold through, next. cbn.
  split; [split; cbn; unfold positive in Hp; lia | lia].
Qed.

Lemma batch_end p l : valid p l -> in_batch p l = false -> through p l = batch p.
Proof.
  intros [Hm Hb He] Hin. unfold in_batch in Hin. rewrite Z.ltb_ge in Hin.
  unfold through, batch. rewrite He by lia. replace (msg l) with (numMessages p) by lia. lia.
Qed.

Lemma first_valid p : positive p -> valid p first /\ through p first = 0.
Proof. intros [H1 H2]. unfold through. split; [split; cbn; lia|cbn; lia]. Qed.

Lemma conserved_start : 0 <= capacity -> conserved start.
Proof.
  intros H. destruct (first_valid pc Hc) as [V1 E1]. destruct (first_valid ps Hs) as [V2 E2].
  split; cbn; try done; rewrite ?E1, ?E2; lia.
Qed.

Ltac counted := cbn [client server exchanges batches up down c_bytes s_bytes fst snd] in *.

Lemma conserved_client s s' : conserved s -> client_step pc capacity s s' -> conserved s'.
Proof.
  intros [Vc Vs [Eu Hu] [Ed Hd] Hk] Hstep.
  destruct Hstep as [l n E Hch Hcap|l E Hin Hm|l E Hin|l n E Hch Hav|l E Hin Hm|l E Hin|E|E];
    unfold c_bytes, s_bytes in *; rewrite E in *; cbn [client_valid] in Vc; counted;
    try (destruct (chunk_valid pc l n Hc Vc Hch) as (V & Et & Hn));
    try (destruct (next_valid pc l Hc Vc Hin Hm) as [V Et]);
    try (pose proof (batch_end pc l Vc Hin) as Et);
    destruct (first_valid pc Hc) as [Vf Ef];
    (split; unfold c_bytes, s_bytes; counted; try done; try (split; lia); try lia).
  - by destruct (exchanges s <? kMaxEntries).
  - destruct (exchanges s <? kMaxEntries); counted; lia.
  - destruct (exchanges s <? kMaxEntries); counted; lia.
Qed.

Lemma conserved_server s s' : conserved s -> server_step ps capacity s s' -> conserved s'.
Proof.
  intros [Vc Vs [Eu Hu] [Ed Hd] Hk] Hstep.
  destruct Hstep as [l n E Hch Hav|l E Hin Hm|l E Hin|l n E Hch Hcap|l E Hin Hm|l E Hin];
    unfold c_bytes, s_bytes in *; rewrite E in *; cbn [server_valid] in Vs; counted;
    try (destruct (chunk_valid ps l n Hs Vs Hch) as (V & Et & Hn));
    try (destruct (next_valid ps l Hs Vs Hin Hm) as [V Et]);
    try (pose proof (batch_end ps l Vs Hin) as Et);
    destruct (first_valid ps Hs) as [Vf Ef];
    (split; unfold c_bytes, s_bytes; counted; try done; try (split; lia); try lia).
Qed.

Lemma conserved_reachable s : 0 <= capacity -> rtc (step pc ps capacity) start s -> conserved s.
Proof.
  intros Hcap Hr. pose proof (conserved_start Hcap) as Hinv. revert Hinv.
  induction Hr as [s|s s1 s2 [H|H] Hr IH]; eauto using conserved_client, conserved_server.
Qed.
End Conservation.

(** ** Progress *)

(** Where a thread is, in steps: each byte and each end of a loop counts. *)
Definition pos (p : params) (l : place) : Z := msg l * (msg_size p + 1) + bytes l.
Definition batch_steps (p : params) : Z := numMessages p * (msg_size p + 1).
Definition client_turn (p : params) : Z := 2 * batch_steps p + 3.
Definition server_turn (p : params) : Z := 2 * batch_steps p + 2.

Definition client_pos (p : params) (s : state) : Z :=
  exchanges s * client_turn p +
  match client s with
  | CSend l => 1 + pos p l
  | CRecv l => batch_steps p + 2 + pos p l
  | CEnd => 0
  | CDone | CExit => 1
  end.
Definition server_pos (p : params) (s : state) : Z :=
  batches s * server_turn p +
  match server s with
  | SRecv l => pos p l
  | SSend l => batch_steps p + 1 + pos p l
  | SExit => 0
  end.

Section Progress.
Context (pc ps : params) (capacity : Z) (Hc : positive pc) (Hs : positive ps) (Hcap : 1 <= capacity).

Lemma pos_bound p l : positive p -> valid p l ->
  0 <= pos p l <= batch_steps p /\ (in_batch p l = false -> pos p l = batch_steps p).
Proof.
  intros [H1 H2] [Hm Hb He]. unfold pos, batch_steps, in_batch. rewrite Z.ltb_ge.
  destruct (Z.eq_dec (msg l) (numMessages p)) as [E|E].
  - rewrite (He E), E. split; [nia|lia].
  - split; [nia|lia].
Qed.

Lemma through_bound p l : positive p -> valid p l ->
  0 <= through p l <= batch p /\ (in_batch p l = true -> more p l = true -> through p l < batch p).
Proof.
  intros [H1 H2] [Hm Hb He]. unfold through, batch, in_batch, more. rewrite !Z.ltb_lt.
  destruct (Z.eq_dec (msg l) (numMessages p)) as [E|E].
  - rewrite (He E), E. split; [nia|lia].
  - split; [nia|intros; nia].
Qed.

(** Each step advances one of the two threads. *)
Lemma step_advances s s' : conserved pc ps capacity s -> step pc ps capacity s s' ->
  client_pos pc s + server_pos ps s + 1 <= client_pos pc s' + server_pos ps s'.
Proof.
  intros [Vc Vs _ _ _] [Hstep|Hstep]; unfold client_pos, server_pos.
  - destruct Hstep as [l n E Hch Hcp|l E Hin Hm|l E Hin|l n E Hch Hav|l E Hin Hm|l E Hin|E|E];
      rewrite E in *; cbn [client server exchanges batches client_valid] in *;
      try (destruct (pos_bound pc l Hc Vc) as [Hp Hpe]);
      try (unfold chunk, in_batch, more, moved, next in *; rewrite ?Z.ltb_lt, ?Z.ltb_ge in * );
      unfold pos, client_turn in *; cbn [msg bytes first] in *; try lia.
    all: try (destruct Vc; lia); specialize (Hpe Hin); try lia.
    destruct (exchanges s <? kMaxEntries); lia.
  - destruct Hstep as [l n E Hch Hav|l E Hin Hm|l E Hin|l n E Hch Hcp|l E Hin Hm|l E Hin];
      rewrite E in *; cbn [client server exchanges batches server_valid] in *;
      try (destruct (pos_bound ps l Hs Vs) as [Hp Hpe]);
      try (unfold chunk, in_batch, more, moved, next in *; rewrite ?Z.ltb_lt, ?Z.ltb_ge in * );
      unfold pos, server_turn in *; cbn [msg bytes first] in *; try lia.
    all: try (destruct Vs; lia); specialize (Hpe Hin); lia.
Qed.

Lemma pos_limits s : conserved pc ps capacity s ->
  client_pos pc s <= (exchanges s + 1) * client_turn pc /\
  server_pos ps s <= (batches s + 1) * server_turn ps.
Proof.
  intros [Vc Vs _ _ _]. unfold client_pos, server_pos, client_turn, server_turn.
  assert (0 < batch_steps pc) by (unfold batch_steps, positive in *; nia).
  assert (0 < batch_steps ps) by (unfold batch_steps, positive in *; nia).
  split.
  - destruct (client s) as [l|l| | |]; cbn [client_valid] in Vc;
      try (pose proof (pos_bound pc l Hc Vc)); lia.
  - destruct (server s) as [l|l|]; cbn [server_valid] in Vs; [| |done];
      pose proof (pos_bound ps l Hs Vs); lia.
Qed.

Lemma run_length k s s' : conserved pc ps capacity s -> nsteps (step pc ps capacity) k s s' ->
  conserved pc ps capacity s' /\
  client_pos pc s + server_pos ps s + Z.of_nat k <= client_pos pc s' + server_pos ps s'.
Proof.
  intros Hinv Hk. induction Hk as [s|k s s1 s2 Hstep Hk IH]; [split; [done|lia]|].
  pose proof (step_advances _ _ Hinv Hstep).
  assert (conserved pc ps capacity s1) as H1.
  { destruct Hstep; eauto using conserved_client, conserved_server. }
  destruct (IH H1) as [H2 H3]. split; [done|lia].
Qed.

Lemma turns_positive p : positive p -> 0 < client_turn p /\ 0 < server_turn p.
Proof. intros [H1 H2]. unfold client_turn, server_turn, batch_steps. nia. Qed.

Lemma start_pos p q : client_pos p start + server_pos q start = 1.
Proof.
  unfold client_pos, server_pos, pos. cbn [client server exchanges batches start msg bytes first]. lia.
Qed.

(** A thread that is not at a call can always move. *)
Lemma client_moves s l : client s = CSend l \/ client s = CRecv l ->
  in_batch pc l && more pc l = false -> exists s', client_step pc capacity s s'.
Proof.
  intros Hl Hno. destruct (in_batch pc l) eqn:E; cbn in Hno.
  - destruct Hl as [H|H]; eexists; [by eapply c_written|by eapply c_got].
  - destruct Hl as [H|H]; eexists; [by eapply c_sent|by eapply c_record].
Qed.

Lemma server_moves s l : server s = SRecv l \/ server s = SSend l ->
  in_batch ps l && more ps l = false -> exists s', server_step ps capacity s s'.
Proof.
  intros Hl Hno. destruct (in_batch ps l) eqn:E; cbn in Hno.
  - destruct Hl as [H|H]; eexists; [by eapply s_got|by eapply s_written].
  - destruct Hl as [H|H]; eexists; [by eapply s_received|by eapply s_sent].
Qed.

Lemma one_byte p l : in_batch p l && more p l = true -> chunk p l 1.
Proof.
  intros [H1 H2]%andb_true_iff. split; [done|]. split; [done|]. unfold more in H2.
  rewrite Z.ltb_lt in H2. lia.
Qed.
End Progress.

(** ** Batches of the same size *)

Section InStep.
Context (pc ps : params) (capacity : Z) (Hc : positive pc) (Hs : positive ps) (Hcap : 1 <= capacity).
Context (Hsame : batch pc = batch ps).

(** What the bytes say about the counts, whatever the threads are doing. *)
Lemma counts_close s : conserved pc ps capacity s ->
  -1 <= batches s - exchanges s <= 1 /\
  (client s = CEnd \/ client s = CDone -> up s = 0 /\ down s = 0).
Proof.
  intros [Vc Vs [Eu Hu] [Ed Hd] Hk]. pose proof (batch_positive ps Hs) as HB.
  unfold c_bytes, s_bytes in *. rewrite Hsame in *.
  destruct (client s) as [lc|lc| | |], (server s) as [ls|ls|]; cbn [fst snd client_valid server_valid] in *;
    try done;
    try (pose proof (through_bound pc lc Hc Vc) as [Tc _]; rewrite Hsame in Tc);
    try (pose proof (through_bound ps ls Hs Vs) as [Ts _]).
  all: split; [split; nia | try (intros [?|?]; done)].
  all: intros _; nia.
Qed.

(** The two threads are never both stuck. *)
Lemma no_deadlock s : conserved pc ps capacity s -> client s <> CDone -> client s <> CExit ->
  exists s', step pc ps capacity s s'.
Proof.
  intros Hinv Hd1 Hd2. pose proof Hinv as [Vc Vs [Eu Hu] [Ed Hd] Hk].
  pose proof (batch_positive ps Hs) as HB. unfold c_bytes, s_bytes in *. rewrite Hsame in *.
  destruct (client s) as [lc|lc| | |] eqn:Ec; try done; [| |eexists; left; by apply c_again].
  all: destruct (in_batch pc lc && more pc lc) eqn:Emc;
    [|destruct (client_moves pc capacity s lc) as [s' H]; [auto|done|by exists s'; left]].
  all: destruct (server s) as [ls|ls|] eqn:Es; [| |done];
    (destruct (in_batch ps ls && more ps ls) eqn:Ems;
      [|destruct (server_moves ps capacity s ls) as [s' H]; [auto|done|by exists s'; right]]).
  all: cbn [fst snd client_valid server_valid] in *; pose proof (one_byte _ _ Emc) as Hc1;
    pose proof (one_byte _ _ Ems) as Hs1.
  all: pose proof (through_bound pc lc Hc Vc) as [Tc Tc']; pose proof (through_bound ps ls Hs Vs) as [Ts Ts'];
    apply andb_true_iff in Emc as [Ein Emo]; apply andb_true_iff in Ems as [Ein' Emo'];
    specialize (Tc' Ein Emo); specialize (Ts' Ein' Emo'); rewrite Hsame in *.
  - destruct (decide (up s = 0)); [eexists; left; eapply c_write; [done|done|lia]|].
    eexists. right. eapply s_read; [done|done|lia].
  - assert (batches s < exchanges s) by (apply (Z.mul_lt_mono_pos_r (batch ps)); lia).
    assert (exchanges s < batches s + 1) by (apply (Z.mul_lt_mono_pos_r (batch ps)); lia). lia.
  - destruct (decide (down s = 0)); [|eexists; left; eapply c_read; [done|done|lia]].
    destruct (decide (up s = 0)).
    { assert (batches s < exchanges s + 1) by (apply (Z.mul_lt_mono_pos_r (batch ps)); lia).
      assert (exchanges s < batches s + 1) by (apply (Z.mul_lt_mono_pos_r (batch ps)); lia).
      assert (batches s = exchanges s) as Eb by lia. rewrite Eb in *. lia. }
    eexists. right. eapply s_read; [done|done|lia].
  - destruct (decide (down s = 0)); [|eexists; left; eapply c_read; [done|done|lia]].
    eexists. right. eapply s_write; [done|done|lia].
Qed.

(** C11: with batches of the same size, however [read] and [write] cut the streams
    and however small the buffers are: the two threads never differ by more than
    one batch; no byte of an exchange is left in the connection when the client
    has completed it; until the client has finished one of the threads can always
    move; and a run in which the client completes [x] exchanges has at most
    [(x + 2)] turns of both threads. *)
Theorem tcp_exchange_in_step k s :
  nsteps (step pc ps capacity) k start s ->
  -1 <= batches s - exchanges s <= 1 /\
  (client s = CEnd \/ client s = CDone -> up s = 0 /\ down s = 0) /\
  (client s <> CDone -> client s <> CExit -> exists s', step pc ps capacity s s') /\
  Z.of_nat k <= (exchanges s + 2) * (client_turn pc + server_turn ps).
Proof.
  intros Hk. destruct (run_length pc ps capacity Hc Hs k start s) as [Hinv Hlen]; [|done|].
  { apply conserved_start; (done || lia). }
  destruct (counts_close s Hinv) as [Hcl Hempty].
  split; [done|]. split; [done|]. split; [by apply no_deadlock|].
  destruct (pos_limits pc ps capacity Hc Hs s Hinv) as [L1 L2].
  pose proof (start_pos pc ps) as Hst.
  pose proof (turns_positive pc Hc) as [P1 _]. pose proof (turns_positive ps Hs) as [_ P2].
  assert ((batches s + 1) * server_turn ps <= (exchanges s + 2) * server_turn ps)
    by (apply Z.mul_le_mono_nonneg_r; lia). lia.
Qed.
End InStep.

(** ** Batches that do not fit *)

Section Mismatch.
Context (pc ps : params) (capacity : Z) (Hc : positive pc) (Hs : positive ps) (Hcap : 1 <= capacity).
Context (Hmis : ~ (batch ps | batch pc)).

Lemma no_exchange s : rtc (step pc ps capacity) start s ->
  exchanges s = 0 /\ (exists l, client s = CSend l \/ client s = CRecv l).
Proof.
  revert s. apply (rtc_ind_r (fun s => exchanges s = 0 /\ exists l, client s = CSend l \/ client s = CRecv l));
    [split; [done|]; by eexists; left|].
  intros s s' Hr Hstep [Hex (l0 & Hl0)].
  pose proof (conserved_reachable pc ps capacity Hc Hs s ltac:(lia) Hr) as [Vc Vs [Eu Hu] [Ed Hd] Hk].
  destruct Hstep as [Hstep|Hstep].
  - destruct Hstep as [l n E Hch Hcp|l E Hin Hm|l E Hin|l n E Hch Hav|l E Hin Hm|l E Hin|E|E];
      cbn [exchanges client]; try (split; [done|eexists; first [by left | by right]]);
      try (by destruct Hl0; congruence).
    exfalso. rewrite E in Vc. cbn in Vc. pose proof (batch_end pc l Vc Hin) as Et.
    unfold c_bytes, s_bytes in *. rewrite E, Hex, Et in *.
    destruct (server s) as [ls|ls|]; cbn [fst snd server_valid] in *; [| |done];
      pose proof (through_bound ps ls Hs Vs) as [Ts _]; apply Hmis.
    + exists (batches s). nia.
    + exists (batches s + 1). nia.
  - destruct Hstep; cbn [exchanges client]; split; try done; by exists l0.
Qed.

(** When the batch of the client is not a multiple of that of the server, the
    two threads block each other: in no run is any exchange ever completed, and
    every run is finite, so that each ends in a state in which both threads wait
    for ever. *)
Theorem mismatch_deadlocks k s :
  nsteps (step pc ps capacity) k start s ->
  exchanges s = 0 /\ client s <> CEnd /\
  Z.of_nat k <= client_turn pc + (batch pc + 1) * server_turn ps.
Proof.
  intros Hk. assert (rtc (step pc ps capacity) start s) as Hr by (apply rtc_nsteps; eauto).
  destruct (no_exchange s Hr) as [Hex (l & Hl)]. split; [done|]. split; [destruct Hl; congruence|].
  destruct (run_length pc ps capacity Hc Hs k start s) as [Hinv Hlen]; [|done|].
  { apply conserved_start; (done || lia). }
  destruct (pos_limits pc ps capacity Hc Hs s Hinv) as [L1 L2]. rewrite Hex in L1.
  pose proof (start_pos pc ps) as Hst.
  pose proof (turns_positive ps Hs) as [_ P2]. pose proof (batch_positive ps Hs) as HB.
  assert (batches s <= batch pc) as Hb.
  { destruct Hinv as [Vc Vs [Eu Hu] [Ed Hd] Hcnt]. unfold c_bytes, s_bytes in *. rewrite Hex in *.
    assert ((match client s with
             | CSend l => (0 * batch pc + through pc l, 0 * batch pc)
             | CRecv l => (0 * batch pc + batch pc, 0 * batch pc + through pc l)
             | _ => (0 * batch pc, 0 * batch pc)
             end).1 <= batch pc) as Hcb.
    { destruct Hl as [E|E]; rewrite E in *; cbn [client_valid fst] in *;
        pose proof (through_bound pc l Hc Vc) as [Tc _]; lia. }
    destruct (server s) as [ls|ls|]; cbn [fst snd server_valid] in *; [| |done];
      pose proof (through_bound ps ls Hs Vs) as [Ts _]; nia. }
  assert ((batches s + 1) * server_turn ps <= (batch pc + 1) * server_turn ps)
    by (apply Z.mul_le_mono_nonneg_r; lia). lia.
Qed.
End Mismatch.

(** ** The end of the client *)

Lemma through_zero p l : positive p -> valid p l -> through p l = 0 -> l = first.
Proof.
  intros [H1 H2] [Hm Hb He] Ht. unfold through in Ht. destruct l as [i b]. cbn in *.
  assert (i = 0) as -> by nia. unfold first. f_equal. lia.
Qed.

(** From any place at the end of a batch to the next turn. *)
Lemma finish_batch ps capacity s l :
  positive ps -> server s = SSend l -> valid ps l -> through ps l = batch ps ->
  exists s', rtc (server_step ps capacity) s s' /\ server s' = SRecv first /\ client s' = client s /\
    up s' = up s /\ down s' = down s.
Proof.
  intros Hp Es Vl Ht. pose proof Hp as [P1 P2].
  destruct (in_batch ps l) eqn:Ein.
  - assert (more ps l = false) as Em.
    { pose proof (through_bound ps l Hp Vl) as [_ Hlt]. destruct (more ps l) eqn:Em; [|done].
      specialize (Hlt Ein eq_refl). lia. }
    destruct (next_valid ps l Hp Vl Ein Em) as [Vn Hn].
    assert (in_batch ps (next l) = false) as Ein2.
    { destruct Vl as [Vm Vb Ve]. unfold in_batch, more, through, batch, next in *. cbn [msg bytes] in *.
      rewrite Z.ltb_ge in Em |- *. rewrite Z.ltb_lt in Ein. nia. }
    eexists. split; [|split; [|split; [|split]]].
    + eapply rtc_l; [by eapply s_written|]. eapply rtc_once. by eapply s_sent.
    + done. + done. + done. + done.
  - eexists. split; [eapply rtc_once; by eapply s_sent|done].
Qed.

(** The server does not notice the end of the client.  When the client has
    finished, the server comes to a state in which [read] returns 0 for ever: the
    only step it has is one that changes nothing, and its thread never returns. *)
Theorem server_spins pc ps capacity s :
  positive pc -> positive ps -> 1 <= capacity -> batch pc = batch ps ->
  rtc (step pc ps capacity) start s -> client s = CDone ->
  exists s', rtc (step pc ps capacity) s s' /\ eof_step ps s' s' /\
    forall s'', step pc ps capacity s' s'' \/ eof_step ps s' s'' -> s'' = s'.
Proof.
  intros Hc Hs Hcap Hsame Hr Hd.
  pose proof (conserved_reachable pc ps capacity Hc Hs s ltac:(lia) Hr) as Hinv.
  destruct (counts_close pc ps capacity Hc Hs Hcap Hsame s Hinv) as [Hcl He].
  destruct He as [Eup Edn]; [by right|].
  assert (exists s', rtc (step pc ps capacity) s s' /\ server s' = SRecv first /\ client s' = CDone /\
    up s' = 0) as (s' & Hr' & Es' & Ec' & Eu').
  { destruct Hinv as [Vc Vs [Eu Hu] [Ed Hdn] Hk]. unfold c_bytes, s_bytes in *. rewrite Hd in *.
    pose proof (batch_positive ps Hs) as HB. rewrite Hsame, Eup, Edn in *.
    destruct (server s) as [ls|ls|] eqn:Es; cbn [fst snd server_valid] in *; [| |done];
      pose proof (through_bound ps ls Hs Vs) as [Ts _].
    - exists s. split; [done|]. rewrite Es, (through_zero ps ls Hs Vs) by lia. by rewrite Hd.
    - destruct (finish_batch ps capacity s ls Hs Es Vs ltac:(lia)) as (s' & Hr' & E1 & E2 & E3 & _).
      exists s'. split; [eapply rtc_subrel; [|exact Hr']; intros ???; by right|].
      split; [done|]. split; congruence. }
  exists s'. split; [done|]. destruct Hs as [P1 P2]. split.
  - eapply s_eof; [exact Es'| | |by left|done].
    + unfold in_batch, first. cbn. by apply Z.ltb_lt.
    + unfold more, first. cbn. by apply Z.ltb_lt.
  - intros s'' [[H|H]|H]; [destruct H; congruence| |by destruct H].
    destruct H as [l n E Hch Hav|l E Hin Hm|l E Hin|l n E Hch Hcp|l E Hin Hm|l E Hin]; try congruence;
      rewrite Es' in E; injection E as <-.
    + destruct Hch as (_ & _ & Hn). lia.
    + unfold more, first in Hm. cbn in Hm. rewrite Z.ltb_ge in Hm. lia.
    + unfold in_batch, first in Hin. cbn in Hin. rewrite Z.ltb_ge in Hin. lia.
Qed.

(** ** Examples *)

Definition two_by_three : params := {| numMessages := 2; msg_size := 3 |}.
Definition one_by_one : params := {| numMessages := 1; msg_size := 1 |}.

Lemma tcp_exchange_in_step_witness :
  let s := State_ (CSend (At 0 2)) 0 (SRecv (At 0 1)) 0 1 0 in
  nsteps (step two_by_three two_by_three 2) 2 start s /\ -1 <= batches s - exchanges s <= 1.
Proof.
  intros s. assert (nsteps (step two_by_three two_by_three 2) 2 start s) as Hk.
  { eapply nsteps_l; [left; eapply (c_write _ _ _ first 2); [reflexivity | repeat split; vm_compute; congruence | vm_compute; congruence]|].
    eapply nsteps_l; [right; eapply (s_read _ _ _ first 1); [reflexivity | repeat split; vm_compute; congruence | vm_compute; congruence]|].
    apply nsteps_O. }
  split; [exact Hk|].
  apply (tcp_exchange_in_step two_by_three two_by_three 2
           ltac:(split; vm_compute; reflexivity) ltac:(split; vm_compute; reflexivity)
           ltac:(vm_compute; congruence) eq_refl 2 s Hk).
Defined.

(** A client with one message of three bytes and a server that reads two. *)
Lemma mismatch_deadlocks_witness :
  let pc := {| numMessages := 1; msg_size := 3 |} in
  let ps := {| numMessages := 1; msg_size := 2 |} in
  let s := State_ (CSend (At 0 3)) 0 (SRecv first) 0 3 0 in
  nsteps (step pc ps 4) 1 start s /\ exchanges s = 0 /\ client s <> CEnd.
Proof.
  intros pc ps s. assert (nsteps (step pc ps 4) 1 start s) as Hk.
  { eapply nsteps_l; [left; eapply (c_write _ _ _ first 3); [reflexivity | repeat split; vm_compute; congruence | vm_compute; congruence]|].
    apply nsteps_O. }
  split; [exact Hk|].
  destruct (mismatch_deadlocks pc ps 4 ltac:(split; vm_compute; reflexivity)
           ltac:(split; vm_compute; reflexivity) ltac:(vm_compute; congruence)
           ltac:(intros [z Hz]; change (3 = z * 2) in Hz; lia) 1 s Hk) as (H1 & H2 & _).
  split; [exact H1|exact H2].
Defined.

(** One exchange of one byte, after which the client finishes. *)
Definition over : state := State_ CDone 1 (SRecv first) 1 0 0.

Ltac by_client c l n :=
  left; lazymatch goal with |- client_step ?p ?k ?s _ => apply (c p k s l n) end.
Ltac by_server c l n :=
  right; lazymatch goal with |- server_step ?p ?k ?s _ => apply (c p k s l n) end.
Ltac end_of R c l :=
  lazymatch goal with |- R ?p ?k ?s _ => by apply (c p k s l) end.

Lemma over_reachable : rtc (step one_by_one one_by_one 1) start over.
Proof.
  assert (forall l, l = first -> chunk one_by_one l 1) as Hch by (intros ? ->; repeat split; vm_compute; congruence).
  set (s := fun c x v j u d => State_ c x v j u d).
  apply (rtc_l _ _ (s (CSend (At 0 1)) 0 (SRecv first) 0 1 0)).
  { by_client c_write first 1; [reflexivity|by apply Hch|vm_compute; congruence]. }
  apply (rtc_l _ _ (s (CSend (At 1 0)) 0 (SRecv first) 0 1 0)).
  { left. end_of client_step c_written (At 0 1). }
  apply (rtc_l _ _ (s (CRecv first) 0 (SRecv first) 0 1 0)).
  { left. end_of client_step c_sent (At 1 0). }
  apply (rtc_l _ _ (s (CRecv first) 0 (SRecv (At 0 1)) 0 0 0)).
  { by_server s_read first 1; [reflexivity|by apply Hch|vm_compute; congruence]. }
  apply (rtc_l _ _ (s (CRecv first) 0 (SRecv (At 1 0)) 0 0 0)).
  { right. end_of server_step s_got (At 0 1). }
  apply (rtc_l _ _ (s (CRecv first) 0 (SSend first) 0 0 0)).
  { right. end_of server_step s_received (At 1 0). }
  apply (rtc_l _ _ (s (CRecv first) 0 (SSend (At 0 1)) 0 0 1)).
  { by_server s_write first 1; [reflexivity|by apply Hch|vm_compute; congruence]. }
  apply (rtc_l _ _ (s (CRecv first) 0 (SSend (At 1 0)) 0 0 1)).
  { right. end_of server_step s_written (At 0 1). }
  apply (rtc_l _ _ (s (CRecv first) 0 (SRecv first) 1 0 1)).
  { right. end_of server_step s_sent (At 1 0). }
  apply (rtc_l _ _ (s (CRecv (At 0 1)) 0 (SRecv first) 1 0 0)).
  { by_client c_read first 1; [reflexivity|by apply Hch|vm_compute; congruence]. }
  apply (rtc_l _ _ (s (CRecv (At 1 0)) 0 (SRecv first) 1 0 0)).
  { left. end_of client_step c_got (At 0 1). }
  apply (rtc_l _ _ (s CEnd 1 (SRecv first) 1 0 0)).
  { left. end_of client_step c_record (At 1 0). }
  apply rtc_once. left. by apply c_finished.
Qed.

Lemma server_spins_witness :
  exists s', rtc (step one_by_one one_by_one 1) over s' /\ eof_step one_by_one s' s'.
Proof.
  destruct (server_spins one_by_one one_by_one 1 over ltac:(split; vm_compute; reflexivity)
              ltac:(split; vm_compute; reflexivity) ltac:(vm_compute; congruence) eq_refl over_reachable
              eq_refl) as (s' & H1 & H2 & _).
  exists s'. split; [exact H1|exact H2].
Defined.
