(* ===== verification/TcpBroadcast.v ===== *)
(** * The TCP benchmark: broadcasting

    [BroadcasterThread] and [setup_connections] of
    [src/simulation/TCPBenchClient.cc]: one thread writes a message to each of its
    receivers in turn, then polls the connections until all have replied.  On each
    connection it behaves like a sender thread with one message per batch
    (TcpBench.v); which connections have replied in the current exchange is
    kept beside the state of the code, which only counts them. *)

From S2P Require Import Prelude TcpBench.
#[local] Open Scope Z_scope.

(** ** Setting up *)

(** A connection to every port from [serverPort] on; the first that cannot be
    made ends the process. *)
Fixpoint connect_all (connect : Z -> bool) (serverPort : Z) (n : nat) : outcome (list Z) :=
  match n with
  | O => Done []
  | S n' =>
      match connect_all connect serverPort n' with
      | Done ports =>
          let port := wrap32 (serverPort + Z.of_nat n') in
          if connect port then Done (ports ++ [port]) else Trap ProcessExit
      | o => o
      end
  end.

Definition setup_connections (connect : Z -> bool) (serverPort numReceivers : Z) : outcome (list Z) :=
  connect_all connect serverPort (Z.to_nat numReceivers).

(** The threads that [runBenchmark] starts, each with the port it is given. *)
Inductive sender_thread := Sender (port : Z) | Broadcaster (port : Z).

Definition start_threads (broadcast : bool) (basePort numSenders : Z) : list sender_thread :=
  (fun i => if broadcast then Broadcaster (wrap32 (basePort + i)) else Sender (wrap32 (basePort + i)))
    <$> seqZ 0 numSenders.

(** ** The thread *)

(** Writing to receiver [i], polling, reading the reply of the first of the
    reported connections, behind the loops, returned, exited. *)
Inductive broadcaster :=
  | BSend (i : nat) (total_sent : Z)
  | BWait (replied : Z)
  | BRead (events : list nat) (total_read replied : Z)
  | BEnd | BDone | BExit.

(** A connection and the receiver behind it; [replied_] tells whether its reply
    of this exchange was read. *)
Record link := Link {
  lk_server : server_pc;
  lk_batches : Z;
  lk_up : Z;
  lk_down : Z;
  replied_ : bool;
}.

Record bstate := BState { thread : broadcaster; done : Z; links : list link }.

Definition start_link : link := Link (SRecv first) 0 0 0 false.
Definition broadcast_start (n : nat) : bstate := BState (BSend 0 0) 0 (replicate n start_link).

Definition sends (n : Z) (k : link) : link :=
  Link (lk_server k) (lk_batches k) (lk_up k + n) (lk_down k) (replied_ k).
Definition receives (n : Z) (k : link) : link :=
  Link (lk_server k) (lk_batches k) (lk_up k) (lk_down k - n) (replied_ k).
Definition mark (b : bool) (k : link) : link :=
  Link (lk_server k) (lk_batches k) (lk_up k) (lk_down k) b.

Section Steps.
Context (msg_size capacity : Z) (ps : params).

(** [epoll_wait]: some of the connections with something to read. *)
Definition readable (ls : list link) (i : nat) : Prop :=
  exists k, ls !! i = Some k /\ 0 < lk_down k.
Definition reported (ls : list link) (events : list nat) : Prop :=
  events <> [] /\ NoDup events /\ Forall (readable ls) events.

Inductive broadcast_step (b : bstate) : bstate -> Prop :=
  | b_write i sent k n : thread b = BSend i sent -> links b !! i = Some k -> sent < msg_size ->
      0 < n <= msg_size - sent -> lk_up k + n <= capacity ->
      broadcast_step b (BState (BSend i (sent + n)) (done b) (<[i := sends n k]> (links b)))
  | b_written i sent : thread b = BSend i sent -> (i < length (links b))%nat -> msg_size <= sent ->
      broadcast_step b (BState (BSend (S i) 0) (done b) (links b))
  | b_sent i sent : thread b = BSend i sent -> (length (links b) <= i)%nat ->
      broadcast_step b (BState (BWait 0) (done b) (links b))
  | b_wait replied events : thread b = BWait replied -> replied < Z.of_nat (length (links b)) ->
      reported (links b) events ->
      broadcast_step b (BState (BRead events 0 replied) (done b) (links b))
  | b_read i es got replied k n : thread b = BRead (i :: es) got replied -> links b !! i = Some k ->
      got < msg_size -> 0 < n <= msg_size - got -> n <= lk_down k ->
      broadcast_step b (BState (BRead (i :: es) (got + n) replied) (done b) (<[i := receives n k]> (links b)))
  | b_got i es got replied : thread b = BRead (i :: es) got replied -> msg_size <= got ->
      broadcast_step b (BState (BRead es 0 (replied + 1)) (done b) (alter (mark true) i (links b)))
  | b_polled got replied : thread b = BRead [] got replied ->
      broadcast_step b (BState (BWait replied) (done b) (links b))
  | b_record replied : thread b = BWait replied -> Z.of_nat (length (links b)) <= replied ->
      broadcast_step b (BState (if done b <? kMaxEntries then BEnd else BExit) (done b + 1)
                          (mark false <$> links b))
  | b_again : thread b = BEnd -> broadcast_step b (BState (BSend 0 0) (done b) (links b))
  | b_finished : thread b = BEnd -> broadcast_step b (BState BDone (done b) (links b)).

(** A receiver as in TcpBench.v; the client's side of its state does not matter. *)
Definition link_state (c : client_pc) (x : Z) (k : link) : state :=
  State_ c x (lk_server k) (lk_batches k) (lk_up k) (lk_down k).

Inductive receiver_step (b : bstate) : bstate -> Prop :=
  | r_step i k c x s v u d : links b !! i = Some k ->
      server_step ps capacity (link_state CEnd 0 k) (State_ c x s v u d) ->
      receiver_step b (BState (thread b) (done b) (<[i := Link s v u d (replied_ k)]> (links b))).

(** A poll that reports nothing in ten minutes, or fails. *)
Inductive idle_step (b : bstate) : bstate -> Prop :=
  | i_poll replied : thread b = BWait replied -> replied < Z.of_nat (length (links b)) -> idle_step b b.

Definition bstep (b b' : bstate) : Prop := broadcast_step b b' \/ receiver_step b b'.
End Steps.

(** ** One connection *)

(** What the thread is doing on connection [i]. *)
Definition client_on (b : broadcaster) (i : nat) (replied : bool) : client_pc :=
  let waiting := if replied then CRecv (At 1 0) else CRecv first in
  match b with
  | BSend j sent =>
      if decide (i < j)%nat then CRecv first
      else if decide (i = j) then CSend (At 0 sent) else CSend first
  | BWait _ => waiting
  | BRead [] _ _ => waiting
  | BRead (j :: _) got _ => if decide (i = j) then CRecv (At 0 got) else waiting
  | BEnd => CEnd
  | BDone => CDone
  | BExit => CExit
  end.

Definition conn (b : bstate) (i : nat) (k : link) : state :=
  link_state (client_on (thread b) i (replied_ k)) (done b) k.

Section Refinement.
Context (msg_size capacity : Z) (ps : params) (size_pos : 0 < msg_size).
(** A sender thread with one message. *)
Let pc : params := {| numMessages := 1; TcpBench.msg_size := msg_size |}.

(** The bookkeeping of an exchange. *)
Definition replies (b : bstate) : nat := length (filter (fun k => replied_ k = true) (links b)).

Definition counted (b : bstate) : Prop :=
  match thread b with
  | BWait replied => Z.of_nat (replies b) = replied
  | BRead events got replied =>
      Z.of_nat (replies b) = replied /\ NoDup events /\
      Forall (fun i => exists k, links b !! i = Some k /\ replied_ k = false) events
  | _ => Forall (fun k => replied_ k = false) (links b)
  end.

(** Each connection is in a state of a sender thread and its receiver. *)
Record refines (n : nat) (b : bstate) : Prop := {
  ref_length : length (links b) = n;
  ref_conn i k : links b !! i = Some k -> rtc (step pc ps capacity) start (conn b i k);
  ref_counted : counted b;
}.

Lemma in_first sent : in_batch pc (At 0 sent) = true.
Proof. done. Qed.
Lemma not_in_second sent : in_batch pc (At 1 sent) = false.
Proof. done. Qed.
Lemma more_iff m sent : more pc (At m sent) = true <-> sent < msg_size.
Proof. unfold more. cbn. apply Z.ltb_lt. Qed.
Lemma more_false m sent : msg_size <= sent -> more pc (At m sent) = false.
Proof. intros H. unfold more. cbn. by apply Z.ltb_ge. Qed.

Lemma chunk_of sent n : sent < msg_size -> 0 < n <= msg_size - sent -> chunk pc (At 0 sent) n.
Proof. intros H1 H2. split; [done|]. split; [by apply more_iff|done]. Qed.

(** Runs of one side of a connection. *)
Lemma client_run s s' : client_step pc capacity s s' -> rtc (step pc ps capacity) s s'.
Proof. intros H. apply rtc_once. by left. Qed.

(** *** Counting replies *)

Lemma replies_mark ls i k :
  ls !! i = Some k -> replied_ k = false ->
  length (filter (fun k => replied_ k = true) (alter (mark true) i ls)) =
  S (length (filter (fun k => replied_ k = true) ls)).
Proof.
  revert i. induction ls as [|k0 ls IH]; intros [|i]; try done.
  - intros [= ->] Hk. change (alter (mark true) 0%nat (k :: ls)) with (mark true k :: ls).
    rewrite !filter_cons, decide_True, decide_False by (done || congruence). done.
  - intros Hi Hk. change (alter (mark true) (S i) (k0 :: ls)) with (k0 :: alter (mark true) i ls).
    rewrite !filter_cons. destruct (decide (replied_ k0 = true)); cbn [length]; by rewrite (IH i).
Qed.

Lemma replies_none ls :
  Forall (fun k => replied_ k = false) ls -> filter (fun k => replied_ k = true) ls = [].
Proof.
  induction 1 as [|k ls Hk _ IH]; [done|]. rewrite filter_cons, decide_False by congruence. done.
Qed.

Lemma replies_all ls i k :
  (length ls <= length (filter (fun k => replied_ k = true) ls))%nat -> ls !! i = Some k -> replied_ k = true.
Proof.
  revert i. induction ls as [|k0 ls IH]; intros i; [done|]. rewrite filter_cons.
  pose proof (length_filter (fun k => replied_ k = true) ls) as Hle.
  destruct (decide (replied_ k0 = true)) as [Hk|Hk]; cbn; [|lia].
  intros Hlen. destruct i as [|i]; [intros [= <-]; done|]. cbn. apply IH. lia.
Qed.

Lemma replies_insert ls i k k' :
  ls !! i = Some k -> replied_ k' = replied_ k ->
  length (filter (fun k => replied_ k = true) (<[i := k']> ls)) =
  length (filter (fun k => replied_ k = true) ls).
Proof.
  revert i. induction ls as [|k0 ls IH]; intros [|i]; try done.
  - intros [= ->] Hk. change (<[0%nat := k']> (k :: ls)) with (k' :: ls).
    rewrite !filter_cons, Hk. by destruct (decide _).
  - intros Hi Hk. change (<[S i := k']> (k0 :: ls)) with (k0 :: <[i := k']> ls).
    rewrite !filter_cons. destruct (decide (replied_ k0 = true)); cbn [length]; by rewrite (IH i).
Qed.

(** Only traffic: the flags stay. *)
Lemma counted_insert b t x i k k' :
  links b !! i = Some k -> replied_ k' = replied_ k ->
  counted (BState t x (links b)) -> counted (BState t x (<[i := k']> (links b))).
Proof.
  intros Hi Hk. unfold counted, replies. cbn.
  assert (Forall (fun k => replied_ k = false) (links b) ->
          Forall (fun k => replied_ k = false) (<[i := k']> (links b))) as Hall.
  { intros Hf. apply Forall_insert; [done|]. rewrite Hk. by eapply Forall_lookup_1 in Hf. }
  destruct t as [j s|r|es g r| | |]; try exact Hall.
  - by rewrite (replies_insert _ _ _ _ Hi Hk).
  - rewrite (replies_insert _ _ _ _ Hi Hk). intros (H1 & H2 & H3). split; [done|]. split; [done|].
    eapply Forall_impl; [exact H3|]. cbn. intros j (kj & Hj & Hf).
    destruct (decide (i = j)) as [<-|Hne].
    + exists k'. split; [rewrite list_lookup_insert_eq; [done|by eapply lookup_lt_Some]|congruence].
    + exists kj. by rewrite list_lookup_insert_ne.
Qed.

(** *** The simulation *)

Context (same_size : msg_size = batch ps) (cap_pos : 1 <= capacity) (ps_pos : positive ps).

Lemma pc_pos : positive pc.
Proof using size_pos. by split. Qed.

Lemma batch_pc : batch pc = msg_size.
Proof. unfold batch. cbn. lia. Qed.

Lemma conn_conserved n b i k : refines n b -> links b !! i = Some k -> conserved pc ps capacity (conn b i k).
Proof using All.
  intros Href Hk. apply conserved_reachable; [apply pc_pos|done|lia|by eapply ref_conn].
Qed.

(** Behind the last byte of a reply nothing more comes. *)
Lemma replied_quiet s : conserved pc ps capacity s -> client s = CRecv (At 1 0) -> down s = 0.
Proof using All.
  intros [Vc Vs [Eu Hu] [Ed Hd] Hk] Hc. pose proof (batch_positive ps ps_pos) as HB.
  assert (through pc (At 1 0) = batch ps) as Ht by (unfold through; cbn; lia).
  unfold c_bytes, s_bytes in *. rewrite Hc, batch_pc, Ht, same_size in *.
  destruct (server s) as [ls|ls|]; cbn [fst snd server_valid] in *; [| |done];
    pose proof (through_bound ps ls ps_pos Vs) as [Ts _]; nia.
Qed.

(** Each connection moves along. *)
Definition simulated b b' : Prop := forall i k', links b' !! i = Some k' ->
  exists k, links b !! i = Some k /\ rtc (step pc ps capacity) (conn b i k) (conn b' i k').

Lemma refines_simulated n b b' :
  refines n b -> simulated b b' -> length (links b') = n -> counted b' -> refines n b'.
Proof.
  intros Href Hsim Hlen Hcnt. split; [done| |done]. intros i k' Hk'.
  destruct (Hsim i k' Hk') as (k & Hk & Hrun). etrans; [|exact Hrun]. by eapply ref_conn.
Qed.

Lemma conn_eq b b' i k : thread b = thread b' -> done b = done b' -> conn b i k = conn b' i k.
Proof. unfold conn. by intros -> ->. Qed.

(** Connections the step does not touch stay as they are. *)
Lemma simulated_at b b' i k' :
  (forall j k, links b !! j = Some k -> j <> i ->
     links b' !! j = Some k /\ conn b' j k = conn b j k) ->
  (forall k, links b !! i = Some k -> links b' !! i = Some (k' k) /\
     rtc (step pc ps capacity) (conn b i k) (conn b' i (k' k))) ->
  length (links b') = length (links b) -> simulated b b'.
Proof.
  intros Hother Hi Hlen j kj Hj.
  destruct (lookup_lt_is_Some_2 (links b) j) as [k Hk]; [rewrite <- Hlen; by eapply lookup_lt_Some|].
  exists k. split; [done|]. destruct (decide (j = i)) as [->|Hne].
  - destruct (Hi k Hk) as [H1 H2]. by replace kj with (k' k) by congruence.
  - destruct (Hother j k Hk Hne) as [H1 H2]. replace kj with k by congruence. by rewrite H2.
Qed.

Lemma simulated_all b b' (f : link -> link) :
  links b' = f <$> links b ->
  (forall j k, links b !! j = Some k -> rtc (step pc ps capacity) (conn b j k) (conn b' j (f k))) ->
  simulated b b'.
Proof.
  intros Hl Hrun j k'. rewrite Hl, list_lookup_fmap. destruct (links b !! j) as [k|] eqn:Hk; [|done].
  intros [= <-]. exists k. split; [done|by apply Hrun].
Qed.

Lemma client_on_sending i sent flag : client_on (BSend i sent) i flag = CSend (At 0 sent).
Proof. unfold client_on. by rewrite decide_False, decide_True by lia. Qed.

Lemma client_on_sent i j sent flag : (i < j)%nat -> client_on (BSend j sent) i flag = CRecv first.
Proof. intros H. unfold client_on. by rewrite decide_True by lia. Qed.

Lemma client_on_unsent i j sent flag : (j < i)%nat -> client_on (BSend j sent) i flag = CSend first.
Proof. intros H. unfold client_on. by rewrite !decide_False by lia. Qed.

Lemma client_on_reading i es got r flag : client_on (BRead (i :: es) got r) i flag = CRecv (At 0 got).
Proof. unfold client_on. by rewrite decide_True. Qed.

Lemma sim_write b i sent k n :
  thread b = BSend i sent -> links b !! i = Some k -> sent < msg_size ->
  0 < n <= msg_size - sent -> lk_up k + n <= capacity ->
  simulated b (BState (BSend i (sent + n)) (done b) (<[i := sends n k]> (links b))).
Proof.
  intros Ht Hk H1 H2 H3. apply (simulated_at _ _ i (sends n)); cbn [links]; [| |by rewrite length_insert].
  - intros j kj Hj Hne. rewrite list_lookup_insert_ne by done. split; [done|].
    unfold conn. rewrite Ht. cbn [thread done client_on]. by rewrite !(decide_False (P := j = i)) by done.
  - intros k0 Hk0. replace k0 with k by congruence.
    rewrite list_lookup_insert_eq by (by eapply lookup_lt_Some). split; [done|]. apply client_run.
    unfold conn. rewrite Ht. cbn [thread done]. rewrite !client_on_sending.
    apply (c_write pc capacity (link_state _ _ k) (At 0 sent) n); [done|by apply chunk_of|done].
Qed.

Lemma sim_written b i sent :
  thread b = BSend i sent -> msg_size <= sent ->
  simulated b (BState (BSend (S i) 0) (done b) (links b)).
Proof.
  intros Ht H1. apply (simulated_at _ _ i id); cbn [links]; [| |done].
  - intros j kj Hj Hne. split; [done|]. unfold conn. rewrite Ht. cbn [thread done]. f_equal.
    destruct (decide (j < i)%nat); [by rewrite !client_on_sent by lia|].
    rewrite (client_on_unsent j i) by lia. destruct (decide (j = S i)) as [->|]; [apply client_on_sending|].
    apply client_on_unsent. lia.
  - intros k0 Hk0. split; [done|]. unfold conn. rewrite Ht. cbn [thread done id].
    rewrite client_on_sending, client_on_sent by lia. eapply rtc_l.
    { left. apply (c_written pc capacity (link_state _ _ k0) (At 0 sent)); [done|done|by apply more_false]. }
    apply client_run. by apply (c_sent pc capacity (link_state (CSend (At 1 0)) (done b) k0) (At 1 0)).
Qed.

Lemma sim_read b i es got replied k n :
  thread b = BRead (i :: es) got replied -> links b !! i = Some k ->
  got < msg_size -> 0 < n <= msg_size - got -> n <= lk_down k ->
  simulated b (BState (BRead (i :: es) (got + n) replied) (done b) (<[i := receives n k]> (links b))).
Proof.
  intros Ht Hk H1 H2 H3. apply (simulated_at _ _ i (receives n)); cbn [links]; [| |by rewrite length_insert].
  - intros j kj Hj Hne. rewrite list_lookup_insert_ne by done. split; [done|].
    unfold conn. rewrite Ht. cbn [thread done client_on]. by rewrite !(decide_False (P := j = i)) by done.
  - intros k0 Hk0. replace k0 with k by congruence.
    rewrite list_lookup_insert_eq by (by eapply lookup_lt_Some). split; [done|]. apply client_run.
    unfold conn. rewrite Ht. cbn [thread done]. rewrite !client_on_reading.
    apply (c_read pc capacity (link_state _ _ k) (At 0 got) n); [done|by apply chunk_of|done].
Qed.

(** On a connection that is not the next to be read nothing depends on the
    events. *)
Lemma client_on_events es got replied r j flag :
  (forall i es', es = i :: es' -> got = 0 /\ (j = i -> flag = false)) ->
  client_on (BRead es got replied) j flag = client_on (BWait r) j flag.
Proof.
  intros Hes. destruct es as [|i es]; [done|]. cbn. destruct (Hes i es eq_refl) as [-> Hf].
  case_decide; [|done]. by rewrite Hf.
Qed.

Lemma sim_got b i es got replied :
  thread b = BRead (i :: es) got replied -> msg_size <= got -> counted b ->
  simulated b (BState (BRead es 0 (replied + 1)) (done b) (alter (mark true) i (links b))).
Proof.
  intros Ht H1 Hc. unfold counted in Hc. rewrite Ht in Hc. destruct Hc as (_ & Hnd & Hes).
  apply NoDup_cons in Hnd as [Hi Hnd]. apply Forall_cons in Hes as [_ Hes].
  apply (simulated_at _ _ i (mark true)); cbn [links]; [| |by rewrite length_alter].
  - intros j kj Hj Hne. rewrite list_lookup_alter_ne by done. split; [done|].
    unfold conn. rewrite Ht. cbn [thread done]. f_equal.
    rewrite (client_on_events es 0 (replied + 1) 0).
    + cbn. by rewrite decide_False.
    + intros i' es' ->. split; [done|]. intros ->. apply Forall_cons in Hes as [(k' & Hk' & Hf) _]. congruence.
  - intros k0 Hk0. rewrite list_lookup_alter_eq, Hk0. split; [done|]. apply client_run.
    unfold conn. rewrite Ht. cbn [thread done replied_ mark].
    rewrite (client_on_events es 0 (replied + 1) 0).
    + rewrite client_on_reading. cbn [client_on].
      apply (c_got pc capacity (link_state _ _ k0) (At 0 got)); [done|done|by apply more_false].
    + intros i' es' ->. split; [done|]. intros ->. exfalso. apply Hi, list_elem_of_here.
Qed.

(** A step of the thread that moves no bytes: each connection makes at most one
    step of its own. *)
Lemma sim_same b t :
  (forall j k, links b !! j = Some k ->
     rtc (step pc ps capacity) (conn b j k) (conn (BState t (done b) (links b)) j k)) ->
  simulated b (BState t (done b) (links b)).
Proof. intros H. apply (simulated_all _ _ id); cbn [links]; [by rewrite list_fmap_id|exact H]. Qed.

Lemma sim_record b replied :
  thread b = BWait replied -> Z.of_nat (length (links b)) <= replied -> counted b ->
  simulated b (BState (if done b <? kMaxEntries then BEnd else BExit) (done b + 1) (mark false <$> links b)).
Proof.
  intros Ht Hr Hc. unfold counted in Hc. rewrite Ht in Hc.
  apply (simulated_all _ _ (mark false)); [done|]. intros j k Hj. apply client_run.
  assert (replied_ k = true) as Hk by (eapply replies_all, Hj; unfold replies in Hc; lia).
  unfold conn. rewrite Ht, Hk. cbn [thread done replied_ mark client_on].
  pose proof (c_record pc capacity (link_state (CRecv (At 1 0)) (done b) k) (At 1 0) eq_refl eq_refl) as Hs.
  cbn [exchanges link_state] in Hs. by destruct (done b <? kMaxEntries).
Qed.

Lemma refines_broadcast n b b' : refines n b -> broadcast_step msg_size capacity b b' -> refines n b'.
Proof using All.
  intros Href Hstep. pose proof Href as [Hlen _ Hc].
  destruct Hstep as [i sent k m Ht Hk H1 H2 H3|i sent Ht H1 H2|i sent Ht H1|r es Ht Hr (Hne & Hnd & Hes)
    |i es got r k m Ht Hk H1 H2 H3|i es got r Ht H1|got r Ht|r Ht Hr|Ht|Ht].
  - apply (refines_simulated _ b); [done|by apply sim_write|by rewrite <- Hlen; apply length_insert|].
    apply (counted_insert b (BSend i (sent + m)) (done b) i k); [done|done|].
    unfold counted in *. cbn. by rewrite Ht in Hc.
  - apply (refines_simulated _ b); [done|by apply (sim_written b i sent)|done|].
    unfold counted in *. cbn. by rewrite Ht in Hc.
  - apply (refines_simulated _ b); [done| |done|].
    + apply sim_same. intros j k Hj. unfold counted in Hc. rewrite Ht in Hc.
      eapply Forall_lookup_1 in Hc; [|exact Hj]. cbn in Hc. unfold conn. rewrite Ht. cbn [thread done].
      rewrite client_on_sent by (apply lookup_lt_Some in Hj; lia). cbn [client_on]. by rewrite Hc.
    + unfold counted, replies in *. cbn. rewrite Ht in Hc. by rewrite replies_none.
  - assert (Forall (fun i => exists k, links b !! i = Some k /\ replied_ k = false) es) as Hf.
    { eapply Forall_impl; [exact Hes|]. intros i (k & Hk & Hd). exists k. split; [done|].
      destruct (replied_ k) eqn:Hrk; [|done]. exfalso.
      pose proof (replied_quiet _ (conn_conserved n b i k Href Hk)) as Hq.
      unfold conn in Hq. rewrite Ht, Hrk in Hq. cbn in Hq. specialize (Hq eq_refl). lia. }
    apply (refines_simulated _ b); [done| |done|].
    + apply sim_same. intros j k Hj. unfold conn. rewrite Ht. cbn [thread done].
      rewrite (client_on_events es 0 r r); [done|]. intros i es' ->. split; [done|]. intros ->.
      apply Forall_cons in Hf as [(k' & Hk' & Hf) _]. congruence.
    + unfold counted, replies in *. cbn. rewrite Ht in Hc. by split.
  - apply (refines_simulated _ b); [done|by apply sim_read|by rewrite <- Hlen; apply length_insert|].
    apply (counted_insert b (BRead (i :: es) (got + m) r) (done b) i k); [done|done|].
    unfold counted in *. cbn. by rewrite Ht in Hc.
  - apply (refines_simulated _ b); [done|by apply (sim_got b i es got)|by rewrite <- Hlen; apply length_alter|].
    unfold counted, replies in *. cbn. rewrite Ht in Hc. destruct Hc as (Hn & Hnd & Hf).
    apply NoDup_cons in Hnd as [Hi Hnd]. apply Forall_cons in Hf as [(k & Hk & Hkf) Hf].
    split; [rewrite (replies_mark _ _ _ Hk Hkf); lia|]. split; [done|].
    rewrite Forall_forall in Hf |- *. intros j Hj. destruct (Hf j Hj) as (kj & Hkj & Hfj).
    exists kj. split; [|done]. rewrite list_lookup_alter_ne; [done|]. by intros ->.
  - apply (refines_simulated _ b); [done| |done|].
    + apply sim_same. intros j k Hj. unfold conn. by rewrite Ht.
    + unfold counted, replies in *. cbn. rewrite Ht in Hc. by destruct Hc.
  - apply (refines_simulated _ b); [done|by apply (sim_record b r)|by rewrite <- Hlen; apply length_fmap|].
    unfold counted. cbn. destruct (done b <? kMaxEntries); by apply Forall_fmap, Forall_true.
  - apply (refines_simulated _ b); [done| |done|].
    + apply sim_same. intros j k Hj. apply client_run. unfold conn. rewrite Ht. cbn [thread done].
      replace (client_on (BSend 0 0) j (replied_ k)) with (CSend first).
      * by apply (c_again pc capacity (link_state CEnd (done b) k)).
      * destruct j as [|j]; [by rewrite client_on_sending|by rewrite client_on_unsent by lia].
    + unfold counted in *. cbn. by rewrite Ht in Hc.
  - apply (refines_simulated _ b); [done| |done|].
    + apply sim_same. intros j k Hj. apply client_run. unfold conn. rewrite Ht. cbn [thread done].
      by apply (c_finished pc capacity (link_state CEnd (done b) k)).
    + unfold counted in *. cbn. by rewrite Ht in Hc.
Qed.

(** A receiver does not look at what the client is doing. *)
Lemma receiver_blind k c x s v u d c0 x0 :
  server_step ps capacity (link_state c0 x0 k) (State_ c x s v u d) ->
  server_step ps capacity (link_state c0 x0 k) (State_ c0 x0 s v u d) /\
  forall c1 x1, server_step ps capacity (link_state c1 x1 k) (State_ c1 x1 s v u d).
Proof.
  intros Hs. inversion Hs; subst; (split; [exact Hs|]); intros c1 x1.
  - by eapply (s_read ps capacity (link_state c1 x1 k) l n).
  - by eapply (s_got ps capacity (link_state c1 x1 k) l).
  - by eapply (s_received ps capacity (link_state c1 x1 k) l).
  - by eapply (s_write ps capacity (link_state c1 x1 k) l n).
  - by eapply (s_written ps capacity (link_state c1 x1 k) l).
  - by eapply (s_sent ps capacity (link_state c1 x1 k) l).
Qed.

Lemma refines_receiver n b b' : refines n b -> receiver_step capacity ps b b' -> refines n b'.
Proof using All.
  intros Href Hstep. pose proof Href as [Hlen _ Hc].
  destruct Hstep as [i k c x s v u d Hk Hs]. apply receiver_blind in Hs as [_ Hs].
  apply (refines_simulated _ b); [done| |by rewrite <- Hlen; apply length_insert|].
  - apply (simulated_at _ _ i (fun k => Link s v u d (replied_ k))); cbn [links]; [| |by rewrite length_insert].
    + intros j kj Hj Hne. by rewrite list_lookup_insert_ne by done.
    + intros k0 Hk0. replace k0 with k by congruence.
      rewrite list_lookup_insert_eq by (by eapply lookup_lt_Some). split; [done|].
      apply rtc_once. right. apply Hs.
  - apply (counted_insert b (thread b) (done b) i k); [done|done|]. by destruct b.
Qed.

Lemma refines_start n : refines n (broadcast_start n).
Proof.
  split; [apply length_replicate| |].
  - intros i k [-> _]%lookup_replicate_1. unfold conn. cbn [thread done broadcast_start].
    replace (client_on (BSend 0 0) i (replied_ start_link)) with (CSend first); [done|].
    destruct i as [|i]; [by rewrite client_on_sending|by rewrite client_on_unsent by lia].
  - cbn. by apply Forall_replicate.
Qed.

Lemma refines_reachable n b : rtc (bstep msg_size capacity ps) (broadcast_start n) b -> refines n b.
Proof using All.
  revert b. apply (rtc_ind_r (refines n)); [apply refines_start|].
  intros b b' _ [Hs|Hs] Href; [by eapply refines_broadcast|by eapply refines_receiver].
Qed.

(** *** Progress *)

Lemma some_unreplied ls :
  (length (filter (fun k => replied_ k = true) ls) < length ls)%nat ->
  exists i k, ls !! i = Some k /\ replied_ k = false.
Proof.
  induction ls as [|k ls IH]; cbn [length]; [lia|]. rewrite filter_cons.
  destruct (replied_ k) eqn:Hk; [|intros _; by exists 0%nat, k].
  rewrite decide_True by done. cbn [length]. intros Hlt. destruct IH as (i & k' & Hi & Hk'); [lia|].
  by exists (S i), k'.
Qed.

(** Where the thread is stuck on a connection, its receiver is not. *)
Lemma receiver_must_move n b i k :
  refines n b -> links b !! i = Some k ->
  (forall s', ~ client_step pc capacity (conn b i k) s') ->
  client_on (thread b) i (replied_ k) <> CDone -> client_on (thread b) i (replied_ k) <> CExit ->
  exists b', bstep msg_size capacity ps b b'.
Proof using All.
  intros Href Hk Hno Hd He.
  destruct (no_deadlock pc ps capacity pc_pos ps_pos cap_pos ltac:(rewrite batch_pc; exact same_size)
    (conn b i k) (conn_conserved n b i k Href Hk) Hd He) as [[c x s v u d] [Hs|Hs]]; [by destruct (Hno _ Hs)|].
  apply receiver_blind in Hs as [_ Hs]. eexists. right. eapply r_step; [exact Hk|apply Hs].
Qed.

Lemma stuck_receiving s l s' : client s = CRecv l -> in_batch pc l = true -> more pc l = true -> down s <= 0 ->
  ~ client_step pc capacity s s'.
Proof. intros Hc Hin Hm Hd Hs. destruct Hs as [l' n E|l' E|l' E|l' n E [_ [_ Hn]]|l' E|l' E|E|E]; try congruence; lia. Qed.

Lemma stuck_sending s l s' : client s = CSend l -> in_batch pc l = true -> more pc l = true -> capacity <= up s ->
  ~ client_step pc capacity s s'.
Proof. intros Hc Hin Hm Hd Hs. destruct Hs as [l' n E [_ [_ Hn]]|l' E|l' E|l' n E|l' E|l' E|E|E]; try congruence; lia. Qed.

Lemma broadcast_moves n b : refines n b -> thread b <> BDone -> thread b <> BExit ->
  exists b', bstep msg_size capacity ps b b'.
Proof using All.
  intros Href Hnd Hne. pose proof Href as [Hlen _ Hc]. unfold counted, replies in Hc.
  destruct (thread b) as [i sent|r|[|i es] got r| | |] eqn:Ht; try done.
  - destruct (links b !! i) as [k|] eqn:Hk.
    2: { apply lookup_ge_None in Hk. eexists. left. by eapply b_sent. }
    destruct (decide (msg_size <= sent)).
    { eexists. left. eapply b_written; [done|by eapply lookup_lt_Some|done]. }
    destruct (decide (lk_up k + 1 <= capacity)).
    { eexists. left. eapply (b_write _ _ _ i sent k 1); (done || lia). }
    eapply receiver_must_move; [done|exact Hk| | |]; unfold conn; rewrite Ht, client_on_sending; [|done|done].
    intros s'. apply (stuck_sending _ (At 0 sent)); [done|done|apply more_iff; lia|cbn; lia].
  - destruct (decide (Z.of_nat (length (links b)) <= r)).
    { eexists. left. by eapply b_record. }
    destruct (some_unreplied (links b)) as (i & k & Hk & Hf); [lia|].
    destruct (decide (0 < lk_down k)).
    { eexists. left. eapply (b_wait _ _ _ r [i]); [done|lia|]. split; [done|].
      split; [apply NoDup_singleton|]. apply Forall_singleton. by exists k. }
    eapply receiver_must_move; [done|exact Hk| | |]; unfold conn; rewrite Ht, Hf; [|done|done].
    intros s'. apply (stuck_receiving _ first); [done|done|by apply more_iff|cbn; lia].
  - eexists. left. by eapply b_polled.
  - destruct Hc as (_ & _ & Hf). apply Forall_cons in Hf as [(k & Hk & Hf) _].
    destruct (decide (msg_size <= got)); [eexists; left; by eapply b_got|].
    destruct (decide (0 < lk_down k)).
    { eexists. left. eapply (b_read _ _ _ i es got r k 1); (done || lia). }
    eapply receiver_must_move; [done|exact Hk| | |]; unfold conn; rewrite Ht, client_on_reading; [|done|done].
    intros s'. apply (stuck_receiving _ (At 0 got)); [done|done|apply more_iff; lia|cbn; lia].
  - eexists. left. by eapply b_finished.
Qed.

(** C15: a broadcasting thread and its receivers, when the batch of every receiver is
    one message: however the streams are cut and whichever connections a poll
    reports, each connection goes through the ping-pong of a sender thread with
    one message; every poll counts each receiver's reply once, so that an exchange is
    complete exactly when all have replied, and nothing is left in any connection
    then; until the thread has finished some thread can move; and as long as one
    receiver has not answered at all, no exchange is complete. *)
Theorem broadcast_refines_ping_pong n b :
  rtc (bstep msg_size capacity ps) (broadcast_start n) b ->
  (forall i k, links b !! i = Some k -> rtc (step pc ps capacity) start (conn b i k)) /\
  (forall r, thread b = BWait r -> r = Z.of_nat (replies b)) /\
  (thread b = BEnd \/ thread b = BDone -> Forall (fun k => lk_up k = 0 /\ lk_down k = 0) (links b)) /\
  (thread b <> BDone -> thread b <> BExit -> exists b', bstep msg_size capacity ps b b') /\
  (forall k l, k ∈ links b -> lk_server k = SRecv l -> lk_batches k = 0 -> done b = 0).
Proof.
  intros Href%refines_reachable. pose proof Href as [Hlen Hconn Hc].
  split; [exact Hconn|]. split; [intros r Ht; unfold counted in Hc; by rewrite Ht in Hc|].
  split; [|split; [by apply (broadcast_moves n)|]].
  - intros Ht. apply Forall_lookup. intros i k Hk. pose proof (conn_conserved n b i k Href Hk) as Hcon.
    apply (counts_close pc ps capacity pc_pos ps_pos cap_pos ltac:(rewrite batch_pc; exact same_size)) in Hcon as [_ He].
    apply He. unfold conn. destruct Ht as [-> | ->]; [by left|by right].
  - intros k l [i Hk]%list_elem_of_lookup Hs Hb. pose proof (conn_conserved n b i k Href Hk) as [Vc _ _ [Ed Hd] [Hx _]].
    unfold c_bytes, s_bytes, conn in *. cbn [server link_state batches exchanges client] in *. rewrite Hs, Hb in *.
    pose proof (batch_positive pc pc_pos) as HB. cbn [fst snd] in *.
    destruct (client_on (thread b) i (replied_ k)) as [lc|lc| | |]; cbn [fst snd client_valid] in *;
      try (pose proof (through_bound pc lc pc_pos Vc) as [Tc _]); nia.
Qed.
End Refinement.

(** ** Several broadcasters *)

(** The receivers of the broadcaster on port [p]. *)
Lemma setup_all connect serverPort n :
  (forall p, connect p = true) ->
  connect_all connect serverPort n = Done ((fun i => wrap32 (serverPort + Z.of_nat i)) <$> seq 0 n).
Proof.
  intros Hc. induction n as [|n IH]; [done|]. cbn [connect_all]. rewrite IH, Hc.
  by rewrite seq_S, fmap_app.
Qed.

Lemma wrap32_add_l x y : wrap32 (wrap32 x + y) = wrap32 (x + y).
Proof.
  unfold wrapS. set (h := 2 ^ (32 - 1)). set (m := 2 ^ 32).
  replace ((x + h) mod m - h + y + h) with ((x + h) mod m + y) by lia.
  rewrite Zplus_mod_idemp_l. f_equal. f_equal. lia.
Qed.

(** Two neighbouring broadcasters with at least two receivers each connect to the
    same port, while a receiver accepts one connection. *)
Theorem broadcasters_share_receivers connect basePort numSenders numReceivers i p p' ports ports' :
  (forall p, connect p = true) -> 2 <= numReceivers ->
  start_threads true basePort numSenders !! i = Some (Broadcaster p) ->
  start_threads true basePort numSenders !! S i = Some (Broadcaster p') ->
  setup_connections connect p numReceivers = Done ports ->
  setup_connections connect p' numReceivers = Done ports' ->
  p' ∈ ports /\ p' ∈ ports'.
Proof.
  intros Hc Hr Hp Hp'. unfold start_threads in *. rewrite list_lookup_fmap in Hp, Hp'.
  destruct (seqZ 0 numSenders !! i) as [x|] eqn:Hx; [|done]. apply lookup_seqZ in Hx as [-> _].
  destruct (seqZ 0 numSenders !! S i) as [x|] eqn:Hx; [|done]. apply lookup_seqZ in Hx as [-> _].
  injection Hp as <-. injection Hp' as <-. unfold setup_connections. rewrite !setup_all by done.
  intros [= <-] [= <-]. split.
  - apply list_elem_of_fmap. exists 1%nat. split; [|apply elem_of_seq; lia].
    rewrite wrap32_add_l. f_equal. lia.
  - apply list_elem_of_fmap. exists 0%nat. split; [|apply elem_of_seq; lia].
    rewrite wrap32_add_l. f_equal. lia.
Qed.

(** ** Examples *)

Lemma broadcast_refines_ping_pong_witness :
  let b := BState (BSend 0 1) 0 [Link (SRecv first) 0 1 0 false; start_link] in
  rtc (bstep 1 1 one_by_one) (broadcast_start 2) b /\
  exists b', bstep 1 1 one_by_one b b'.
Proof.
  intros b. assert (rtc (bstep 1 1 one_by_one) (broadcast_start 2) b) as Hrun.
  { apply rtc_once. left.
    apply (b_write 1 1 (broadcast_start 2) 0 0 start_link 1); [reflexivity|reflexivity| | |];
      vm_compute; try split; congruence. }
  split; [exact Hrun|].
  destruct (broadcast_refines_ping_pong 1 1 one_by_one ltac:(vm_compute; reflexivity) eq_refl
    ltac:(vm_compute; congruence) ltac:(split; vm_compute; reflexivity) 2 b Hrun) as (_ & _ & _ & Hm & _).
  apply Hm; discriminate.
Defined.

Lemma broadcasters_share_receivers_witness :
  8081 ∈ [8080; 8081] /\ 8081 ∈ [8081; 8082].
Proof.
  apply (broadcasters_share_receivers (fun _ => true) 8080 2 2 0 8080); [reflexivity|lia|reflexivity..].
Defined.
