(* ===== verification/GrpcBench.v ===== *)
(** * The gRPC benchmark

    [src/simulation/GrpcBenchServer.cc] and [GrpcBenchClient.cc]: the handlers of
    the service [IpcBench] and the three kinds of sender threads.  The library
    carries calls and streams: a unary call completes with what the handler
    returns or with an error, in any order among the calls of a completion queue;
    a stream delivers messages in order. *)

From S2P Require Import Prelude Binary64.
From Stdlib Require Import Ascii.
#[local] Open Scope Z_scope.

(** [ipc_bench.proto]. *)
Record StringMsg := { senderid : Z; text : string }.
#[export] Instance StringMsg_eq_dec : EqDecision StringMsg.
Proof. solve_decision. Defined.

(** ** The service *)

Inductive Status := OK | INTERNAL.

Definition PingPong (request : StringMsg) : Status * StringMsg :=
  (OK, {| senderid := senderid request; text := text request |}).

(** [Broadcast] answers with an acknowledgement. *)
Definition Broadcast (request : StringMsg) : Status * bool := (OK, true).

(** The local variables of [StreamPingPong]. *)
Record stream_vars := Vars { numMessages : Z; recvdCnt : Z; reply : StringMsg }.
Definition no_reply : StringMsg := {| senderid := 0; text := "" |}.
Definition init_vars : stream_vars := Vars (-1) 0 no_reply.

Section Server.
(** Whether the [n]-th [Write] succeeds. *)
Context (writes : nat -> bool).

(** The state is what has been written. *)
Definition Write (r : StringMsg) : M (list StringMsg) bool := fun out =>
  if writes (length out) then (Done true, out ++ [r]) else (Done false, out).

Fixpoint write_batch (n : nat) (r : StringMsg) : M (list StringMsg) bool :=
  match n with
  | O => mret true
  | S n' => ok ← Write r; if (ok : bool) then write_batch n' r else mret false
  end.

(** The number of messages is set by the first request. *)
Definition first_or_same (v : stream_vars) (request : StringMsg) : M (list StringMsg) stream_vars :=
  if numMessages v <? 0 then
    mret (Vars (senderid request) (recvdCnt v)
            {| senderid := senderid request; text := text request |})
  else assertM (numMessages v =? senderid request) ;; mret v.

(** [StreamPingPong] on the requests of a stream. *)
Fixpoint StreamPingPong (v : stream_vars) (requests : list StringMsg) : M (list StringMsg) Status :=
  match requests with
  | [] => mret OK
  | request :: requests' =>
      v ← first_or_same v request;
      let v := Vars (numMessages v) (wrap32 (recvdCnt v + 1)) (reply v) in
      if numMessages v =? 0 then throw DivisionByZero
      else if c_rem (recvdCnt v) (numMessages v) =? 0 then
        ok ← write_batch (Z.to_nat (numMessages v)) (reply v);
        if (ok : bool) then StreamPingPong v requests' else mret INTERNAL
      else StreamPingPong v requests'
  end.
End Server.

(** ** The sender threads *)

Definition kMaxEntries : Z := 67108864.

Record sender := Sender {
  sd_clock : nat;                     (* readings of the clock *)
  sd_tests : nat;                     (* readings of [mainFinished] *)
  sd_done : nat;                      (* calls completed *)
  msgLatsArrayIndex : Z;
  msgLatencies : list (Z * f64);
  pending : list StringMsg;           (* calls whose completion is to come *)
  written : list StringMsg;           (* requests written to the stream *)
  consumed : nat;                     (* replies read from it *)
}.

Section Sender.
Context (clock : nat -> Z) (mainFinished : nat -> bool).
Context (msg_size : Z).

Definition getCurrTimeUsec : M sender Z := fun s =>
  (Done (clock (sd_clock s)),
   Sender (S (sd_clock s)) (sd_tests s) (sd_done s) (msgLatsArrayIndex s) (msgLatencies s)
     (pending s) (written s) (consumed s)).

Definition test_finished : M sender bool := fun s =>
  (Done (mainFinished (sd_tests s)),
   Sender (sd_clock s) (S (sd_tests s)) (sd_done s) (msgLatsArrayIndex s) (msgLatencies s)
     (pending s) (written s) (consumed s)).

(** [msgLatsArrayIndex.fetch_add(1)] with the test of the bound, then the
    latency. *)
Definition record_latency (startTime endTime : Z) : M sender unit := fun s =>
  let aryIndex := msgLatsArrayIndex s in
  let s' l := Sender (sd_clock s) (sd_tests s) (sd_done s) (wrapU32 (aryIndex + 1)) l
                (pending s) (written s) (consumed s) in
  if kMaxEntries <=? aryIndex then (Trap ProcessExit, s' (msgLatencies s))
  else (Done tt, s' (msgLatencies s ++ [(aryIndex, f64_of_int (wrapU64 (endTime - startTime)))])).

(** [std::string msgbuff(msg_size, 'a')]; a negative size is taken for one that
    is too large. *)
Definition letters (n : nat) : string := String.string_of_list_ascii (replicate n "a"%char).
Definition msgbuff : M sender string :=
  if msg_size <? 0 then throw UncaughtException
  else mret (letters (Z.to_nat msg_size)).

(** [assert(msg.size() == msg_size)]. *)
Definition right_size (m : StringMsg) : bool := Z.of_nat (String.length (text m)) =? msg_size.

(** The loop around an exchange: [exchange] sends a batch and receives the
    answers; [accept] is a test of the last one. *)
Definition timed {A} (exchange : M sender A) (accept : A -> bool) : M sender unit :=
  startTime ← getCurrTimeUsec;
  a ← exchange;
  endTime ← getCurrTimeUsec;
  assertM (accept a) ;;
  record_latency startTime endTime.

Fixpoint exchange_loop {A} (exchange : M sender A) (accept : A -> bool) (fuel : nat) :
    M sender unit :=
  match fuel with
  | O => out_of_fuel
  | S fuel' =>
      timed exchange accept ;;
      finished ← test_finished;
      if (finished : bool) then mret tt else exchange_loop exchange accept fuel'
  end.

(** *** Calls through a completion queue *)

Section Async.
(** Which pending call completes next, and whether it succeeds. *)
Context (pick : nat -> nat) (call_ok : nat -> bool).

(** [AsyncPingPong] and [Finish]. *)
Definition async_call (request : StringMsg) : M sender unit := modify (fun s =>
  Sender (sd_clock s) (sd_tests s) (sd_done s) (msgLatsArrayIndex s) (msgLatencies s)
    (pending s ++ [request]) (written s) (consumed s)).

(** [cq.Next] waits for a completion: with no call pending no amount of fuel is
    enough. *)
Definition cq_Next : M sender (bool * StringMsg) := fun s =>
  match pending s with
  | [] => (OutOfFuel, s)
  | _ =>
      let i := (pick (sd_done s) mod length (pending s))%nat in
      match pending s !! i with
      | None => (OutOfFuel, s)
      | Some request =>
          (Done (call_ok (sd_done s), (PingPong request).2),
           Sender (sd_clock s) (sd_tests s) (S (sd_done s)) (msgLatsArrayIndex s) (msgLatencies s)
             (delete i (pending s)) (written s) (consumed s))
      end
  end.

Fixpoint send_calls (n : nat) (i : Z) (senderid_of : Z -> Z) (buff : string) : M sender unit :=
  match n with
  | O => mret tt
  | S n' =>
      async_call {| senderid := senderid_of i; text := buff |} ;;
      send_calls n' (i + 1) senderid_of buff
  end.

(** [while ((recvMsg < numMessages) && cq.Next(...))]: [n] is
    [numMessages - recvMsg]. *)
Fixpoint receive_calls (n : nat) (recvMsg : Z) : M sender Z :=
  match n with
  | O => mret recvMsg
  | S n' =>
      r ← cq_Next;
      let '(ok, reply) := r in
      assertM ok ;;
      assertM (right_size reply) ;;
      receive_calls n' (recvMsg + 1)
  end.

Definition async_exchange (numMessages : Z) (senderid_of : Z -> Z) (buff : string) : M sender unit :=
  send_calls (Z.to_nat numMessages) 0 senderid_of buff ;;
  recvMsg ← receive_calls (Z.to_nat numMessages) 0;
  assertM (recvMsg =? numMessages).

(** [SenderThread]: all messages of a batch to one server. *)
Definition SenderThread (numMessages serverPort basePort : Z) (fuel : nat) : M sender unit :=
  buff ← msgbuff;
  exchange_loop (async_exchange numMessages (fun _ => wrap32 (serverPort - basePort + 1)) buff)
    (fun _ => true) fuel.

(** [BroadcasterThread]: one message to each of the servers. *)
Definition BroadcasterThread (numReceivers : Z) (fuel : nat) : M sender unit :=
  buff ← msgbuff;
  exchange_loop (async_exchange numReceivers (fun i => i + 1) buff) (fun _ => true) fuel.
End Async.

(** *** A stream *)

Section Stream.
Context (writes : nat -> bool).

Definition stream_write (request : StringMsg) : M sender unit := modify (fun s =>
  Sender (sd_clock s) (sd_tests s) (sd_done s) (msgLatsArrayIndex s) (msgLatencies s)
    (pending s) (written s ++ [request]) (consumed s)).

(** [Read]: the next of the replies the server writes for what it was sent; it
    waits while the call goes on and returns false when it has ended. *)
Definition stream_read : M sender (option StringMsg) := fun s =>
  match StreamPingPong writes init_vars (written s) [] with
  | (o, replies) =>
      match replies !! consumed s, o with
      | Some r, _ =>
          (Done (Some r),
           Sender (sd_clock s) (sd_tests s) (sd_done s) (msgLatsArrayIndex s) (msgLatencies s)
             (pending s) (written s) (S (consumed s)))
      | None, Done OK => (OutOfFuel, s)
      | None, _ => (Done None, s)
      end
  end.

Fixpoint write_requests (n : nat) (request : StringMsg) : M sender unit :=
  match n with
  | O => mret tt
  | S n' => stream_write request ;; write_requests n' request
  end.

Fixpoint read_replies (n : nat) (recvMsg : Z) (last : StringMsg) : M sender (Z * StringMsg) :=
  match n with
  | O => mret (recvMsg, last)
  | S n' =>
      r ← stream_read;
      match r with
      | Some m => read_replies n' (recvMsg + 1) m
      | None => mret (recvMsg, last)
      end
  end.

(** The variable [reply] keeps its value from one exchange to the next; each
    exchange that goes on has overwritten it, unless it is empty. *)
Definition stream_exchange (numMessages : Z) (buff : string) : M sender StringMsg :=
  write_requests (Z.to_nat numMessages) {| senderid := numMessages; text := buff |} ;;
  r ← read_replies (Z.to_nat numMessages) 0 no_reply;
  assertM (r.1 =? numMessages) ;; mret r.2.

Definition StreamSenderThread (numMessages : Z) (fuel : nat) : M sender unit :=
  buff ← msgbuff;
  exchange_loop (stream_exchange numMessages buff) right_size fuel.
End Stream.
End Sender.

(** *** The threads of an experiment *)

(** [runBenchmark]: [-b] before [-S]. *)
Section Experiment.
Context (clock : nat -> Z) (mainFinished : nat -> bool).
Context (pick : nat -> nat) (call_ok writes : nat -> bool).

Definition benchName (broadcast streamRpc : bool) : string :=
  if broadcast then "gRPC-broadcast"
  else if streamRpc then "gRPCstream-pingpong" else "gRPC-pingpong".

(** The [i]-th thread. *)
Definition sender_thread (broadcast streamRpc : bool)
    (msg_size numMessages numReceivers basePort i : Z) (fuel : nat) : M sender unit :=
  if broadcast then BroadcasterThread clock mainFinished msg_size pick call_ok numReceivers fuel
  else if streamRpc then StreamSenderThread clock mainFinished msg_size writes numMessages fuel
  else SenderThread clock mainFinished msg_size pick call_ok numMessages (basePort + i) basePort fuel.
End Experiment.

(** ** The server's side of a stream *)

Lemma div_succ c m : 0 < m ->
  (c + 1) / m = c / m + (if (c + 1) mod m =? 0 then 1 else 0).
Proof.
  intros Hm. pose proof (Z.div_mod c m ltac:(lia)) as E. pose proof (Z.mod_pos_bound c m Hm) as B.
  set (q := c / m) in *. set (r := c mod m) in *. destruct (Z.eq_dec (r + 1) m) as [Er|Er].
  - rewrite <- (Z.mod_unique (c + 1) m (q + 1) 0) by lia.
    rewrite <- (Z.div_unique (c + 1) m (q + 1) 0) by lia. done.
  - rewrite <- (Z.mod_unique (c + 1) m q (r + 1)) by lia.
    rewrite <- (Z.div_unique (c + 1) m q (r + 1)) by lia.
    destruct (Z.eqb_spec (r + 1) 0); lia.
Qed.

Section StreamServer.
Context (writes : nat -> bool).

(** The message that answers a stream of requests like [m]. *)
Lemma write_batch_run n r out : (forall k, writes k = true) ->
  write_batch writes n r out = (Done true, out ++ replicate n r).
Proof.
  intros Hw. revert out. induction n as [|n IH]; intros out; cbn [write_batch replicate].
  - by rewrite app_nil_r.
  - erewrite bind_done; [|unfold Write; by rewrite Hw]. rewrite IH, <- app_assoc. done.
Qed.

(** In the middle of a stream: [c] requests have been answered in full batches. *)
Lemma stream_run Mz c r requests rest out :
  (forall k, writes k = true) -> 0 < Mz -> 0 <= c -> c + Z.of_nat (length requests) < 2 ^ 31 ->
  Forall (fun q => senderid q = Mz) requests ->
  StreamPingPong writes (Vars Mz c r) (requests ++ rest) out =
  StreamPingPong writes (Vars Mz (c + Z.of_nat (length requests)) r) rest
    (out ++ replicate (Z.to_nat (Mz * ((c + Z.of_nat (length requests)) / Mz - c / Mz))) r).
Proof.
  intros Hw HM. revert c out. induction requests as [|q requests IH]; intros c out Hc Hlen Hall.
  - cbn [length app]. rewrite Z.add_0_r, Z.sub_diag, Z.mul_0_r. by rewrite app_nil_r.
  - inversion Hall as [|? ? Hq Hall']; subst. cbn [StreamPingPong length app] in *.
    set (m := senderid q) in *. change (2 ^ 31) with 2147483648 in *.
    erewrite bind_done; [|unfold first_or_same; cbn [numMessages];
      destruct (Z.ltb_spec m 0); [lia|]; rewrite Z.eqb_refl; reflexivity].
    cbn [numMessages recvdCnt reply]. rewrite wrap32_id by lia.
    destruct (Z.eqb_spec m 0); [lia|]. rewrite c_rem_mod by lia.
    replace (c + Z.of_nat (S (length requests))) with (c + 1 + Z.of_nat (length requests)) by lia.
    assert (c / m <= (c + 1) / m) by (apply Z.div_le_mono; lia).
    assert ((c + 1) / m <= (c + 1 + Z.of_nat (length requests)) / m) by (apply Z.div_le_mono; lia).
    pose proof (div_succ c m HM) as Ed. destruct (Z.eqb_spec ((c + 1) mod m) 0) as [E|E].
    + run_bind (write_batch_run (Z.to_nat m) r out Hw). rewrite IH by (done || lia).
      rewrite <- app_assoc, <- replicate_add. do 3 f_equal.
      rewrite <- Z2Nat.inj_add by nia. f_equal. nia.
    + rewrite IH by (done || lia). do 3 f_equal.
      rewrite Ed, Z.add_0_r. done.
Qed.
End StreamServer.

(** The replies to [n] requests of batches of [Mz]. *)
Definition replies_to (Mz : Z) (n : nat) (t : string) : list StringMsg :=
  replicate (Z.to_nat (Mz * (Z.of_nat n / Mz))) {| senderid := Mz; text := t |}.

Lemma stream_from_start writes q requests rest :
  (forall k, writes k = true) -> 0 < senderid q -> Z.of_nat (S (length requests)) < 2 ^ 31 ->
  Forall (fun m => senderid m = senderid q) requests ->
  StreamPingPong writes init_vars (q :: requests ++ rest) [] =
  StreamPingPong writes
    (Vars (senderid q) (Z.of_nat (S (length requests))) {| senderid := senderid q; text := text q |})
    rest (replies_to (senderid q) (S (length requests)) (text q)).
Proof.
  intros Hw HM Hlen Hall. set (r := {| senderid := senderid q; text := text q |}).
  assert (StreamPingPong writes init_vars (q :: requests ++ rest) [] =
          StreamPingPong writes (Vars (senderid q) 0 r) ((q :: requests) ++ rest) []) as ->.
  { cbn [StreamPingPong app]. unfold first_or_same. cbn [numMessages init_vars].
    destruct (Z.ltb_spec (senderid q) 0); [lia|]. rewrite Z.eqb_refl. reflexivity. }
  rewrite (stream_run writes (senderid q) 0 r (q :: requests) rest []);
    [|done|done|lia|cbn [length]; lia|by constructor].
  cbn [length]. by rewrite Z.add_0_l, Z.div_0_l, Z.sub_0_r by lia.
Qed.

(** On a stream of requests that all ask for batches of [M] messages the
    server writes, for every [M] requests it reads, [M] replies with the text of
    the first request, and nothing before a batch is complete.  One request that
    asks for another number than the first ends the process by an assertion, and
    a first request that asks for 0 by a division by zero. *)
Theorem stream_server_batches writes q requests bad more t :
  (forall k, writes k = true) -> Z.of_nat (S (length requests)) < 2 ^ 31 -> 0 < senderid q ->
  Forall (fun m => senderid m = senderid q) requests ->
  senderid bad <> senderid q ->
  StreamPingPong writes init_vars (q :: requests) [] =
    (Done OK, replies_to (senderid q) (S (length requests)) (text q)) /\
  StreamPingPong writes init_vars (q :: requests ++ bad :: more) [] =
    (Trap AssertFailure, replies_to (senderid q) (S (length requests)) (text q)) /\
  StreamPingPong writes init_vars ({| senderid := 0; text := t |} :: more) [] =
    (Trap DivisionByZero, []).
Proof.
  intros Hw Hlen HM Hall Hbad. split; [|split; [|done]].
  - pose proof (stream_from_start writes q requests [] Hw HM Hlen Hall) as E.
    rewrite app_nil_r in E. by rewrite E.
  - rewrite stream_from_start by done. cbn [StreamPingPong]. unfold first_or_same.
    cbn [numMessages]. destruct (Z.ltb_spec (senderid q) 0); [lia|].
    destruct (Z.eqb_spec (senderid q) (senderid bad)); [congruence|]. done.
Qed.

(** ** The loop of a sender *)

Section Loop.
Context (clock : nat -> Z) (mainFinished : nat -> bool).
Context {A : Type} (exchange : M sender A) (accept : A -> bool).
(** What holds of the calls and the stream before exchange [j]. *)
Context (I : nat -> sender -> Prop) (k : nat).

(** What an exchange leaves alone. *)
Definition same_records (s s' : sender) : Prop :=
  sd_tests s' = sd_tests s /\ msgLatsArrayIndex s' = msgLatsArrayIndex s /\
  msgLatencies s' = msgLatencies s.

(** [I] speaks of the calls and the stream only. *)
Context (I_calls : forall j s s', pending s' = pending s -> written s' = written s ->
  consumed s' = consumed s -> I j s -> I j s').
Context (exchanged : forall j s, (j <= k)%nat -> I j s ->
  exists a s', exchange s = (Done a, s') /\ accept a = true /\ I (S j) s' /\ same_records s s').

Lemma timed_run j s :
  (j <= k)%nat -> I j s -> 0 <= msgLatsArrayIndex s < kMaxEntries ->
  exists s' l, timed clock exchange accept s = (Done tt, s') /\ I (S j) s' /\
    sd_tests s' = sd_tests s /\ msgLatsArrayIndex s' = msgLatsArrayIndex s + 1 /\
    msgLatencies s' = msgLatencies s ++ [(msgLatsArrayIndex s, l)].
Proof.
  intros Hj HI Hidx. unfold timed.
  set (s1 := Sender (S (sd_clock s)) (sd_tests s) (sd_done s) (msgLatsArrayIndex s) (msgLatencies s)
               (pending s) (written s) (consumed s)).
  run_bind (eq_refl : getCurrTimeUsec clock s = (Done (clock (sd_clock s)), s1)).
  destruct (exchanged j s1 Hj) as (a & s2 & E & Ha & HI2 & Et & Ei & El); [by apply (I_calls j s)|].
  run_bind E. set (s3 := Sender (S (sd_clock s2)) (sd_tests s2) (sd_done s2) (msgLatsArrayIndex s2)
                         (msgLatencies s2) (pending s2) (written s2) (consumed s2)).
  run_bind (eq_refl : getCurrTimeUsec clock s2 = (Done (clock (sd_clock s2)), s3)).
  rewrite Ha. run_bind (eq_refl : assertM true s3 = (Done tt, s3)).
  unfold record_latency. cbn [msgLatsArrayIndex s3]. rewrite Ei. cbn [msgLatsArrayIndex s1].
  unfold kMaxEntries in *. destruct (Z.leb_spec 67108864 (msgLatsArrayIndex s)); [lia|].
  rewrite wrapU_id by (change (2 ^ 32) with 4294967296; lia).
  eexists _, _. split; [reflexivity|]. split; [by apply (I_calls (S j) s2)|].
  cbn. rewrite Et, El. done.
Qed.

Lemma exchange_loop_run fuel : forall j s,
  (j <= k)%nat -> (k - j < fuel)%nat -> I j s -> sd_tests s = j ->
  (forall i, (i < k)%nat -> mainFinished i = false) -> mainFinished k = true ->
  0 <= msgLatsArrayIndex s -> msgLatsArrayIndex s + Z.of_nat (k - j) < kMaxEntries ->
  exists s' ls, exchange_loop clock mainFinished exchange accept fuel s = (Done tt, s') /\ I (S k) s' /\
    msgLatencies s' = msgLatencies s ++ ls /\
    ls.*1 = (fun i => msgLatsArrayIndex s + Z.of_nat i) <$> seq 0 (S k - j) /\
    msgLatsArrayIndex s' = msgLatsArrayIndex s + Z.of_nat (S k - j).
Proof.
  induction fuel as [|fuel IH]; intros j s Hj Hf HI Ht Hno Hyes H0 Hmax; [lia|].
  cbn [exchange_loop]. destruct (timed_run j s Hj HI) as (s1 & l & E & HI1 & Et1 & Ei1 & El1); [lia|].
  run_bind E.
  set (s2 := Sender (sd_clock s1) (S j) (sd_done s1) (msgLatsArrayIndex s1) (msgLatencies s1)
               (pending s1) (written s1) (consumed s1)).
  assert (test_finished mainFinished s1 = (Done (mainFinished j), s2)) as E2
    by (unfold s2, test_finished; by rewrite Et1, Ht).
  assert (I (S j) s2) as HI2 by by apply (I_calls (S j) s1).
  destruct (decide (j = k)) as [->|Hne].
  - rewrite Hyes in E2. run_bind E2.
    exists s2, [(msgLatsArrayIndex s, l)]. rewrite Nat.sub_succ_l, Nat.sub_diag by lia.
    split; [done|]. split; [done|]. split; [done|]. split; [|cbn; lia].
    cbn. by rewrite Z.add_0_r.
  - rewrite Hno in E2 by lia. run_bind E2.
    destruct (IH (S j) s2) as (s' & ls & E' & HI' & El' & Eidx & Ei'); try done; try lia.
    { cbn. lia. } { cbn [msgLatsArrayIndex s2]. lia. }
    exists s', ((msgLatsArrayIndex s, l) :: ls). split; [done|]. split; [done|].
    split; [by rewrite El'; cbn [msgLatencies s2]; rewrite El1, <- app_assoc|].
    cbn [msgLatsArrayIndex s2] in Eidx, Ei'. rewrite Ei1 in Eidx, Ei'. split; [|rewrite Ei'; lia].
    replace (S k - j)%nat with (S (S k - S j)) by lia. rewrite fmap_cons, Eidx. cbn [seq fmap list_fmap].
    rewrite Z.add_0_r. f_equal. rewrite <- fmap_S_seq, <- list_fmap_compose.
    apply list_fmap_ext. intros i x _. cbn. lia.
Qed.
End Loop.

Lemma letters_size n : String.length (letters n) = n.
Proof. unfold letters. induction n as [|n IH]; [done|]. cbn. by rewrite IH. Qed.

Section Threads.
Context (clock : nat -> Z) (mainFinished : nat -> bool) (msg_size : Z) (Hsize : 0 <= msg_size).

Lemma msgbuff_run s : msgbuff msg_size s = (Done (letters (Z.to_nat msg_size)), s).
Proof. unfold msgbuff. destruct (Z.ltb_spec msg_size 0); [lia|done]. Qed.

Lemma right_size_letters i : right_size msg_size {| senderid := i; text := letters (Z.to_nat msg_size) |} = true.
Proof. unfold right_size. cbn. rewrite letters_size. apply Z.eqb_eq. lia. Qed.

(** *** Completion queues *)

Section Calls.
Context (pick : nat -> nat) (call_ok : nat -> bool) (Hok : forall n, call_ok n = true).

Definition set_calls (l : list StringMsg) (n : nat) (s : sender) : sender :=
  Sender (sd_clock s) (sd_tests s) n (msgLatsArrayIndex s) (msgLatencies s) l (written s) (consumed s).

Lemma send_calls_run n f buff : forall i s,
  exists l, send_calls n i f buff s = (Done tt, set_calls (pending s ++ l) (sd_done s) s) /\
    length l = n /\ Forall (fun m => text m = buff) l.
Proof.
  induction n as [|n IH]; intros i s; cbn [send_calls].
  - exists []. rewrite app_nil_r. split; [by destruct s|done].
  - set (m := {| senderid := f i; text := buff |}).
    run_bind (eq_refl : async_call m s = (Done tt, set_calls (pending s ++ [m]) (sd_done s) s)).
    destruct (IH (i + 1) (set_calls (pending s ++ [m]) (sd_done s) s)) as (l & -> & Hl & Hall).
    exists (m :: l). cbn [pending set_calls]. rewrite <- app_assoc. cbn. split; [done|]. split; [lia|].
    by constructor.
Qed.

Lemma receive_calls_run n : forall r s,
  length (pending s) = n -> Forall (fun m => right_size msg_size m = true) (pending s) ->
  receive_calls msg_size pick call_ok n r s =
    (Done (r + Z.of_nat n), set_calls [] (sd_done s + n) s).
Proof.
  induction n as [|n IH]; intros r s Hlen Hall; cbn [receive_calls].
  - apply nil_length_inv in Hlen. rewrite Z.add_0_r, Nat.add_0_r. destruct s; cbn in *. by subst.
  - set (i := (pick (sd_done s) mod length (pending s))%nat).
    assert (i < length (pending s))%nat as Hi by (apply Nat.mod_upper_bound; lia).
    destruct (lookup_lt_is_Some_2 _ _ Hi) as [m Hm].
    pose proof (Forall_lookup_1 _ _ _ _ Hall Hm) as Hr.
    set (s1 := set_calls (delete i (pending s)) (S (sd_done s)) s).
    assert (cq_Next pick call_ok s = (Done (true, {| senderid := senderid m; text := text m |}), s1)) as E.
    { unfold cq_Next. fold i. destruct (pending s) as [|p l] eqn:Ep; [done|]. rewrite <- Ep in *.
      rewrite Hm, Hok. unfold s1, set_calls. by rewrite Ep. }
    run_bind E. run_bind (eq_refl : assertM true s1 = (Done tt, s1)).
    assert (right_size msg_size {| senderid := senderid m; text := text m |} = true) as -> by done.
    run_bind (eq_refl : assertM true s1 = (Done tt, s1)).
    rewrite IH.
    + unfold s1, set_calls. cbn. do 2 f_equal; [lia|]. f_equal. lia.
    + cbn. rewrite length_delete by eauto. lia.
    + cbn. by apply Forall_delete.
Qed.

Lemma async_exchanged n f s : 0 <= n -> pending s = [] ->
  exists a s', async_exchange msg_size pick call_ok n f (letters (Z.to_nat msg_size)) s = (Done a, s') /\
    pending s' = [] /\ same_records s s'.
Proof.
  intros Hn Hp. unfold async_exchange.
  destruct (send_calls_run (Z.to_nat n) f (letters (Z.to_nat msg_size)) 0 s) as (l & E & Hl & Hall).
  run_bind E. rewrite Hp in *. cbn [app] in *.
  assert (receive_calls msg_size pick call_ok (Z.to_nat n) 0 (set_calls l (sd_done s) s) =
    (Done n, set_calls [] (sd_done s + Z.to_nat n) s)) as E2.
  { rewrite receive_calls_run; [by rewrite Z.add_0_l, Z2Nat.id by done|done|].
    eapply Forall_impl; [exact Hall|]. intros m Hm. cbn in Hm.
    pose proof (right_size_letters 0) as R. unfold right_size in *. cbn in R. by rewrite Hm. }
  run_bind E2. rewrite Z.eqb_refl. eexists _, _. split; [reflexivity|done].
Qed.

End Calls.

(** *** Streams *)

Section Streams.
Context (writes : nat -> bool) (Hwrites : forall n, writes n = true).
Context (Mz : Z) (HM : 0 < Mz).

Definition the_message : StringMsg := {| senderid := Mz; text := letters (Z.to_nat msg_size) |}.

Definition set_stream (w : list StringMsg) (c : nat) (s : sender) : sender :=
  Sender (sd_clock s) (sd_tests s) (sd_done s) (msgLatsArrayIndex s) (msgLatencies s) (pending s) w c.

Lemma write_requests_run n : forall s,
  write_requests n the_message s = (Done tt, set_stream (written s ++ replicate n the_message) (consumed s) s).
Proof.
  induction n as [|n IH]; intros s; cbn [write_requests replicate].
  - rewrite app_nil_r. by destruct s.
  - set (s1 := set_stream (written s ++ [the_message]) (consumed s) s).
    run_bind (eq_refl : stream_write the_message s = (Done tt, s1)).
    rewrite IH. unfold s1, set_stream. cbn. by rewrite <- app_assoc.
Qed.

(** All replies to [j] whole batches. *)
Lemma replies_to_batches j : replies_to Mz (Z.to_nat Mz * j) (letters (Z.to_nat msg_size)) =
  replicate (Z.to_nat Mz * j) the_message.
Proof.
  unfold replies_to, the_message. f_equal.
  rewrite Nat2Z.inj_mul, Z2Nat.id, (Z.mul_comm Mz (Z.of_nat j)), Z.div_mul by lia. nia.
Qed.

Lemma served_batches j : (0 < Z.to_nat Mz * j)%nat -> Z.of_nat (Z.to_nat Mz * j) < 2 ^ 31 ->
  StreamPingPong writes init_vars (replicate (Z.to_nat Mz * j) the_message) [] =
  (Done OK, replicate (Z.to_nat Mz * j) the_message).
Proof.
  intros Hj Hlim. destruct (Z.to_nat Mz * j)%nat as [|m] eqn:Em; [lia|]. cbn [replicate].
  pose proof (stream_from_start writes the_message (replicate m the_message) []) as E.
  rewrite app_nil_r, length_replicate in E. rewrite E; [|done|done|lia|by apply Forall_replicate].
  cbn [StreamPingPong]. change (senderid the_message) with Mz.
  change (text the_message) with (letters (Z.to_nat msg_size)). rewrite <- Em.
  by rewrite replies_to_batches, Em.
Qed.

Lemma read_replies_run j n : forall r last s,
  written s = replicate (Z.to_nat Mz * j) the_message -> Z.of_nat (Z.to_nat Mz * j) < 2 ^ 31 ->
  (consumed s + n <= Z.to_nat Mz * j)%nat ->
  exists last', read_replies writes n r last s =
    (Done (r + Z.of_nat n, last'), set_stream (written s) (consumed s + n) s) /\
    ((0 < n)%nat -> last' = the_message) /\ (n = 0%nat -> last' = last).
Proof.
  induction n as [|n IH]; intros r last s Hw Hlim Hc; cbn [read_replies].
  - exists last. rewrite Z.add_0_r, Nat.add_0_r. split; [by destruct s|]. split; [lia|done].
  - set (s1 := set_stream (written s) (S (consumed s)) s).
    assert (stream_read writes s = (Done (Some the_message), s1)) as E.
    { unfold stream_read. rewrite Hw, served_batches by lia.
      rewrite lookup_replicate_2 by lia. unfold s1, set_stream. by rewrite Hw. }
    run_bind E. destruct (IH (r + 1) the_message s1) as (last' & E' & Hl & Hl0); [done|done|cbn; lia|].
    exists last'. rewrite E'. split; [|split; [|done]].
    + unfold s1, set_stream. cbn. do 2 f_equal; [f_equal; lia|f_equal; lia].
    + intros _. destruct n; [by apply Hl0|apply Hl; lia].
Qed.

Definition stream_at (j : nat) (s : sender) : Prop :=
  written s = replicate (Z.to_nat Mz * j) the_message /\ consumed s = (Z.to_nat Mz * j)%nat.

Lemma stream_exchanged j s : stream_at j s -> Z.of_nat (Z.to_nat Mz * S j) < 2 ^ 31 ->
  exists a s', stream_exchange writes Mz (letters (Z.to_nat msg_size)) s = (Done a, s') /\
    right_size msg_size a = true /\ stream_at (S j) s' /\ same_records s s'.
Proof.
  intros [Hw Hc] Hlim. unfold stream_exchange. fold the_message.
  run_bind (write_requests_run (Z.to_nat Mz) s).
  set (s1 := set_stream (written s ++ replicate (Z.to_nat Mz) the_message) (consumed s) s).
  destruct (read_replies_run (S j) (Z.to_nat Mz) 0 no_reply s1) as (last & E & Hl & _).
  - cbn. rewrite Hw, <- replicate_add. f_equal. lia.
  - done.
  - cbn. lia.
  - run_bind E. rewrite Z.add_0_l, Z2Nat.id by lia. cbn [fst]. rewrite Z.eqb_refl.
    exists the_message. eexists. split; [rewrite (Hl ltac:(lia)); reflexivity|].
    split; [apply right_size_letters|]. split; [|done]. split; cbn.
    + rewrite Hw, <- replicate_add. f_equal. lia.
    + lia.
Qed.

(** C12: a streaming sender and the server stay in step: when [mainFinished] is
    first found set at test [k], the thread has made [k + 1] exchanges, in each of
    which it wrote [M] requests and read exactly the [M] replies to them, of the
    right size; it has read all the server has written, and recorded a latency
    for each exchange in a slot of its own. *)
Theorem stream_sender_in_step k fuel s :
  written s = [] -> consumed s = 0%nat -> sd_tests s = 0%nat -> (k < fuel)%nat ->
  (forall i, (i < k)%nat -> mainFinished i = false) -> mainFinished k = true ->
  Z.of_nat (S k) * Mz < 2 ^ 31 ->
  0 <= msgLatsArrayIndex s -> msgLatsArrayIndex s + Z.of_nat k < kMaxEntries ->
  exists s' ls, StreamSenderThread clock mainFinished msg_size writes Mz fuel s = (Done tt, s') /\
    written s' = replicate (Z.to_nat Mz * S k) the_message /\ consumed s' = (Z.to_nat Mz * S k)%nat /\
    StreamPingPong writes init_vars (written s') [] = (Done OK, replicate (consumed s') the_message) /\
    msgLatencies s' = msgLatencies s ++ ls /\
    ls.*1 = (fun i => msgLatsArrayIndex s + Z.of_nat i) <$> seq 0 (S k).
Proof.
  intros Hw Hc Ht Hf Hno Hyes Hlim H0 Hmax. unfold StreamSenderThread. run_bind (msgbuff_run s).
  destruct (exchange_loop_run clock mainFinished
    (stream_exchange writes Mz (letters (Z.to_nat msg_size))) (right_size msg_size)
    stream_at k) with (fuel := fuel) (j := 0%nat) (s := s)
    as (s' & ls & E & [HI1 HI2] & El & Ei & Eidx); try done; try lia.
  - intros j s1 s2 _ E1 E2 [H1 H2]. split; congruence.
  - intros j s1 Hj H. apply stream_exchanged; [done|]. nia.
  - split; [rewrite Hw|rewrite Hc]; by rewrite Nat.mul_0_r.
  - exists s', ls. rewrite Nat.sub_0_r in *. split; [done|]. split; [done|]. split; [done|].
    split; [|done]. rewrite HI1, HI2.
    apply served_batches; nia.
Qed.
End Streams.
End Threads.

(** ** Examples *)

Definition new_sender : sender := Sender 0 0 0 0 [] [] [] 0.

Lemma stream_server_batches_witness :
  let q := {| senderid := 2; text := "ab" |} in
  StreamPingPong (fun _ => true) init_vars [q; q; q] [] = (Done OK, [q; q]) /\
  (StreamPingPong (fun _ => true) init_vars [{| senderid := 0; text := "ab" |}] []).1 =
    Trap DivisionByZero.
Proof.
  intros q.
  destruct (stream_server_batches (fun _ => true) q [q; q] {| senderid := 3; text := "" |} [] "ab")
    as (H1 & _ & H3);
    [done | vm_compute; reflexivity | vm_compute; reflexivity | repeat constructor | discriminate |].
  split; [exact H1|]. by rewrite H3.
Defined.


Lemma stream_sender_in_step_witness :
  let finished := fun n => (1 <=? n)%nat in
  exists s', StreamSenderThread (fun _ => 5) finished 3 (fun _ => true) 2 5 new_sender = (Done tt, s') /\
    consumed s' = 4%nat.
Proof.
  intros finished.
  destruct (stream_sender_in_step (fun _ => 5) finished 3 ltac:(lia) (fun _ => true)
    ltac:(done) 2 ltac:(lia) 1 5 new_sender eq_refl eq_refl eq_refl ltac:(lia)
    ltac:(intros [|i] Hi; [reflexivity|lia]) eq_refl ltac:(vm_compute; reflexivity)
    ltac:(vm_compute; congruence) ltac:(vm_compute; congruence))
    as (s' & ls & H1 & _ & H2 & _).
  exists s'. split; [exact H1|exact H2].
Defined.
