(* ===== verification/BenchClients.v ===== *)
(** * The clients of the ping-pong benchmarks

    [runBenchmark] of [src/simulation/TCPBenchClient.cc], [GrpcBenchClient.cc] and
    [DBCommBenchClient.cc], which is the same up to what a thread sends: sender
    threads that meet at a barrier and then time one exchange after the other, each
    latency in the next free slot of a shared array; and the main thread, which
    starts them, notes the number of slots at the end of each interval, tells the
    threads to end, joins them and processes the array.  What happens inside of an
    exchange is in TcpBench.v, TcpBroadcast.v, GrpcBench.v and MessageBench.v. *)

From S2P Require Import Prelude Binary64 BenchmarkUtil.

(** ** The threads *)

(** Before its connection; in [pthread_barrier_wait]; before an exchange; in an
    exchange that began at a time; before [fetch_add] with the latency; before the
    write to its slot; before the test of [mainFinished]; at its end. *)
Inductive phase :=
  | Connecting | Waiting | Ready | Exchanging (startTime : Z) | Claiming (latency : Z)
  | Writing (aryIndex latency : Z) | Testing | Ended.

(** The main thread: [i] threads started; asleep until the end of an interval;
    awake with the time it has read; joining thread [i]; behind the joins. *)
Inductive main_phase :=
  | Starting (i : nat) | Sleeping (endTime : Z) | Awake (endTime currTime : Z)
  | Joining (i : nat) | Joined.

Definition kMaxEntries : Z := 67108864.

Record state := State_ {
  threads : list phase;               (* those started *)
  arrived : nat;                      (* threads that have reached the barrier *)
  now : Z;                            (* the clock, in microseconds *)
  msgLatsArrayIndex : Z;
  msgLatencies : gmap Z f64;          (* the slots that were written; others are 0 *)
  msgIndices : list Z;
  timeStampsUsec : list Z;
  mainFinished : bool;
  main : main_phase;
  exited : bool;                      (* a thread has called [exit] *)
}.

Definition set_thread (i : nat) (p : phase) (s : state) : state :=
  State_ (<[i:=p]> (threads s)) (arrived s) (now s) (msgLatsArrayIndex s) (msgLatencies s)
    (msgIndices s) (timeStampsUsec s) (mainFinished s) (main s) (exited s).
Definition set_main (m : main_phase) (s : state) : state :=
  State_ (threads s) (arrived s) (now s) (msgLatsArrayIndex s) (msgLatencies s)
    (msgIndices s) (timeStampsUsec s) (mainFinished s) m (exited s).
Definition exit_process (s : state) : state :=
  State_ (threads s) (arrived s) (now s) (msgLatsArrayIndex s) (msgLatencies s)
    (msgIndices s) (timeStampsUsec s) (mainFinished s) (main s) true.
Definition pass_time (t : Z) (s : state) : state :=
  State_ (threads s) (arrived s) t (msgLatsArrayIndex s) (msgLatencies s)
    (msgIndices s) (timeStampsUsec s) (mainFinished s) (main s) (exited s).

(** [pthread_barrier_wait]: one more has arrived. *)
Definition arrive (s : state) : state :=
  State_ (threads s) (S (arrived s)) (now s) (msgLatsArrayIndex s) (msgLatencies s)
    (msgIndices s) (timeStampsUsec s) (mainFinished s) (main s) (exited s).

(** [fetch_add(1)] and the test of the bound. *)
Definition claim (i : nat) (latency : Z) (s : state) : state :=
  let aryIndex := msgLatsArrayIndex s in
  let s' := State_ (threads s) (arrived s) (now s) (wrapU32 (aryIndex + 1)) (msgLatencies s)
    (msgIndices s) (timeStampsUsec s) (mainFinished s) (main s) (exited s) in
  if kMaxEntries <=? aryIndex then exit_process s' else set_thread i (Writing aryIndex latency) s'.

(** [msgLatencies[aryIndex] = double(endTime - startTime)]. *)
Definition write_slot (aryIndex latency : Z) (s : state) : state :=
  State_ (threads s) (arrived s) (now s) (msgLatsArrayIndex s)
    (<[aryIndex:=f64_of_int latency]> (msgLatencies s))
    (msgIndices s) (timeStampsUsec s) (mainFinished s) (main s) (exited s).

Definition start_thread (i : nat) (s : state) : state :=
  State_ (threads s ++ [Connecting]) (arrived s) (now s) (msgLatsArrayIndex s) (msgLatencies s)
    (msgIndices s) (timeStampsUsec s) (mainFinished s) (Starting (S i)) (exited s).

(** The end of an interval; [mainFinished] is set behind the last one. *)
Definition end_interval (endTime currTime : Z) (s : state) : state :=
  let more := currTime <? endTime in
  State_ (threads s) (arrived s) (now s) (msgLatsArrayIndex s) (msgLatencies s)
    (msgIndices s ++ [msgLatsArrayIndex s]) (timeStampsUsec s ++ [currTime])
    (if more then mainFinished s else true)
    (if more then Sleeping endTime else Joining 0) (exited s).

(** [runBenchmark] up to the loop that starts the threads. *)
Definition start (currTime : Z) : state :=
  State_ [] 0 currTime 0 ∅ [0] [currTime] false (Starting 0) false.

(** ** Lists of threads *)

Section Threads.
Context {A B : Type} (l : list A) (i : nat) (p : A).
Context (Hi : l !! i = Some p).

Lemma update_split p' : exists l1 l2, l = l1 ++ p :: l2 /\ <[i:=p']> l = l1 ++ p' :: l2.
Proof.
  exists (take i l), (drop (S i) l). split; [by rewrite take_drop_middle|].
  rewrite insert_take_drop; [done|]. by eapply lookup_lt_Some.
Qed.

Lemma omap_update (f : A -> option B) : exists rest,
  omap f l ≡ₚ option_list (f p) ++ rest /\
  forall p', omap f (<[i:=p']> l) ≡ₚ option_list (f p') ++ rest.
Proof.
  exists (omap f (take i l) ++ omap f (drop (S i) l)).
  assert (forall q, omap f (take i l ++ q :: drop (S i) l) ≡ₚ
    option_list (f q) ++ omap f (take i l) ++ omap f (drop (S i) l)) as E.
  { intros q. rewrite omap_app. cbn. destruct (f q); cbn; [|done]. by rewrite Permutation_middle. }
  split.
  - rewrite <- (take_drop_middle l i p Hi) at 1. apply E.
  - intros p'. rewrite insert_take_drop by (by eapply lookup_lt_Some). apply E.
Qed.

Lemma count_update (f : A -> bool) p' :
  (length (filter f (<[i:=p']> l)) + (if f p then 1 else 0) =
   length (filter f l) + (if f p' then 1 else 0))%nat.
Proof.
  destruct (update_split p') as (l1 & l2 & E & E'). rewrite E', E, !filter_app, !length_app, !filter_cons.
  destruct (f p), (f p'); repeat (case_decide; try done); cbn; lia.
Qed.

Lemma sum_update (f : A -> nat) p' :
  (sum_list_with f (<[i:=p']> l) + f p = sum_list_with f l + f p')%nat.
Proof.
  destruct (update_split p') as (l1 & l2 & E & E'). rewrite E', E, !sum_list_with_app. cbn. lia.
Qed.

Lemma Exists_update (P : A -> Prop) p' : Exists P (<[i:=p']> l) -> P p' \/ Exists P l.
Proof.
  destruct (update_split p') as (l1 & l2 & E & E'). rewrite E', E, !Exists_app, !Exists_cons. tauto.
Qed.

Lemma Forall_update (P : A -> Prop) p' : Forall P l -> P p' -> Forall P (<[i:=p']> l).
Proof. intros. by apply Forall_insert. Qed.
End Threads.

Section Client.
(** [barrier]: the threads wait for each other; those of the TCP benchmark that
    broadcast do not. *)
Context (barrier : bool) (numSenders : nat) (totalExecTimeMsec : Z).

(** A step of thread [i] in phase [p]. *)
Inductive thread_step (i : nat) (s : state) : phase -> state -> Prop :=
  | connected_barrier :
      barrier = true -> thread_step i s Connecting (arrive (set_thread i Waiting s))
  | connected_alone :
      barrier = false -> thread_step i s Connecting (set_thread i Ready s)
  | connection_fails : thread_step i s Connecting (exit_process s)
  | barrier_passed :
      (numSenders <= arrived s)%nat -> thread_step i s Waiting (set_thread i Ready s)
  | exchange_begins : thread_step i s Ready (set_thread i (Exchanging (now s)) s)
  | exchange_ends t :
      thread_step i s (Exchanging t) (set_thread i (Claiming (wrapU64 (now s - t))) s)
  | exchange_fails t : thread_step i s (Exchanging t) (exit_process s)
  | slot_claimed d : thread_step i s (Claiming d) (claim i d s)
  | slot_written k d : thread_step i s (Writing k d) (set_thread i Testing (write_slot k d s))
  | finished_tested :
      thread_step i s Testing (set_thread i (if mainFinished s then Ended else Ready) s).

(** A step of the main thread. *)
Inductive main_step (s : state) : main_phase -> state -> Prop :=
  | thread_started i : (i < numSenders)%nat -> main_step s (Starting i) (start_thread i s)
  | all_started :
      main_step s (Starting numSenders) (set_main (Sleeping (deadline (now s) totalExecTimeMsec)) s)
  | interval_over e : main_step s (Sleeping e) (set_main (Awake e (now s)) s)
  | interval_noted e t : main_step s (Awake e t) (end_interval e t s)
  | thread_joined i :
      (i < numSenders)%nat -> threads s !! i = Some Ended ->
      main_step s (Joining i) (set_main (Joining (S i)) s)
  | all_joined : main_step s (Joining numSenders) (set_main Joined s).

(** What the threads do, and what they do while time passes. *)
Inductive work (s : state) : state -> Prop :=
  | work_thread i p s' :
      exited s = false -> threads s !! i = Some p -> thread_step i s p s' -> work s s'
  | work_main s' : exited s = false -> main_step s (main s) s' -> work s s'.

Inductive step (s : state) : state -> Prop :=
  | step_work s' : work s s' -> step s s'
  | step_time t : exited s = false -> now s <= t -> step s (pass_time t s).

(** [processResults] on the array, when the threads were joined. *)
Definition slots (s : state) : list f64 :=
  (fun i => default zero (msgLatencies s !! i)) <$> seqZ 0 kMaxEntries.
Definition client_report (is_open : bool) (expName : string) (s : state) : M results bool :=
  processResults is_open (msgIndices s) (timeStampsUsec s) expName ;; mret true.

(** ** What holds in every state *)

(** The thread is behind the barrier. *)
Definition started (p : phase) : bool :=
  match p with Connecting | Waiting => false | _ => true end.
Definition is_connected (p : phase) : bool := match p with Connecting => false | _ => true end.
Definition writing (p : phase) : option Z := match p with Writing k _ => Some k | _ => None end.

(** The number of threads whose connection is made. *)
Definition connected (l : list phase) : nat := length (filter is_connected l).

Definition main_ok (s : state) : Prop :=
  match main s with
  | Starting i => length (threads s) = i /\ (i <= numSenders)%nat /\ mainFinished s = false
  | Sleeping _ | Awake _ _ => length (threads s) = numSenders /\ mainFinished s = false
  | Joining i =>
      length (threads s) = numSenders /\ (i <= numSenders)%nat /\ mainFinished s = true /\
      Forall (eq Ended) (take i (threads s))
  | Joined => length (threads s) = numSenders /\ mainFinished s = true /\ Forall (eq Ended) (threads s)
  end.

Definition barrier_ok (s : state) : Prop :=
  if barrier then
    arrived s = connected (threads s) /\
    (Exists (fun p => started p = true) (threads s) -> (numSenders <= arrived s)%nat)
  else Forall (fun p => p <> Waiting) (threads s).

(** The slots below the index are those being written and those written. *)
Definition slots_ok (s : state) : Prop :=
  0 <= msgLatsArrayIndex s <= kMaxEntries /\
  omap writing (threads s) ++ elements (dom (msgLatencies s)) ≡ₚ seqZ 0 (msgLatsArrayIndex s) /\
  map_Forall (fun _ v => not_nan v = true) (msgLatencies s).

Definition indices_ok (s : state) : Prop :=
  length (timeStampsUsec s) = length (msgIndices s) /\
  msgIndices s !! 0%nat = Some 0 /\
  (forall i x y, msgIndices s !! i = Some x -> msgIndices s !! S i = Some y -> x <= y) /\
  (forall i x, msgIndices s !! i = Some x -> x <= msgLatsArrayIndex s).

Definition consistent (s : state) : Prop :=
  exited s = false -> main_ok s /\ barrier_ok s /\ slots_ok s /\ indices_ok s.

Lemma start_consistent t : consistent (start t).
Proof.
  intros _. split_and!.
  - cbn. split_and!; [done|lia|done].
  - unfold barrier_ok. destruct barrier; [|by constructor]. split; [done|]. intros H. by inversion H.
  - split; [unfold kMaxEntries; cbn; lia|]. cbn. by rewrite dom_empty_L, elements_empty.
  - split; [done|]. split; [done|]. split.
    + intros [|[|i]] x y; cbn; congruence.
    + intros [|i] x; cbn; [intros [= <-]; lia|done].
Qed.

Section Thread.
Context (i : nat) (p : phase) (s : state).
Context (Hi : threads s !! i = Some p).

Lemma main_ok_thread p' : p <> Ended -> main_ok s -> main_ok (set_thread i p' s).
Proof.
  intros Hp. unfold main_ok. cbn. rewrite length_insert.
  destruct (main s) as [|?|? ?|j|]; try done.
  - intros (? & ? & ? & He). split_and!; try done. destruct (decide (j <= i)%nat).
    + by rewrite take_insert_ge.
    + destruct Hp. symmetry. eapply Forall_lookup_1; [exact He|]. rewrite lookup_take_lt; [exact Hi|lia].
  - intros (? & ? & He). destruct Hp. symmetry. by eapply Forall_lookup_1.
Qed.

(** A step that leaves the number of connected threads as it is. *)
Lemma barrier_ok_thread p' :
  is_connected p = is_connected p' \/ barrier = false -> p' <> Waiting ->
  (barrier = true -> started p' = true -> started p = true \/ (numSenders <= arrived s)%nat) ->
  barrier_ok s -> barrier_ok (set_thread i p' s).
Proof.
  unfold barrier_ok, connected. intros Hc Hw Hs. destruct barrier.
  - cbn. intros [Ha He]. pose proof (count_update _ _ _ Hi is_connected p') as Hn.
    destruct Hc as [Hc|]; [|done]. rewrite Hc in Hn. split; [lia|].
    intros [H|H]%(Exists_update _ _ _ Hi); [|by apply He].
    destruct (Hs eq_refl H) as [H'|H']; [|done]. apply He, Exists_exists. exists p. split; [|done].
    by eapply list_elem_of_lookup_2.
  - intros H. by apply Forall_update.
Qed.

Lemma barrier_ok_arrive :
  barrier = true -> p = Connecting -> barrier_ok s -> barrier_ok (arrive (set_thread i Waiting s)).
Proof.
  unfold barrier_ok, connected. intros -> ->. cbn. intros [Ha He].
  pose proof (count_update _ _ _ Hi is_connected Waiting) as Hn. cbn in Hn.
  split; [lia|]. intros [H|H]%(Exists_update _ _ _ Hi); [done|]. specialize (He H). lia.
Qed.

Lemma slots_ok_thread p' : writing p = None -> writing p' = None -> slots_ok s -> slots_ok (set_thread i p' s).
Proof.
  intros Hp Hp' (Hr & Hperm & Hv). split; [exact Hr|]. split; [|exact Hv]. cbn.
  destruct (omap_update _ _ _ Hi writing) as (rest & E & E'). rewrite E' by done.
  rewrite E, Hp in Hperm. by rewrite Hp'.
Qed.

Lemma slots_ok_claim d :
  writing p = None -> exited (claim i d s) = false -> slots_ok s -> slots_ok (claim i d s).
Proof.
  intros Hp He (Hr & Hperm & Hv). unfold claim in *.
  destruct (Z.leb_spec kMaxEntries (msgLatsArrayIndex s)); [done|].
  assert (wrapU32 (msgLatsArrayIndex s + 1) = msgLatsArrayIndex s + 1) as E1.
  { apply wrapU_id. unfold kMaxEntries in *. lia. }
  split; [|split; [|exact Hv]]; cbn; rewrite E1; [lia|].
  destruct (omap_update _ _ _ Hi writing) as (rest & E & E'). rewrite (E' (Writing _ _)).
  rewrite E, Hp in Hperm. cbn in Hperm |- *.
  replace (msgLatsArrayIndex s + 1) with (Z.of_nat (S (Z.to_nat (msgLatsArrayIndex s)))) by lia.
  rewrite seqZ_S, Z2Nat.id by lia. rewrite <- Hperm, Z.add_0_l. apply Permutation_cons_append.
Qed.

Lemma slot_free k : writing p = Some k -> slots_ok s -> k ∉ dom (msgLatencies s).
Proof.
  intros Hp (_ & Hperm & _) Hk. destruct (omap_update _ _ _ Hi writing) as (rest & E & _).
  assert (NoDup (k :: rest ++ elements (dom (msgLatencies s)))) as Hnd.
  { pose proof (NoDup_seqZ 0 (msgLatsArrayIndex s)) as Hnd. rewrite <- Hperm, E, Hp in Hnd. exact Hnd. }
  apply NoDup_cons in Hnd as [Hnd _]. apply Hnd. apply elem_of_app. right. by apply elem_of_elements.
Qed.

Lemma slots_ok_write k d :
  p = Writing k d -> not_nan (f64_of_int d) = true -> slots_ok s ->
  slots_ok (set_thread i Testing (write_slot k d s)).
Proof.
  intros Hp Hd Hs. pose proof (slot_free k ltac:(by rewrite Hp) Hs) as Hk.
  destruct Hs as (Hr & Hperm & Hv). split; [exact Hr|]. cbn. split.
  - destruct (omap_update _ _ _ Hi writing) as (rest & E & E'). rewrite (E' Testing).
    rewrite E, Hp in Hperm. rewrite dom_insert_L, elements_union_singleton by done.
    rewrite <- Hperm. cbn. by rewrite Permutation_middle.
  - by apply map_Forall_insert_2.
Qed.
End Thread.

Lemma indices_ok_mono s s' :
  msgIndices s' = msgIndices s -> timeStampsUsec s' = timeStampsUsec s ->
  msgLatsArrayIndex s <= msgLatsArrayIndex s' -> indices_ok s -> indices_ok s'.
Proof.
  intros E E' Hle (Hl & H0 & Hstep & Hin). unfold indices_ok. rewrite E, E'. split_and!; try done.
  intros i x Hx. specialize (Hin _ _ Hx). lia.
Qed.

Lemma indices_ok_interval e t s : indices_ok s -> indices_ok (end_interval e t s).
Proof.
  intros (Hl & H0 & Hstep & Hin). split; [|split; [|split]]; cbn.
  - rewrite !length_app. cbn. lia.
  - by apply lookup_app_l_Some.
  - intros i x y Hx Hy. apply lookup_app_Some in Hy as [Hy|[Hi Hy]].
    + rewrite lookup_app_l in Hx by (apply lookup_lt_Some in Hy; lia). eauto.
    + apply list_lookup_singleton_Some in Hy as [Hn <-].
      rewrite lookup_app_l in Hx by lia. eauto.
  - intros i x Hx. apply lookup_app_Some in Hx as [Hx|[Hi Hx]]; [eauto|].
    apply list_lookup_singleton_Some in Hx as [_ <-]. lia.
Qed.

Lemma thread_step_consistent i p s s' :
  exited s = false -> threads s !! i = Some p -> thread_step i s p s' ->
  consistent s -> consistent s'.
Proof.
  intros Hx Hi Hstep Hc He. destruct (Hc Hx) as (Hm & Hb & Hs & Hn).
  assert (forall p', p <> Ended -> (is_connected p = is_connected p' \/ barrier = false) -> p' <> Waiting ->
    (barrier = true -> started p' = true -> started p = true \/ (numSenders <= arrived s)%nat) ->
    writing p = None -> writing p' = None ->
    main_ok (set_thread i p' s) /\ barrier_ok (set_thread i p' s) /\
    slots_ok (set_thread i p' s) /\ indices_ok (set_thread i p' s)) as Hset.
  { intros p' ??????. split_and!; [by eapply main_ok_thread|by eapply barrier_ok_thread
      |by eapply slots_ok_thread|by apply (indices_ok_mono s)]. }
  destruct Hstep as [Eb|Eb| |Hbar| |t| |d|k d|]; try discriminate He; try (apply Hset; auto; fail).
  - split_and!.
    + by apply (main_ok_thread i Connecting s Hi).
    + by eapply barrier_ok_arrive.
    + by apply (slots_ok_thread i Connecting s Hi).
    + by apply (indices_ok_mono s).
  - apply Hset; auto; congruence.
  - pose proof (slots_ok_claim i (Claiming d) s Hi d eq_refl He Hs) as Hs'.
    unfold claim in *. destruct (Z.leb_spec kMaxEntries (msgLatsArrayIndex s)); [discriminate He|].
    split_and!.
    + by apply (main_ok_thread i (Claiming d)).
    + apply (barrier_ok_thread i (Claiming d)); try done; auto.
    + done.
    + apply (indices_ok_mono s); try done. cbn.
      destruct Hs as (Hr & _ & _). rewrite wrapU_id; unfold kMaxEntries in *; lia.
  - split_and!.
    + by apply (main_ok_thread i (Writing k d)).
    + apply (barrier_ok_thread i (Writing k d)); try done; auto.
    + apply (slots_ok_write i (Writing k d) s Hi); [done|apply f64_of_int_not_nan|done].
    + by apply (indices_ok_mono s).
  - apply Hset; auto; case_match; try done; auto.
Qed.

Lemma main_step_consistent s s' :
  exited s = false -> main_step s (main s) s' -> consistent s -> consistent s'.
Proof.
  intros Hx Hstep Hc He. destruct (Hc Hx) as (Hm & Hb & Hs & Hn). unfold main_ok in Hm.
  assert (forall m, main_ok (set_main m s) ->
    main_ok (set_main m s) /\ barrier_ok (set_main m s) /\
    slots_ok (set_main m s) /\ indices_ok (set_main m s)) as Hset by done.
  remember (main s) as m eqn:Em. destruct Hstep as [i Hi| |e|e t|i Hi Hend|].
  - split_and!.
    + unfold main_ok. cbn. rewrite length_app. cbn. destruct Hm as (? & ? & ?). split_and!; [lia|lia|done].
    + unfold barrier_ok, connected in *. cbn. destruct barrier.
      * rewrite filter_app, app_nil_r. destruct Hb as [Ha H]. split; [done|].
        rewrite Exists_app. intros [|Hl]; [by apply H|]. apply Exists_exists in Hl as (x & Hl & Hl').
        apply list_elem_of_singleton in Hl as ->. done.
      * apply Forall_app_2; [done|]. by constructor.
    + destruct Hs as (? & Hperm & ?). split; [done|]. split; [|done]. cbn. rewrite omap_app. cbn. by rewrite app_nil_r.
    + done.
  - apply Hset. unfold main_ok. cbn. tauto.
  - apply Hset. done.
  - split_and!; [|done|done|by apply indices_ok_interval]. unfold main_ok. cbn.
    destruct (t <? e); [done|]. split_and!; [tauto|lia|done|constructor].
  - apply Hset. unfold main_ok. cbn. destruct Hm as (? & ? & ? & Hf). split_and!; [done|lia|done|].
    erewrite take_S_r by done. apply Forall_app_2; [done|]. by constructor.
  - apply Hset. unfold main_ok. cbn. destruct Hm as (? & ? & ? & Hf). split_and!; try done.
    rewrite firstn_all2 in Hf; [done|lia].
Qed.

Definition reachable (s : state) : Prop := exists t, rtc step (start t) s.

Lemma step_consistent s s' : step s s' -> consistent s -> consistent s'.
Proof.
  intros Hstep H.
  destruct Hstep as [s1 [i p s2 ? ? ?|s2 ? ?]|t' ? ?].
  - by eapply thread_step_consistent.
  - by eapply main_step_consistent.
  - intros He. by apply H.
Qed.

Lemma reachable_consistent s : reachable s -> consistent s.
Proof.
  intros [t Hr]. assert (consistent (start t)) as H by apply start_consistent. revert H.
  induction Hr as [s|s s' s'' Hstep _ IH]; [done|]. intros H. by apply IH, (step_consistent s).
Qed.

(** ** The report *)

Lemma slots_length s : Z.of_nat (length (slots s)) = kMaxEntries.
Proof. unfold slots. rewrite length_fmap, length_seqZ. apply Z2Nat.id. unfold kMaxEntries. lia. Qed.

Lemma slot_lookup s k : 0 <= k < kMaxEntries ->
  slots s !! Z.to_nat k = Some (default zero (msgLatencies s !! k)).
Proof.
  intros Hk. unfold slots. rewrite list_lookup_fmap, lookup_seqZ_lt by lia. cbn [fmap option_fmap option_map].
  by rewrite Z.add_0_l, Z2Nat.id by lia.
Qed.

Lemma slots_not_nan s : map_Forall (fun _ v => not_nan v = true) (msgLatencies s) ->
  Forall (fun x => not_nan x = true) (slots s).
Proof.
  intros Hv. apply Forall_fmap, Forall_true. intros k. unfold compose.
  destruct (msgLatencies s !! k) as [v|] eqn:E; [exact (Hv _ _ E)|done].
Qed.

(** When all threads have ended, the slots below the index are written. *)
Lemma ended_slots l : Forall (eq Ended) l -> omap writing l = [].
Proof. induction 1 as [|? l <- _ IH]; [done|]. cbn. exact IH. Qed.

Lemma joined_slots s : slots_ok s -> Forall (eq Ended) (threads s) ->
  forall k, is_Some (msgLatencies s !! k) <-> 0 <= k < msgLatsArrayIndex s.
Proof.
  intros (_ & Hperm & _) He k. rewrite (ended_slots _ He) in Hperm. cbn in Hperm.
  rewrite <- elem_of_dom, <- elem_of_elements, Hperm, elem_of_seqZ. lia.
Qed.

Lemma connected_length l : (connected l <= length l)%nat.
Proof. apply length_filter. Qed.

Lemma all_connected l : (length l <= connected l)%nat -> Forall (fun p => p <> Connecting) l.
Proof.
  unfold connected. induction l as [|p l IH]; [by constructor|]. rewrite filter_cons. intros Hl.
  pose proof (length_filter is_connected l) as Hf. case_decide as Hp; cbn in Hl; [|lia].
  constructor; [by intros ->|]. apply IH. lia.
Qed.

Lemma report_run s expName : slots_ok s -> indices_ok s ->
  exists n rs r', last (msgIndices s) = Some n /\ n <= msgLatsArrayIndex s /\
    client_report true expName s (Results (slots s) [] []) = (Done true, r') /\
    length rs = (length (msgIndices s) - 1)%nat /\
    (forall k r, rs !! k = Some r ->
      line_of (msgIndices s) (timeStampsUsec s) expName (slots s) k r) /\
    foldr (fun r n => count (row_stats r) + n) 0 rs = n.
Proof.
  intros (Hr & _ & Hv) (Hl & H0 & Hstep & Hin). pose proof (slots_length s) as Hlen.
  pose proof (slots_not_nan s Hv) as Hnum. clear Hv. generalize dependent (slots s). intros a Hlen Hnum.
  assert (sampled (msgIndices s) (timeStampsUsec s) a) as Hsam.
  { split; [done|done|done|]. intros i x Hx. specialize (Hin _ _ Hx). lia. }
  destruct (lookup_lt_is_Some_2 (msgIndices s) (length (msgIndices s) - 1)) as [n En].
  { apply lookup_lt_Some in H0. lia. }
  assert (Z.of_nat (length a) <= 2 ^ 26) as Hmax.
  { rewrite Hlen. unfold kMaxEntries. lia. }
  destruct (processResults_run _ _ expName _ Hsam Hnum Hmax
    (Results a [] []) n eq_refl En) as (rs & r' & E & ? & ? & ? & _).
  exists n, rs, r'. split_and!; try done; [|by eapply Hin|].
  - rewrite last_lookup, <- En. f_equal. lia.
  - unfold client_report. by run_bind E.
Qed.


(** ** The end *)

(** Steps a thread can still make once [mainFinished] is set. *)
Definition weight (p : phase) : nat :=
  match p with
  | Connecting => 7 | Waiting => 6 | Ready => 5 | Exchanging _ => 4
  | Claiming _ => 3 | Writing _ _ => 2 | Testing => 1 | Ended => 0
  end.
Definition main_weight (m : main_phase) : nat :=
  match m with Joining i => S (numSenders - i) | _ => 0 end.
Definition measure (s : state) : nat :=
  if exited s then 0 else (sum_list_with weight (threads s) + main_weight (main s))%nat.

Lemma measure_thread i p s s' :
  exited s = false -> threads s !! i = Some p -> mainFinished s = true -> thread_step i s p s' ->
  (measure s' < measure s)%nat.
Proof.
  intros He Hi Hf Hstep.
  assert (forall p' s', (weight p' < weight p)%nat -> threads s' = <[i:=p']> (threads s) ->
    main s' = main s -> (measure s' < measure s)%nat) as Hset.
  { intros p' s1 Hw Et Em. unfold measure. rewrite He, Et, Em.
    pose proof (sum_update _ _ _ Hi weight p'). destruct (exited s1); lia. }
  assert ((0 < weight p)%nat -> (0 < measure s)%nat) as Hpos.
  { intros. unfold measure. rewrite He. pose proof (sum_update _ _ _ Hi weight Ended). cbn in *. lia. }
  destruct Hstep as [| | | | |t|t|d|k d|].
  - by apply (Hset Waiting); [cbn; lia|..].
  - by apply (Hset Ready); [cbn; lia|..].
  - apply Hpos. cbn. lia.
  - by apply (Hset Ready); [cbn; lia|..].
  - by apply (Hset (Exchanging (now s))); [cbn; lia|..].
  - by apply (Hset (Claiming (wrapU64 (now s - t)))); [cbn; lia|..].
  - apply Hpos. cbn. lia.
  - unfold claim. destruct (_ <=? _).
    + apply Hpos. cbn. lia.
    + by apply (Hset (Writing (msgLatsArrayIndex s) d)); [cbn; lia|..].
  - by apply (Hset Testing); [cbn; lia|..].
  - rewrite Hf. by apply (Hset Ended); [cbn; lia|..].
Qed.

Lemma measure_work s s' :
  consistent s -> mainFinished s = true -> work s s' -> (measure s' < measure s)%nat.
Proof.
  intros Hc Hf [i p s1 He Hi Hstep|s1 He Hstep]; [by eapply measure_thread|].
  destruct (Hc He) as (Hm & _). unfold main_ok in Hm. unfold measure.
  remember (main s) as m eqn:Em. destruct Hstep as [| |e|e t|i Hi Hend|]; try (destruct Hm; intuition congruence).
  - cbn. rewrite He. lia.
  - cbn. rewrite He. lia.
Qed.

Lemma finished_stays s s' : mainFinished s = true -> step s s' -> mainFinished s' = true.
Proof.
  intros Hf [s1 [i p s2 _ _ Hstep|s2 _ Hstep]|t _ _]; [..|done].
  - destruct Hstep; try done. unfold claim. by case_match.
  - destruct Hstep; try done. cbn. by case_match.
Qed.

Lemma one_connecting l : (connected l < length l)%nat -> exists j, l !! j = Some Connecting.
Proof.
  intros Hl. destruct (decide (Exists (fun p => is_connected p = false) l)) as [H|H].
  - apply Exists_exists in H as (p & Hp & E). apply list_elem_of_lookup_1 in Hp as [j Hj].
    exists j. by destruct p.
  - apply not_Exists_Forall in H; [|apply _]. exfalso. revert Hl. unfold connected.
    induction H as [|p l Hp _ IH]; [cbn; lia|]. rewrite filter_cons.
    case_decide as Hd; [cbn; lia|]. destruct Hp. by destruct p.
Qed.

(** Until the threads are joined there is something to do other than to fail,
    unless the array is full. *)
Lemma work_left s :
  consistent s -> exited s = false -> mainFinished s = true -> msgLatsArrayIndex s < kMaxEntries ->
  main s = Joined \/ exists s', work s s' /\ exited s' = false.
Proof.
  intros Hc He Hf Hk. destruct (Hc He) as (Hm & Hb & _). unfold main_ok in Hm.
  destruct (main s) as [|?|? ?|i|] eqn:Em; try (destruct Hm; intuition congruence). right.
  destruct Hm as (Hlen & Hi & _).
  destruct (decide (i = numSenders)) as [->|Hne].
  { eexists. split; [apply work_main; [done|]; rewrite Em; apply all_joined|done]. }
  destruct (lookup_lt_is_Some_2 (threads s) i) as [p Hp]; [lia|].
  assert (forall j q s', threads s !! j = Some q -> thread_step j s q s' -> exited s' = false ->
    exists s', work s s' /\ exited s' = false) as Hw.
  { intros j q s' Hq H He'. exists s'. split; [by eapply work_thread|done]. }
  destruct p as [| | |t|d|k d| |].
  - destruct barrier eqn:Eb; (eapply Hw; [exact Hp| |]); [by apply connected_barrier|done|by apply connected_alone|done].
  - destruct (decide (numSenders <= arrived s)%nat) as [Hle|Hlt].
    { eapply Hw; [exact Hp|by apply barrier_passed|done]. }
    unfold barrier_ok in Hb. destruct barrier eqn:Eb.
    + destruct Hb as [Ha _]. destruct (one_connecting (threads s)) as [j Hj]; [lia|].
      eapply Hw; [exact Hj|by apply connected_barrier|done].
    + eapply Forall_lookup_1 in Hb; [|exact Hp]. done.
  - eapply Hw; [exact Hp|by apply exchange_begins|done].
  - eapply Hw; [exact Hp|by apply exchange_ends|done].
  - eapply Hw; [exact Hp|by apply slot_claimed|]. unfold claim.
    destruct (Z.leb_spec kMaxEntries (msgLatsArrayIndex s)); [lia|done].
  - eapply Hw; [exact Hp|by apply slot_written|done].
  - eapply Hw; [exact Hp|by apply finished_tested|done].
  - eexists. split; [apply work_main; [done|]; rewrite Em; apply thread_joined; [lia|done]|done].
Qed.

Lemma clients_measure_bound s : consistent s -> (measure s <= 8 * numSenders + 1)%nat.
Proof.
  intros Hc. unfold measure. destruct (exited s) eqn:He; [lia|]. destruct (Hc He) as (Hm & _).
  assert (sum_list_with weight (threads s) <= 7 * length (threads s))%nat as Hsum.
  { induction (threads s) as [|p l IH]; cbn; [lia|]. assert (weight p <= 7)%nat by (destruct p; cbn; lia). lia. }
  assert (length (threads s) <= numSenders)%nat by (unfold main_ok in Hm; destruct (main s); lia).
  assert (main_weight (main s) <= S numSenders)%nat by (destruct (main s); cbn; lia). lia.
Qed.

(** [m] steps of threads while time passes. *)
Inductive runs : nat -> state -> state -> Prop :=
  | runs_none s : runs 0 s s
  | runs_work m s s' s'' : work s s' -> runs m s' s'' -> runs (S m) s s''
  | runs_time m s t s'' : exited s = false -> now s <= t -> runs m (pass_time t s) s'' -> runs m s s''.

(** C14: the benchmark ends.  Once the main thread has set [mainFinished], the
    threads make at most eight steps each and one more, in whatever order and
    however much time passes; and where no thread can make a step, other than to
    fail, the main thread has joined all of them, if the process was not ended by an
    error and the array is not full: no thread is left waiting at the barrier. *)
Theorem clients_stop s :
  reachable s -> mainFinished s = true ->
  (forall m s', runs m s s' -> (m <= 8 * numSenders + 1)%nat) /\
  (forall s', rtc step s s' -> exited s' = false -> msgLatsArrayIndex s' < kMaxEntries ->
    (forall s'', work s' s'' -> exited s'' = true) -> main s' = Joined).
Proof.
  intros Hr Hf. split.
  - assert (measure s <= 8 * numSenders + 1)%nat as Hbound.
    { apply clients_measure_bound. by apply reachable_consistent. }
    intros m s' Hruns. enough (m <= measure s)%nat by lia. clear Hbound.
    assert (consistent s) as Hc by (by apply reachable_consistent). clear Hr. revert Hf Hc.
    induction Hruns as [s|m s s1 s2 Hw _ IH|m s t s2 He Ht _ IH]; intros Hf Hc; [lia|..].
    + pose proof (measure_work _ _ Hc Hf Hw).
      enough (m <= measure s1)%nat by lia. apply IH; [eapply finished_stays; [done|by apply step_work]|].
      eapply step_consistent; [by apply step_work|done].
    + apply IH; [done|]. intros He'. by apply Hc.
  - intros s' Hs He Hk Hno. assert (mainFinished s' = true) as Hf'.
    { clear Hr Hno He Hk. induction Hs; [done|]. apply IHHs. by eapply finished_stays. }
    assert (consistent s') as Hc.
    { apply reachable_consistent. destruct Hr as [t Hr]. exists t. by etrans. }
    destruct (work_left s' Hc He Hf' Hk) as [|(s'' & H & He'')]; [done|].
    specialize (Hno _ H). congruence.
Qed.

End Client.

(** ** The programs *)

(** Threads that broadcast do not wait for each other in the TCP benchmark. *)
Definition TCPBenchClient_barrier (broadcast : bool) : bool := negb broadcast.
Definition GrpcBenchClient_barrier : bool := true.
(** The connection is followed by a first exchange, which is not timed. *)
Definition DBCommBenchClient_barrier : bool := true.

(** ** Examples *)

Ltac thread_goes i c :=
  eapply rtc_l; [apply step_work; eapply (work_thread _ _ _ _ i); [reflexivity|reflexivity|c]|].
Ltac main_goes c :=
  eapply rtc_l; [apply step_work; eapply work_main; [reflexivity|c]|].
Ltac time_goes t :=
  eapply rtc_l; [apply (step_time _ _ _ _ t); [reflexivity|vm_compute; congruence]|].

(** Two threads; the second is faster and ends first.  Thread 0 claims its slot
    before thread 1, but writes it later. *)
Lemma two_senders :
  exists s, reachable true 2 1 s /\ exited s = false /\ main s = Joined /\
    msgIndices s = [0; 0; 2] /\ msgLatsArrayIndex s = 2.
Proof.
  eexists. split.
  - exists 1000.
    main_goes ltac:(apply thread_started; lia). thread_goes 0%nat ltac:(by apply connected_barrier).
    main_goes ltac:(apply thread_started; lia). main_goes ltac:(apply all_started).
    thread_goes 1%nat ltac:(by apply connected_barrier).
    thread_goes 1%nat ltac:(apply barrier_passed; cbn; lia). thread_goes 1%nat ltac:(apply exchange_begins).
    thread_goes 0%nat ltac:(apply barrier_passed; cbn; lia). thread_goes 0%nat ltac:(apply exchange_begins).
    time_goes 1500. main_goes ltac:(apply interval_over). main_goes ltac:(apply interval_noted).
    thread_goes 0%nat ltac:(apply exchange_ends). thread_goes 0%nat ltac:(apply slot_claimed).
    time_goes 2200. thread_goes 1%nat ltac:(apply exchange_ends). thread_goes 1%nat ltac:(apply slot_claimed).
    thread_goes 1%nat ltac:(apply slot_written).
    main_goes ltac:(apply interval_over). main_goes ltac:(apply interval_noted).
    thread_goes 1%nat ltac:(apply finished_tested). thread_goes 0%nat ltac:(apply slot_written).
    thread_goes 0%nat ltac:(apply finished_tested).
    main_goes ltac:(apply thread_joined; [lia|reflexivity]).
    main_goes ltac:(apply thread_joined; [lia|reflexivity]).
    main_goes ltac:(apply all_joined). apply rtc_refl.
  - repeat split.
Qed.


Lemma clients_stop_witness :
  exists s, reachable true 2 1 s /\ forall m s', runs true 2 1 m s s' -> (m <= 17)%nat.
Proof.
  destruct two_senders as (s & Hr & He & Hj & _).
  exists s. split; [exact Hr|]. apply (clients_stop true 2 1 s Hr).
  destruct (reachable_consistent true 2 1 s Hr He) as (Hm & _). unfold main_ok in Hm.
  rewrite Hj in Hm. apply Hm.
Defined.
