(* ===== verification/Programs.v ===== *)
(** * The programs

    The [main] of each program of [src/simulation/]: the options (Options.v), the
    checks, and the parts of the experiment that the other files model.  What a
    program runs on its threads is an argument, since the threads of a program
    are models of their own. *)

From S2P Require Import PartitionedFIFOScheduler PartitionedLocalFIFOScheduler SinglePartitionedFIFOTaskScheduler.
From S2P Require Import PartitionedFIFOTaskScheduler PartitionedScanTask PushFIFOScheduler SparkScheduler.
From S2P Require SyntheticScheduler AsyncSyntheticScheduler CommunicationBench LoadGenerator SyntheticWorker GrpcBench MessageBench.
From S2P Require Import Prelude Tables World Procs Client SchedulerUtil Setup Binary64 RandomGenerator BenchmarkUtil Drivers Options.
From Stdlib Require Import Ascii.
#[local] Open Scope Z_scope.

(** ** From the variables to a configuration *)

(** A [double] that is assigned to a [float]. *)
Definition f32_of_f64 (f : f64) : f32 :=
  match f with
  | SpecFloat.S754_finite s m e => SpecFloat.binary_normalize 24 128 (if s then Z.neg m else Z.pos m) e s
  | _ => f
  end.

Definition config_of (s : store) : config :=
  {| numSchedulers := int_of s NumSchedulers; numClientThreads := int_of s NumClientThreads;
     numWorkers := int_of s NumWorkers; numTasks := int_of s NumTasks;
     partitions := int_of s Partitions; workerCapacity := int_of s WorkerCapacity;
     probMultiTx := f32_of_f64 (double_of s ProbMultiTx);
     measureIntervalMsec := int_of s MeasureIntervalMsec;
     totalExecTimeMsec := int_of s TotalExecTimeMsec; arrivalDelay := int_of s ArrivalDelay;
     reqPerSec := double_of s ReqPerSec; reqDist := string_of s ReqDist;
     scheduleAlgo := string_of s ScheduleAlgo; maxOutstanding := int_of s MaxOutstanding;
     cleanDB := flag_of s CleanDB; noSetupDB := flag_of s NoSetupDB;
     serverAddr := string_of s ServerAddr |}.

(** [reqPerSecThread = reqPerSec / numSchedulers]; [0.0] where it is not set. *)
Definition reqPerSecThread (c : config) : f64 :=
  if String.eqb (reqDist c) kNoDist then f64_of_int 0
  else f64_div (reqPerSec c) (f64_of_int (numSchedulers c)).

(** What follows the options, when they were read. *)
Definition with_options {A} (o : outcome store) (k : store -> M world A) : M world A :=
  match o with
  | Done s => k s
  | Trap t => throw t
  | OutOfFuel => out_of_fuel
  end.

Section Mains.
Context `{Env} (atof : string -> f64) (connects : string -> bool).
(** The options of the command line, and the experiment. *)
Context (opts : list (ascii * string)) (runBenchmark : store -> M world bool).

(** [setup] and [teardown] of the drivers. *)
Definition SyntheticScheduler_setup (c : config) : M world bool :=
  driver_setup connects (SyntheticScheduler.constructScheduler c) c.
Definition SyntheticScheduler_teardown (c : config) : M world bool :=
  driver_teardown connects (SyntheticScheduler.constructScheduler c) c.
Definition AsyncSyntheticScheduler_setup (c : config) : M world bool :=
  driver_setup connects (AsyncSyntheticScheduler.constructScheduler c) c.
Definition AsyncSyntheticScheduler_teardown (c : config) : M world bool :=
  driver_teardown connects (AsyncSyntheticScheduler.constructScheduler c) c.
Definition LoadGenerator_setup (c : config) : M world bool :=
  driver_setup connects (LoadGenerator.constructScheduler c) c.
Definition LoadGenerator_teardown (c : config) : M world bool :=
  driver_teardown connects (LoadGenerator.constructScheduler c) c.
Definition CommunicationBench_setup (c : config) : M world bool :=
  driver_setup connects (CommunicationBench.constructScheduler c) c.
Definition CommunicationBench_teardown (c : config) : M world bool :=
  driver_teardown connects (CommunicationBench.constructScheduler c) c.
(** There is nothing to remove and the result is [true]. *)
Definition DBCommBenchClient_teardown : M world bool := mret true.

Definition SyntheticScheduler_main : M world unit :=
  with_options (parse atof SyntheticScheduler_options opts
                  (initial "localhost" "synthetic_scheduler_results.csv" 0)) (fun s =>
    main_run SyntheticScheduler.kAlgorithms (SyntheticScheduler_setup (config_of s)) (runBenchmark s)
      (SyntheticScheduler_teardown (config_of s)) (config_of s)).

Definition AsyncSyntheticScheduler_main : M world unit :=
  with_options (parse atof AsyncSyntheticScheduler_options opts
                  (initial "localhost" "synthetic_scheduler_results.csv" 0)) (fun s =>
    main_run AsyncSyntheticScheduler.kAlgorithms (AsyncSyntheticScheduler_setup (config_of s)) (runBenchmark s)
      (AsyncSyntheticScheduler_teardown (config_of s)) (config_of s)).

(** There is no distribution of arrivals to check. *)
Definition LoadGenerator_main : M world unit :=
  with_options (parse atof LoadGenerator_options opts
                  (initial "localhost" "synthetic_scheduler_results.csv" 0)) (fun s =>
    check_name LoadGenerator.kAlgorithms (scheduleAlgo (config_of s)) ;;
    experiment (LoadGenerator_setup (config_of s)) (runBenchmark s) (LoadGenerator_teardown (config_of s)) (config_of s)).

(** The algorithm is [kFifoAlgo]: there is no option for it. *)
Definition CommunicationBench_main : M world unit :=
  with_options (parse atof CommunicationBench_options opts
                  (initial "localhost" "message_results.csv" 0)) (fun s =>
    experiment (CommunicationBench_setup (config_of s)) (runBenchmark s) (CommunicationBench_teardown (config_of s)) (config_of s)).

Definition DBCommBenchClient_main : M world unit :=
  with_options (parse atof DBCommBenchClient_options opts
                  (initial "localhost" "dbos_ipc_results.csv" 0)) (fun s =>
    res ← runBenchmark s;
    or_exit res ;;
    if flag_of s CleanDB then res ← DBCommBenchClient_teardown; or_exit res else mret tt).

Definition SyntheticWorker_main : M world unit :=
  with_options (parse atof SyntheticWorker_options opts
                  (initial "localhost" "synthetic_worker_results.csv" 0)) (fun s =>
    check_name SyntheticWorker.kWorkerTypes (string_of s WorkerType) ;;
    res ← runBenchmark s;
    or_exit res).

Definition GrpcBenchClient_main : M world unit :=
  with_options (parse atof GrpcBenchClient_options opts
                  (initial "localhost" "grpc_bench_results.csv" 9090)) (fun s =>
    res ← runBenchmark s; or_exit res).

Definition TCPBenchClient_main : M world unit :=
  with_options (parse atof TCPBenchClient_options opts
                  (initial "127.0.0.1" "message_results.csv" 8080)) (fun s =>
    res ← runBenchmark s; or_exit res).
End Mains.

(** ** The servers' threads *)

(** The port of the [i]-th thread of a client or a server. *)
Definition thread_ports (basePort n : Z) : list Z := (fun i => wrap32 (basePort + i)) <$> seqZ 0 n.

Definition TCPBenchServer_main (atof : string -> f64) (opts : list (ascii * string)) : outcome (list Z) :=
  match parse atof TCPBenchServer_options opts (initial "" "" 8080) with
  | Done s => Done (thread_ports (int_of s BasePort) (int_of s NumReceivers))
  | Trap t => Trap t
  | OutOfFuel => OutOfFuel
  end.

Definition GrpcBenchServer_main (atof : string -> f64) (opts : list (ascii * string)) : outcome (list Z) :=
  match parse atof GrpcBenchServer_options opts (initial "" "" 9090) with
  | Done s => Done (thread_ports (int_of s BasePort) (int_of s NumReceivers))
  | Trap t => Trap t
  | OutOfFuel => OutOfFuel
  end.

(** Receivers have the number of their sender plus 100. *)
Definition DBCommBenchServer_main (atof : string -> f64) (opts : list (ascii * string)) : outcome (list Z) :=
  match parse atof DBCommBenchServer_options opts (initial "localhost" "" 0) with
  | Done s => Done ((fun i => i + 100) <$> seqZ 0 (int_of s NumReceivers))
  | Trap t => Trap t
  | OutOfFuel => OutOfFuel
  end.

(** ** The measurements of the drivers *)

Section Reports.
Context (clock counter : nat -> Z) (fuel : nat) (is_open : string -> bool) (s : store) (t0 currTime : Z).

Definition driver_report (expName : string) : M results bool :=
  report clock counter fuel (is_open (string_of s OutputFile)) t0 currTime
    (int_of s TotalExecTimeMsec) expName.

Definition SyntheticScheduler_report : M results bool := driver_report (string_of s ScheduleAlgo).
Definition AsyncSyntheticScheduler_report : M results bool := driver_report (string_of s ScheduleAlgo).
Definition LoadGenerator_report : M results bool := driver_report (string_of s ScheduleAlgo).
Definition CommunicationBench_report : M results bool := driver_report (string_of s ScheduleAlgo).
Definition DBCommBenchClient_report : M results bool := driver_report "DBOS Ping Pong".
Definition TCPBenchClient_report : M results bool := driver_report "TCP/IP ping-pong".
Definition GrpcBenchClient_report : M results bool :=
  driver_report (GrpcBench.benchName (flag_of s Broadcast) (flag_of s StreamRpc)).
End Reports.

(** ** What a program leaves in the database *)

Definition no_workers (d : db) : db := on_DataLocation (fun _ => []) (on_Worker (fun _ => []) d).
Definition no_tasks (d : db) : db := on_Task (fun _ => []) d.

(** The world after a [teardown]. *)
Definition torn_down (sched : any_scheduler) (w : world) : world :=
  match sched with
  | AFifo _ | ASpark _ => set_db (no_workers (w_db w)) (tick w)
  | AFifoLocal _ | AFifoTask _ | ASingle _ => set_db (no_tasks (no_workers (w_db w))) (tick (tick w))
  | AScan _ => w
  | APush _ => set_db (no_tasks (w_db w)) (tick w)
  end.

Section Experiment.
Context `{Env, !Reliable}.

Lemma truncate_both w :
  (truncateWorkerTable ;; truncateTaskTable ;; mret true) w =
  (Done true, set_db (no_tasks (no_workers (w_db w))) (tick (tick w))).
Proof.
  rewrite (bind_done _ _ _ _ _ (truncateWorkerTable_ok w)).
  by rewrite (bind_done _ _ _ _ _ (truncateTaskTable_ok _)).
Qed.

Lemma teardown_any_run sched w : teardown_any sched w = (Done true, torn_down sched w).
Proof.
  destruct sched; try exact (truncate_both w).
  - exact (bind_done _ _ _ _ _ (truncateWorkerTable_ok w)).
  - exact (bind_done _ _ _ _ _ (truncateWorkerTable_ok w)).
  - reflexivity.
  - exact (bind_done _ _ _ _ _ (truncateTaskTable_ok w)).
Qed.

Lemma bind_iff {A B} (m : M world A) (k : A -> M world B) w b w' :
  (m ≫= k) w = (Done b, w') <-> exists a w1, m w = (Done a, w1) /\ k a w1 = (Done b, w').
Proof.
  split; [intros (a & w1 & E1 & E2)%bind_inv; eauto|].
  intros (a & w1 & E1 & E2). by run_bind E1.
Qed.

Lemma check_name_iff known name w u w' :
  check_name known name w = (Done u, w') <-> name ∈ known /\ w' = w.
Proof.
  destruct u. unfold check_name. case_bool_decide.
  - split; [intros [= <-]; done|intros [_ ->]; done].
  - split; [done|tauto].
Qed.

Lemma or_exit_iff res w w' : or_exit res w = (Done tt, w') <-> res = true /\ w' = w.
Proof. destruct res; cbn; (split; [intros [= <-]; done|intros [? ->]; done]). Qed.

Context (connects : string -> bool).

(** The scheduler that an algorithm stands for can be made. *)
Definition made (construct : string -> option any_scheduler) (c : config) (sched : any_scheduler) : Prop :=
  construct (scheduleAlgo c) = Some sched /\ is_Some (VoltdbSchedulerUtil_new connects (serverAddr c)).

Lemma with_scheduler_iff {A} construct c (k : any_scheduler -> M world A) w a w' :
  with_scheduler connects (serverAddr c) (construct (scheduleAlgo c)) k w = (Done a, w') <->
  exists sched, made construct c sched /\ k sched w = (Done a, w').
Proof.
  unfold with_scheduler, made. destruct (construct (scheduleAlgo c)) as [s|].
  2: { split; [done|]. by intros (s & [? _] & _). }
  destruct (VoltdbSchedulerUtil_new connects (serverAddr c)).
  - split; [eauto|]. intros (s' & [[= ->] _] & E). exact E.
  - split; [done|]. by intros (s' & [_ [x ?]] & _).
Qed.

(** The three parts of an experiment that ends. *)
Lemma experiment_iff construct runBenchmark c w w' :
  experiment (driver_setup connects construct c) runBenchmark (driver_teardown connects construct c) c w
    = (Done tt, w') <->
  exists w0 w1,
    (if noSetupDB c then w0 = w
     else exists sched, made construct c sched /\ setup_any sched w = (Done true, w0)) /\
    runBenchmark w0 = (Done true, w1) /\
    (if cleanDB c then exists sched, made construct c sched /\ w' = torn_down sched w1 else w' = w1).
Proof.
  unfold experiment. rewrite bind_iff. split.
  - intros ([] & w0 & E0 & (res & w1 & E1 & ([] & w2 & [-> ->]%or_exit_iff & E2)%bind_iff)%bind_iff).
    exists w0, w1. split; [|split; [done|]].
    + destruct (noSetupDB c); [by injection E0|].
      apply bind_iff in E0 as (r & w2 & E0 & [-> ->]%or_exit_iff). by apply with_scheduler_iff in E0.
    + destruct (cleanDB c); [|by injection E2].
      apply bind_iff in E2 as (r & w2 & E2 & [-> ->]%or_exit_iff).
      apply with_scheduler_iff in E2 as (sched & Hm & E2). rewrite teardown_any_run in E2.
      injection E2 as <-. eauto.
  - intros (w0 & w1 & E0 & E1 & E2). exists tt, w0. split.
    + destruct (noSetupDB c); [by subst|]. apply bind_iff. exists true, w0.
      split; [by apply with_scheduler_iff|done].
    + run_bind E1. rewrite (bind_done (or_exit true) _ _ _ _ eq_refl).
      destruct (cleanDB c); [|by subst]. destruct E2 as (sched & Hm & ->). apply bind_iff.
      exists true, (torn_down sched w1). split; [|done]. apply with_scheduler_iff. exists sched.
      split; [done|apply teardown_any_run].
Qed.
End Experiment.

(** No case assigns the variable. *)
Definition untouched (t : switch) (v : variable) : bool :=
  forallb (fun o => negb (bool_decide (v ∈ o.2))) t.

Lemma run_case_other atof vs optarg v s : v ∉ vs -> run_case atof vs optarg s v = s v.
Proof.
  revert s. induction vs as [|v' vs IH]; intros s Hv; [done|].
  apply not_elem_of_cons in Hv as [H1 H2]. cbn. fold (run_case atof vs optarg).
  change (run_case atof vs optarg (assign v' (argument atof (kind_of v') optarg) s) v = s v).
  rewrite IH by done. unfold assign. by rewrite decide_False.
Qed.

Lemma parse_untouched atof t v opts s s' :
  untouched t v -> parse atof t opts s = Done s' -> s' v = s v.
Proof.
  intros Hv. revert s. induction opts as [|[c optarg] opts IH]; intros s E; cbn in E; [by simplify_eq|].
  destruct (case_of t c) as [vs|] eqn:Ec; [|done]. rewrite (IH _ E). apply run_case_other.
  clear IH E. induction t as [|[c' vs'] t IH]; cbn in *; [done|].
  apply andb_prop_elim in Hv as [H1 H2]. destruct (Ascii.eqb c c'); [|by apply IH].
  simplify_eq. by case_bool_decide.
Qed.

(** C18: a run of SyntheticScheduler.cc, from the command line to the end.  The
    program ends normally exactly when its options can be read, the algorithm
    and the distribution of arrivals are known, the setup of that algorithm's
    scheduler and the benchmark succeed; then the benchmark started in the world
    the setup left, and with [-x] the tables this scheduler uses are truncated
    behind it, otherwise the database is left as the benchmark left it.  (For
    the scheduler that scans tasks, nothing is truncated.) *)
Theorem synthetic_scheduler_run `{Env, !Reliable} atof connects opts runBenchmark w w' :
  SyntheticScheduler_main atof connects opts runBenchmark w = (Done tt, w') <->
  exists s sched w0 w1,
    parse atof SyntheticScheduler_options opts (initial "localhost" "synthetic_scheduler_results.csv" 0) = Done s /\
    string_of s ScheduleAlgo ∈ SyntheticScheduler.kAlgorithms /\ string_of s ReqDist ∈ kDists /\
    SyntheticScheduler.constructScheduler (config_of s) (string_of s ScheduleAlgo) = Some sched /\
    is_Some (VoltdbSchedulerUtil_new connects (string_of s ServerAddr)) /\
    setup_any sched w = (Done true, w0) /\ runBenchmark s w0 = (Done true, w1) /\
    w' = if flag_of s CleanDB then torn_down sched w1 else w1.
Proof.
  unfold SyntheticScheduler_main, with_options.
  set (i := initial _ _ _). destruct (parse atof SyntheticScheduler_options opts i) as [s|t|] eqn:Ep;
    [|split; [done|by intros (s & ? & ? & ? & ? & _)]..].
  assert (flag_of s NoSetupDB = false) as Hn
    by (unfold flag_of; by rewrite (parse_untouched atof SyntheticScheduler_options NoSetupDB _ _ _ Logic.I Ep)).
  unfold main_run, SyntheticScheduler_setup, SyntheticScheduler_teardown. rewrite bind_iff. setoid_rewrite bind_iff. setoid_rewrite check_name_iff.
  setoid_rewrite (experiment_iff connects). cbn [noSetupDB cleanDB config_of scheduleAlgo reqDist serverAddr made].
  rewrite Hn. unfold made. cbn [config_of scheduleAlgo serverAddr]. split.
  - intros ([] & wa & [Ha ->] & [] & wb & [Hd ->] & w0 & w1 & (sched & [Hc Hi] & Hs) & Hb & Hx).
    exists s, sched, w0, w1. split_and!; try done. destruct (flag_of s CleanDB); [|done].
    destruct Hx as (sched' & [Hc' _] & ->). by simplify_eq.
  - intros (s' & sched & w0 & w1 & [= <-] & Ha & Hd & Hc & Hi & Hs & Hb & ->).
    exists tt, w. split; [done|]. exists tt, w. split; [done|]. exists w0, w1.
    split; [by exists sched|]. split; [done|]. destruct (flag_of s CleanDB); [by exists sched|done].
Qed.

(** The tasks table is truncated before and behind a benchmark that draws a
    number. *)
Lemma synthetic_scheduler_run_witness :
  let E := steady Z.of_nat in
  let bench := fun (_ : store) => (r ← c_rand; mret true) : M world bool in
  SyntheticScheduler_main (fun _ => f64_of_int 0) (fun _ => true) [("x"%char, ""); ("A"%char, "push-fifo")] bench
    (init_world (Db [] [TaskRow 1 0 0 0] [] [] [] [])) =
    (Done tt, tick (tick (tick (init_world (Db [] [] [] [] [] []))))).
Proof.
  apply (synthetic_scheduler_run (H := steady Z.of_nat) (fun _ => f64_of_int 0) (fun _ => true)
    [("x"%char, ""); ("A"%char, "push-fifo")]).
  eexists _, _, _, _. split; [reflexivity|].
  split; [unfold SyntheticScheduler.kAlgorithms; set_solver|].
  split; [unfold kDists; set_solver|].
  split; [reflexivity|]. split; [by eexists|]. split; [reflexivity|]. split; reflexivity.
Defined.

(** ** Clients and servers with the same options *)

(** What a receiver is called at the sender's side. *)
Definition at_client (v : variable) : variable :=
  match v with NumReceivers => NumSenders | _ => v end.
(** The variables that both sides use. *)
Definition shared : list variable := [BasePort; Msg_size; NumMessages; NumReceivers; ServerAddr].

(** A case of the server is the same case of the client. *)
Definition same_case (client : switch) (o : ascii * list variable) : bool :=
  bool_decide (case_of client o.1 = Some (at_client <$> o.2)) && forallb (fun v => bool_decide (v ∈ shared)) o.2.

Lemma same_cases client server c vs :
  forallb (same_case client) server -> case_of server c = Some vs ->
  case_of client c = Some (at_client <$> vs) /\ Forall (fun v => v ∈ shared) vs.
Proof.
  induction server as [|[c' vs'] server IH]; cbn; [done|]. intros [H1 H2]%andb_prop_elim E.
  destruct (Ascii.eqb_spec c c') as [->|Hc]; [|by apply IH]. simplify_eq.
  apply andb_prop_elim in H1 as [H1 H3]. cbn in H1. split; [by case_bool_decide|].
  apply forallb_True in H3. eapply Forall_impl; [exact H3|]. intros v Hv. cbn in Hv. by case_bool_decide.
Qed.

Section Pair.
Context (atof : string -> f64) (D : list variable) (D_shared : D ⊆ shared).

(** The variables [D] have the same values on both sides. *)
Definition agree (s1 s2 : store) : Prop := forall v, v ∈ D -> s1 (at_client v) = s2 v.

Lemma at_client_inj v v' : v ∈ shared -> v' ∈ shared -> at_client v = at_client v' -> v = v'.
Proof. unfold shared. set_unfold. intros [->|[->|[->|[->|[->|[]]]]]] [->|[->|[->|[->|[->|[]]]]]]; done. Qed.

Lemma run_case_agree vs optarg s1 s2 : Forall (fun v => v ∈ shared) vs -> agree s1 s2 ->
  agree (run_case atof (at_client <$> vs) optarg s1) (run_case atof vs optarg s2).
Proof using D_shared.
  intros Hvs. revert s1 s2. induction Hvs as [|v vs Hv _ IH]; intros s1 s2 Ha; [done|].
  apply IH. intros v' Hv'. unfold assign.
  destruct (decide (at_client v' = at_client v)) as [E|E].
  - apply at_client_inj in E; [|by apply D_shared|done]. subst. rewrite decide_True by done.
    f_equal. by destruct v.
  - rewrite decide_False by (intros ->; done). by apply Ha.
Qed.

Lemma parse_agree client server opts : forall s1 s2 s2',
  forallb (same_case client) server -> agree s1 s2 -> parse atof server opts s2 = Done s2' ->
  exists s1', parse atof client opts s1 = Done s1' /\ agree s1' s2'.
Proof using D_shared.
  induction opts as [|[c optarg] opts IH]; intros s1 s2 s2' Ht Ha E; cbn in *.
  - simplify_eq. by exists s1.
  - destruct (case_of server c) as [vs|] eqn:Ec; [|done].
    destruct (same_cases client server c vs Ht Ec) as [-> Hvs].
    eapply IH; [done| |exact E]. by apply run_case_agree.
Qed.

Lemma agree_initial a1 o1 p1 a2 o2 p2 :
  (BasePort ∈ D -> p1 = p2) -> (ServerAddr ∈ D -> a1 = a2) ->
  agree (initial a1 o1 p1) (initial a2 o2 p2).
Proof using D_shared.
  intros Hp Ha v Hv. pose proof (D_shared v Hv) as Hs. unfold shared in Hs. set_unfold.
  destruct Hs as [->|[->|[->|[->|[->|[]]]]]]; cbn; try done; f_equal; auto.
Qed.
End Pair.

(** C38: a client and its server fit together when they are started with the same
    options, for each of the three pairs of programs: every command line that the
    server accepts is accepted by the client, and gives as many senders as
    receivers, the sender of number [i] the port (over TCP and gRPC) or the
    receiver's number (through the database) at which the receiver of number [i]
    serves, and the same number of messages and bytes per message (where the
    server has them as well). *)
Theorem same_options_pair atof opts :
  (forall ports, TCPBenchServer_main atof opts = Done ports ->
   exists s s', parse atof TCPBenchClient_options opts (initial "127.0.0.1" "message_results.csv" 8080) = Done s /\
     parse atof TCPBenchServer_options opts (initial "" "" 8080) = Done s' /\
     ports = thread_ports (int_of s BasePort) (int_of s NumSenders) /\
     int_of s NumMessages = int_of s' NumMessages /\ int_of s Msg_size = int_of s' Msg_size) /\
  (forall ports, GrpcBenchServer_main atof opts = Done ports ->
   exists s, parse atof GrpcBenchClient_options opts (initial "localhost" "grpc_bench_results.csv" 9090) = Done s /\
     ports = thread_ports (int_of s BasePort) (int_of s NumSenders)) /\
  (forall ids, DBCommBenchServer_main atof opts = Done ids ->
   exists s s', parse atof DBCommBenchClient_options opts (initial "localhost" "dbos_ipc_results.csv" 0) = Done s /\
     parse atof DBCommBenchServer_options opts (initial "localhost" "" 0) = Done s' /\
     ids = MessageBench.receiver_id <$> seqZ 0 (int_of s NumSenders) /\
     string_of s ServerAddr = string_of s' ServerAddr /\
     int_of s NumMessages = int_of s' NumMessages /\ int_of s Msg_size = int_of s' Msg_size).
Proof.
  split_and!; intros l E.
  - unfold TCPBenchServer_main in E.
    destruct (parse atof TCPBenchServer_options opts _) as [s'|t|] eqn:Es; [|done..]. injection E as <-.
    destruct (parse_agree atof [BasePort; Msg_size; NumMessages; NumReceivers] ltac:(unfold shared; set_solver)
      TCPBenchClient_options TCPBenchServer_options _ (initial "127.0.0.1" "message_results.csv" 8080) (initial "" "" 8080) _ ltac:(by vm_compute)
      ltac:(apply agree_initial; [unfold shared; set_solver|done|set_solver]) Es) as (s & Ec & Ha).
    exists s, s'. unfold int_of. rewrite <- (Ha BasePort), <- (Ha NumReceivers), <- (Ha NumMessages),
      <- (Ha Msg_size) by set_solver. done.
  - unfold GrpcBenchServer_main in E.
    destruct (parse atof GrpcBenchServer_options opts _) as [s'|t|] eqn:Es; [|done..]. injection E as <-.
    destruct (parse_agree atof [BasePort; NumReceivers] ltac:(unfold shared; set_solver)
      GrpcBenchClient_options GrpcBenchServer_options _ (initial "localhost" "grpc_bench_results.csv" 9090) (initial "" "" 9090) _ ltac:(by vm_compute)
      ltac:(apply agree_initial; [unfold shared; set_solver|done|set_solver]) Es) as (s & Ec & Ha).
    exists s. unfold int_of. rewrite <- (Ha BasePort), <- (Ha NumReceivers) by set_solver. done.
  - unfold DBCommBenchServer_main in E.
    destruct (parse atof DBCommBenchServer_options opts _) as [s'|t|] eqn:Es; [|done..]. injection E as <-.
    destruct (parse_agree atof shared ltac:(done)
      DBCommBenchClient_options DBCommBenchServer_options _ (initial "localhost" "dbos_ipc_results.csv" 0) (initial "localhost" "" 0) _ ltac:(by vm_compute)
      ltac:(by apply agree_initial) Es) as (s & Ec & Ha).
    exists s, s'. unfold int_of, string_of. rewrite <- (Ha NumReceivers), <- (Ha ServerAddr),
      <- (Ha NumMessages), <- (Ha Msg_size) by (unfold shared; set_solver). done.
Qed.

Lemma same_options_pair_witness :
  exists s s', parse (fun _ => f64_of_int 0) TCPBenchClient_options [("N"%char, "3"); ("p"%char, "7000")]
      (initial "127.0.0.1" "message_results.csv" 8080) = Done s /\
    parse (fun _ => f64_of_int 0) TCPBenchServer_options [("N"%char, "3"); ("p"%char, "7000")]
      (initial "" "" 8080) = Done s' /\
    thread_ports (int_of s BasePort) (int_of s NumSenders) = [7000; 7001; 7002].
Proof.
  destruct (same_options_pair (fun _ => f64_of_int 0) [("N"%char, "3"); ("p"%char, "7000")]) as [H _].
  destruct (H [7000; 7001; 7002] ltac:(reflexivity)) as (s & s' & E1 & E2 & E3 & _).
  exists s, s'. split; [exact E1|]. split; [exact E2|]. exact (eq_sym E3).
Defined.
